(* ===== verification/_CoqProject ===== *)
-Q . S2P
Prelude.v
CppStd.v
Decimal.v
Logging.v
Partition.v
Float32.v
Messages.v
NetworkUtil.v
Communicator.v
KeyValueList.v
Ssp.v
FifoRing.v
FifoRingInv.v
FifoRingProps.v
ZmqCommunicator.v
ZmqProps.v
ZmqRefines.v
TaskConfig.v
Master.v
Election.v
Channel.v
Fifo.v
Agent.v
AgentSort.v
Slices.v
AgentPush.v
AgentPull.v
AgentProps.v
AgentConfig.v
AgentWork.v
Worker.v
Server.v
ServerMerge.v
ServerInv.v
ServerRound.v
ServerPush.v
ServerPull.v
ServerInit.v
TaskConfigProps.v
MasterConfig.v
MasterProps.v
MasterLoop.v
ServerReconf.v
Cluster.v
ServerFaults.v
System.v
ServerTraining.v
Training.v
TrainingPull.v
Starvation.v
ServerReconfProps.v
ServerProps.v
ServerHistory.v
AsyncTraining.v
MasterThreads.v
MasterThreadsProps.v
Formation.v
Resources.v
Main.v
ServerGtest.v
ChannelGtest.v
Epochs.v
ClusterTraining.v
