(* ===== verification/Prelude.v ===== *)
(** * RPSCC (Plug-in-ML): a verification development

    RPSCC is a parameter server for machine learning in C++: a _master_ forms
    a cluster out of the nodes that register with it and watches over them;
    every _agent_ serves one worker process, whose gradients it pushes to the
    _servers_ and for which it pulls parameters; every server owns an arc of
    the circle of keys [[0, key_range)], averages the updates pushed to it one
    round at a time, and keeps the agents within [bound] rounds of each other.
    All three talk through a communicator: a ring buffer in front of ZeroMQ.

    ** What corresponds to what

    The source files are under [src/]. Module, record, field and function
    names are the program's; an operation of a class is a function of the same
    name on the record of the class, and the loop body, if-branch or thread
    turn that has no name in the C++ code has one here.

    - Prelude.v: outcomes ([res]: a value, or the [fault] at which C++ gives no
      meaning to the execution or ends it), 32-bit arithmetic that reports
      overflow ([i32], [add32], ...; util/common.h), indexing of vectors,
      queues and repeated fields with its bounds, [for_] loops, [map_at]
      (operator[] of a map, which inserts), record updates.
    - CppStd.v, Decimal.v, Float32.v: what the program uses of the standard
      library: the halving loop of [lower_bound] and [upper_bound], [sort],
      maps in key order, printing and scanning of decimal numbers, binary32
      floats.
    - Messages.v (message/message.proto), Communicator.v
      (communication/communicator.h): the protobuf messages as records; the
      abstract class as a type class with the laws its callers rely on. The
      server, the agent and the master are proved against that class.
    - Partition.v, Module Partition (agent/partition.{h,cc}): which server
      owns a key, where a slice of sorted keys ends.
    - NetworkUtil.v (util/network_util.h): how a node finds its address.
    - Channel.v, Fifo.v, Module Fifo (channel/): the shared memory; the named
      pipes and the bytes of a signal, over a type class for the pipes of the
      operating system.
    - Agent.v, Module Agent (agent/agent.{h,cc}): the agent. Slices.v,
      AgentSort.v, AgentPush.v and AgentPull.v hold the lemmas, AgentProps.v
      and AgentConfig.v the theorems; AgentWork.v the work loop over the pipe
      and its specification; Worker.v a worker and its agent side by side, as
      a step relation.
    - Ssp.v: the abstract specification of a server, a clock per agent.
      KeyValueList.v and Server.v, Module Server (server/): the server.
      ServerMerge.v, ServerInv.v, ServerRound.v, ServerPush.v, ServerPull.v,
      ServerInit.v and ServerReconf.v hold the lemmas; ServerProps.v,
      ServerHistory.v (pushes in any interleaving), ServerReconfProps.v
      and ServerFaults.v the theorems; Cluster.v concrete clusters for the
      witnesses.
    - TaskConfig.v, Master.v, Modules of the same names (master/): the table
      of nodes and the master. TaskConfigProps.v and MasterConfig.v hold the
      lemmas, MasterProps.v and MasterLoop.v the theorems. Election.v, Module
      Election (master/master.cc with USE_ZOOKEEPER): the election of the
      leading master, as a step relation over a type class for ZooKeeper, with
      sessions that can end while their masters run.
    - FifoRing.v, Module FifoRing (communication/fifo_ring.{h,cc}): the ring
      statement by statement, for any number of threads; FifoRingInv.v its
      invariant, FifoRingProps.v its theorems.
    - ZmqCommunicator.v, Module Zmq (communication/zmq_communicator.{h,cc},
      zmq_sendrecv.{h,cc}): frames, sockets and the address book; ZmqProps.v
      its theorems; ZmqRefines.v the simulation of the interface of
      Communicator.v.
    - MasterThreads.v, Module MasterThreads (master/master.cc): the main loop,
      the heartbeat thread and the dead-node thread side by side, turn by turn;
      MasterThreadsProps.v the theorems.
    - Resources.v, Module Resources (channel/shared_memory.{h,cc}, the end of
      channel/fifo.cc, [GetAvailablePort] of util/network_util.h): descriptors,
      mappings with their protection and flags, and sockets over a type class
      for the operating system, with a small system that obeys its laws.
    - Logging.v, Module Logging (util/logging.h): the objects behind the
      logging macros with their lifetimes, and what they print; Master.v runs the
      logger of [DetectDeadNode] on it.
    - Main.v, Module Main ({agent,server,master}/*_main.cc): the three programs
      from their flags to the exit status.
    - ServerGtest.v (server/server_gtest.cc), ChannelGtest.v
      (channel/channel_gtest.cc): the messages, signals and loops of two tests
      of the repository, run against the model, with what they expect as
      examples.
    - System.v: theorems about agents and servers together. ServerTraining.v,
      Training.v, TrainingPull.v: a round of training of one server and of the
      cluster, and the pulls that follow it; Starvation.v the agents that have
      no keys for a server; Formation.v the cluster from the last registration
      to the first round, and the first pass for dead nodes after the timeout.
      Epochs.v: the
      cluster over many epochs against a sequential program;
      ClusterTraining.v: the same from the last registration on.
      AsyncTraining.v: the cluster when agents push at different paces.

    ** What is proved

    - The server. [inv] (ServerInv.v) is established by the master's
      configuration and kept by every handler; along any run the clocks of the
      agents are those of Ssp.v, so no agent gets further ahead of the slowest
      one than [bound]; a completed round applies the average of the oldest
      updates, answers the blocked pulls with the result and asks for backups;
      whatever the interleaving of pushes, round [r] applies the [r]-th push
      taken of every agent, and an agent that waits for its answer loses none;
      a pull is answered exactly when the contract allows it; backups and
      fail-over move parameters to where the ring says.
    - The agent. Sorting keeps the first value of each key; every pair is
      pushed once, to the owner of its key; every key is asked for once; the
      receive loop of [Pull] takes the first reply of every server asked. The
      loops end for any keys of the key range, sorted or not. Signals cross
      the pipes unchanged and in order; a session of a worker has the effects
      of its requests one by one, and every pull is served from the arrays the
      worker wrote for it, however the two interleave.
    - Agents and servers. Whatever the order in which pulls, replies and pushes
      arrive, a training run of any number of epochs computes what a sequential
      program computes that has all parameters in one place and adds the average
      gradient once per epoch; so does the cluster the master forms, from
      parameters that are all zero. When agents push at different paces and the
      servers see different interleavings, all servers still apply the same
      rounds, as long as no push is dropped. An agent and a server that configure themselves
      from the same configuration agree on the owner of every key, and a pull comes back with the keys
      asked. In a round of training every parameter grows by the average of the
      gradients pushed for its key, in whatever order the messages arrive, and
      the pulls that follow bring exactly those values to the workers. The last
      registration brings every agent and every server into the state from
      which such an iteration starts.
    - The master. Ids are consecutive; the last registration sends everybody
      the same usable configuration; the main loop ends when all workers have
      reported, in any interleaving with the two background threads as it would
      alone. The only fault of the three threads is a pass that finds a dead
      node, which is undefined before it removes anything; it comes with the
      first pass after the timeout, since the master takes itself for dead.
      What [FixConfig] makes of the tables is shown of the function itself,
      which no run of the master reaches. When a session ends the lead can be
      handed over; but a master refused the lead runs the leader's loop all the
      same, and one whose session expired goes on beside its successor.
    - The transport. With one producer and one consumer the ring is a bounded
      FIFO queue without deadlock under every interleaving; frames are taken
      apart to the message and destination they were built from. For messages
      that fit its buffers the ZeroMQ communicator simulates the one the nodes
      are proved against. What one process writes to the shared memory is what
      the others read, through any mapping of the same name, in any order of
      mappings and writes.
    - Logging. The lines of concurrent statements do not mix; a failed [CHECK]
      prints an empty line and nothing else.
    - The limits. Where the code leaves its arrays, loses a message or
      disagrees with its comments, a theorem says exactly when: keys that
      wrapped in [UpdateParameter], an empty message that a server takes for a
      configuration, a single server, configurations with fewer nodes,
      messages as long as the buffers, a second producer, an agent
      without keys for a server, a worker that has gone or that overtakes its
      agent, an election whose result is not looked at, whose winner is not told
      that its session has expired, or whose node is lost between two calls; a
      reference to a log message that is gone; a master that takes itself for
      dead; a master whose threads are still running when it ends.

    ** Conventions, bounds and fuel

    Integers are [Z] with the C++ width written out: a signed 32-bit operation
    that leaves the range is the fault [IntOverflow]; the hypotheses of the
    theorems bound keys and counts by [kInt32Max] or [2 ^ 30] where the code
    needs it. Loops over an index are [for_]; a loop whose index moves
    otherwise takes fuel, and running out is the fault [OutOfFuel], which
    theorems exclude by stating the result: [push_loop] and [pull_loop] get
    the number of keys (every step consumes at least one, [NextEnding]),
    [append_masters] one more than the length of the text (every step consumes
    a character), [bsearch] the length of the range (it shrinks at each step),
    the printing of numbers ten digits (the longest 32-bit number),
    [split_frame] the twelve bytes the code looks at.

    Blocking receives appear as the list of what arrives; theorems quantify
    over that list, so over every order of arrival. An epoch of Epochs.v is the
    pulls of all agents followed by all their pushes, each in an order of its
    own; agents at different paces are the matter of ServerHistory.v and
    AsyncTraining.v, where the pushes are given. What a worker wants and
    computes in Epochs.v is a parameter, as the workers are programs outside.
    Clock readings and the
    numbers drawn by the random engine are arguments. Threads interleave
    statement by statement in FifoRing.v, event by event in Logging.v, call by
    call in Election.v; in MasterThreads.v a turn is one call on the
    configuration, one iteration of a loop over it or one message of the main
    loop; in Worker.v a worker and its agent interleave. Elsewhere a background
    thread is a single turn. The use of an object after its end is the fault
    [Dangling].

    ** What is not modelled

    ZeroMQ, ZooKeeper and the operating system (sockets, pipes, mapped memory,
    network interfaces): parameters with the documented behaviour as laws, or
    their results as arguments. Serialisation: protobuf generates it. The
    parsing of flags: gflags does it. What the programs log, outside Logging.v:
    it has no effect on the rest; a failed [CHECK] is the fault [Aborted]
    there. The two threads of a server or agent that call [Send] of one
    communicator at the same time: the nodes are proved on a communicator whose
    calls are whole, with the turns of their heartbeat threads
    ([Server.HeartBeat], [Agent.HeartBeat]) defined but interleaved nowhere; what two
    overlapping calls do to the ring is shown in FifoRingProps.v. Other data
    races below the turns of the models: the unsynchronised reads
    of [epoch_num_] by the agent's heartbeat thread, the sockets, and the inside
    of one call on the configuration of the master. In util/common.h, everything
    but the limits of the integers: type aliases, and macros that are commented
    out or only concern other compilers. The tests of the repository
    other than the two above, and the workers in Python and R.
*)

From stdpp Require Export base tactics option list list_numbers gmap sorting strings.
From stdpp Require Import options.
From Stdlib Require Export ZArith Lia.

Declare Scope rpscc_scope.
Delimit Scope rpscc_scope with rpscc.
#[global] Open Scope rpscc_scope.
#[global] Open Scope Z_scope.

(** ** Outcomes

    Every operation of the program returns a value or stops in one of the
    ways C++ gives no defined meaning to (or ends the process). *)

Inductive fault : Set :=
| OutOfBounds      (** vector, array or deque index outside the object *)
| IntOverflow      (** a signed 32-bit result out of range *)
| DivByZero        (** [%] with a zero divisor *)
| EmptyAccess      (** front or pop of an empty queue *)
| ProtoIndex       (** repeated-field accessor with an index out of range *)
| BufferOverflow   (** memcpy past the end of a buffer *)
| NullDeref        (** use of a null pointer *)
| Dangling         (** use of an object whose lifetime has ended *)
| Aborted          (** a CHECK failed: LogMessageFatal calls abort *)
| Thrown           (** an exception nobody catches *)
| OutOfFuel.       (** no outcome of the program: a bounded loop was cut short *)

#[export] Instance fault_eq_dec : EqDecision fault.
Proof. intros x y. change ({x = y} + {x ≠ y}). decide equality. Defined.

Inductive res (A : Type) : Type :=
| Ok (a : A)
| Fault (f : fault).
Arguments Ok {A} a.
Arguments Fault {A} f.

#[export] Instance res_ret : MRet res := λ A a, Ok a.
#[export] Instance res_bind : MBind res := λ A B f m,
  match m with Ok a => f a | Fault e => Fault e end.

(** [m ⇓ Q]: [m] is defined and its value satisfies [Q]. *)
Definition returns {A} (m : res A) (Q : A → Prop) : Prop :=
  match m with Ok a => Q a | Fault _ => False end.
Notation "m ⇓ Q" := (returns m Q) (at level 70, no associativity) : rpscc_scope.

Section returns.
Context {A B : Type}.
Implicit Types (m : res A) (Q : A → Prop).

Lemma returns_elim m Q : m ⇓ Q ↔ ∃ a, m = Ok a ∧ Q a.
Proof. destruct m; simpl; split; [eauto|by intros (? & [= ->] & ?)|done|by intros (? & ? & _)]. Qed.

Lemma returns_bind m (f : A → res B) (Q : B → Prop) :
  m ⇓ (λ a, f a ⇓ Q) → (m ≫= f) ⇓ Q.
Proof. by destruct m. Qed.

Lemma returns_bind_Ok m (f : A → res B) a (Q : B → Prop) :
  m = Ok a → f a ⇓ Q → (m ≫= f) ⇓ Q.
Proof. by intros ->. Qed.

Lemma returns_mono m Q Q' : m ⇓ Q → (∀ a, Q a → Q' a) → m ⇓ Q'.
Proof. destruct m; simpl; naive_solver. Qed.

Lemma bind_Ok_inv m (f : A → res B) b :
  m ≫= f = Ok b → ∃ a, m = Ok a ∧ f a = Ok b.
Proof. destruct m; simpl; naive_solver. Qed.
End returns.

#[global] Arguments Nat.div : simpl never.

(** ** 32-bit integers (src/util/common.h, lines 187-202)

    An [int32] is a [Z]; arithmetic on it is checked, since signed overflow
    has no defined result. *)

Definition kInt32Max : Z := 2147483647.
Definition kInt32Min : Z := - kInt32Max - 1.
Definition kInt64Max : Z := 0x7FFFFFFFFFFFFFFF.
Definition kInt64Min : Z := - kInt64Max - 1.
Definition kUInt32Max : Z := 0xFFFFFFFF.
Definition kUInt64Max : Z := 0xFFFFFFFFFFFFFFFF.

(** The limits are those of the widths. *)
Lemma integer_limits :
  (kInt32Min, kInt32Max) = (- 2 ^ 31, 2 ^ 31 - 1) ∧ (kInt64Min, kInt64Max) = (- 2 ^ 63, 2 ^ 63 - 1) ∧
  kUInt32Max = 2 ^ 32 - 1 ∧ kUInt64Max = 2 ^ 64 - 1.
Proof. done. Qed.

Definition in32 (z : Z) : bool := (kInt32Min <=? z) && (z <=? kInt32Max).

Definition i32 (z : Z) : res Z := if in32 z then Ok z else Fault IntOverflow.

(** [a % b] truncates toward zero. *)
Definition rem32 (a b : Z) : res Z :=
  if b =? 0 then Fault DivByZero
  else if (a =? kInt32Min) && (b =? -1) then Fault IntOverflow
  else Ok (Z.rem a b).

Definition add32 (a b : Z) : res Z := i32 (a + b).
Definition sub32 (a b : Z) : res Z := i32 (a - b).

(** [(a - b + n) % n], the ring arithmetic of the server and its backups. *)
Definition ring_sub (a b n : Z) : res Z :=
  d ← sub32 a b; e ← add32 d n; rem32 e n.

(** The conversion of an [int32] to [size_t] in a comparison with [size()]. *)
Definition to_size_t (z : Z) : Z := z mod 2 ^ 64.

Abbreviation int32_ok z := (kInt32Min ≤ z ≤ kInt32Max).

Lemma in32_spec z : in32 z = true ↔ int32_ok z.
Proof. unfold in32. rewrite andb_true_iff, !Z.leb_le. lia. Qed.

Lemma i32_Ok z : int32_ok z → i32 z = Ok z.
Proof. intros ?%in32_spec. unfold i32. by destruct (in32 z). Qed.

Lemma i32_inv z y : i32 z = Ok y → y = z ∧ int32_ok z.
Proof.
  unfold i32. destruct (in32 z) eqn:E; [|done].
  apply in32_spec in E. intros [= <-]. auto.
Qed.

Lemma rem32_nonneg a b : 0 ≤ a → 0 < b → rem32 a b = Ok (a mod b).
Proof.
  intros Ha Hb. unfold rem32.
  destruct (Z.eqb_spec b 0); [lia|].
  destruct (Z.eqb_spec b (-1)); [lia|].
  rewrite andb_false_r, Z.rem_mod_nonneg by lia. done.
Qed.

Lemma ring_sub_Ok a b n :
  0 < n ≤ kInt32Max → int32_ok (a - b) → 0 ≤ a - b + n ≤ kInt32Max →
  ring_sub a b n = Ok ((a - b) mod n).
Proof.
  intros. unfold ring_sub, sub32, add32, kInt32Min in *.
  rewrite i32_Ok by (unfold kInt32Min; lia). simpl.
  rewrite i32_Ok by (unfold kInt32Min; lia). simpl.
  rewrite rem32_nonneg by lia. f_equal.
  rewrite <- Zplus_mod_idemp_r, Z_mod_same_full, Z.add_0_r. done.
Qed.

Lemma to_size_t_nonneg z : 0 ≤ z ≤ kInt32Max → to_size_t z = z.
Proof. unfold to_size_t, kInt32Max. intros. apply Z.mod_small. lia. Qed.

(** ** Vectors, deques, arrays: [operator[]] with an [int32] index *)

Definition vec_get {A} (l : list A) (i : Z) : res A :=
  if i <? 0 then Fault OutOfBounds
  else match l !! Z.to_nat i with Some x => Ok x | None => Fault OutOfBounds end.

Definition vec_set {A} (l : list A) (i : Z) (x : A) : res (list A) :=
  if (i <? 0) || (Z.of_nat (length l) <=? i) then Fault OutOfBounds
  else Ok (<[Z.to_nat i := x]> l).

(** The accessor [repeated_field(i)] of a protobuf message. *)
Definition proto_get {A} (l : list A) (i : Z) : res A :=
  if i <? 0 then Fault ProtoIndex
  else match l !! Z.to_nat i with Some x => Ok x | None => Fault ProtoIndex end.

Abbreviation zlen l := (Z.of_nat (length l)).

Section vec.
Context {A : Type}.
Implicit Types (l : list A) (x : A).

Lemma vec_get_Ok l i x :
  0 ≤ i → l !! Z.to_nat i = Some x → vec_get l i = Ok x.
Proof. intros Hi Hl. unfold vec_get. destruct (Z.ltb_spec i 0); [lia|]. by rewrite Hl. Qed.

Lemma vec_get_inv l i x :
  vec_get l i = Ok x → 0 ≤ i < zlen l ∧ l !! Z.to_nat i = Some x.
Proof.
  unfold vec_get. destruct (Z.ltb_spec i 0); [done|].
  destruct (l !! Z.to_nat i) eqn:E; [|done]. intros [= ->].
  pose proof (lookup_lt_Some _ _ _ E). split; [lia|done].
Qed.

Lemma vec_get_lt l i : 0 ≤ i < zlen l → ∃ x, vec_get l i = Ok x ∧ l !! Z.to_nat i = Some x.
Proof.
  intros Hi. destruct (lookup_lt_is_Some_2 l (Z.to_nat i)) as [x Hx]; [lia|].
  exists x. split; [apply vec_get_Ok; [lia|done]|done].
Qed.

Lemma vec_set_Ok l i x :
  0 ≤ i < zlen l → vec_set l i x = Ok (<[Z.to_nat i := x]> l).
Proof.
  intros Hi. unfold vec_set.
  destruct (Z.ltb_spec i 0), (Z.leb_spec (zlen l) i); try lia. done.
Qed.

Lemma vec_set_out l i x : ¬ (0 ≤ i < zlen l) → vec_set l i x = Fault OutOfBounds.
Proof.
  intros Hi. unfold vec_set. destruct (Z.ltb_spec i 0), (Z.leb_spec (zlen l) i); try done. lia.
Qed.

Lemma vec_get_out l i : ¬ (0 ≤ i < zlen l) → vec_get l i = Fault OutOfBounds.
Proof.
  intros Hi. unfold vec_get. destruct (Z.ltb_spec i 0); [done|].
  by rewrite lookup_ge_None_2 by lia.
Qed.

Lemma vec_get_neg l i : i < 0 → vec_get l i = Fault OutOfBounds.
Proof. intros. unfold vec_get. destruct (Z.ltb_spec i 0); [done|lia]. Qed.

Lemma proto_get_Ok l i x :
  0 ≤ i → l !! Z.to_nat i = Some x → proto_get l i = Ok x.
Proof. intros Hi Hl. unfold proto_get. destruct (Z.ltb_spec i 0); [lia|]. by rewrite Hl. Qed.

Lemma proto_get_inv l i x :
  proto_get l i = Ok x → 0 ≤ i < zlen l ∧ l !! Z.to_nat i = Some x.
Proof.
  unfold proto_get. destruct (Z.ltb_spec i 0); [done|].
  destruct (l !! Z.to_nat i) eqn:E; [|done]. intros [= ->].
  pose proof (lookup_lt_Some _ _ _ E). split; [lia|done].
Qed.
End vec.

(** ** Loops *)

(** A loop over a sequence that carries a state. *)
Fixpoint foldM {A S} (f : A → S → res S) (l : list A) (s : S) : res S :=
  match l with
  | [] => Ok s
  | x :: l => s' ← f x s; foldM f l s'
  end.

(** [for (int32 i = lo; i < hi; ++i) body]. *)
Definition for_ {S} (lo hi : Z) (body : Z → S → res S) (s : S) : res S :=
  foldM body (seqZ lo (hi - lo)) s.

Section loops.
Context {A S : Type}.
Implicit Types (s : S) (l : list A).

Lemma foldM_app (f : A → S → res S) l1 l2 s :
  foldM f (l1 ++ l2) s = foldM f l1 s ≫= foldM f l2.
Proof.
  revert s. induction l1 as [|x l1 IH]; intros s; simpl; [done|].
  destruct (f x s); simpl; auto.
Qed.

(** The invariant rule: [P] relates the elements already consumed to the state. *)
Lemma foldM_inv (P : list A → S → Prop) (f : A → S → res S) l s :
  P [] s →
  (∀ l1 x l2 s, l = l1 ++ x :: l2 → P l1 s → f x s ⇓ P (l1 ++ [x])) →
  foldM f l s ⇓ P l.
Proof.
  intros H0 Hstep.
  enough (∀ l2 l1 s, l = l1 ++ l2 → P l1 s → foldM f l2 s ⇓ P l) as Hall by by apply (Hall l []).
  clear H0 s. induction l2 as [|x l2 IH]; intros l1 s Hl HP; simpl.
  { by rewrite Hl, app_nil_r. }
  apply returns_bind. eapply returns_mono; [by eapply Hstep|].
  intros s' HP'. apply (IH (l1 ++ [x])); [|done]. by rewrite Hl, <- app_assoc.
Qed.

Lemma for_empty lo hi (body : Z → S → res S) s : hi ≤ lo → for_ lo hi body s = Ok s.
Proof. intros. unfold for_, seqZ. replace (Z.to_nat (hi - lo)) with 0%nat by lia. done. Qed.

Lemma for_step lo hi (body : Z → S → res S) s :
  lo < hi → for_ lo hi body s = body lo s ≫= for_ (lo + 1) hi body.
Proof.
  intros. unfold for_. rewrite seqZ_cons by lia. simpl.
  replace (Z.succ lo) with (lo + 1) by lia.
  replace (Z.pred (hi - lo)) with (hi - (lo + 1)) by lia. done.
Qed.

Lemma for_inv (P : Z → S → Prop) lo hi (body : Z → S → res S) s :
  lo ≤ hi → P lo s →
  (∀ i s, lo ≤ i < hi → P i s → body i s ⇓ P (i + 1)) →
  for_ lo hi body s ⇓ P hi.
Proof.
  intros Hle. remember (Z.to_nat (hi - lo)) as n eqn:Hn.
  revert lo s Hle Hn. induction n as [|n IH]; intros lo s Hle Hn HP Hstep.
  { replace lo with hi in * by lia. by rewrite for_empty by lia. }
  rewrite for_step by lia. apply returns_bind.
  eapply returns_mono; [apply Hstep; [lia|done]|].
  intros s' HP'. apply IH; try lia; [done|]. intros; apply Hstep; [lia|done].
Qed.
End loops.

(** ** Record update

    [r <| f := v |>] and [r <| f ::= g |>], derived from one eta-expansion
    per record. *)

Class Eta (R : Type) := eta_record : R → R.
Class Setter {R E : Type} (p : R → E) := upd_field : (E → E) → R → R.
Arguments upd_field {R E} p {_} _ _ /.

Ltac derive_setter :=
  match goal with
  | |- @Setter ?R ?E ?p =>
      let inst := constr:(_ : Eta R) in
      let body := eval red in inst in
      let F := eval pattern p in body in
      match F with
      | ?G _ =>
          let t := eval cbv beta in (λ (f : E → E) (x : R), G (λ r : R, f (p r)) x) in
          exact t
      end
  end.
#[export] Hint Extern 1 (Setter _) => derive_setter : typeclass_instances.

Notation "r <| p ::= f |>" := (upd_field p f r)
  (at level 1, left associativity, p constr) : rpscc_scope.
Notation "r <| p := v |>" := (upd_field p (λ _, v) r)
  (at level 1, left associativity, p constr) : rpscc_scope.

(** ** Automation *)

Create HintDb rpscc.
Create Rewrite HintDb rpscc.
#[export] Hint Resolve vec_get_Ok proto_get_Ok i32_Ok : rpscc.
#[export] Hint Rewrite @length_insert @length_app @length_cons @length_nil @length_replicate : rpscc.

(** Peel the binds of a [⇓] goal whose first step is known to return. *)
Ltac res_step :=
  lazymatch goal with
  | |- returns (mbind _ ?m) _ => apply returns_bind
  | |- returns (Ok _) _ => cbn [returns]
  end.

(** Invert [m ≫= f = Ok b] hypotheses. *)
Ltac inv_bind :=
  repeat match goal with
  | H : mbind _ _ = Ok _ |- _ =>
      let a := fresh "a" in let Ha := fresh "Ha" in
      apply bind_Ok_inv in H as (a & Ha & H); cbn beta in H
  | H : Ok _ = Ok _ |- _ => injection H as H
  | H : Fault _ = Ok _ |- _ => discriminate H
  end.

(** Conversion of an iterator difference to [int32]: reduction modulo 2^32. *)
Definition wrap32 (z : Z) : Z := (z + 2 ^ 31) mod 2 ^ 32 - 2 ^ 31.

Lemma wrap32_id z : int32_ok z → wrap32 z = z.
Proof. unfold wrap32, kInt32Min, kInt32Max. intros. rewrite Z.mod_small; lia. Qed.

(** Loops that copy a prefix of a sequence element by element. *)
Lemma for_collect {A B} (g : Z → res A) (l : list A) (acc : list B) (h : A → B) n :
  0 ≤ n ≤ zlen l →
  (∀ i x, 0 ≤ i < n → l !! Z.to_nat i = Some x → g i = Ok x) →
  for_ 0 n (λ i v, x ← g i; mret (v ++ [h x])) acc = Ok (acc ++ (h <$> take (Z.to_nat n) l)).
Proof.
  intros Hn Hg.
  destruct (proj1 (returns_elim (for_ 0 n (λ i v, x ← g i; mret (v ++ [h x])) acc)
    (λ v, v = acc ++ (h <$> take (Z.to_nat n) l)))) as (v & -> & ->); [|done].
  apply (for_inv (λ i v, v = acc ++ (h <$> take (Z.to_nat i) l))); [lia| |].
  { by rewrite take_0, app_nil_r. }
  intros i s Hi ->. destruct (lookup_lt_is_Some_2 l (Z.to_nat i)) as [x Hx]; [lia|].
  rewrite (Hg i x) by done. simpl.
  replace (Z.to_nat (i + 1)) with (S (Z.to_nat i)) by lia.
  by rewrite (take_S_r _ _ x), fmap_app, app_assoc by done.
Qed.

(** A loop faults when one of its turns always does and the turns before it
    fault the same way or keep [P]. *)
Lemma for_fault {S} (P : Z → S → Prop) lo hi (body : Z → S → res S) e i s :
  lo ≤ i < hi → P lo s →
  (∀ j s, lo ≤ j < i → P j s → body j s = Fault e ∨ ∃ s', body j s = Ok s' ∧ P (j + 1) s') →
  (∀ s, P i s → body i s = Fault e) →
  for_ lo hi body s = Fault e.
Proof.
  intros Hi. remember (Z.to_nat (i - lo)) as n eqn:Hn. revert lo s Hi Hn.
  induction n as [|n IH]; intros lo s Hi Hn HP Hstep Hbad; rewrite for_step by lia.
  { replace lo with i in * by lia. by rewrite Hbad. }
  destruct (Hstep lo s) as [->|(s' & -> & HP')]; [lia|done|done|]. simpl.
  apply IH; [lia|lia|done| |done]. intros j t Hj. apply Hstep. lia.
Qed.

(** Loops that build two parallel sequences. *)
Lemma for_pairs {A B} (body : Z → list A * list B → res (list A * list B)) (l : list A) (f : A → B) :
  (∀ i x a b, 0 ≤ i → l !! Z.to_nat i = Some x → body i (a, b) = Ok (a ++ [x], b ++ [f x])) →
  for_ 0 (zlen l) body ([], []) = Ok (l, f <$> l).
Proof.
  intros Hbody.
  destruct (proj1 (returns_elim (for_ 0 (zlen l) body ([], [])) (λ v, v = (l, f <$> l))))
    as (v & -> & ->); [|done].
  apply (returns_mono _ (λ v, v = (take (Z.to_nat (zlen l)) l, f <$> take (Z.to_nat (zlen l)) l)));
    last by (intros v ->; rewrite take_ge by lia).
  apply (for_inv (λ i v, v = (take (Z.to_nat i) l, f <$> take (Z.to_nat i) l))); [lia|done|].
  intros i s Hi ->. destruct (lookup_lt_is_Some_2 l (Z.to_nat i)) as [x Hx]; [lia|].
  rewrite (Hbody i x) by (done || lia). simpl.
  replace (Z.to_nat (i + 1)) with (S (Z.to_nat i)) by lia.
  by rewrite (take_S_r _ _ x), fmap_app by done.
Qed.

(** ** Lists *)

Lemma list_find_self (l : list Z) x :
  match list_find (x =.) l with
  | Some (i, y) => y = x ∧ l !! i = Some x
  | None => x ∉ l
  end.
Proof.
  destruct (list_find (x =.) l) as [[i y]|] eqn:E.
  - by apply list_find_Some in E as (Hi & <- & _).
  - apply list_find_None in E. rewrite Forall_forall in E. intros Hin. by apply (E x).
Qed.

Lemma elem_of_concat {A} (x : A) ls : x ∈ concat ls ↔ ∃ l, x ∈ l ∧ l ∈ ls.
Proof.
  rewrite list_elem_of_In, in_concat. split; intros (l & H1 & H2); exists l; split; by apply list_elem_of_In.
Qed.

Lemma filter_none {A} (P : A → Prop) `{!∀ x, Decision (P x)} l : Forall (λ x, ¬ P x) l → filter P l = [].
Proof. induction 1 as [|x l Hx _ IH]; [done|]. by rewrite filter_cons_False. Qed.

Lemma Forall_choice {A B} (P : A → B → Prop) l : Forall (λ x, ∃ y, P x y) l → ∃ l', Forall2 P l l'.
Proof.
  induction 1 as [|x l (y & Hy) _ (l' & IH)]; [by exists []|]. exists (y :: l'). by constructor.
Qed.

(** ** Partial correctness

    [ensures m Q]: the value of [m], if there is one, satisfies [Q]. The
    counterpart of [returns] for what holds of every execution, defined or
    not. *)
Definition ensures {A} (m : res A) (Q : A → Prop) : Prop :=
  match m with Ok a => Q a | Fault _ => True end.

Section ensures.
Context {A B : Type}.
Implicit Types (m : res A) (Q : A → Prop).

Lemma ensures_elim m Q a : ensures m Q → m = Ok a → Q a.
Proof. by intros Hm ->. Qed.

Lemma ensures_ret (a : A) Q : Q a → ensures (mret a) Q.
Proof. done. Qed.

Lemma ensures_mono m (P Q : A → Prop) : ensures m P → (∀ a, P a → Q a) → ensures m Q.
Proof. destruct m; [intros; cbn; auto|done]. Qed.

Lemma ensures_true m : ensures m (λ _, True).
Proof. by destruct m. Qed.

Lemma ensures_bind m (f : A → res B) P (Q : B → Prop) :
  ensures m P → (∀ a, P a → ensures (f a) Q) → ensures (m ≫= f) Q.
Proof. destruct m; cbn; auto. Qed.

Lemma ensures_vec_get (l : list A) i P : Forall P l → ensures (vec_get l i) P.
Proof.
  intros Hl. unfold vec_get. destruct (_ <? _); [done|]. destruct (l !! _) eqn:E; [|done].
  rewrite Forall_lookup in Hl. by eapply Hl.
Qed.

Lemma ensures_proto_get (l : list A) i P : Forall P l → ensures (proto_get l i) P.
Proof.
  intros Hl. unfold proto_get. destruct (_ <? _); [done|]. destruct (l !! _) eqn:E; [|done].
  rewrite Forall_lookup in Hl. by eapply Hl.
Qed.

Lemma ensures_vec_set (l : list A) i x P : Forall P l → P x → ensures (vec_set l i x) (Forall P).
Proof. intros Hl Hx. unfold vec_set. destruct (_ || _); [done|]. by apply Forall_insert. Qed.
End ensures.

Lemma ensures_foldM {A S} (P : S → Prop) (f : A → S → res S) l s :
  P s → (∀ x s, x ∈ l → P s → ensures (f x s) P) → ensures (foldM f l s) P.
Proof.
  revert s. induction l as [|x l IH]; intros s Hs Hf; [done|]. cbn [foldM].
  eapply ensures_bind; [apply Hf; [by left|done]|]. intros s' Hs'. apply IH; [done|].
  intros y t Hy. apply Hf. by right.
Qed.

Lemma ensures_for {S} (P : S → Prop) lo hi (body : Z → S → res S) s :
  P s → (∀ i s, lo ≤ i < hi → P s → ensures (body i s) P) → ensures (for_ lo hi body s) P.
Proof.
  intros Hs Hb. apply ensures_foldM; [done|]. intros i t Hi. apply Hb.
  apply elem_of_seqZ in Hi. lia.
Qed.

(** ** The values of an [int32] *)

Definition int32 (z : Z) : Prop := int32_ok z.
#[export] Instance int32_dec z : Decision (int32 z) := ltac:(unfold int32; apply _).

Lemma i32_typed z : ensures (i32 z) int32.
Proof. destruct (i32 z) eqn:E; [|done]. by apply i32_inv in E as [-> ?]. Qed.

Lemma rem32_typed a b : int32 a → int32 b → ensures (rem32 a b) int32.
Proof.
  unfold int32, rem32, kInt32Min, kInt32Max. intros Ha Hb. destruct (Z.eqb_spec b 0); [done|].
  destruct (_ && _); [done|]. cbn. pose proof (Z.rem_bound_abs a b ltac:(done)). lia.
Qed.

Lemma ring_sub_typed a b n : int32 n → ensures (ring_sub a b n) int32.
Proof.
  intros Hn. eapply ensures_bind; [apply i32_typed|]. intros d _.
  eapply ensures_bind; [apply i32_typed|]. intros e He. by apply rem32_typed.
Qed.

Lemma wrap32_typed z : int32 (wrap32 z).
Proof. unfold int32, wrap32, kInt32Min, kInt32Max. pose proof (Z.mod_pos_bound (z + 2 ^ 31) (2 ^ 32)). lia. Qed.

Create HintDb typed.
#[export] Hint Resolve i32_typed rem32_typed ring_sub_typed wrap32_typed
  ensures_ret ensures_vec_get ensures_proto_get ensures_vec_set : typed.
#[export] Hint Extern 4 (ensures (add32 _ _) _) => apply i32_typed : typed.
#[export] Hint Extern 4 (ensures (sub32 _ _) _) => apply i32_typed : typed.
