(* ===== verification/CppStd.v ===== *)
(** * The pieces of the C++ standard library the program uses

    [std::lower_bound] and [std::upper_bound] as the halving loop the library
    runs (so that they have a value on unsorted ranges too), [std::sort] on
    integers, [std::map] iterated in key order, and the insertion functions of
    the associative containers. *)

From S2P Require Import Prelude.
From stdpp Require Import options.

(** ** Binary search

    One loop for both bounds: [p] holds on the elements to skip. The range is
    [[first, first + len)]; [len] decreases at every turn, so [len] turns are
    enough. *)

Fixpoint bsearch (fuel : nat) (p : Z → bool) (l : list Z) (first len : nat) : nat :=
  match fuel with
  | O => first
  | S fuel =>
      if decide (len = 0%nat) then first
      else
        let half := (len / 2)%nat in
        let mid := (first + half)%nat in
        match l !! mid with
        | Some x =>
            if p x then bsearch fuel p l (S mid) (len - half - 1)
            else bsearch fuel p l first half
        | None => first
        end
  end.

(** Index of the result of [std::lower_bound(begin + first, end, v)]. *)
Definition lower_bound (l : list Z) (first : nat) (v : Z) : nat :=
  bsearch (length l - first) (λ x, x <? v) l first (length l - first).

(** Index of the result of [std::upper_bound(begin + first, end, v)]. *)
Definition upper_bound (l : list Z) (first : nat) (v : Z) : nat :=
  bsearch (length l - first) (λ x, negb (v <? x)) l first (length l - first).

Lemma half_lt len : len ≠ 0%nat → (len / 2 < len)%nat.
Proof. intros. apply Nat.div_lt; lia. Qed.

Section bsearch.
Context (p : Z → bool) (l : list Z).

Lemma bsearch_bounds fuel first len :
  (first ≤ bsearch fuel p l first len ≤ first + len)%nat.
Proof.
  revert first len. induction fuel as [|fuel IH]; intros first len; simpl; [lia|].
  case_decide; [lia|]. pose proof (half_lt len ltac:(done)) as Hhalf.
  destruct (l !! _) as [x|]; [|lia]. destruct (p x).
  - specialize (IH (S (first + len / 2)) (len - len / 2 - 1)%nat). lia.
  - specialize (IH first (len / 2)%nat). lia.
Qed.

(** The search leaves [first] behind as soon as [first] is to be skipped,
    whatever the order of the other elements. *)
Lemma bsearch_progress fuel first len x :
  (0 < len ≤ fuel)%nat → l !! first = Some x → p x = true →
  (first + len ≤ length l)%nat →
  (first < bsearch fuel p l first len)%nat.
Proof.
  revert len. induction fuel as [|fuel IH]; intros len Hlen Hx Hp Hl; [lia|].
  simpl. case_decide; [lia|]. pose proof (half_lt len ltac:(done)) as Hhalf.
  destruct (lookup_lt_is_Some_2 l (first + len / 2)) as [y Hy]; [lia|].
  rewrite Hy. destruct (p y) eqn:Hpy.
  - pose proof (bsearch_bounds fuel (S (first + len / 2)) (len - len / 2 - 1)). lia.
  - destruct (decide (len / 2 = 0)%nat) as [E|E].
    + rewrite E, Nat.add_0_r in Hy. congruence.
    + apply IH; auto; lia.
Qed.

(** On a range that [p] splits, the result is the splitting point. *)
Lemma bsearch_split fuel first len :
  (len ≤ fuel)%nat → (first + len ≤ length l)%nat →
  (∀ i j x y, (first ≤ i ≤ j)%nat → (j < first + len)%nat →
     l !! i = Some x → l !! j = Some y → p y = true → p x = true) →
  let k := bsearch fuel p l first len in
  (∀ i x, (first ≤ i < k)%nat → l !! i = Some x → p x = true) ∧
  (∀ i x, (k ≤ i < first + len)%nat → l !! i = Some x → p x = false).
Proof.
  revert first len. induction fuel as [|fuel IH]; intros first len Hf Hl Hmono; simpl.
  { split; intros; lia. }
  case_decide; [split; intros; lia|]. pose proof (half_lt len ltac:(done)) as Hhalf.
  destruct (lookup_lt_is_Some_2 l (first + len / 2)) as [y Hy]; [lia|].
  rewrite Hy. destruct (p y) eqn:Hpy.
  - destruct (IH (S (first + len / 2)) (len - len / 2 - 1)%nat) as [IH1 IH2]; [lia|lia| |].
    { intros i j x z Hij Hj. apply Hmono; lia. }
    split; intros i x Hi Hix.
    + destruct (decide (i ≤ first + len / 2)%nat).
      * eapply (Hmono i (first + len / 2)%nat x y); eauto; lia.
      * eapply IH1; eauto; lia.
    + eapply IH2; eauto; lia.
  - destruct (IH first (len / 2)%nat) as [IH1 IH2]; [lia|lia| |].
    { intros i j x z Hij Hj. apply Hmono; lia. }
    split; intros i x Hi Hix; [eapply IH1; eauto; lia|].
    destruct (decide (i < first + len / 2)%nat).
    + eapply IH2; eauto; lia.
    + destruct (p x) eqn:Hpx; [|done]. rewrite <- Hpy. symmetry.
      apply (Hmono (first + len / 2)%nat i y x); auto; lia.
Qed.
End bsearch.

(** ** Sorted sequences of integers *)

Abbreviation sorted_le := (StronglySorted Z.le).
Abbreviation sorted_lt := (StronglySorted Z.lt).

Lemma StronglySorted_lookup {A} (R : relation A) `{!Reflexive R} l i j x y :
  StronglySorted R l → (i ≤ j)%nat → l !! i = Some x → l !! j = Some y → R x y.
Proof.
  intros Hs. revert i j. induction Hs as [|a l Hs IH Hall]; intros i j Hij Hi Hj; [done|].
  destruct i, j; simplify_eq/=; [done| |lia|apply (IH i j); auto; lia].
  rewrite Forall_forall in Hall. apply Hall. by eapply list_elem_of_lookup_2.
Qed.

Lemma StronglySorted_lookup_lt {A} (R : relation A) l i j x y :
  StronglySorted R l → (i < j)%nat → l !! i = Some x → l !! j = Some y → R x y.
Proof.
  intros Hs. revert i j. induction Hs as [|a l Hs IH Hall]; intros i j Hij Hi Hj; [done|].
  destruct i, j; simplify_eq/=; [lia| |lia|apply (IH i j); auto; lia].
  rewrite Forall_forall in Hall. apply Hall. by eapply list_elem_of_lookup_2.
Qed.

Lemma sorted_lt_le l : sorted_lt l → sorted_le l.
Proof.
  induction 1 as [|a l _ IH Hall]; constructor; [done|].
  eapply Forall_impl; [done|]. cbn. intros; lia.
Qed.

(** What the two bounds promise on a sorted range. *)
Lemma lower_bound_spec l first v k :
  sorted_le l → (first ≤ length l)%nat → lower_bound l first v = k →
  (first ≤ k ≤ length l)%nat ∧
  (∀ i x, (first ≤ i < k)%nat → l !! i = Some x → x < v) ∧
  (∀ i x, (k ≤ i)%nat → l !! i = Some x → v ≤ x).
Proof.
  intros Hs Hf <-. unfold lower_bound.
  pose proof (bsearch_bounds (λ x, x <? v) l (length l - first) first (length l - first)).
  destruct (bsearch_split (λ x, x <? v) l (length l - first) first (length l - first))
    as [H1 H2]; [lia|lia| |].
  { intros i j x y Hij Hj Hx Hy. rewrite !Z.ltb_lt.
    pose proof (StronglySorted_lookup Z.le l i j x y Hs ltac:(lia) Hx Hy). lia. }
  split; [lia|]. split; intros i x Hi Hx.
  - apply Z.ltb_lt. by eapply H1.
  - apply Z.ltb_ge. eapply H2; [|done]. apply lookup_lt_Some in Hx. lia.
Qed.

Lemma upper_bound_spec l first v k :
  sorted_le l → (first ≤ length l)%nat → upper_bound l first v = k →
  (first ≤ k ≤ length l)%nat ∧
  (∀ i x, (first ≤ i < k)%nat → l !! i = Some x → x ≤ v) ∧
  (∀ i x, (k ≤ i)%nat → l !! i = Some x → v < x).
Proof.
  intros Hs Hf <-. unfold upper_bound.
  pose proof (bsearch_bounds (λ x, negb (v <? x)) l (length l - first) first (length l - first)).
  destruct (bsearch_split (λ x, negb (v <? x)) l (length l - first) first (length l - first))
    as [H1 H2]; [lia|lia| |].
  { intros i j x y Hij Hj Hx Hy. rewrite !negb_true_iff, !Z.ltb_ge.
    pose proof (StronglySorted_lookup Z.le l i j x y Hs ltac:(lia) Hx Hy). lia. }
  split; [lia|]. split; intros i x Hi Hx.
  - apply Z.ltb_ge, negb_true_iff. by eapply H1.
  - apply Z.ltb_lt, negb_false_iff. eapply H2; [|done]. apply lookup_lt_Some in Hx. lia.
Qed.

(** A lower bound moves past [first] when the element there is smaller, on
    any range, sorted or not. *)
Lemma lower_bound_progress l first v x :
  l !! first = Some x → x < v → (first < lower_bound l first v ≤ length l)%nat.
Proof.
  intros Hx Hv. pose proof (lookup_lt_Some _ _ _ Hx). unfold lower_bound. split.
  - eapply bsearch_progress; eauto; [lia|by apply Z.ltb_lt|lia].
  - pose proof (bsearch_bounds (λ x, x <? v) l (length l - first) first (length l - first)). lia.
Qed.

(** ** [std::sort] on integers *)

Definition std_sort (l : list Z) : list Z := merge_sort Z.le l.

Lemma std_sort_perm l : std_sort l ≡ₚ l.
Proof. apply merge_sort_Permutation. Qed.

Lemma std_sort_sorted l : sorted_le (std_sort l).
Proof. apply (StronglySorted_merge_sort Z.le). Qed.

Lemma std_sort_length l : length (std_sort l) = length l.
Proof. by rewrite std_sort_perm. Qed.

(** ** [std::map] kept in key order: [insert] does not overwrite *)

Fixpoint omap_insert {V} (k : Z) (v : V) (m : list (Z * V)) : list (Z * V) :=
  match m with
  | [] => [(k, v)]
  | (k', v') :: m' =>
      if k <? k' then (k, v) :: m
      else if k =? k' then m
      else (k', v') :: omap_insert k v m'
  end.

Section omap.
Context {V : Type}.
Implicit Types (m : list (Z * V)).

Lemma omap_insert_keys k (v : V) m x : x ∈ (omap_insert k v m).*1 ↔ x = k ∨ x ∈ m.*1.
Proof.
  induction m as [|[k' v'] m IH]; cbn; [set_solver|].
  destruct (Z.ltb_spec k k'); [set_solver|].
  destruct (Z.eqb_spec k k'); [set_solver|]. set_solver.
Qed.

Lemma omap_insert_sorted k (v : V) m : sorted_lt m.*1 → sorted_lt (omap_insert k v m).*1.
Proof.
  induction m as [|[k' v'] m IH]; cbn; intros Hs; [by repeat constructor|].
  inversion_clear Hs as [|? ? Hm Hall].
  destruct (Z.ltb_spec k k') as [Hlt|].
  { constructor; [by constructor|]. constructor; [done|].
    eapply Forall_impl; [done|]. cbn; intros; lia. }
  destruct (Z.eqb_spec k k'); [by constructor|].
  constructor; [auto|]. rewrite Forall_forall in *.
  intros x [->|]%omap_insert_keys; cbn; [lia|auto].
Qed.

Lemma omap_insert_lookup k (v : V) m k0 v0 :
  sorted_lt m.*1 →
  (k0, v0) ∈ omap_insert k v m ↔ (k0, v0) ∈ m ∨ (k0 = k ∧ v0 = v ∧ k ∉ m.*1).
Proof.
  induction m as [|[k' v'] m IH]; cbn; intros Hs; [set_solver|].
  inversion_clear Hs as [|? ? Hm Hall]. rewrite Forall_forall in Hall.
  destruct (Z.ltb_spec k k') as [Hlt|].
  { rewrite elem_of_cons. split; [|set_solver]. intros [[= -> ->]|?]; [|by left].
    right. split_and!; auto. rewrite elem_of_cons. intros [->|Hin]; [lia|].
    specialize (Hall k Hin). lia. }
  destruct (Z.eqb_spec k k') as [->|]; [set_solver|].
  rewrite !elem_of_cons, IH by done. set_solver.
Qed.
End omap.

(** [std::map] and [std::unordered_map] as [gmap]: [insert] keeps the old value. *)
Definition map_insert_new {K V} `{Countable K} (k : K) (v : V) (m : gmap K V) : gmap K V :=
  match m !! k with Some _ => m | None => <[k := v]> m end.

(** [m\[k\]] as an expression: a missing key is first inserted with a zero value. *)
Definition map_at {K V} `{Countable K} (d : V) (m : gmap K V) (k : K) : V * gmap K V :=
  match m !! k with Some v => (v, m) | None => (d, <[k := d]> m) end.

Lemma map_at_Some {K V} `{Countable K} (d : V) (m : gmap K V) k v :
  m !! k = Some v → map_at d m k = (v, m).
Proof. intros E. unfold map_at. by rewrite E. Qed.
