(* ===== verification/Decimal.v ===== *)
(** * Decimal numbers as text

    [std::to_string(int)], the "%d" of [snprintf] and [sscanf], and
    [std::stoi], on sequences of characters. *)

From S2P Require Import Prelude.
From Stdlib Require Import Ascii.
From stdpp Require Import options.

Abbreviation bytes := (list ascii).

(** ** Digits *)

Definition digit (d : Z) : ascii := ascii_of_nat (48 + Z.to_nat d).

Definition digit_val (c : ascii) : option Z :=
  let n := Z.of_nat (nat_of_ascii c) in
  if (48 <=? n) && (n <=? 57) then Some (n - 48) else None.

(** The digits of [n], at most [fuel] of them. *)
Fixpoint digits (fuel : nat) (n : Z) : bytes :=
  match fuel with
  | O => []
  | S fuel => if n <? 10 then [digit n] else digits fuel (n / 10) ++ [digit (n mod 10)]
  end.

(** An [int32] has at most ten digits and a sign. *)
Definition to_string (z : Z) : bytes :=
  if z <? 0 then "-"%char :: digits 10 (- z) else digits 10 z.

(** ** Reading *)

(** Reads digits as long as there are any. *)
Fixpoint read_digits (acc : Z) (l : bytes) : Z * bytes :=
  match l with
  | [] => (acc, [])
  | c :: l' =>
      match digit_val c with
      | Some d => read_digits (10 * acc + d) l'
      | None => (acc, l)
      end
  end.

Definition is_space (c : ascii) : bool :=
  let n := nat_of_ascii c in
  (n =? 32)%nat || ((9 <=? n) && (n <=? 13))%nat.

Fixpoint skip_space (l : bytes) : bytes :=
  match l with
  | c :: l' => if is_space c then skip_space l' else l
  | [] => []
  end.

(** An optional sign, then at least one digit: the number read, if any. *)
Definition read_number (l : bytes) : option Z :=
  let unsigned l := match l with
    | c :: _ => if digit_val c then Some (read_digits 0 l).1 else None
    | [] => None
    end in
  match skip_space l with
  | c :: l' =>
      if decide (c = "-"%char) then Z.opp <$> unsigned l'
      else if decide (c = "+"%char) then unsigned l'
      else unsigned (c :: l')
  | [] => None
  end.

(** [std::stoi]: throws when there is no number or it does not fit. *)
Definition stoi (l : bytes) : res Z :=
  match read_number l with
  | Some z => if in32 z then Ok z else Fault Thrown
  | None => Fault Thrown
  end.

(** ** Round trip *)

Lemma digit_val_digit d : 0 ≤ d < 10 → digit_val (digit d) = Some d.
Proof.
  intros Hd. unfold digit_val, digit. rewrite nat_ascii_embedding by lia.
  replace (Z.of_nat (48 + Z.to_nat d)) with (48 + d) by lia.
  destruct (Z.leb_spec 48 (48 + d)), (Z.leb_spec (48 + d) 57); try lia. simpl. f_equal. lia.
Qed.

Lemma digit_not_space d : 0 ≤ d < 10 → is_space (digit d) = false.
Proof.
  intros Hd. unfold is_space, digit. rewrite nat_ascii_embedding by lia.
  destruct (Nat.eqb_spec (48 + Z.to_nat d) 32); [lia|].
  destruct (Nat.leb_spec 9 (48 + Z.to_nat d)), (Nat.leb_spec (48 + Z.to_nat d) 13); try lia; done.
Qed.

Lemma digit_not_sign d : 0 ≤ d < 10 → digit d ≠ "-"%char ∧ digit d ≠ "+"%char.
Proof.
  intros Hd. split; intros E; apply (f_equal digit_val) in E; rewrite digit_val_digit in E by done; done.
Qed.

#[local] Arguments digit_val : simpl never.
#[local] Arguments digit : simpl never.
#[local] Arguments is_space : simpl never.

(** [rest] does not continue a number. *)
Definition stops (rest : bytes) : Prop :=
  match rest with c :: _ => digit_val c = None | [] => True end.

Lemma read_digits_stops acc rest : stops rest → read_digits acc rest = (acc, rest).
Proof. destruct rest as [|c rest]; [done|]. cbn. by intros ->. Qed.

Lemma read_digits_digits fuel n acc rest :
  0 ≤ n < 10 ^ Z.of_nat fuel →
  ∃ k, 0 ≤ k ∧ read_digits acc (digits fuel n ++ rest) = read_digits (acc * 10 ^ k + n) rest.
Proof.
  revert n rest. induction fuel as [|fuel IH]; intros n rest Hn.
  { change (10 ^ Z.of_nat 0) with 1 in Hn. exists 0. split; [done|]. cbn. f_equal. lia. }
  cbn [digits]. destruct (Z.ltb_spec n 10) as [Hlt|Hge].
  - exists 1. split; [done|]. cbn. rewrite digit_val_digit by lia. f_equal. lia.
  - rewrite Nat2Z.inj_succ, Z.pow_succ_r in Hn by lia.
    assert (0 ≤ n / 10 < 10 ^ Z.of_nat fuel) as Hdiv
      by (split; [apply Z.div_pos; lia|apply Z.div_lt_upper_bound; lia]).
    destruct (IH (n / 10) ([digit (n mod 10)] ++ rest) Hdiv) as (k & Hk & Heq).
    exists (k + 1). split; [lia|]. rewrite <- app_assoc, Heq. cbn.
    pose proof (Z.mod_pos_bound n 10 ltac:(lia)). rewrite digit_val_digit by lia. f_equal.
    rewrite Z.pow_add_r by lia. pose proof (Z.div_mod n 10 ltac:(lia)). lia.
Qed.

(** The first character of the digits of a number. *)
Lemma digits_head fuel n :
  (0 < fuel)%nat → 0 ≤ n → ∃ d l, 0 ≤ d < 10 ∧ digits fuel n = digit d :: l.
Proof.
  revert n. induction fuel as [|fuel IH]; intros n Hf Hn; [lia|]. cbn.
  destruct (Z.ltb_spec n 10) as [Hlt|Hge]; [by exists n, []|].
  destruct fuel as [|fuel].
  - cbn. exists (n mod 10), []. split; [apply Z.mod_pos_bound; lia|done].
  - destruct (IH (n / 10)) as (d & l & Hd & ->); [lia|apply Z.div_pos; lia|].
    by exists d, (l ++ [digit (n mod 10)]).
Qed.

Lemma digits_length fuel n : (length (digits fuel n) ≤ fuel)%nat.
Proof.
  revert n. induction fuel as [|fuel IH]; intros n; cbn; [lia|].
  destruct (n <? 10); [cbn; lia|]. rewrite length_app. cbn. specialize (IH (n / 10)). lia.
Qed.

Lemma digits_short fuel m n : n < 10 ^ (Z.of_nat m + 1) → (length (digits fuel n) ≤ S m)%nat.
Proof.
  revert m n. induction fuel as [|fuel IH]; intros m n Hn; cbn [digits length]; [lia|].
  destruct (Z.ltb_spec n 10); [cbn; lia|]. destruct m as [|m]; [cbn in Hn; lia|].
  rewrite length_app. cbn [length]. specialize (IH m (n / 10)).
  assert (n / 10 < 10 ^ (Z.of_nat m + 1)); [|lia]. apply Z.div_lt_upper_bound; [lia|].
  rewrite <- Z.pow_succ_r by lia. by replace (Z.succ (Z.of_nat m + 1)) with (Z.of_nat (S m) + 1) by lia.
Qed.

Lemma to_string_length z : (length (to_string z) ≤ 11)%nat.
Proof.
  unfold to_string. destruct (z <? 0); cbn [length]; pose proof (digits_length 10 (- z));
    pose proof (digits_length 10 z); lia.
Qed.

(** Reading a printed [int32] back, whatever follows it. *)
Lemma read_number_to_string z rest :
  int32_ok z → stops rest → read_number (to_string z ++ rest) = Some z.
Proof.
  intros Hz Hrest. unfold kInt32Min, kInt32Max in Hz.
  assert (∀ n, 0 ≤ n < 10 ^ 10 → ∃ d l, 0 ≤ d < 10 ∧ digits 10 n = digit d :: l ∧
    (read_digits 0 (digits 10 n ++ rest)).1 = n) as Hread.
  { intros n Hn. destruct (digits_head 10 n) as (d & l & Hd & Hl); [lia|lia|].
    exists d, l. split_and!; [lia|lia|done|].
    destruct (read_digits_digits 10 n 0 rest Hn) as (k & _ & ->).
    rewrite read_digits_stops by done. cbn. lia. }
  unfold read_number, to_string. destruct (Z.ltb_spec z 0) as [Hneg|Hpos].
  - destruct (Hread (- z)) as (d & l & Hd & Hl & Hr); [lia|].
    rewrite Hl in Hr |- *. cbn. change (is_space "-"%char) with false. cbn. cbn in Hr. rewrite digit_val_digit in Hr |- * by done.
    rewrite Hr. cbn. f_equal. lia.
  - destruct (Hread z) as (d & l & Hd & Hl & Hr); [lia|].
    rewrite Hl in Hr |- *. cbn. cbn in Hr. rewrite (digit_not_space d) by done.
    destruct (digit_not_sign d Hd). rewrite !decide_False by done.
    rewrite digit_val_digit in Hr |- * by done. by rewrite Hr.
Qed.

Lemma stoi_to_string z rest : int32_ok z → stops rest → stoi (to_string z ++ rest) = Ok z.
Proof.
  intros Hz Hrest. unfold stoi. rewrite read_number_to_string by done.
  by rewrite (proj2 (in32_spec z)).
Qed.

(** A printed number has no separator in it. *)
Lemma digits_elem fuel n c : 0 ≤ n → c ∈ digits fuel n → ∃ d, 0 ≤ d < 10 ∧ c = digit d.
Proof.
  revert n. induction fuel as [|fuel IH]; intros n Hn; cbn; [by intros ?%elem_of_nil|].
  destruct (Z.ltb_spec n 10) as [Hlt|Hge].
  - intros ->%list_elem_of_singleton. by exists n.
  - intros [Hc| ->%list_elem_of_singleton]%elem_of_app.
    + apply (IH (n / 10)); [apply Z.div_pos; lia|done].
    + exists (n mod 10). split; [apply Z.mod_pos_bound; lia|done].
Qed.

Lemma to_string_elem z c : c ∈ to_string z → c = "-"%char ∨ ∃ d, 0 ≤ d < 10 ∧ c = digit d.
Proof.
  unfold to_string. destruct (Z.ltb_spec z 0).
  - intros [->|Hc]%elem_of_cons; [by left|right]. eapply digits_elem; [|done]. lia.
  - intros Hc. right. by eapply digits_elem.
Qed.

Lemma to_string_no_sep z c : digit_val c = None → c ≠ "-"%char → c ∉ to_string z.
Proof.
  intros Hc Hm [->|(d & Hd & ->)]%to_string_elem; [done|]. by rewrite digit_val_digit in Hc.
Qed.

#[global] Arguments to_string : simpl never.
#[global] Arguments stoi : simpl never.
#[global] Arguments read_number : simpl never.
