(* ===== verification/Logging.v ===== *)
(** * Logging (src/util/logging.h, src/util/logging.cc)

    The light version of glog the program is built with (RPSCC_USE_GLOG and
    RPSCC_LOG_FATAL_THROW are not defined anywhere). [LOG] and [CHECK] make a
    temporary object, write to its stream and destroy it at the end of the full
    expression; what reaches [std::cerr] and when is up to the destructors. An
    object is known by an address, so that a reference can outlive it. *)

From S2P Require Import Prelude CppStd Decimal.
From Stdlib Require String.
From Stdlib Require Import Ascii.
From stdpp Require Import options.

Module Logging.

Definition chars (s : string) : bytes := String.list_ascii_of_string s.
Definition newline : bytes := [ascii_of_nat 10].

(** ** [DateLogger] *)

(** The fields of [struct tm] that are read. *)
Record tm := mkTm { tm_hour : Z; tm_min : Z; tm_sec : Z }.

(** [%02d] *)
Definition pad2 (z : Z) : bytes := if (0 <=? z) && (z <? 10) then "0"%char :: to_string z else to_string z.

(** [snprintf] keeps what fits into [buffer_\[9\]] before the terminating zero. *)
Definition HumanDate (now : tm) : bytes :=
  take 8 (pad2 (tm_hour now) ++ ":"%char :: pad2 (tm_min now) ++ ":"%char :: pad2 (tm_sec now)).

(** What [localtime_r] gives; a second may be a leap second. *)
Definition tm_ok (now : tm) : Prop := 0 ≤ tm_hour now ≤ 23 ∧ 0 ≤ tm_min now ≤ 59 ∧ 0 ≤ tm_sec now ≤ 60.

(** ** [LogMessage] *)

Record LogMessage := mkLogMessage { buffer_stream_ : bytes }.

(** [std::cerr], and the objects alive. *)
Record world := mkWorld { cerr : bytes; objects : gmap nat LogMessage }.
#[export] Instance world_eta : Eta world := λ w, mkWorld (cerr w) (objects w).

(** A place in the source: [__FILE__] and [__LINE__]. *)
Record place := mkPlace { file : string; line : Z }.

(** What the constructor writes. *)
Definition header (now : tm) (p : place) (severity : string) : bytes :=
  chars "[" ++ HumanDate now ++ chars "] " ++ chars "(" ++ chars severity ++ chars ") " ++
  chars (file p) ++ chars ":" ++ to_string (line p) ++ chars ": ".

(** The events of the program that matter here: the constructor, [<<] on the
    stream, and the destructors of the two classes. *)
Inductive event :=
| Construct (i : nat) (now : tm) (p : place) (severity : string)
| Insert (i : nat) (text : bytes)
| Destroy (i : nat)
| DestroyFatal (i : nat).

Definition address (e : event) : nat :=
  match e with Construct i _ _ _ | Insert i _ | Destroy i | DestroyFatal i => i end.

(** The process goes on, or [abort] has ended it with this on [std::cerr]. *)
Inductive process :=
| Running (w : world)
| AbortedWith (output : bytes).

(** [~LogMessage]: the line is ended and written in one piece. *)
Definition destroy_LogMessage (i : nat) (w : world) : res world :=
  match objects w !! i with
  | Some o => mret (w <| cerr ::= λ c, c ++ buffer_stream_ o ++ newline |> <| objects ::= delete i |>)
  | None => Fault Dangling
  end.

(** [~LogMessageFatal]: its body comes first, and [abort] does not return to
    the destructor of the base class. *)
Definition destroy_LogMessageFatal (i : nat) (w : world) : res process :=
  match objects w !! i with
  | Some _ => mret (AbortedWith (cerr w ++ newline))
  | None => Fault Dangling
  end.

Definition step (e : event) (w : world) : res process :=
  match e with
  | Construct i now p severity =>
      mret (Running (w <| objects ::= <[ i := mkLogMessage (header now p severity) ]> |>))
  | Insert i text =>
      match objects w !! i with
      | Some o => mret (Running (w <| objects ::= <[ i := mkLogMessage (buffer_stream_ o ++ text) ]> |>))
      | None => Fault Dangling
      end
  | Destroy i => w ← destroy_LogMessage i w; mret (Running w)
  | DestroyFatal i => destroy_LogMessageFatal i w
  end.

Fixpoint run (es : list event) (w : world) : res process :=
  match es with
  | [] => mret (Running w)
  | e :: es =>
      p ← step e w;
      match p with Running w => run es w | AbortedWith output => mret (AbortedWith output) end
  end.

(** ** The macros

    The events of one statement, its temporary object at address [i]. *)

(** [LOG(severity) << texts...]; [LOG(WARNING)] is [LOG(INFO)]. *)
Definition LOG (i : nat) (now : tm) (p : place) (severity : string) (texts : list bytes) : list event :=
  Construct i now p severity :: (Insert i <$> texts) ++ [Destroy i].

Definition LOG_INFO i now p := LOG i now p "INFO".
Definition LOG_ERROR i now p := LOG i now p "ERROR".
Definition LOG_WARNING := LOG_INFO.

(** [LOG(FATAL) << texts...] *)
Definition LOG_FATAL (i : nat) (now : tm) (p : place) (texts : list bytes) : list event :=
  Construct i now p "FATAL" :: (Insert i <$> texts) ++ [DestroyFatal i].

(** [CHECK(x) << texts...], the text of the condition given. *)
Definition CHECK (x : bool) (condition : string) (i : nat) (now : tm) (p : place) (texts : list bytes) : list event :=
  if negb x then LOG_FATAL i now p (chars "Check failed: " :: chars condition :: chars " " :: texts) else [].

Definition CHECK_EQ (x y : Z) := CHECK (x =? y).
Definition CHECK_NE (x y : Z) := CHECK (negb (x =? y)).
Definition CHECK_LT (x y : Z) := CHECK (x <? y).
Definition CHECK_GT (x y : Z) := CHECK (y <? x).
Definition CHECK_LE (x y : Z) := CHECK (x <=? y).
Definition CHECK_GE (x y : Z) := CHECK (y <=? x).

(** [LOG_IF(severity, condition) << texts...] *)
Definition LOG_IF (condition : bool) (i : nat) (now : tm) (p : place) (severity : string) (texts : list bytes) : list event :=
  if negb condition then [] else LOG i now p severity texts.

(** [DCHECK(x)]: [while (false) CHECK(x)] when NDEBUG is defined. *)
Definition DCHECK (NDEBUG : bool) (x : bool) (condition : string) (i : nat) (now : tm) (p : place) (texts : list bytes) : list event :=
  if NDEBUG then [] else CHECK x condition i now p texts.

(** [DLOG(severity)] *)
Definition DLOG (NDEBUG : bool) (i : nat) (now : tm) (p : place) (severity : string) (texts : list bytes) : list event :=
  if NDEBUG then [] else LOG i now p severity texts.

(** [auto& logger = LOG(INFO);] followed by [logger << texts...] (master.cc
    lines 312-315): the temporary is gone at the end of the declaration. *)
Definition LOG_reference (i : nat) (now : tm) (p : place) (texts : list bytes) : list event :=
  LOG_INFO i now p [] ++ (Insert i <$> texts).

(** ** The other [LogMessageFatal], for RPSCC_LOG_FATAL_THROW other than 0 *)

(** Its destructor logs the message and throws it. A destructor may only throw
    if it was declared so, which RPSCC_USE_CXX11 decides. *)
Inductive fatal_end :=
| Threw (output message : bytes)
| Terminated (output : bytes).

Definition fatal_message (now : tm) (p : place) (texts : list bytes) : bytes :=
  chars "[" ++ HumanDate now ++ chars "] " ++ chars (file p) ++ chars ":" ++ to_string (line p) ++
  chars ": " ++ concat texts.

Definition throw_LogMessageFatal (RPSCC_USE_CXX11 : bool) (i : nat) (now : tm) (p here : place)
    (texts : list bytes) (w : world) : res fatal_end :=
  let message := fatal_message now p texts in
  logged ← run (LOG_ERROR i now here [message]) w;
  match logged with
  | Running w => mret (if RPSCC_USE_CXX11 then Threw (cerr w) message else Terminated (cerr w))
  | AbortedWith output => mret (Terminated output)
  end.

(** ** What is printed *)

Definition text_of (now : tm) (p : place) (severity : string) (texts : list bytes) : bytes :=
  header now p severity ++ concat texts ++ newline.

Lemma run_events_app es1 es2 w w' : run es1 w = Ok (Running w') → run (es1 ++ es2) w = run es2 w'.
Proof.
  revert w. induction es1 as [|e es1 IH]; intros w; cbn [run app].
  - by intros [= ->].
  - destruct (step e w) as [[w1|o]|f]; [apply IH|done|done].
Qed.

Lemma run_inserts i texts : ∀ w b,
  objects w !! i = Some (mkLogMessage b) →
  run (Insert i <$> texts) w =
    Ok (Running (w <| objects ::= <[ i := mkLogMessage (b ++ concat texts) ]> |>)).
Proof.
  induction texts as [|t texts IH]; intros w b Hi; cbn [fmap list_fmap run].
  - rewrite app_nil_r. cbn. f_equal. destruct w as [c os]. cbn in *. by rewrite insert_id.
  - cbn [step]. rewrite Hi. cbn [mbind res_bind mret res_ret].
    erewrite IH by (cbn; by rewrite lookup_insert_eq). cbn. rewrite insert_insert_eq, <- app_assoc. done.
Qed.

(** A statement up to the destructor. *)
Lemma run_constructed i now p severity texts w :
  run (Construct i now p severity :: (Insert i <$> texts)) w =
    Ok (Running (w <| objects ::= <[ i := mkLogMessage (header now p severity ++ concat texts) ]> |>)).
Proof.
  cbn [run step mbind res_bind mret res_ret]. erewrite run_inserts by (cbn; by rewrite lookup_insert_eq).
  cbn. by rewrite insert_insert_eq.
Qed.

Lemma run_LOG i now p severity texts w :
  objects w !! i = None →
  run (LOG i now p severity texts) w = Ok (Running (w <| cerr ::= λ c, c ++ text_of now p severity texts |>)).
Proof.
  intros Hi. unfold LOG. rewrite app_comm_cons, (run_events_app _ _ _ _ (run_constructed _ _ _ _ _ _)).
  cbn [run step destroy_LogMessage]. unfold destroy_LogMessage. cbn. rewrite lookup_insert_eq. cbn.
  rewrite delete_insert_id by done. unfold text_of. by rewrite <- app_assoc.
Qed.

Lemma run_LOG_FATAL i now p texts w :
  run (LOG_FATAL i now p texts) w = Ok (AbortedWith (cerr w ++ newline)).
Proof.
  unfold LOG_FATAL. rewrite app_comm_cons, (run_events_app _ _ _ _ (run_constructed _ _ _ _ _ _)).
  cbn [run step]. unfold destroy_LogMessageFatal. cbn. by rewrite lookup_insert_eq.
Qed.

(** C28: a failed check says nothing. [LOG] prints exactly one complete line
    with time, severity and place. [CHECK] has no effect when its condition
    holds; when it does not, the process aborts having printed an empty line
    and nothing else: the destructor of [LogMessageFatal] aborts before the
    destructor of [LogMessage] writes the buffered message, so neither the
    condition nor the place nor the text of any failed check is ever seen. In
    the variant that throws, the message is printed. *)
Theorem failed_check_is_silent (i : nat) (now : tm) (p here : place) (severity condition : string)
    (texts : list bytes) (cxx11 : bool) (w : world) (Hi : objects w !! i = None) :
  run (LOG i now p severity texts) w = Ok (Running (w <| cerr ::= λ c, c ++ text_of now p severity texts |>)) ∧
  run (CHECK true condition i now p texts) w = Ok (Running w) ∧
  run (CHECK false condition i now p texts) w = Ok (AbortedWith (cerr w ++ newline)) ∧
  ∃ r output, throw_LogMessageFatal cxx11 i now p here texts w = Ok r ∧
    r = (if cxx11 then Threw output (fatal_message now p texts) else Terminated output) ∧
    output = cerr w ++ text_of now here "ERROR" [fatal_message now p texts].
Proof.
  split_and!; [by apply run_LOG|done|apply run_LOG_FATAL|].
  eexists _, _. split_and!; [|done|done]. unfold throw_LogMessageFatal, LOG_ERROR. cbv zeta.
  rewrite run_LOG by done. cbn. by destruct cxx11.
Qed.

(** The log line of a dead node is never written as meant. The statement
    that names the dead nodes keeps a reference to the stream of a temporary
    that is destroyed at the end of its declaration: an empty log line is
    printed, and as soon as there is a node to name, the program writes to a
    stream whose lifetime has ended. *)
Theorem logger_outlives_stream (i : nat) (now : tm) (p : place) (texts : list bytes) (w : world)
    (Hi : objects w !! i = None) :
  run (LOG_reference i now p texts) w =
    match texts with
    | [] => Ok (Running (w <| cerr ::= λ c, c ++ text_of now p "INFO" [] |>))
    | _ => Fault Dangling
    end.
Proof.
  unfold LOG_reference, LOG_INFO. rewrite (run_events_app _ _ _ _ (run_LOG _ _ _ _ _ _ Hi)).
  destruct texts as [|t texts]; [done|]. cbn. by rewrite Hi.
Qed.

(** ** Statements of several threads *)

Section threads.
(** The statement whose temporary is at an address. *)
Context (stmt : nat → tm * place * string * list bytes).

Definition statement (i : nat) : list event := let '(now, p, severity, texts) := stmt i in LOG i now p severity texts.
Definition line_of (i : nat) : bytes := let '(now, p, severity, texts) := stmt i in text_of now p severity texts.
Definition body_of (i : nat) : bytes := let '(now, p, severity, texts) := stmt i in header now p severity ++ concat texts.

(** The events at an address. *)
Definition events_at (i : nat) (es : list event) : list event := filter (λ e, address e = i) es.

(** The statements that end, in order. *)
Definition ended (es : list event) : list nat := omap (λ e, match e with Destroy i => Some i | _ => None end) es.

(** The statement at [i] has not begun, has ended, or is under way. *)
Definition pending (es : list event) (w : world) (i : nat) : Prop :=
  match objects w !! i with
  | None => events_at i es = [] ∨ events_at i es = statement i
  | Some o => ∃ texts, events_at i es = (Insert i <$> texts) ++ [Destroy i] ∧ buffer_stream_ o ++ concat texts = body_of i
  end.

Lemma line_of_body i : line_of i = body_of i ++ newline.
Proof. unfold line_of, body_of, text_of. destruct (stmt i) as [[[now p] severity] texts]. by rewrite <- app_assoc. Qed.

Lemma pending_other e es w w' i :
  address e ≠ i → objects w' !! i = objects w !! i → pending (e :: es) w i → pending es w' i.
Proof.
  intros Hne Ho. unfold pending. rewrite Ho. unfold events_at. by rewrite filter_cons_False.
Qed.

(** One event of statements under way. *)
Lemma pending_step e es w :
  (∀ i, pending (e :: es) w i) →
  ∃ w', step e w = Ok (Running w') ∧ (∀ i, pending es w' i) ∧
    cerr w' = cerr w ++ concat (line_of <$> ended [e]).
Proof.
  intros Hp. pose proof (Hp (address e)) as Hi. unfold pending, events_at in Hi.
  rewrite filter_cons_True in Hi by done. set (i := address e) in *.
  assert (∀ w', (∀ j, j ≠ i → objects w' !! j = objects w !! j) → pending es w' i → ∀ j, pending es w' j) as Hall.
  { intros w' Hoth Hpi j. destruct (decide (j = i)) as [->|Hne]; [done|].
    eapply pending_other; [|by apply Hoth|apply Hp]. by intros Heq; apply Hne. }
  destruct (objects w !! i) as [[b]|] eqn:Ho.
  - destruct Hi as ([|t texts] & Hev & Hb); injection Hev as He Hrest; rewrite He; cbn [step].
    + unfold destroy_LogMessage. rewrite Ho. cbn [mbind res_bind mret res_ret]. eexists. split; [done|].
      rewrite app_nil_r in Hb. cbn in Hb. split; [|cbn; by rewrite line_of_body, Hb, app_nil_r].
      apply Hall; [intros j Hj; cbn; by rewrite lookup_delete_ne|].
      unfold pending. cbn. rewrite lookup_delete_eq. left. exact Hrest.
    + rewrite Ho. cbn [mret res_ret]. eexists. split; [done|]. split; [|cbn; by rewrite app_nil_r].
      apply Hall; [intros j Hj; cbn; by rewrite lookup_insert_ne|].
      unfold pending. cbn. rewrite lookup_insert_eq. exists texts. split; [exact Hrest|].
      cbn in Hb |- *. by rewrite <- app_assoc.
  - destruct Hi as [|Hev]; [done|]. unfold statement in Hev.
    destruct (stmt i) as [[[now p] severity] texts] eqn:Hst. injection Hev as He Hrest. rewrite He. cbn [step].
    eexists. split; [done|]. split; [|cbn; by rewrite app_nil_r].
    apply Hall; [intros j Hj; cbn; by rewrite lookup_insert_ne|].
    unfold pending. cbn. rewrite lookup_insert_eq. exists texts. split; [exact Hrest|].
    unfold body_of. by rewrite Hst.
Qed.

(** C29: lines of different threads do not mix. When the log statements of any
    number of threads are interleaved in any way, event by event, what is
    printed is the complete line of each statement, in the order in which the
    statements end. *)
Theorem lines_do_not_mix es w
    (Hw : objects w = ∅) (Hes : ∀ i, events_at i es = [] ∨ events_at i es = statement i) :
  ∃ w', run es w = Ok (Running w') ∧ cerr w' = cerr w ++ concat (line_of <$> ended es).
Proof.
  assert (∀ i, pending es w i) as Hp.
  { intros i. unfold pending. by rewrite Hw, lookup_empty. }
  clear Hw Hes. revert w Hp. induction es as [|e es IH]; intros w Hp.
  { exists w. cbn. by rewrite app_nil_r. }
  destruct (pending_step e es w Hp) as (w1 & Hs & Hp1 & Hc). destruct (IH w1 Hp1) as (w' & Hr & Hc').
  exists w'. cbn [run]. rewrite Hs. cbn [mbind res_bind]. split; [done|].
  rewrite Hc', Hc, <- app_assoc, <- concat_app, <- fmap_app. do 3 f_equal. destruct e; done.
Qed.
End threads.

(** ** The time *)

Lemma pad2_length z : 0 ≤ z < 100 → length (pad2 z) = 2%nat.
Proof.
  intros Hz. assert (Forall (λ n, length (pad2 (Z.of_nat n)) = 2%nat) (seq 0 100)) as Hall
    by (apply (bool_decide_unpack _); by vm_compute).
  rewrite Forall_forall in Hall. rewrite <- (Z2Nat.id z) by lia. apply Hall. apply elem_of_seq. lia.
Qed.

(** The nine bytes of the buffer hold the time and its terminator. *)
Theorem HumanDate_fits now :
  tm_ok now → HumanDate now = pad2 (tm_hour now) ++ chars ":" ++ pad2 (tm_min now) ++ chars ":" ++ pad2 (tm_sec now) ∧
    length (HumanDate now) = 8%nat.
Proof.
  intros (Hh & Hm & Hs). unfold HumanDate. pose proof (pad2_length (tm_hour now) ltac:(lia)).
  pose proof (pad2_length (tm_min now) ltac:(lia)). pose proof (pad2_length (tm_sec now) ltac:(lia)).
  rewrite take_ge; [split; [done|]|]; rewrite length_app; cbn; rewrite length_app; cbn; lia.
Qed.

(** ** Witnesses *)

Definition noon : tm := mkTm 12 0 7.
Definition silent : world := mkWorld [] ∅.

Example line_example :
  text_of noon (mkPlace "src/master/master.cc" 118) "INFO" [chars "Receiving"] =
    chars "[12:00:07] (INFO) src/master/master.cc:118: Receiving" ++ newline.
Proof. by vm_compute. Qed.

Example failed_check_is_silent_witness :
  run (LOG 0 noon (mkPlace "a.cc" 1) "INFO" [chars "x"]) silent =
    Ok (Running (silent <| cerr ::= λ c, c ++ text_of noon (mkPlace "a.cc" 1) "INFO" [chars "x"] |>)) ∧
  run (CHECK true "b" 0 noon (mkPlace "a.cc" 1) [chars "x"]) silent = Ok (Running silent) ∧
  run (CHECK false "b" 0 noon (mkPlace "a.cc" 1) [chars "x"]) silent = Ok (AbortedWith (cerr silent ++ newline)) ∧
  ∃ r output, throw_LogMessageFatal false 0 noon (mkPlace "a.cc" 1) (mkPlace "logging.h" 221) [chars "x"] silent = Ok r ∧
    r = Terminated output ∧
    output = cerr silent ++ text_of noon (mkPlace "logging.h" 221) "ERROR" [fatal_message noon (mkPlace "a.cc" 1) [chars "x"]].
Proof. by apply (failed_check_is_silent 0 noon (mkPlace "a.cc" 1) (mkPlace "logging.h" 221) "INFO" "b" [chars "x"] false). Defined.

Example logger_outlives_stream_witness :
  run (LOG_reference 0 noon (mkPlace "src/master/master.cc" 312) [chars "0"; chars ":"]) silent = Fault Dangling.
Proof. by apply (logger_outlives_stream 0 noon (mkPlace "src/master/master.cc" 312) [chars "0"; chars ":"] silent). Defined.

(** Two threads, the second of which begins and ends inside the first. *)
Definition two_statements (i : nat) : tm * place * string * list bytes :=
  (noon, mkPlace (if i is 0%nat then "a.cc" else "b.cc") 1, "INFO", [chars "x"; chars "y"]).

Definition interleaved : list event :=
  [Construct 0 noon (mkPlace "a.cc" 1) "INFO"; Insert 0 (chars "x"); Construct 1 noon (mkPlace "b.cc" 1) "INFO";
   Insert 1 (chars "x"); Insert 1 (chars "y"); Insert 0 (chars "y"); Destroy 1; Destroy 0].

Example lines_do_not_mix_witness :
  ∃ w', run interleaved silent = Ok (Running w') ∧
    cerr w' = cerr silent ++ concat (line_of two_statements <$> ended interleaved).
Proof. apply (lines_do_not_mix two_statements interleaved silent eq_refl). intros [|[|i]]; [by right..|by left]. Defined.

Example lines_example : ended interleaved = [1; 0]%nat.
Proof. done. Qed.

End Logging.
