(* ===== verification/Partition.v ===== *)
(** * The consistent-hash partition (src/agent/partition.h, src/agent/partition.cc)

    [Partition] splits the key circle [[0, key_range)] among the servers:
    server [i] is given the keys from [part_vec_[i]] up to [part_vec_[i + 1]],
    and the last server also the keys below [part_vec_[0]]. The file models
    both [Initialize] functions, [Finalize], [GetServerByKey] and
    [NextEnding], and proves the routing and slicing they perform. *)

From S2P Require Import Prelude CppStd.
From stdpp Require Import options.

Module Partition.

Record Partition := mkPartition {
  key_range_ : Z;
  server_num_ : Z;
  part_vec_ : list Z;
}.
#[export] Instance Partition_eta : Eta Partition :=
  λ p, mkPartition (key_range_ p) (server_num_ p) (part_vec_ p).

(** [Initialize] from a vector: the first two fields are assigned before the
    size is checked. *)
Definition Initialize_vector (key_range server_num : Z) (part_vec : list Z)
    (p : Partition) : Partition * bool :=
  let p := p <| key_range_ := key_range |> <| server_num_ := server_num |> in
  if negb (zlen part_vec =? to_size_t server_num) then (p, false)
  else (p <| part_vec_ := part_vec |>, true).

(** [Initialize] from a C array, read at [0 .. server_num - 1]. *)
Definition Initialize_array (key_range server_num : Z) (part_vec : list Z)
    (p : Partition) : res (Partition * bool) :=
  let p := p <| key_range_ := key_range |> <| server_num_ := server_num |> in
  v ← for_ 0 server_num (λ i v, x ← vec_get part_vec i; mret (v ++ [x])) [];
  mret (p <| part_vec_ := v |>, true).

Definition Finalize (p : Partition) : Partition := p <| part_vec_ := [] |>.

Definition GetServerByKey (p : Partition) (key : Z) : res Z :=
  if (key <? 0) || (key_range_ p <=? key) then mret (-1)
  else
    p0 ← vec_get (part_vec_ p) 0;
    if key <? p0 then i32 (server_num_ p - 1)
    else mret (wrap32 (Z.of_nat (upper_bound (part_vec_ p) 0 key) - 1)).

(** Returns the end of the slice that starts at [start], and the server. *)
Definition NextEnding (p : Partition) (keys : list Z) (start : Z) : res (Z * Z) :=
  k ← vec_get keys start;
  server_id ← GetServerByKey p k;
  p0 ← vec_get (part_vec_ p) 0;
  if k <? p0 then
    mret (wrap32 (Z.of_nat (lower_bound keys (Z.to_nat start) p0)), server_id)
  else
    last ← i32 (server_num_ p - 1);
    if server_id =? last then mret (wrap32 (zlen keys), server_id)
    else
      next ← i32 (server_id + 1);
      v ← vec_get (part_vec_ p) next;
      mret (wrap32 (Z.of_nat (lower_bound keys (Z.to_nat start) v)), server_id).

(** ** Well-formedness *)

(** What the master's messages establish: one starting point per server, in
    order, all inside the key range. *)
Record wf (p : Partition) : Prop := mkwf {
  wf_servers : 0 < server_num_ p ≤ kInt32Max;
  wf_size : zlen (part_vec_ p) = server_num_ p;
  wf_sorted : sorted_le (part_vec_ p);
  wf_range : Forall (λ x, 0 ≤ x < key_range_ p) (part_vec_ p);
}.

(** The arc of server [i] on the key circle, read off the partition vector. *)
Definition in_arc (p : Partition) (i key : Z) : Prop :=
  0 ≤ i < server_num_ p ∧
  ((i = server_num_ p - 1 ∧ ∃ p0, part_vec_ p !! 0%nat = Some p0 ∧ key < p0) ∨
   (∃ lo, part_vec_ p !! Z.to_nat i = Some lo ∧ lo ≤ key ∧
      ∀ hi, part_vec_ p !! Z.to_nat (i + 1) = Some hi → key < hi)).

Lemma wf_first p : wf p → ∃ p0, part_vec_ p !! 0%nat = Some p0 ∧
  vec_get (part_vec_ p) 0 = Ok p0.
Proof.
  intros Hwf. destruct (vec_get_lt (part_vec_ p) 0) as (p0 & H1 & H2).
  { pose proof (wf_servers p Hwf). rewrite (wf_size p Hwf). lia. }
  by exists p0.
Qed.

Lemma GetServerByKey_arc p key :
  wf p → 0 ≤ key < key_range_ p → GetServerByKey p key ⇓ λ i, in_arc p i key.
Proof.
  intros Hwf Hkey. pose proof (wf_servers p Hwf) as Hn. pose proof (wf_size p Hwf) as Hlen.
  destruct (wf_first p Hwf) as (p0 & Hp0 & Hget).
  unfold GetServerByKey.
  destruct (Z.ltb_spec key 0), (Z.leb_spec (key_range_ p) key); try lia. simpl.
  rewrite Hget. simpl. destruct (Z.ltb_spec key p0).
  { rewrite i32_Ok by (unfold kInt32Min; lia). simpl. split; [lia|].
    left. eauto. }
  simpl. remember (upper_bound (part_vec_ p) 0 key) as k eqn:Hk. symmetry in Hk.
  apply upper_bound_spec in Hk as (Hb & Hlo & Hhi); [|apply Hwf|lia].
  assert (k ≠ 0%nat) by (intros ->; specialize (Hhi _ _ (le_n 0) Hp0); lia).
  rewrite wrap32_id by (unfold kInt32Min in *; lia).
  split; [lia|]. right.
  destruct (lookup_lt_is_Some_2 (part_vec_ p) (k - 1)) as [lo Hlok]; [lia|].
  exists lo. replace (Z.to_nat (Z.of_nat k - 1)) with (k - 1)%nat by lia.
  split_and!; [done|apply (Hlo (k - 1)%nat); [lia|done]|].
  intros hi Hhik. apply (Hhi k); [lia|]. rewrite <- Hhik. f_equal. lia.
Qed.

Lemma in_arc_unique p i j key :
  wf p → in_arc p i key → in_arc p j key → i = j.
Proof.
  intros Hwf [Hi Hi'] [Hj Hj'].
  assert (∀ a b lo, 0 ≤ a < b → part_vec_ p !! Z.to_nat b = Some lo → lo ≤ key →
    (∀ hi, part_vec_ p !! Z.to_nat (a + 1) = Some hi → key < hi) → False) as Hcross.
  { intros a b lo Hab Hlo Hle Hhi.
    destruct (lookup_lt_is_Some_2 (part_vec_ p) (Z.to_nat (a + 1))) as [y Hy].
    { apply lookup_lt_Some in Hlo. lia. }
    pose proof (StronglySorted_lookup Z.le (part_vec_ p) (Z.to_nat (a + 1)) (Z.to_nat b) y lo
      (wf_sorted p Hwf) ltac:(lia) Hy Hlo). specialize (Hhi y Hy). lia. }
  assert (∀ lo b p0, part_vec_ p !! Z.to_nat b = Some lo → part_vec_ p !! 0%nat = Some p0 →
    key < p0 → lo ≤ key → False) as Hlow.
  { intros lo b p0 Hlo Hp0 ??.
    pose proof (StronglySorted_lookup Z.le (part_vec_ p) 0 (Z.to_nat b) p0 lo
      (wf_sorted p Hwf) ltac:(lia) Hp0 Hlo). lia. }
  destruct Hi' as [(-> & p0 & Hp0 & ?)|(lo & Hlo & ? & Hhi)],
    Hj' as [(-> & p0' & Hp0' & ?)|(lo' & Hlo' & ? & Hhi')]; [done|exfalso; eauto|exfalso; eauto|].
  destruct (Z.lt_total i j) as [|[|]]; [exfalso|done|exfalso].
  - apply (Hcross i j lo'); auto; lia.
  - apply (Hcross j i lo); auto; lia.
Qed.

Lemma GetServerByKey_out p key : ¬ (0 ≤ key < key_range_ p) → GetServerByKey p key = Ok (-1).
Proof.
  intros H. unfold GetServerByKey.
  destruct (Z.ltb_spec key 0), (Z.leb_spec (key_range_ p) key); try done; lia.
Qed.

(** [GetServerByKey] in terms of the arc it found, ready for rewriting. *)
Lemma GetServerByKey_Ok p key :
  wf p → 0 ≤ key < key_range_ p → ∃ i, GetServerByKey p key = Ok i ∧ in_arc p i key.
Proof. intros. by apply returns_elim, GetServerByKey_arc. Qed.

Lemma in_arc_upper p i key p0 :
  in_arc p i key → part_vec_ p !! 0%nat = Some p0 → p0 ≤ key →
  ∃ lo, part_vec_ p !! Z.to_nat i = Some lo ∧ lo ≤ key ∧
    ∀ hi, part_vec_ p !! Z.to_nat (i + 1) = Some hi → key < hi.
Proof. intros [_ [(_ & p0' & Hp0' & ?)|?]] Hp0 ?; [simplify_eq; lia|done]. Qed.

Lemma in_arc_lower p i key p0 :
  wf p → in_arc p i key → part_vec_ p !! 0%nat = Some p0 → key < p0 → i = server_num_ p - 1.
Proof.
  intros Hwf [? [(? & _)|(lo & Hlo & ? & _)]] Hp0 ?; [done|].
  pose proof (StronglySorted_lookup Z.le (part_vec_ p) 0 (Z.to_nat i) p0 lo
    (wf_sorted p Hwf) ltac:(lia) Hp0 Hlo). lia.
Qed.

(** ** Slicing *)

Section next_ending.
Context (p : Partition) (Hwf : wf p).
Context (keys : list Z) (Hlen : zlen keys ≤ kInt32Max).
Context (start k p0 : Z) (Hstart : 0 ≤ start).
Context (Hk : keys !! Z.to_nat start = Some k) (Hrange : 0 ≤ k < key_range_ p).
Context (Hp0 : part_vec_ p !! 0%nat = Some p0).

Lemma next_ending_len : start < zlen keys.
Proof using Hk Hstart. apply lookup_lt_Some in Hk. lia. Qed.

(** The three ways out of [NextEnding], with the bound each one searches for. *)
Lemma NextEnding_cases :
  ∃ sid e, NextEnding p keys start = Ok (Z.of_nat e, sid) ∧ in_arc p sid k ∧
    ((k < p0 ∧ sid = server_num_ p - 1 ∧ e = lower_bound keys (Z.to_nat start) p0) ∨
     (p0 ≤ k ∧ sid = server_num_ p - 1 ∧ e = length keys) ∨
     (p0 ≤ k ∧ sid < server_num_ p - 1 ∧ ∃ v,
        part_vec_ p !! Z.to_nat (sid + 1) = Some v ∧ k < v ∧
        e = lower_bound keys (Z.to_nat start) v)).
Proof using All.
  pose proof (wf_servers p Hwf) as Hn. pose proof (wf_size p Hwf) as Hsize.
  pose proof next_ending_len as Hs.
  assert (∀ v, lower_bound keys (Z.to_nat start) v ≤ length keys)%nat as Hle.
  { intros v. unfold lower_bound.
    pose proof (bsearch_bounds (λ x, x <? v) keys (length keys - Z.to_nat start)
      (Z.to_nat start) (length keys - Z.to_nat start)). lia. }
  destruct (GetServerByKey_Ok p k Hwf Hrange) as (sid & Hsid & Harc).
  pose proof Harc as [Hb _].
  unfold NextEnding. rewrite (vec_get_Ok keys start k) by done. simpl.
  rewrite Hsid. simpl. rewrite (vec_get_Ok (part_vec_ p) 0 p0) by done. simpl.
  destruct (Z.ltb_spec k p0) as [Hlow|Hhigh].
  - exists sid, (lower_bound keys (Z.to_nat start) p0).
    pose proof (Hle p0). rewrite wrap32_id by (unfold kInt32Min; lia).
    split_and!; [done|done|]. left. by pose proof (in_arc_lower p sid k p0 Hwf Harc Hp0 Hlow).
  - rewrite (i32_Ok (server_num_ p - 1)) by (unfold kInt32Min; lia). simpl.
    destruct (Z.eqb_spec sid (server_num_ p - 1)) as [Heq|Hne].
    + exists sid, (length keys). rewrite wrap32_id by (unfold kInt32Min; lia).
      split_and!; [done|done|]. right; left. done.
    + rewrite i32_Ok by (unfold kInt32Min; lia). simpl.
      destruct (vec_get_lt (part_vec_ p) (sid + 1)) as (v & Hv & Hv'); [lia|].
      rewrite Hv. simpl. pose proof (Hle v). rewrite wrap32_id by (unfold kInt32Min; lia).
      exists sid, (lower_bound keys (Z.to_nat start) v).
      destruct (in_arc_upper p sid k p0 Harc Hp0 Hhigh) as (lo & _ & _ & Hhi).
      split_and!; [done|done|]. right; right. split_and!; [done|lia|].
      exists v. split_and!; auto.
Qed.

(** Progress needs no order on the keys: the slice is never empty. *)
Lemma NextEnding_advances : NextEnding p keys start ⇓ λ '(e, sid), start < e ≤ zlen keys.
Proof using All.
  pose proof next_ending_len as Hs.
  destruct NextEnding_cases as (sid & e & -> & _ & H). simpl.
  destruct H as [(? & _ & ->)|[(_ & _ & ->)|(_ & _ & v & _ & Hv & ->)]]; [|lia|].
  - pose proof (lower_bound_progress keys (Z.to_nat start) p0 k Hk). lia.
  - pose proof (lower_bound_progress keys (Z.to_nat start) v k Hk). lia.
Qed.

(** On sorted keys the whole slice belongs to the returned server, and the
    key at the end is in another arc or on the other side of [part_vec_[0]]. *)
Lemma NextEnding_owner (Hsorted : sorted_le keys) :
  NextEnding p keys start ⇓ λ '(e, sid),
    (∀ j x, start ≤ j < e → keys !! Z.to_nat j = Some x → in_arc p sid x) ∧
    (∀ x, keys !! Z.to_nat e = Some x → in_arc p sid x → k < p0 ≤ x).
Proof using All.
  pose proof next_ending_len as Hs.
  assert (∀ j x, start ≤ j → keys !! Z.to_nat j = Some x → k ≤ x) as Hmono.
  { intros j x Hj Hx. apply (StronglySorted_lookup Z.le keys (Z.to_nat start) (Z.to_nat j)); auto; lia. }
  destruct NextEnding_cases as (sid & e & -> & Harc & H). cbn [returns].
  pose proof Harc as [Hb _]. rewrite Nat2Z.id.
  destruct H as [(Hlow & Hsid & He)|[(Hhigh & Hsid & ->)|(Hhigh & Hsid & v & Hv & Hkv & He)]].
  - symmetry in He. apply lower_bound_spec in He as (_ & Hlt & Hge); [|done|lia].
    split.
    + intros j x Hj Hx. split; [done|]. left. split; [done|]. exists p0. split; [done|].
      apply (Hlt (Z.to_nat j)); [lia|done].
    + intros x Hx _. split; [done|]. by apply (Hge e).
  - destruct (in_arc_upper p sid k p0 Harc Hp0 Hhigh) as (lo & Hlo & Hle & Hhi). split.
    + intros j x Hj Hx. split; [done|]. right. exists lo. split; [done|].
      specialize (Hmono j x ltac:(lia) Hx). split; [lia|].
      intros hi Hlk. apply lookup_lt_Some in Hlk. pose proof (wf_size p Hwf). lia.
    + intros x Hx. apply lookup_lt_Some in Hx. lia.
  - destruct (in_arc_upper p sid k p0 Harc Hp0 Hhigh) as (lo & Hlo & Hle & Hhi).
    symmetry in He. apply lower_bound_spec in He as (_ & Hlt & Hge); [|done|lia]. split.
    + intros j x Hj Hx. split; [done|]. right. exists lo. split; [done|].
      specialize (Hmono j x ltac:(lia) Hx). split; [lia|].
      intros hi Hlk. rewrite Hv in Hlk. simplify_eq. apply (Hlt (Z.to_nat j)); [lia|done].
    + intros x Hx Harcx. pose proof (Hge e x (le_n e) Hx) as Hvx. exfalso.
      destruct (in_arc_upper p sid x p0 Harcx Hp0 ltac:(lia)) as (_ & _ & _ & Hhix).
      specialize (Hhix v Hv). lia.
Qed.
End next_ending.

(** ** Initialisation *)

Lemma Initialize_array_Ok key_range n part_vec p :
  0 ≤ n ≤ zlen part_vec →
  Initialize_array key_range n part_vec p = Ok (mkPartition key_range n (take (Z.to_nat n) part_vec), true).
Proof.
  intros Hn. unfold Initialize_array.
  rewrite (for_collect (vec_get part_vec) part_vec [] id) by (auto with rpscc lia).
  simpl. by rewrite list_fmap_id.
Qed.

Lemma mkPartition_wf key_range n part_vec :
  0 < n ≤ kInt32Max → zlen part_vec = n → sorted_le part_vec →
  Forall (λ x, 0 ≤ x < key_range) part_vec → wf (mkPartition key_range n part_vec).
Proof. by constructor. Qed.

(** ** Properties *)

(** C19: the binary search of [GetServerByKey] agrees with the arcs of the
    partition vector. On a well-formed partition it always returns; a key of
    the key range gets the one server whose arc holds it, and any other key
    gets -1. *)
Theorem GetServerByKey_owner (p : Partition) (key : Z) (Hwf : wf p) :
  ∃ i, GetServerByKey p key = Ok i ∧
    ((0 ≤ key < key_range_ p ∧ ∀ j, in_arc p j key ↔ j = i) ∨
     (¬ (0 ≤ key < key_range_ p) ∧ i = -1)).
Proof.
  destruct (decide (0 ≤ key < key_range_ p)) as [Hk|Hk].
  - destruct (GetServerByKey_Ok p key Hwf Hk) as (i & Hi & Harc).
    exists i. split; [done|]. left. split; [done|]. intros j. split; [|by intros ->].
    intros. by eapply in_arc_unique.
  - exists (-1). rewrite GetServerByKey_out by done. auto.
Qed.

(** [NextEnding] cuts sorted keys correctly: the slice that starts at
    [start] is not empty, every key of it belongs to the server returned, and
    the first key after it belongs to another server, except where the slice
    stopped at [part_vec_[0]] (the last server owns keys on both sides). *)
Theorem NextEnding_slice (p : Partition) (keys : list Z) (start : Z)
    (Hwf : wf p) (Hsorted : sorted_le keys) (Hlen : zlen keys ≤ kInt32Max)
    (Hstart : 0 ≤ start < zlen keys) (Hrange : Forall (λ k, 0 ≤ k < key_range_ p) keys) :
  ∃ e sid, NextEnding p keys start = Ok (e, sid) ∧ start < e ≤ zlen keys ∧
    (∀ j x, start ≤ j < e → keys !! Z.to_nat j = Some x → in_arc p sid x) ∧
    (∀ x, keys !! Z.to_nat e = Some x → in_arc p sid x →
       ∃ k p0, keys !! Z.to_nat start = Some k ∧ part_vec_ p !! 0%nat = Some p0 ∧ k < p0 ≤ x).
Proof.
  destruct (lookup_lt_is_Some_2 keys (Z.to_nat start)) as [k Hk]; [lia|].
  destruct (wf_first p Hwf) as (p0 & Hp0 & _).
  assert (0 ≤ k < key_range_ p) as Hkr by (rewrite Forall_lookup in Hrange; eauto).
  assert (Hs : 0 ≤ start) by lia.
  pose proof (NextEnding_advances p Hwf keys Hlen start k p0 Hs Hk Hkr Hp0) as H1.
  pose proof (NextEnding_owner p Hwf keys Hlen start k p0 Hs Hk Hkr Hp0 Hsorted) as H2.
  destruct (NextEnding p keys start) as [[e sid]|]; [|done]. simpl in *.
  exists e, sid. destruct H2 as [H2 H3]. split_and!; auto; [lia..|].
  intros x Hx Harc. exists k, p0. eauto.
Qed.

(** [NextEnding] advances even on keys that are not sorted (which
    [SortKeyValue] can leave behind), so the loops of [Push] and [Pull]
    that follow it end. Only the key at [start] has to be in range. *)
Theorem NextEnding_progress (p : Partition) (keys : list Z) (start k : Z)
    (Hwf : wf p) (Hlen : zlen keys ≤ kInt32Max) (Hstart : 0 ≤ start)
    (Hk : keys !! Z.to_nat start = Some k) (Hrange : 0 ≤ k < key_range_ p) :
  ∃ e sid, NextEnding p keys start = Ok (e, sid) ∧ start < e ≤ zlen keys.
Proof.
  destruct (wf_first p Hwf) as (p0 & Hp0 & _).
  pose proof (NextEnding_advances p Hwf keys Hlen start k p0 Hstart Hk Hrange Hp0) as H.
  destruct (NextEnding p keys start) as [[e sid]|]; [|done]. by exists e, sid.
Qed.

(** ** Witnesses

    The partition and the keys of src/agent/partition_test.cc. *)

Definition test_partition : Partition :=
  mkPartition 100 10 [0; 11; 22; 33; 44; 55; 66; 77; 88; 99].
Definition test_keys : list Z := (λ i, i * 6) <$> seqZ 0 16.

Ltac check_sorted := repeat (constructor || (vm_compute; discriminate)).

Lemma test_partition_wf : wf test_partition.
Proof.
  constructor; [vm_compute; split; [done|discriminate]|done|check_sorted|].
  repeat constructor; vm_compute; done.
Defined.

Example GetServerByKey_owner_witness :
  GetServerByKey test_partition 18 = Ok 1 ∧ ∃ i, GetServerByKey test_partition 18 = Ok i ∧
    ((0 ≤ 18 < 100 ∧ ∀ j, in_arc test_partition j 18 ↔ j = i) ∨ (¬ (0 ≤ 18 < 100) ∧ i = -1)).
Proof. split; [done|]. apply (GetServerByKey_owner test_partition 18 test_partition_wf). Defined.

Example NextEnding_slice_witness :
  ∃ e sid, NextEnding test_partition test_keys 2 = Ok (e, sid) ∧ 2 < e ≤ zlen test_keys ∧
    (∀ j x, 2 ≤ j < e → test_keys !! Z.to_nat j = Some x → in_arc test_partition sid x) ∧
    (∀ x, test_keys !! Z.to_nat e = Some x → in_arc test_partition sid x →
       ∃ k p0, test_keys !! Z.to_nat 2 = Some k ∧ part_vec_ test_partition !! 0%nat = Some p0 ∧ k < p0 ≤ x).
Proof.
  apply (NextEnding_slice test_partition test_keys 2 test_partition_wf);
    [check_sorted|vm_compute; discriminate|vm_compute; done|].
  repeat constructor; vm_compute; done.
Defined.

Example NextEnding_progress_witness :
  ∃ e sid, NextEnding test_partition [40; 7; 90] 0 = Ok (e, sid) ∧ 0 < e ≤ 3.
Proof.
  apply (NextEnding_progress test_partition [40; 7; 90] 0 40 test_partition_wf);
    [vm_compute; discriminate|done|done|done].
Defined.

End Partition.
