(* ===== verification/Float32.v ===== *)
(** * [float32]: IEEE 754 binary32 (src/util/common.h, line 197)

    The parameters are C++ [float]s. They are modelled by the Standard
    Library's executable specification of IEEE arithmetic at precision 24 and
    maximal exponent 128, rounding to nearest, ties to even (NaN payloads are
    not distinguished). *)

From S2P Require Import Prelude.
From Stdlib Require Import SpecFloat.
From stdpp Require Import options.

Abbreviation float32 := spec_float.

#[export] Instance float32_eq_dec : EqDecision float32.
Proof. intros x y. change ({x = y} + {x ≠ y}). repeat decide equality. Defined.

(** [0.0f] *)
Definition f0 : float32 := S754_zero false.
(** [a + b] *)
Definition fadd (a b : float32) : float32 := SFadd 24 128 a b.
(** [a / b] *)
Definition fdiv (a b : float32) : float32 := SFdiv 24 128 a b.
(** the conversion of an [int32] operand to [float] *)
Definition f_of_int (n : Z) : float32 := binary_normalize 24 128 n 0 false.

(** The [float] nearest to [m * 2^e]. *)
Definition literal (m e : Z) : float32 := binary_normalize 24 128 m e false.

(** Sum of a sequence, from left to right, starting at [a]. *)
Definition fsum (a : float32) (l : list float32) : float32 := foldl fadd a l.

Lemma fadd_0_l x : x ≠ S754_zero true → fadd f0 x = x.
Proof. by destruct x as [[]|[]| |]. Qed.

Lemma fadd_comm a b : fadd a b = fadd b a.
Proof.
  destruct a as [[]|[]| |? ? ?], b as [[]|[]| |? ? ?]; try done.
  all: unfold fadd, SFadd; rewrite Z.min_comm, Z.add_comm; done.
Qed.

Lemma fsum_app a l1 l2 : fsum a (l1 ++ l2) = fsum (fsum a l1) l2.
Proof. apply foldl_app. Qed.

(** [0.0f], [1.0f], ... as the program writes them. *)
Example f_of_int_1 : f_of_int 1 = S754_finite false 8388608 (-23).
Proof. reflexivity. Qed.
Example fdiv_half : fadd (fdiv (f_of_int 1) (f_of_int 2)) (fdiv (f_of_int 1) (f_of_int 2)) = f_of_int 1.
Proof. reflexivity. Qed.
