(* ===== verification/Messages.v ===== *)
(** * The wire messages (src/message/message.proto)

    The protobuf classes the nodes exchange, as records: a sub-message field
    is an [option] ([has_x] is its presence, [x()] its value or the default
    instance), a repeated field a list, and an enum field keeps unknown values
    as proto3 does. *)

From S2P Require Import Prelude Float32.
From stdpp Require Import options.

Inductive MessageType : Set :=
| mt_config | mt_request | mt_heartbeat | mt_register | mt_terminate
| mt_unknown (n : Z).

Inductive RequestType : Set :=
| rt_key_value | rt_key | rt_ack | rt_block
| rt_unknown (n : Z).

#[export] Instance MessageType_eq_dec : EqDecision MessageType.
Proof. intros x y. change ({x = y} + {x ≠ y}). decide equality; apply Z.eq_dec. Defined.
#[export] Instance RequestType_eq_dec : EqDecision RequestType.
Proof. intros x y. change ({x = y} + {x ≠ y}). decide equality; apply Z.eq_dec. Defined.

Record RequestMessage := mkRequest {
  request_type : RequestType;
  keys : list Z;
  values : list float32;
}.

Record ConfigMessage := mkConfig {
  worker_num : Z;
  server_num : Z;
  key_range : Z;
  node_ip_port : list string;
  partition : list Z;
  backup_size : Z;
  server_id : list Z;
  worker_id : list Z;
  master_id : list Z;
  bound : Z;
}.

Record RegisterMessage := mkRegister {
  ip : string;
  port : Z;
  is_server : bool;
}.

Record HeartbeatMessage := mkHeartbeat {
  is_live : bool;
  agent_epoch_num : Z;
}.

Record Message := mkMessage {
  send_id : Z;
  recv_id : Z;
  message_type : MessageType;
  config_msg_ : option ConfigMessage;
  request_msg_ : option RequestMessage;
  heartbeat_msg_ : option HeartbeatMessage;
  register_msg_ : option RegisterMessage;
}.

#[export] Instance ConfigMessage_eta : Eta ConfigMessage := λ c,
  mkConfig (worker_num c) (server_num c) (key_range c) (node_ip_port c) (partition c)
    (backup_size c) (server_id c) (worker_id c) (master_id c) (bound c).
#[export] Instance Message_eta : Eta Message := λ m,
  mkMessage (send_id m) (recv_id m) (message_type m) (config_msg_ m) (request_msg_ m)
    (heartbeat_msg_ m) (register_msg_ m).

(** Default instances: what a reader of an absent sub-message gets. *)
Definition default_request : RequestMessage := mkRequest rt_key_value [] [].
Definition default_config : ConfigMessage := mkConfig 0 0 0 [] [] 0 [] [] [] 0.
Definition default_register : RegisterMessage := mkRegister EmptyString 0 false.
Definition default_heartbeat : HeartbeatMessage := mkHeartbeat false 0.
(** [new Message] *)
Definition empty_message : Message := mkMessage 0 0 mt_config None None None None.

Definition config_msg (m : Message) : ConfigMessage := default default_config (config_msg_ m).
Definition request_msg (m : Message) : RequestMessage := default default_request (request_msg_ m).
Definition heartbeat_msg (m : Message) : HeartbeatMessage := default default_heartbeat (heartbeat_msg_ m).
Definition register_msg (m : Message) : RegisterMessage := default default_register (register_msg_ m).

Definition has_config_msg (m : Message) : bool := bool_decide (is_Some (config_msg_ m)).
Definition has_request_msg (m : Message) : bool := bool_decide (is_Some (request_msg_ m)).
Definition has_heartbeat_msg (m : Message) : bool := bool_decide (is_Some (heartbeat_msg_ m)).
