(* ===== verification/NetworkUtil.v ===== *)
(** * Finding the address of this machine (src/util/network_util.h)

    Agent and server ask for the address of a network interface by name before
    they register. The list the operating system returns is an argument. *)

From S2P Require Import Prelude Decimal.
From Stdlib Require String.
From Stdlib Require Import Ascii.
From stdpp Require Import options.

(** ** [struct ifaddrs] *)

(** A socket address: its family and, for [AF_INET], the four bytes of
    [sin_addr] in network order. *)
Record sockaddr := mkSockaddr {
  sa_family : Z;
  sin_addr : Z * Z * Z * Z;
}.

Record ifaddrs := mkIfaddrs {
  ifa_name : string;
  ifa_flags : Z;
  ifa_addr : option sockaddr;
}.

Definition AF_INET : Z := 2.
Definition IFF_LOOPBACK : Z := 8.

(** [inet_ntop] for [AF_INET]: the bytes in decimal, with dots between them. *)
Definition inet_ntop (addr : Z * Z * Z * Z) : bytes :=
  let '(a, b, c, d) := addr in
  to_string a ++ "."%char :: to_string b ++ "."%char :: to_string c ++ "."%char :: to_string d.

(** [strncmp] on C strings, which end at their first null byte. *)
Fixpoint strncmp (s1 s2 : bytes) (n : nat) : Z :=
  match n with
  | O => 0
  | S n =>
      let c1 := default "000"%char (head s1) in
      let c2 := default "000"%char (head s2) in
      if decide (c1 = c2) then if decide (c1 = "000"%char) then 0 else strncmp (tail s1) (tail s2) n
      else Z.of_nat (nat_of_ascii c1) - Z.of_nat (nat_of_ascii c2)
  end.

(** The names of interfaces and the flag as C strings. *)
Definition chars (s : string) : bytes := String.list_ascii_of_string s.

Definition is_ipv4 (ifa : ifaddrs) : bool :=
  match ifa_addr ifa with Some a => sa_family a =? AF_INET | None => false end.
Definition address_of (ifa : ifaddrs) : bytes :=
  match ifa_addr ifa with Some a => inet_ntop (sin_addr a) | None => [] end.

(** [GetIP]; the text in [ip] stays when no interface fits. *)
Fixpoint GetIP (ifAddrStruct : list ifaddrs) (interface : string) (ip : bytes) : bytes :=
  match ifAddrStruct with
  | [] => ip
  | ifa :: ifa_next =>
      if is_ipv4 ifa then
        if strncmp (chars (ifa_name ifa)) (chars interface) (length (chars interface)) =? 0 then address_of ifa
        else GetIP ifa_next interface ip
      else GetIP ifa_next interface ip
  end.

(** The loop of [GetAvailableInterfaceAndIP], after the results were cleared. *)
Fixpoint first_available (ifAddrStruct : list ifaddrs) : string * bytes :=
  match ifAddrStruct with
  | [] => (EmptyString, [])
  | ifa :: ifa_next =>
      if is_ipv4 ifa && (Z.land (ifa_flags ifa) IFF_LOOPBACK =? 0) then (ifa_name ifa, address_of ifa)
      else first_available ifa_next
  end.
Definition GetAvailableInterfaceAndIP (ifAddrStruct : list ifaddrs) : string * bytes := first_available ifAddrStruct.

(** ** Which interface is found *)

Definition no_null (l : bytes) : Prop := Forall (λ c, c ≠ "000"%char) l.

(** Comparing as many characters as the second string has is a test for a prefix. *)
Lemma strncmp_prefix s1 s2 : no_null s1 → no_null s2 → strncmp s1 s2 (length s2) = 0 ↔ s2 `prefix_of` s1.
Proof.
  intros H1 H2. revert s1 H1. induction H2 as [|c2 s2 Hc2 _ IH]; intros s1 H1; cbn [length strncmp].
  { split; [intros _; apply prefix_nil|done]. }
  destruct H1 as [|c1 s1 Hc1 H1]; cbn [head default tail].
  - rewrite decide_False by done. split; [|by intros ?%prefix_nil_inv].
    intros Hz. exfalso. apply Hc2. rewrite <- (ascii_nat_embedding c2).
    replace (nat_of_ascii c2) with 0%nat; [done|]. change (nat_of_ascii "000"%char) with 0%nat in Hz. cbn in Hz. lia.
  - cbn. destruct (decide (c1 = c2)) as [->|Hne].
    + rewrite decide_False by done. rewrite IH by done. split; [by apply prefix_cons|by apply prefix_cons_inv_2].
    + split.
      * intros Hz. exfalso. apply Hne. rewrite <- (ascii_nat_embedding c1), <- (ascii_nat_embedding c2). f_equal. lia.
      * by intros ?%prefix_cons_inv_1.
Qed.

(** An IPv4 interface whose name begins with the one asked for. *)
Definition fits (interface : string) (ifa : ifaddrs) : Prop :=
  is_ipv4 ifa = true ∧ chars interface `prefix_of` chars (ifa_name ifa).
#[export] Instance fits_dec interface ifa : Decision (fits interface ifa).
Proof. unfold fits. apply _. Defined.

(** [GetIP] finds the first address of an interface whose name begins with
    the one asked for, and otherwise leaves the text as it was. The
    comparison stops at the length of the name asked for: "eth1" also fits
    "eth10", and the default name, which is empty, fits every interface, the
    loopback one included. *)
Theorem GetIP_spec l interface ip
    (Hname : no_null (chars interface)) (Hnames : Forall (λ ifa, no_null (chars (ifa_name ifa))) l) :
  GetIP l interface ip = match list_find (fits interface) l with Some (_, ifa) => address_of ifa | None => ip end ∧
  (interface = EmptyString → ∀ ifa rest, l = ifa :: rest → is_ipv4 ifa = true → GetIP l interface ip = address_of ifa).
Proof.
  split.
  - induction Hnames as [|ifa l Hifa _ IH]; [done|]. cbn [GetIP list_find].
    destruct (is_ipv4 ifa) eqn:Hip.
    + destruct (Z.eqb_spec (strncmp (chars (ifa_name ifa)) (chars interface) (length (chars interface))) 0) as [Heq|Heq];
        rewrite strncmp_prefix in Heq by done.
      * by rewrite decide_True by done.
      * rewrite decide_False by (by intros [_ ?]). rewrite IH. by destruct (list_find _ l) as [[]|].
    + rewrite decide_False by (intros [? _]; congruence). rewrite IH. by destruct (list_find _ l) as [[]|].
  - intros -> ifa rest -> Hip. cbn. by rewrite Hip.
Qed.

(** Two interfaces of a machine: asked for "eth1", [GetIP] answers with the
    address of "eth10", which comes first. *)
Definition eth (name : string) (flags d : Z) : ifaddrs := mkIfaddrs name flags (Some (mkSockaddr AF_INET (10, 0, 0, d))).

Example GetIP_spec_witness :
  GetIP [eth "eth10" 1 7; eth "eth1" 1 3] "eth1" [] = chars "10.0.0.7" ∧
  (("eth1" : string) = EmptyString → ∀ ifa rest, [eth "eth10" 1 7; eth "eth1" 1 3] = ifa :: rest → is_ipv4 ifa = true →
    GetIP [eth "eth10" 1 7; eth "eth1" 1 3] "eth1" [] = address_of ifa).
Proof.
  apply (GetIP_spec [eth "eth10" 1 7; eth "eth1" 1 3] "eth1" []).
  - by repeat constructor.
  - by repeat constructor.
Defined.
