(* ===== verification/Communicator.v ===== *)
(** * What a node expects of its communicator (src/communication/communicator.h)

    The abstract class [Communicator], as a type class: the operations the
    server, the agent and the master call on [sender_], and two observations,
    the messages handed over so far and the address book. The laws are the
    promises the callers rely on. A message is given to [Send] before its
    serialisation, which is generated code. *)

From S2P Require Import Prelude CppStd Float32 Messages.
From stdpp Require Import options.

Class Communicator (C : Type) := {
  (** Returns the number of bytes sent, or -1. *)
  Send : Z → Message → C → Z * C;
  AddIdAddr : Z → string → C → bool * C;
  DeleteId : Z → C → bool * C;
  CheckIdAddr : Z → string → C → bool;
  (** Messages handed over for delivery, oldest first. *)
  outbox : C → list (Z * Message);
  (** The map from node id to address. *)
  book : C → gmap Z string;
}.

Class CommunicatorLaws (C : Type) `{Communicator C} : Prop := {
  Send_outbox d m c : outbox (Send d m c).2 = outbox c ++ [(d, m)];
  Send_book d m c : book (Send d m c).2 = book c;
  AddIdAddr_outbox i a c : outbox (AddIdAddr i a c).2 = outbox c;
  AddIdAddr_book i a c : book (AddIdAddr i a c).2 = map_insert_new i a (book c);
  DeleteId_outbox i c : outbox (DeleteId i c).2 = outbox c;
  DeleteId_book i c : book (DeleteId i c).2 = delete i (book c);
  CheckIdAddr_book i a c : CheckIdAddr i a c = bool_decide (book c !! i = Some a);
}.
#[export] Hint Rewrite @Send_outbox @Send_book @AddIdAddr_outbox @AddIdAddr_book
  @DeleteId_outbox @DeleteId_book : rpscc.

(** The least communicator with these laws: a log and an address book. *)
Record Trace := mkTrace {
  trace_log : list (Z * Message);
  trace_book : gmap Z string;
}.

#[export] Instance Trace_Communicator : Communicator Trace := {
  Send d m c := (0, mkTrace (trace_log c ++ [(d, m)]) (trace_book c));
  AddIdAddr i a c :=
    (bool_decide (trace_book c !! i = None), mkTrace (trace_log c) (map_insert_new i a (trace_book c)));
  DeleteId i c :=
    (bool_decide (is_Some (trace_book c !! i)), mkTrace (trace_log c) (delete i (trace_book c)));
  CheckIdAddr i a c := bool_decide (trace_book c !! i = Some a);
  outbox := trace_log;
  book := trace_book;
}.

#[export] Instance Trace_laws : CommunicatorLaws Trace.
Proof. by constructor. Qed.

Definition new_trace : Trace := mkTrace [] ∅.

Section sends.
Set Default Proof Using "Type*".
Context {C : Type} `{CommunicatorLaws C}.

(** [c'] is [c] after handing over [ms]. *)
Definition sends (c c' : C) (ms : list (Z * Message)) : Prop :=
  outbox c' = outbox c ++ ms ∧ book c' = book c.

Lemma sends_nil c : sends c c [].
Proof. split; [by rewrite app_nil_r|done]. Qed.

Lemma sends_app c1 c2 c3 ms ns : sends c1 c2 ms → sends c2 c3 ns → sends c1 c3 (ms ++ ns).
Proof. intros [H1 H2] [H3 H4]. split; [by rewrite H3, H1, app_assoc|congruence]. Qed.

Lemma sends_one d m c : sends c (Send d m c).2 [(d, m)].
Proof. split; [apply Send_outbox|apply Send_book]. Qed.
End sends.
