(* ===== verification/KeyValueList.v ===== *)
(** * The server's data classes

    [KeyValueList] (src/server/key_value_list.{h,cc}): one pushed update as
    two parallel vectors. [PullInfo] (src/server/pull_info.{h,cc}): a pull
    request that is blocked for consistency. *)

From S2P Require Import Prelude Float32.
From stdpp Require Import options.

Module KeyValueList.

Record t := mk {
  length_ : Z;
  keys_ : list Z;
  values_ : list float32;
}.
#[export] Instance t_eta : Eta t := λ x, mk (length_ x) (keys_ x) (values_ x).
#[global] Instance t_eq_dec : EqDecision t.
Proof. solve_decision. Defined.

(** The constructor [KeyValueList()]. *)
Definition init : t := mk 0 [] [].

Definition AddPair (key : Z) (value : float32) (x : t) : res t :=
  let x := x <| keys_ ::= (λ l, l ++ [key]) |> <| values_ ::= (λ l, l ++ [value]) |> in
  n ← i32 (length_ x + 1);
  mret (x <| length_ := n |>).

Definition Key (x : t) (index : Z) : res Z := vec_get (keys_ x) index.
Definition Value (x : t) (index : Z) : res float32 := vec_get (values_ x) index.
Definition Length (x : t) : Z := length_ x.

(** The pairs of the list, in the order they were added. *)
Definition pairs (x : t) : list (Z * float32) := zip (keys_ x) (values_ x).

(** The two vectors and the counter agree. *)
Record wf (x : t) : Prop := mkwf {
  wf_keys : zlen (keys_ x) = length_ x;
  wf_values : zlen (values_ x) = length_ x;
}.

Lemma init_wf : wf init.
Proof. by constructor. Qed.

Lemma AddPair_Ok k v x :
  wf x → zlen (pairs x) < kInt32Max →
  ∃ x', AddPair k v x = Ok x' ∧ wf x' ∧ pairs x' = pairs x ++ [(k, v)].
Proof.
  intros [Hk Hv] Hlen. unfold pairs in Hlen. rewrite length_zip_with in Hlen.
  unfold AddPair. cbn. rewrite i32_Ok by (unfold kInt32Min; lia). cbn.
  eexists. split; [done|]. split.
  - constructor; cbn; rewrite length_app; simpl; lia.
  - unfold pairs; cbn. rewrite zip_with_app by lia. done.
Qed.

Lemma pairs_length x : wf x → zlen (pairs x) = Length x.
Proof. intros [Hk Hv]. unfold pairs, Length. rewrite length_zip_with. lia. Qed.

(** Reading back: index [i] gives the [i]-th pair added. *)
Lemma Key_Value_pairs x i k v :
  wf x → 0 ≤ i → pairs x !! Z.to_nat i = Some (k, v) → Key x i = Ok k ∧ Value x i = Ok v.
Proof.
  intros Hwf Hi Hp. unfold pairs in Hp.
  apply lookup_zip_with_Some in Hp as (k' & v' & [= <- <-] & Hk & Hv).
  split; apply vec_get_Ok; done.
Qed.

End KeyValueList.

Module PullInfo.

Record t := mk {
  length_ : Z;
  id_ : Z;
  keys_ : list Z;
}.
#[export] Instance t_eta : Eta t := λ x, mk (length_ x) (id_ x) (keys_ x).
#[global] Instance t_eq_dec : EqDecision t.
Proof. solve_decision. Defined.

(** The constructor [PullInfo()]. *)
Definition init : t := mk 0 0 [].

Definition AddKey (key : Z) (x : t) : res t :=
  let x := x <| keys_ ::= (λ l, l ++ [key]) |> in
  n ← i32 (length_ x + 1);
  mret (x <| length_ := n |>).

Definition Key (x : t) (index : Z) : res Z := vec_get (keys_ x) index.
Definition Length (x : t) : Z := length_ x.
Definition get_id (x : t) : Z := id_ x.
Definition set_id (id : Z) (x : t) : t := x <| id_ := id |>.

Definition wf (x : t) : Prop := zlen (keys_ x) = length_ x.

Lemma pull_init_wf : wf init.
Proof. done. Qed.

Lemma AddKey_Ok k x :
  wf x → length_ x < kInt32Max →
  AddKey k x = Ok (mk (length_ x + 1) (id_ x) (keys_ x ++ [k])) ∧
  wf (mk (length_ x + 1) (id_ x) (keys_ x ++ [k])).
Proof.
  unfold wf. intros Hwf Hlen. unfold AddKey. cbn.
  rewrite i32_Ok by (unfold kInt32Min; lia). cbn. split; [done|].
  rewrite length_app; simpl; lia.
Qed.

End PullInfo.
