(* ===== verification/Ssp.v ===== *)
(** * The consistency contract: stale synchronous parallel

    The class comment of src/server/server.h says what the server promises:
    every agent signals the end of its work on a version, and the server keeps
    the agents within [bound] versions of the slowest one (BSP when the bound
    is 1). This file states that contract on its own: a clock per agent, the
    slowest clock, and which pushes and pulls are allowed. ServerProps.v shows
    that the server refines it. *)

From S2P Require Import Prelude.
From stdpp Require Import options.

Module Ssp.

(** The slowest clock. *)
Fixpoint floor (c : list Z) : Z :=
  match c with
  | [] => 0
  | [x] => x
  | x :: c' => Z.min x (floor c')
  end.

(** An agent that is less than [bound] ahead may push and pull. *)
Definition allowed (bound : Z) (c : list Z) (i : nat) : bool :=
  match c !! i with
  | Some x => x - floor c <? bound
  | None => false
  end.

Definition push (bound : Z) (i : nat) (c : list Z) : list Z :=
  if allowed bound c i then alter (λ x, x + 1) i c else c.

Lemma push_other bound i j c : i ≠ j → push bound i c !! j = c !! j.
Proof. intros Hne. unfold push. destruct (allowed bound c i); [|done]. by apply list_lookup_alter_ne. Qed.

Lemma floor_le c x : x ∈ c → floor c ≤ x.
Proof.
  induction c as [|y c IH]; [by intros ?%elem_of_nil|].
  intros [->|Hin]%elem_of_cons; destruct c as [|z c]; simpl; try lia.
  - by apply elem_of_nil in Hin.
  - specialize (IH Hin). simpl in IH. lia.
Qed.

Lemma floor_elem c : c ≠ [] → floor c ∈ c.
Proof.
  induction c as [|y c IH]; [done|]. intros _. destruct c as [|z c]; [by constructor|].
  change (floor (y :: z :: c)) with (Z.min y (floor (z :: c))).
  destruct (Z.min_spec y (floor (z :: c))) as [[_ ->]|[_ ->]]; [by constructor|].
  apply elem_of_cons. right. by apply IH.
Qed.

Lemma floor_unique c m : (∀ x, x ∈ c → m ≤ x) → m ∈ c → floor c = m.
Proof.
  intros Hle Hin. apply Z.le_antisymm; [by apply floor_le|].
  apply Hle, floor_elem. intros ->. by apply elem_of_nil in Hin.
Qed.

(** The contract is an invariant of the specification: no clock gets more than
    [bound] ahead of the slowest. *)
Definition within (bound : Z) (c : list Z) : Prop := ∀ x, x ∈ c → x - floor c ≤ bound.

Lemma floor_push bound i c : floor c ≤ floor (push bound i c).
Proof.
  unfold push. destruct (allowed bound c i); [|lia].
  destruct (decide (c = [])) as [->|Hne]; [done|].
  assert (alter (λ x, x + 1) i c ≠ []) as Hne'.
  { intros E. apply (f_equal length) in E. rewrite length_alter in E. by destruct c. }
  pose proof (floor_elem _ Hne') as Hin. apply list_elem_of_lookup in Hin as [j Hj].
  destruct (decide (i = j)) as [->|Hij].
  - rewrite list_lookup_alter_eq in Hj. apply fmap_Some in Hj as (x & Hx & Heq).
    pose proof (floor_le c x (list_elem_of_lookup_2 _ _ _ Hx)). lia.
  - rewrite list_lookup_alter_ne in Hj by done.
    by apply floor_le, (list_elem_of_lookup_2 _ j).
Qed.

(** The pushes of others do not stop an agent. *)
Lemma allowed_push bound i j c : i ≠ j → allowed bound c j = true → allowed bound (push bound i c) j = true.
Proof.
  intros Hne. unfold allowed. rewrite push_other by done. destruct (c !! j) as [x|]; [|done].
  rewrite !Z.ltb_lt. pose proof (floor_push bound i c). lia.
Qed.

Lemma push_within bound i c : within bound c → within bound (push bound i c).
Proof.
  intros Hw x Hx. pose proof (floor_push bound i c) as Hf.
  unfold push in *. destruct (allowed bound c i) eqn:Ha; [|by apply Hw].
  apply list_elem_of_lookup in Hx as [j Hj].
  destruct (decide (i = j)) as [->|Hij].
  - rewrite list_lookup_alter_eq in Hj. apply fmap_Some in Hj as (y & Hy & ->).
    unfold allowed in Ha. rewrite Hy in Ha. apply Z.ltb_lt in Ha. lia.
  - rewrite list_lookup_alter_ne in Hj by done.
    specialize (Hw x (list_elem_of_lookup_2 _ _ _ Hj)). lia.
Qed.

End Ssp.
