(* ===== verification/FifoRingInv.v ===== *)
(** * Invariant of the ring with one producer and one consumer

    The [j]-th message goes through cell [j mod ring_size_]. With [w] messages
    posted and [h] messages returned, the cells from [h] to [w] hold the
    messages in between, and the two semaphores count the rest. *)

From S2P Require Import Prelude Decimal FifoRing.
From stdpp Require Import options.

Import FifoRing.

(** The message a producer is adding, if any. *)
Definition adding (p : pc) : option (bytes * Z) :=
  match p with
  | AddWait m l | AddTake m l | AddAlloc m l _ | AddCopy m l _ | AddSize m l _ | AddPost m l _ => Some (m, l)
  | _ => None
  end.

(** How far a thread is, as numbers to count with. *)
Definition waited (p : pc) : Z :=
  match p with Idle | AddWait _ _ | FetchWait _ => 0 | _ => 1 end.
Definition taken (p : pc) : Z :=
  match p with Idle | AddWait _ _ | FetchWait _ | AddTake _ _ | FetchTake _ => 0 | _ => 1 end.
Definition freed (p : pc) : Z := match p with FetchPost _ => 1 | _ => 0 end.

Section spsc.
Context (n max : Z).

(** Cell [i] holds the whole message [m]. *)
Definition holds (r : FifoRing) (i : Z) (m : bytes) : Prop :=
  ring_ r !! Z.to_nat i = Some (Block (Some m)) ∧ data_sizes_ r !! Z.to_nat i = Some (Some (zlen m)).

Definition producer_ok (r : FifoRing) (w : nat) (p : pc) : Prop :=
  match p with
  | Idle => True
  | AddWait m l | AddTake m l => True
  | AddAlloc m l i | AddCopy m l i => i = Z.of_nat w mod n
  | AddSize m l i => i = Z.of_nat w mod n ∧ ring_ r !! Z.to_nat i = Some (Block (Some (take (Z.to_nat l) m)))
  | AddPost m l i => i = Z.of_nat w mod n ∧ holds r i (take (Z.to_nat l) m)
  | _ => False
  end.

Definition consumer_ok (msgs : list bytes) (h : nat) (c : pc) : Prop :=
  match c with
  | Idle => True
  | FetchWait mx | FetchTake mx => max ≤ mx
  | FetchTest mx i | FetchCopy mx i => max ≤ mx ∧ i = Z.of_nat h mod n
  | FetchFree i m => i = Z.of_nat h mod n ∧ msgs !! h = Some m
  | FetchPost m => msgs !! h = Some m
  | _ => False
  end.

Record ring_ok (r : FifoRing) (msgs : list bytes) (w h : nat) (p c : pc) : Prop := mkring {
  ro_size : ring_size_ r = n ∧ 2 ≤ n ≤ kInt32Max;
  ro_cells : zlen (ring_ r) = n ∧ zlen (data_sizes_ r) = n;
  ro_produce : produce_point_ r = (Z.of_nat w + taken p) mod n;
  ro_consume : consume_point_ r = (Z.of_nat h + taken c) mod n;
  ro_empty : empty_sem_ r = n - (Z.of_nat w + waited p) + Z.of_nat h ∧ 0 ≤ empty_sem_ r;
  ro_full : full_sem_ r = Z.of_nat w - (Z.of_nat h + waited c) ∧ 0 ≤ full_sem_ r;
  ro_holds : ∀ j m, Z.of_nat h + freed c ≤ Z.of_nat j < Z.of_nat w → msgs !! j = Some m →
    holds r (Z.of_nat j mod n) m;
  ro_producer : producer_ok r w p;
  ro_consumer : consumer_ok msgs h c;
}.

Record log_ok (msgs : list bytes) (results : list (option bytes)) (w h : nat) (p : pc) : Prop := mklog {
  lo_results : results = Some <$> take h msgs;
  lo_order : (h ≤ w)%nat;
  lo_short : Forall (λ m : bytes, zlen m ≤ max) msgs;
  lo_sent : match adding p with
            | Some (m, l) => 0 ≤ l ≤ zlen m ∧ length msgs = S w ∧ msgs !! w = Some (take (Z.to_nat l) m)
            | None => length msgs = w
            end;
}.

Definition spsc_inv (s : sys) : Prop := ∃ w h p c,
  threads s = [p; c] ∧ ring_ok (ring s) (sent s) w h p c ∧ log_ok (sent s) (received s) w h p.

(** ** Cells *)

Lemma cell_neq i j : 0 < n → i < j < i + n → i mod n ≠ j mod n.
Proof.
  intros Hn Hij E. pose proof (Zminus_mod j i n) as Hm.
  rewrite E, Z.sub_diag, Z.mod_0_l, Z.mod_small in Hm; lia.
Qed.

Lemma advance_Ok k : 2 ≤ n ≤ kInt32Max → advance (k mod n) n = Ok ((k + 1) mod n).
Proof.
  intros Hn. pose proof (Z.mod_pos_bound k n ltac:(lia)). unfold advance, add32.
  rewrite i32_Ok by (unfold kInt32Min; lia). cbn. rewrite rem32_nonneg by lia.
  by rewrite Zplus_mod_idemp_l.
Qed.

(** [r'] differs from [r] in cell [i] only. *)
Record only_cell (i : Z) (r r' : FifoRing) : Prop := mkonly {
  oc_size : ring_size_ r' = ring_size_ r;
  oc_points : produce_point_ r' = produce_point_ r ∧ consume_point_ r' = consume_point_ r;
  oc_sems : empty_sem_ r' = empty_sem_ r ∧ full_sem_ r' = full_sem_ r;
  oc_length : length (ring_ r') = length (ring_ r) ∧ length (data_sizes_ r') = length (data_sizes_ r);
  oc_ring : ∀ j, 0 ≤ j → j ≠ i → ring_ r' !! Z.to_nat j = ring_ r !! Z.to_nat j;
  oc_sizes : ∀ j, 0 ≤ j → j ≠ i → data_sizes_ r' !! Z.to_nat j = data_sizes_ r !! Z.to_nat j;
}.

Lemma write_ring r i x :
  0 ≤ i < zlen (ring_ r) → ∃ l, vec_set (ring_ r) i x = Ok l ∧ only_cell i r (r <| ring_ := l |>) ∧
    l !! Z.to_nat i = Some x.
Proof.
  intros Hi. rewrite vec_set_Ok by done. eexists. split; [done|]. split.
  - constructor; cbn; rewrite ?length_insert; try done. intros. by rewrite list_lookup_insert_ne by lia.
  - rewrite list_lookup_insert_eq; [done|lia].
Qed.

Lemma write_size r i x :
  0 ≤ i < zlen (data_sizes_ r) → ∃ l, vec_set (data_sizes_ r) i x = Ok l ∧
    only_cell i r (r <| data_sizes_ := l |>) ∧ l !! Z.to_nat i = Some x.
Proof.
  intros Hi. rewrite vec_set_Ok by done. eexists. split; [done|]. split.
  - constructor; cbn; rewrite ?length_insert; try done. intros. by rewrite list_lookup_insert_ne by lia.
  - rewrite list_lookup_insert_eq; [done|lia].
Qed.

Lemma holds_other i j r r' m : only_cell i r r' → 0 ≤ j → j ≠ i → holds r j m → holds r' j m.
Proof. intros Ho Hj Hne [H1 H2]. split; [by rewrite (oc_ring i r r')|by rewrite (oc_sizes i r r')]. Qed.

(** ** The producer *)

(** What a statement of [Add] may do. *)
Definition add_progress msgs w h m l c (x : progress) : Prop :=
  match x with
  | Blocked => True
  | Next r p => adding p = Some (m, l) ∧ ring_ok r msgs w h p c
  | Added r len => len = l ∧ ring_ok r msgs (S w) h Idle c
  | Fetched _ _ => False
  end.

Section add.
Context (r : FifoRing) (msgs : list bytes) (w h : nat) (m : bytes) (l : Z) (c : pc).
Context (Hl : 0 ≤ l ≤ zlen m) (Hm : msgs !! w = Some (take (Z.to_nat l) m)).
Set Default Proof Using "Type*".

Lemma add_wait :
  ring_ok r msgs w h (AddWait m l) c → thread_step (AddWait m l) r ⇓ add_progress msgs w h m l c.
Proof.
  intros [Hs Hc Hp Hco [He He'] Hf Hh Hpr Hcn]. cbn. destruct (Z.ltb_spec 0 (empty_sem_ r)); cbn; [|done].
  split; [done|]. constructor; try done. cbn in *. lia.
Qed.

Lemma add_take :
  ring_ok r msgs w h (AddTake m l) c → thread_step (AddTake m l) r ⇓ add_progress msgs w h m l c.
Proof.
  intros [[Hs Hn] Hc Hp Hco He Hf Hh Hpr Hcn]. cbn in Hp. rewrite Z.add_0_r in Hp.
  cbn. rewrite Hp, Hs, advance_Ok by done. cbn [mbind res_bind].
  pose proof (Z.mod_pos_bound (Z.of_nat w) n ltac:(lia)).
  destruct (Z.eqb_spec (Z.of_nat w mod n) (-1)); [lia|]. split; [done|]. by constructor.
Qed.

(** The cell being written is none of those that hold a message. *)
Lemma add_write p p' r' :
  ring_ok r msgs w h p c → waited p = 1 → taken p' = taken p → waited p' = 1 →
  only_cell (Z.of_nat w mod n) r r' → producer_ok r' w p' → ring_ok r' msgs w h p' c.
Proof.
  intros [[Hs Hn] [Hc Hc'] Hp Hco [He He'] [Hf Hf'] Hh Hpr Hcn] Hw Ht Hw' Ho Hpr'.
  destruct Ho as [Os [Op Oc] [Oe Of] [Ol Ol'] Or Oz] eqn:EO.
  constructor; rewrite ?Os, ?Op, ?Oc, ?Oe, ?Of, ?Ol, ?Ol', ?Ht, ?Hw'; try done; [split; lia|].
  intros j x Hj Hx. eapply holds_other; [exact Ho|apply Z.mod_pos_bound; lia| |by apply Hh].
  rewrite Hw in He. assert (0 ≤ freed c) by (destruct c; cbn; lia). apply cell_neq; lia.
Qed.

Lemma add_alloc i :
  ring_ok r msgs w h (AddAlloc m l i) c → thread_step (AddAlloc m l i) r ⇓ add_progress msgs w h m l c.
Proof.
  intros Hr. pose proof Hr as [[_ Hn] [Hc _] _ _ _ _ _ Hi _]. cbn in Hi.
  pose proof (Z.mod_pos_bound (Z.of_nat w) n ltac:(lia)).
  cbn [thread_step]. destruct (Z.ltb_spec l 0); [lia|].
  destruct (write_ring r i (Block None)) as (cells & -> & Ho & _); [lia|]. cbn. split; [done|].
  eapply add_write; [exact Hr|done|done|done|by rewrite <- Hi|done].
Qed.

Lemma add_copy i :
  ring_ok r msgs w h (AddCopy m l i) c → thread_step (AddCopy m l i) r ⇓ add_progress msgs w h m l c.
Proof.
  intros Hr. pose proof Hr as [[_ Hn] [Hc _] _ _ _ _ _ Hi _]. cbn in Hi.
  pose proof (Z.mod_pos_bound (Z.of_nat w) n ltac:(lia)).
  cbn [thread_step]. destruct (Z.ltb_spec (zlen m) l); [lia|].
  destruct (write_ring r i (Block (Some (take (Z.to_nat l) m)))) as (cells & -> & Ho & Hx); [lia|].
  cbn. split; [done|]. eapply add_write; [exact Hr|done|done|done|by rewrite <- Hi|done].
Qed.

Lemma add_size i :
  ring_ok r msgs w h (AddSize m l i) c → thread_step (AddSize m l i) r ⇓ add_progress msgs w h m l c.
Proof.
  intros Hr. pose proof Hr as [[_ Hn] [_ Hc] _ _ _ _ _ [Hi Hx] _].
  pose proof (Z.mod_pos_bound (Z.of_nat w) n ltac:(lia)).
  cbn [thread_step]. destruct (write_size r i (Some l)) as (sizes & -> & Ho & Hy); [lia|].
  cbn. split; [done|]. eapply add_write; [exact Hr|done|done|done|by rewrite <- Hi|].
  cbn. split; [done|]. split; [done|]. cbn. rewrite Hy, length_take. do 2 f_equal. lia.
Qed.

Lemma add_post i :
  ring_ok r msgs w h (AddPost m l i) c → thread_step (AddPost m l i) r ⇓ add_progress msgs w h m l c.
Proof.
  intros [[Hs Hn] [Hc Hc'] Hp Hco [He He'] [Hf Hf'] Hh [Hi Hx] Hcn]. cbn in Hp, He. cbn. split; [done|].
  constructor; cbn; try done; rewrite ?Nat2Z.inj_succ; [|lia|lia|].
  - rewrite Hp. f_equal. lia.
  - intros j x Hj Hjx. destruct (decide (j = w)) as [->|Hne]; [|by apply Hh; [lia|]].
    rewrite Hm in Hjx. injection Hjx as <-. by rewrite <- Hi.
Qed.

(** Every statement of [Add] keeps the invariant. *)
Lemma add_step p :
  adding p = Some (m, l) → ring_ok r msgs w h p c → thread_step p r ⇓ add_progress msgs w h m l c.
Proof.
  destruct p; cbn [adding]; intros [= -> ->]; [apply add_wait|apply add_take|apply add_alloc
    |apply add_copy|apply add_size|apply add_post].
Qed.
End add.

(** ** The consumer *)

Definition fetch_progress msgs w h p (x : progress) : Prop :=
  match x with
  | Blocked => True
  | Next r c => c ≠ Idle ∧ ring_ok r msgs w h p c
  | Fetched r (Some m) => msgs !! h = Some m ∧ (h < w)%nat ∧ ring_ok r msgs w (S h) p Idle
  | _ => False
  end.

Section fetch.
Context (r : FifoRing) (msgs : list bytes) (w h : nat) (p : pc).
Context (Hw : (w ≤ length msgs)%nat) (Hshort : Forall (λ m : bytes, zlen m ≤ max) msgs).
Set Default Proof Using "Type*".

Lemma fetch_wait mx :
  ring_ok r msgs w h p (FetchWait mx) → thread_step (FetchWait mx) r ⇓ fetch_progress msgs w h p.
Proof.
  intros [Hs Hc Hp Hco He [Hf Hf'] Hh Hpr Hcn]. cbn. destruct (Z.ltb_spec 0 (full_sem_ r)); cbn; [|done].
  split; [done|]. constructor; try done. cbn in *. lia.
Qed.

Lemma fetch_take mx :
  ring_ok r msgs w h p (FetchTake mx) → thread_step (FetchTake mx) r ⇓ fetch_progress msgs w h p.
Proof.
  intros [[Hs Hn] Hc Hp Hco He Hf Hh Hpr Hcn]. cbn in Hco. rewrite Z.add_0_r in Hco.
  cbn. rewrite Hco, Hs, advance_Ok by done. cbn [mbind res_bind].
  pose proof (Z.mod_pos_bound (Z.of_nat h) n ltac:(lia)).
  destruct (Z.eqb_spec (Z.of_nat h mod n) (-1)); [lia|]. split; [done|]. by constructor.
Qed.

(** The cell a fetching consumer stands before. *)
Lemma front_cell c :
  ring_ok r msgs w h p c → waited c = 1 → freed c = 0 →
  ∃ m, msgs !! h = Some m ∧ zlen m ≤ max ∧ (h < w)%nat ∧ holds r (Z.of_nat h mod n) m.
Proof.
  intros [_ _ _ _ _ [Hf Hf'] Hh _ _] Hwt Hfr.
  destruct (lookup_lt_is_Some_2 msgs h) as [m Hm]; [lia|]. exists m. split; [done|].
  split; [by eapply (Forall_lookup_1 (λ m : bytes, zlen m ≤ max) msgs)|]. split; [lia|]. apply Hh; [lia|done].
Qed.

Lemma fetch_test mx i :
  ring_ok r msgs w h p (FetchTest mx i) → thread_step (FetchTest mx i) r ⇓ fetch_progress msgs w h p.
Proof.
  intros Hr. destruct (front_cell _ Hr) as (m & _ & _ & _ & [Hx _]); [done|done|].
  destruct Hr as [[Hs Hn] Hc Hp Hco He Hf Hh Hpr [Hmx Hi]]. subst i.
  pose proof (Z.mod_pos_bound (Z.of_nat h) n ltac:(lia)). cbn [thread_step].
  rewrite (vec_get_Ok _ _ _ (proj1 H) Hx). cbn. split; [done|]. by constructor.
Qed.

Lemma fetch_copy mx i :
  ring_ok r msgs w h p (FetchCopy mx i) → thread_step (FetchCopy mx i) r ⇓ fetch_progress msgs w h p.
Proof.
  intros Hr. destruct (front_cell _ Hr) as (m & Hm & Hle & _ & [Hx Hz]); [done|done|].
  destruct Hr as [[Hs Hn] Hc Hp Hco He Hf Hh Hpr [Hmx Hi]]. subst i.
  pose proof (Z.mod_pos_bound (Z.of_nat h) n ltac:(lia)) as [H0 _]. cbn [thread_step].
  rewrite (vec_get_Ok _ _ _ H0 Hz), (vec_get_Ok _ _ _ H0 Hx). cbn [mbind res_bind].
  destruct (Z.ltb_spec (zlen m) (zlen m)); [lia|]. destruct (Z.ltb_spec mx (zlen m)); [lia|].
  cbn. split; [done|]. rewrite Nat2Z.id, firstn_all. by constructor.
Qed.

Lemma fetch_free i m :
  ring_ok r msgs w h p (FetchFree i m) → thread_step (FetchFree i m) r ⇓ fetch_progress msgs w h p.
Proof.
  intros Hr. destruct (front_cell _ Hr) as (_ & _ & _ & Hlt & _); [done|done|].
  destruct Hr as [[Hs Hn] [Hc Hc'] Hp Hco [He He'] [Hf Hf'] Hh Hpr [Hi Hm]]. subst i.
  pose proof (Z.mod_pos_bound (Z.of_nat h) n ltac:(lia)). cbn [thread_step].
  destruct (write_ring r (Z.of_nat h mod n) Null) as (cells & -> & Ho & _); [lia|].
  assert (∀ k : nat, Z.of_nat h < Z.of_nat k < Z.of_nat h + n → Z.of_nat k mod n ≠ Z.of_nat h mod n) as Hne
    by (intros k Hk E; symmetry in E; revert E; apply cell_neq; lia).
  set (r' := r <| ring_ := cells |>) in *. cbn [mbind res_bind]. split; [done|].
  destruct Ho as [Os [Op Oc] [Oe Of] [Ol Ol'] Or Oz] eqn:EO.
  constructor; rewrite ?Os, ?Op, ?Oc, ?Oe, ?Of; try done.
  - change (zlen (ring_ r') = n ∧ zlen (data_sizes_ r') = n). by rewrite Ol, Ol'.
  - intros j x Hj Hx. cbn in Hj. pose proof (Z.mod_pos_bound (Z.of_nat j) n ltac:(lia)).
    assert (0 ≤ waited p) by (destruct p; cbn; lia).
    eapply holds_other; [exact Ho|lia|apply Hne; lia|apply Hh; [cbn; lia|done]].
  - assert (waited p = 1 → Z.of_nat w mod n ≠ Z.of_nat h mod n) as Hw' by (intros E; apply Hne; cbn in *; lia).
    pose proof (Z.mod_pos_bound (Z.of_nat w) n ltac:(lia)).
    destruct p; cbn in Hpr |- *; try done.
    + destruct Hpr as [-> Hx]. split; [done|]. change cells with (ring_ r'). rewrite Or; [done|lia|by apply Hw'].
    + destruct Hpr as [-> Hx]. split; [done|]. eapply holds_other; [exact Ho|lia|by apply Hw'|done].
Qed.

Lemma fetch_post m :
  ring_ok r msgs w h p (FetchPost m) → thread_step (FetchPost m) r ⇓ fetch_progress msgs w h p.
Proof.
  intros [[Hs Hn] [Hc Hc'] Hp Hco [He He'] [Hf Hf'] Hh Hpr Hcn]. cbn in Hf. cbn. split; [done|]. split; [lia|].
  constructor; cbn; try done; rewrite ?Nat2Z.inj_succ; [|lia|lia|].
  - rewrite Hco. f_equal. cbn. lia.
  - intros j x Hj. apply Hh. cbn. lia.
Qed.

(** Every statement of [Fetch] keeps the invariant, and no fetch fails. *)
Lemma fetch_step c :
  c ≠ Idle → ring_ok r msgs w h p c → thread_step c r ⇓ fetch_progress msgs w h p.
Proof.
  intros Hc Hr. pose proof (ro_consumer _ _ _ _ _ _ Hr) as Hcn.
  destruct c; try done; [by apply fetch_wait|by apply fetch_take|by apply fetch_test
    |by apply fetch_copy|by apply fetch_free|by apply fetch_post].
Qed.
End fetch.

End spsc.
