(* ===== verification/FifoRingProps.v ===== *)
(** * Properties of the ring

    One producer and one consumer get a bounded FIFO queue; a second producer
    breaks it. *)

From S2P Require Import Prelude Decimal FifoRing FifoRingInv.
From Stdlib Require Import Ascii.
From stdpp Require Import options.

Import FifoRing.

(** ** One producer and one consumer *)

Section spsc.
Context (n max : Z) (Hn : 2 ≤ n ≤ kInt32Max).
Set Default Proof Using "Type*".

Definition pair : list role := [Producer; Consumer].

(** Messages are as long as announced and no longer than the buffers of the
    consumer. *)
Definition action_ok (a : action) : Prop :=
  match a with
  | CallAdd _ m l => 0 ≤ l ≤ zlen m ∧ l ≤ max
  | CallFetch _ mx => max ≤ mx
  | Run _ => True
  end.

#[global] Instance action_ok_dec a : Decision (action_ok a).
Proof. destruct a; apply _. Defined.

Lemma start_Ok : start pair n ⇓ spsc_inv n max.
Proof.
  unfold start, Initialize. destruct (Z.ltb_spec n 0), (Z.ltb_spec n 2); [lia|lia|lia|]. cbn.
  exists 0%nat, 0%nat, Idle, Idle. split; [done|]. split; [|constructor; cbn; [done|lia|constructor|done]].
  constructor; cbn; rewrite ?length_replicate; try done; try lia.
Qed.

Lemma log_app msgs results w h m :
  log_ok max msgs results w h Idle → zlen m ≤ max →
  results = Some <$> take h (msgs ++ [m]) ∧ (h ≤ w)%nat ∧ Forall (λ m : bytes, zlen m ≤ max) (msgs ++ [m]) ∧
  length (msgs ++ [m]) = S w ∧ (msgs ++ [m]) !! w = Some m.
Proof.
  intros [Hr Ho Hs Hl] Hm. cbn in Hl. split_and!.
  - rewrite take_app_le by lia. done.
  - done.
  - apply Forall_app. auto.
  - rewrite length_app. cbn. lia.
  - rewrite lookup_app_r by lia. by replace (w - length msgs)%nat with 0%nat by lia.
Qed.

Lemma call_add t m l s :
  spsc_inv n max s → action_ok (CallAdd t m l) → exec pair (CallAdd t m l) s ⇓ spsc_inv n max.
Proof.
  intros (w & h & p & c & Ht & Hr & Hlog) [Hl Hmax]. cbn -[lookup]. rewrite Ht.
  destruct t as [|[|t]]; [|by exists w, h, p, c|by exists w, h, p, c].
  change (pair !! 0%nat) with (Some Producer). change ([p; c] !! 0%nat) with (Some p).
  destruct p; try by eexists w, h, _, c.
  destruct (log_app _ _ _ _ (take (Z.to_nat l) m) Hlog) as (H1 & H2 & H3 & H4 & H5);
    [rewrite length_take; lia|].
  exists w, h, (AddWait m l), c. cbn. rewrite ?Ht. split; [done|]. split; [|by constructor].
  destruct Hr as [Hs Hc Hp Hco He Hf Hh Hpr Hcn]. constructor; cbn; try done.
  - intros j x Hj Hx. apply Hh; [done|]. rewrite lookup_app_l in Hx; [done|].
    destruct Hlog as [_ _ _ Hlen]. cbn in Hlen. lia.
  - assert (∀ x, sent s !! h = Some x → (sent s ++ [take (Z.to_nat l) m]) !! h = Some x) as Happ
      by (intros x Hx; by apply lookup_app_l_Some).
    destruct c; cbn in *; try done; [|by apply Happ]. destruct Hcn. split; [done|by apply Happ].
Qed.

Lemma call_fetch t mx s :
  spsc_inv n max s → action_ok (CallFetch t mx) → exec pair (CallFetch t mx) s ⇓ spsc_inv n max.
Proof.
  intros (w & h & p & c & Ht & Hr & Hlog) Hmax. cbn -[lookup]. rewrite Ht.
  destruct t as [|[|t]]; [by exists w, h, p, c| |by exists w, h, p, c].
  change (pair !! 1%nat) with (Some Consumer). change ([p; c] !! 1%nat) with (Some c).
  destruct c; try by eexists w, h, p, _.
  exists w, h, p, (FetchWait mx). cbn. rewrite ?Ht. split; [done|]. split; [|done].
  destruct Hr. by constructor.
Qed.

Lemma run_add s w h p c :
  threads s = [p; c] → ring_ok n max (ring s) (sent s) w h p c → log_ok max (sent s) (received s) w h p →
  exec pair (Run 0) s ⇓ spsc_inv n max.
Proof.
  intros Ht Hr Hlog. cbn -[lookup]. rewrite Ht. change ([p; c] !! 0%nat) with (Some p).
  destruct (decide (p = Idle)) as [->|Hp]; [by exists w, h, Idle, c|].
  pose proof Hlog as [Hres Hord Hshort Hsent].
  destruct (adding p) as [[m l]|] eqn:Ha; [|by destruct p; try done; destruct (ro_producer _ _ _ _ _ _ _ _ Hr)].
  destruct Hsent as (Hl & Hlen & Hm).
  pose proof (add_step n max (ring s) (sent s) w h m l c Hl Hm p Ha Hr) as Hstep.
  apply returns_elim in Hstep as (x & -> & Hx). cbn [mbind res_bind].
  destruct x as [|r p'|r len|]; cbn in Hx |- *; [by exists w, h, p, c| | |done].
  - destruct Hx as [Ha' Hr']. exists w, h, p', c. cbn. rewrite ?Ht. split; [done|]. split; [done|].
    constructor; cbn; try done. by rewrite Ha'.
  - destruct Hx as [-> Hr']. exists (S w), h, Idle, c. cbn. rewrite ?Ht. split; [done|]. split; [done|].
    constructor; cbn; try done. lia.
Qed.

Lemma run_fetch s w h p c :
  threads s = [p; c] → ring_ok n max (ring s) (sent s) w h p c → log_ok max (sent s) (received s) w h p →
  exec pair (Run 1) s ⇓ spsc_inv n max.
Proof.
  intros Ht Hr Hlog. cbn -[lookup]. rewrite Ht. change ([p; c] !! 1%nat) with (Some c).
  destruct (decide (c = Idle)) as [->|Hc]; [by exists w, h, p, Idle|].
  pose proof Hlog as [Hres Hord Hshort Hsent].
  assert (w ≤ length (sent s))%nat as Hw by (destruct (adding p) as [[m l]|]; lia).
  pose proof (fetch_step n max (ring s) (sent s) w h p Hw Hshort c Hc Hr) as Hstep.
  apply returns_elim in Hstep as (x & -> & Hx). cbn [mbind res_bind].
  destruct x as [|r c'|r len|r [m|]]; cbn in Hx |- *; [by exists w, h, p, c| |done| |done].
  - destruct Hx as [_ Hr']. exists w, h, p, c'. cbn. by rewrite ?Ht.
  - destruct Hx as (Hm & Hlt & Hr'). exists w, (S h), p, Idle. cbn. rewrite ?Ht. split; [done|]. split; [done|].
    constructor; cbn; try done. by rewrite Hres, (take_S_r _ _ m), fmap_app by done.
Qed.

Lemma exec_Ok a s : action_ok a → spsc_inv n max s → exec pair a s ⇓ spsc_inv n max.
Proof.
  intros Ha Hinv. destruct a as [t m l|t mx|t]; [by apply call_add|by apply call_fetch|].
  destruct Hinv as (w & h & p & c & Ht & Hr & Hlog).
  destruct t as [|[|t]]; [by eapply run_add|by eapply run_fetch|].
  cbn -[lookup]. rewrite Ht. cbn. by exists w, h, p, c.
Qed.

Lemma run_Ok acts : Forall action_ok acts → (s ← start pair n; run pair acts s) ⇓ spsc_inv n max.
Proof.
  intros Ha. apply returns_bind. eapply returns_mono; [apply start_Ok|]. intros s Hs.
  apply (foldM_inv (λ _, spsc_inv n max)); [done|]. intros l1 a l2 s' -> Hs'.
  apply exec_Ok; [|done]. rewrite Forall_forall in Ha. apply Ha. apply elem_of_app. right. by left.
Qed.

(** C16: the ring is a FIFO queue. With one producer and one consumer, under
    every interleaving of their statements, no operation fails, [Fetch] never
    returns -1, and the messages fetched are the messages added, in order and
    whole, but for at most one more than the ring holds; when neither thread
    is inside the ring, what is missing is what [full_sem_] counts. *)
Theorem FifoRing_fifo (acts : list action) (Hacts : Forall action_ok acts) :
  (s ← start pair n; run pair acts s) ⇓ λ s, ∃ fetched rest,
    sent s = fetched ++ rest ∧ received s = Some <$> fetched ∧ zlen rest ≤ n + 1 ∧
    (threads s = [Idle; Idle] → zlen rest = full_sem_ (ring s)).
Proof.
  eapply returns_mono; [by apply run_Ok|]. intros s (w & h & p & c & Ht & Hr & [Hres Hord _ Hsent]).
  exists (take h (sent s)), (drop h (sent s)). rewrite take_drop. split_and!; [done|done| |].
  - destruct Hr as [_ _ _ _ [He He'] _ _ _ _]. rewrite length_drop.
    assert (0 ≤ waited p) by (destruct p; cbn; lia). destruct (adding p) as [[m l]|]; lia.
  - rewrite Ht. intros [= -> ->]. destruct Hr as [_ _ _ _ _ [Hf _] _ _ _]. cbn in *.
    rewrite length_drop. lia.
Qed.

(** C17: the ring does not deadlock. In every state one producer and one
    consumer can reach, the producer waits only when all the cells are taken
    and the consumer only when no message is there for it; they never wait for
    each other. *)
Theorem FifoRing_no_deadlock (acts : list action) (Hacts : Forall action_ok acts) :
  (s ← start pair n; run pair acts s) ⇓ λ s, ∃ p c, threads s = [p; c] ∧
    0 ≤ empty_sem_ (ring s) ∧ 0 ≤ full_sem_ (ring s) ∧
    empty_sem_ (ring s) + waited p + full_sem_ (ring s) + waited c = n ∧
    ¬ (blocked p (ring s) = true ∧ blocked c (ring s) = true).
Proof.
  eapply returns_mono; [by apply run_Ok|]. intros s (w & h & p & c & Ht & [_ _ _ _ [He He'] [Hf Hf'] _ Hp Hc] & _).
  exists p, c. split_and!; [done|done|done|lia|]. intros [Hbp Hbc].
  destruct p; cbn in Hp, Hbp; try done; destruct c; cbn in Hc, Hbc; try done.
  apply Z.leb_le in Hbp, Hbc. cbn in *. lia.
Qed.
End spsc.

(** ** Two producers *)

(** The second producer overtakes the first between its turn under the mutex
    and its write. *)
Definition overtaking (m1 m2 : bytes) (mx : Z) : list action :=
  [CallAdd 0 m1 (zlen m1); Run 0; Run 0; CallAdd 1 m2 (zlen m2)] ++ replicate 6 (Run 1) ++
  [CallFetch 2 mx; Run 2; Run 2; Run 2].

Lemma set_second {A} (a b x : A) l : vec_set (a :: b :: l) 1 x = Ok (a :: x :: l).
Proof. rewrite vec_set_Ok; [done|cbn [length]; lia]. Qed.

Section overtaken.
#[local] Arguments advance : simpl never.
#[local] Arguments vec_set : simpl never.
#[local] Arguments Z.ltb : simpl never.
#[local] Arguments Z.pred : simpl never.
#[local] Arguments Z.succ : simpl never.
#[local] Arguments Z.of_nat : simpl never.

(** C40: two producers break the ring. On a ring of any size, when a second
    thread adds a whole message between the moment the first one got its cell
    and the moment it fills it, the consumer is sent to the cell not yet
    filled: [Fetch] returns -1, the message that was added stays behind with
    no [full_sem_] token left for it, and one unit of [empty_sem_] is lost. *)
Theorem FifoRing_two_producers (n : Z) (m1 m2 : bytes) (mx : Z) (Hn : 2 ≤ n ≤ kInt32Max) :
  (s ← start [Producer; Producer; Consumer] n; run [Producer; Producer; Consumer] (overtaking m1 m2 mx) s)
  ⇓ λ s, received s = [None] ∧ threads s = [AddAlloc m1 (zlen m1) 0; Idle; Idle] ∧
    ring_ (ring s) !! 1%nat = Some (Block (Some m2)) ∧
    full_sem_ (ring s) = 0 ∧ empty_sem_ (ring s) = n - 2.
Proof.
  unfold start, Initialize. destruct (Z.ltb_spec n 0), (Z.ltb_spec n 2); [lia|lia|lia|].
  replace (Z.to_nat (n - 1)) with (S (Z.to_nat (n - 2))) by lia.
  assert (∀ k, 0 ≤ k < 2 → advance k n = Ok ((k + 1) mod n)) as Hadv.
  { intros k Hk. rewrite <- (advance_Ok n k) by done. by rewrite (Z.mod_small k) by lia. }
  assert (advance 0 n = Ok 1) as A0 by (rewrite Hadv, Z.mod_small by lia; done).
  assert (advance 1 n = Ok (2 mod n)) as A1 by (by rewrite Hadv by lia).
  assert (0 <? n = true) as E1 by (apply Z.ltb_lt; lia).
  assert (0 <? Z.pred n = true) as E2 by (apply Z.ltb_lt; lia).
  assert (zlen m2 <? 0 = false) as E3 by (apply Z.ltb_ge; lia).
  assert (zlen m2 <? zlen m2 = false) as E4 by (apply Z.ltb_ge; lia).
  unfold run, overtaking. cbn. rewrite E1. cbn. rewrite A0. cbn. rewrite E2. cbn. rewrite A1. cbn.
  rewrite E3. cbn. rewrite set_second. cbn. rewrite E4. cbn. rewrite set_second. cbn.
  rewrite set_second. cbn. change (0 <? Z.succ 0) with true. cbn. rewrite A0. cbn.
  rewrite (vec_get_Ok _ 0 Null) by done. cbn. rewrite Nat2Z.id, firstn_all. split_and!; [done|done|done|done|lia].
Qed.
End overtaken.

(** ** Witnesses *)

Definition ping : bytes := ["p"; "i"; "n"; "g"]%char.
Definition pong : bytes := ["p"; "o"; "n"; "g"]%char.

(** Two messages through a ring of two cells, the threads taking turns. *)
Definition exchange : list action :=
  [CallAdd 0 ping 4; CallFetch 1 2048; Run 1] ++ replicate 6 (Run 0) ++
  [CallAdd 0 pong 4] ++ mjoin (replicate 6 [Run 0; Run 1]).

Lemma exchange_ok : Forall (action_ok 2048) exchange.
Proof. apply (bool_decide_unpack _). by vm_compute. Qed.

Example FifoRing_fifo_witness :
  (s ← start pair 2; run pair exchange s) ⇓ λ s, ∃ fetched rest,
    sent s = fetched ++ rest ∧ received s = Some <$> fetched ∧ zlen rest ≤ 2 + 1 ∧
    (threads s = [Idle; Idle] → zlen rest = full_sem_ (ring s)).
Proof. apply (FifoRing_fifo 2 2048); [by vm_compute|apply exchange_ok]. Defined.

Example FifoRing_no_deadlock_witness :
  (s ← start pair 2; run pair exchange s) ⇓ λ s, ∃ p c, threads s = [p; c] ∧
    0 ≤ empty_sem_ (ring s) ∧ 0 ≤ full_sem_ (ring s) ∧
    empty_sem_ (ring s) + waited p + full_sem_ (ring s) + waited c = 2 ∧
    ¬ (blocked p (ring s) = true ∧ blocked c (ring s) = true).
Proof. apply (FifoRing_no_deadlock 2 2048); [by vm_compute|apply exchange_ok]. Defined.

(** What the exchange comes to. *)
Example exchange_result :
  (s ← start pair 2; run pair exchange s) ⇓ λ s, received s = [Some ping] ∧ full_sem_ (ring s) = 1.
Proof. by vm_compute. Qed.

Example FifoRing_two_producers_witness :
  (s ← start [Producer; Producer; Consumer] 64;
   run [Producer; Producer; Consumer] (overtaking ping pong 2048) s)
  ⇓ λ s, received s = [None] ∧ threads s = [AddAlloc ping (zlen ping) 0; Idle; Idle] ∧
    ring_ (ring s) !! 1%nat = Some (Block (Some pong)) ∧
    full_sem_ (ring s) = 0 ∧ empty_sem_ (ring s) = 64 - 2.
Proof. apply (FifoRing_two_producers 64 ping pong 2048). by vm_compute. Defined.
