(* ===== verification/ZmqCommunicator.v ===== *)
(** * The communicator over ZeroMQ (src/communication/zmq_communicator.{h,cc}, zmq_sendrecv.{h,cc})

    A sender frames every message with the id of its destination, hands it to
    the ring, and its [Consume] thread takes the frame apart again and gives
    the message to the socket of the destination's address. A receiver's
    [Produce] thread puts what arrives into the ring. The ring is used here as
    the queue that FifoRingProps.v shows it to be; ZeroMQ is a parameter. *)

From S2P Require Import Prelude CppStd Decimal FifoRing.
From Stdlib Require String.
From Stdlib Require Import Ascii.
From stdpp Require Import options.

Module Zmq.

(** ** Buffers *)

Definition nul : ascii := zero.

(** [memcpy(buf + off, src, n)], [n] a [size_t]. *)
Definition memcpy (buf : bytes) (off : Z) (src : bytes) (n : Z) : res bytes :=
  let n := to_size_t n in
  if zlen buf <? off + n then Fault BufferOverflow
  else if zlen src <? n then Fault OutOfBounds
  else Ok (take (Z.to_nat off) buf ++ take (Z.to_nat n) src ++ drop (Z.to_nat (off + n)) buf).

(** [snprintf(buf, size, ...)] of [text] into all of [buf]. *)
Definition snprintf (buf text : bytes) : bytes :=
  match length buf with
  | O => buf
  | S k => take k text ++ nul :: drop (S (length (take k text))) buf
  end.

Fixpoint strlen (buf : bytes) : res Z :=
  match buf with
  | [] => Fault OutOfBounds
  | c :: buf => if decide (c = nul) then mret 0 else n ← strlen buf; mret (n + 1)
  end.

(** [sscanf(buf, "%d,", &d)]: without a number, [d] is not assigned. *)
Definition sscanf_int (buf : bytes) (d : Z) : res Z :=
  match read_number buf with
  | Some z => i32 z
  | None => mret d
  end.

(** ** Sockets (ZmqSendRecv) *)

(** The value of an [int16] parameter for an [int32] argument. *)
Definition wrap16 (z : Z) : Z := (z + 2 ^ 15) mod 2 ^ 16 - 2 ^ 15.

(** The endpoint a receiver is bound to:
    [snprintf(str, sizeof(str), "tcp://*:%d", listen_port_)], [char str[16]]. *)
Definition listen_endpoint (listen_port : Z) : bytes :=
  take 15 (String.list_ascii_of_string "tcp://*:" ++ to_string (wrap16 listen_port)).

Section zmq.
(** ZeroMQ: opening a PUSH socket connected to an endpoint, sending on a
    socket, closing it. *)
Context {K : Type}.
Context (zmq_open : string → K → Z * K).
Context (zmq_send : Z → bytes → K → Z * K).
Context (zmq_close : Z → K → Z * K).
(** The contents of a new array. *)
Context (alloc : nat → bytes).

(** [new char[n]] *)
Definition new_char (n : Z) : res bytes := if n <? 0 then Fault Thrown else Ok (alloc (Z.to_nat n)).

Record ZmqSendRecv := mkSendRecv {
  context_ : K;
  mapper_ : gmap string Z;
}.
#[global] Instance ZmqSendRecv_eta : Eta ZmqSendRecv := λ s, mkSendRecv (context_ s) (mapper_ s).

(** [ZmqSendRecv::Initialize] on a new context [k] (lines 9-28): a sender opens
    its sockets later; a receiver is bound at once, to the endpoint returned.
    The result of [zmq_bind] is dropped. *)
Definition sendrecv_Initialize (is_sender : bool) (listen_port : Z) (k : K) : ZmqSendRecv * option bytes :=
  (mkSendRecv k ∅, if is_sender then None else Some (listen_endpoint listen_port)).

(** The text of [snprintf(str, sizeof(str), "tcp://%s", addr)], [char str[32]]. *)
Definition endpoint (addr : string) : string :=
  String.string_of_list_ascii (take 31 (String.list_ascii_of_string "tcp://" ++ String.list_ascii_of_string addr)).

Definition socket_for (dst_addr : string) (s : ZmqSendRecv) : Z * ZmqSendRecv :=
  match mapper_ s !! dst_addr with
  | Some h => (h, s)
  | None =>
      let '(h, k) := zmq_open (endpoint dst_addr) (context_ s) in
      (h, mkSendRecv k (<[ dst_addr := h ]> (mapper_ s)))
  end.

(** [ZmqSendRecv::Send]: the first [len] bytes of [message]; the result of
    [zmq_send] is dropped and [len] returned. *)
Definition socket_send (dst_addr : string) (message : bytes) (len : Z) (s : ZmqSendRecv) :
    res (Z * ZmqSendRecv) :=
  let n := to_size_t len in
  let '(h, s) := socket_for dst_addr s in
  if zlen message <? n then Fault OutOfBounds
  else
    let '(_, k) := zmq_send h (take (Z.to_nat n) message) (context_ s) in
    mret (len, s <| context_ := k |>).

Definition CloseSocket (dst_addr : string) (s : ZmqSendRecv) : Z * ZmqSendRecv :=
  match mapper_ s !! dst_addr with
  | None => (-1, s)
  | Some h =>
      let '(rc, k) := zmq_close h (context_ s) in
      (rc, mkSendRecv k (delete dst_addr (mapper_ s)))
  end.

(** [ZmqSendRecv::Finalize] of a sender, but for the context. *)
Definition Finalize (s : ZmqSendRecv) : ZmqSendRecv :=
  mkSendRecv (foldl (λ k h, (zmq_close h k).2) (context_ s) (map_to_list (mapper_ s)).*2) ∅.

(** [ZmqSendRecv::Receive] into [buf] of what arrives ([None]: an error, -1).
    [zmq_recv] truncates the message to the buffer but returns its size. *)
Definition socket_receive (incoming : option bytes) (buf : bytes) : res (Z * bytes) :=
  let '(msg_size, buf) := match incoming with
    | None => (-1, buf)
    | Some m => (zlen m, take (length buf) m ++ drop (length m) buf)
    end in
  buf ← vec_set buf msg_size nul;
  mret (msg_size, buf).

(** ** The communicator *)

(** The static variables of [Consume] and [Produce]. *)
Record statics := mkStatics {
  mix_message : bytes;
  message : bytes;
  dst_id : Z;
}.

Record ZmqCommunicator := mkZmq {
  buffer_size_ : Z;
  fifo_ring_ : list bytes;
  send_recv_ : ZmqSendRecv;
  id_to_addr_ : gmap Z string;
}.
#[global] Instance ZmqCommunicator_eta : Eta ZmqCommunicator := λ z,
  mkZmq (buffer_size_ z) (fifo_ring_ z) (send_recv_ z) (id_to_addr_ z).

(** The thread that [Initialize] starts. *)
Inductive add_fetch := ConsumeThread | ProduceThread.

(** [ZmqCommunicator::Initialize] of a new communicator (lines 10-23), and
    [Finalize] (lines 24-26), which leaves the thread and the sockets alone. *)
Definition Initialize (ring_size : Z) (is_sender : bool) (listen_port buffer_size : Z) (k : K) :
    res (ZmqCommunicator * option bytes * add_fetch) :=
  _ ← FifoRing.Initialize ring_size;
  let '(s, bound) := sendrecv_Initialize is_sender (wrap16 listen_port) k in
  mret (mkZmq buffer_size [] s ∅, bound, if is_sender then ConsumeThread else ProduceThread).

Definition communicator_Finalize (z : ZmqCommunicator) : ZmqCommunicator := z.

(** [fifo_ring_.Add(m, len)] *)
Definition ring_add (m : bytes) (len : Z) (z : ZmqCommunicator) : res ZmqCommunicator :=
  if len <? 0 then Fault Thrown
  else if zlen m <? len then Fault OutOfBounds
  else mret (z <| fifo_ring_ ::= λ q, q ++ [take (Z.to_nat len) m] |>).

(** [fifo_ring_.Fetch(buf, buf_size)]: [None] while the ring is empty. *)
Definition ring_fetch (buf : bytes) (z : ZmqCommunicator) : res (option (Z * bytes * ZmqCommunicator)) :=
  match fifo_ring_ z with
  | [] => mret None
  | m :: q =>
      buf ← memcpy buf 0 m (zlen m);
      mret (Some (zlen m, buf, z <| fifo_ring_ := q |>))
  end.

(** [Send(dst_id, message, len)], [len] being the length of [message]. *)
Definition Send (dst_id : Z) (message : bytes) (z : ZmqCommunicator) : res (Z * ZmqCommunicator) :=
  mix ← new_char (buffer_size_ z);
  let mix := snprintf mix (to_string dst_id ++ [","%char]) in
  offset ← strlen mix;
  mix ← memcpy mix offset message (zlen message);
  len ← add32 (zlen message) offset;
  z ← ring_add mix len z;
  mret (len, z).

(** The search of [Consume] for the first comma among the first twelve bytes:
    the new [len] and the message copied behind it. *)
Fixpoint split_frame (fuel : nat) (i : Z) (mix message : bytes) (len : Z) : res (Z * bytes) :=
  match fuel with
  | O => mret (len, message)
  | S fuel =>
      c ← vec_get mix i;
      if decide (c = ","%char) then
        a ← sub32 len i;
        len ← sub32 a 1;
        message ← memcpy message 0 (drop (Z.to_nat (i + 1)) mix) len;
        mret (len, message)
      else split_frame fuel (i + 1) mix message len
  end.

(** One turn of [Consume]: [None] while it waits for a message. *)
Definition Consume (st : statics) (z : ZmqCommunicator) : res (option (statics * ZmqCommunicator)) :=
  f ← ring_fetch (mix_message st) z;
  match f with
  | None => mret None
  | Some (len, mix, z) =>
      id ← sscanf_int mix (dst_id st);
      '(len, msg) ← split_frame 12 0 mix (message st) len;
      let st := mkStatics mix msg id in
      match id_to_addr_ z !! id with
      | None => mret (Some (st, z))
      | Some addr =>
          '(_, s) ← socket_send addr msg len (send_recv_ z);
          mret (Some (st, z <| send_recv_ := s |>))
      end
  end.

(** One turn of [Produce] on what arrives; [buf] is its static buffer. *)
Definition Produce (incoming : option bytes) (buf : bytes) (z : ZmqCommunicator) :
    res (bytes * ZmqCommunicator) :=
  '(len, buf) ← socket_receive incoming buf;
  z ← ring_add buf len z;
  mret (buf, z).

(** [Receive(std::string* )]: [None] while the ring is empty. *)
Definition Receive (z : ZmqCommunicator) : res (option (bytes * ZmqCommunicator)) :=
  buf ← new_char (buffer_size_ z);
  f ← ring_fetch buf z;
  match f with
  | None => mret None
  | Some (len, buf, z) => mret (Some (take (Z.to_nat len) buf, z))
  end.

(** [Receive(char*, max_size)] into [buf] (lines 44-47): the ring copies the
    whole message whatever [max_size] is. *)
Definition Receive_chars (buf : bytes) (z : ZmqCommunicator) : res (option (Z * bytes * ZmqCommunicator)) :=
  ring_fetch buf z.

(** The caller and the [Consume] thread, interleaved: a call of [Send], or a
    turn of [Consume]. *)
Inductive event := ESend (dst_id : Z) (message : bytes) | EConsume.

Definition sender_step (e : event) (x : statics * ZmqCommunicator) : res (statics * ZmqCommunicator) :=
  let '(st, z) := x in
  match e with
  | ESend dst_id message => '(_, z) ← Send dst_id message z; mret (st, z)
  | EConsume =>
      r ← Consume st z;
      mret (match r with Some x => x | None => (st, z) end)
  end.

(** ** The address book *)

Definition AddIdAddr (id : Z) (addr : string) (z : ZmqCommunicator) : bool * ZmqCommunicator :=
  match id_to_addr_ z !! id with
  | Some _ => (false, z)
  | None => (true, z <| id_to_addr_ ::= <[ id := addr ]> |>)
  end.

Definition DeleteId (id : Z) (z : ZmqCommunicator) : bool * ZmqCommunicator :=
  match id_to_addr_ z !! id with
  | Some addr =>
      let '(rc, s) := CloseSocket addr (send_recv_ z) in
      (rc =? 0, z <| send_recv_ := s |> <| id_to_addr_ ::= delete id |>)
  | None => (false, z)
  end.

Definition CheckIdAddr (id : Z) (addr : string) (z : ZmqCommunicator) : bool :=
  match id_to_addr_ z !! id with
  | None => false
  | Some a => bool_decide (a = addr)
  end.

End zmq.

Arguments ZmqSendRecv K : clear implicits.
Arguments ZmqCommunicator K : clear implicits.

End Zmq.
