(* ===== verification/ZmqProps.v ===== *)
(** * Properties of the communicator over ZeroMQ

    What is sent reaches the socket of its destination's address, whole and in
    order, as long as the frames fit the buffers; the bounds at which they do
    not. *)

From S2P Require Import Prelude CppStd Decimal ZmqCommunicator.
From Stdlib Require String.
From Stdlib Require Import Ascii.
From stdpp Require Import options.

Import Zmq.

(** ** Buffers *)

Lemma memcpy_Ok buf off src n :
  0 ≤ off → 0 ≤ n ≤ kInt32Max → off + n ≤ zlen buf → n ≤ zlen src →
  memcpy buf off src n = Ok (take (Z.to_nat off) buf ++ take (Z.to_nat n) src ++ drop (Z.to_nat (off + n)) buf).
Proof.
  intros. unfold memcpy. cbv zeta. rewrite to_size_t_nonneg by done.
  destruct (Z.ltb_spec (zlen buf) (off + n)), (Z.ltb_spec (zlen src) n); try lia. done.
Qed.

(** Copying the whole of [src] to the front. *)
Lemma memcpy_front buf src :
  zlen src ≤ zlen buf → zlen src ≤ kInt32Max →
  memcpy buf 0 src (zlen src) = Ok (src ++ drop (length src) buf).
Proof.
  intros. rewrite memcpy_Ok by lia. rewrite Z.add_0_l, Nat2Z.id, firstn_all. done.
Qed.

Lemma strlen_nul l rest : nul ∉ l → strlen (l ++ nul :: rest) = Ok (zlen l).
Proof.
  induction l as [|c l IH]; intros Hl; cbn.
  - by rewrite decide_True by done.
  - rewrite decide_False by (intros ->; apply Hl; by left). rewrite IH by (intros ?; apply Hl; by right).
    cbn. f_equal. lia.
Qed.

(** The frame of a message. *)
Definition prefix (d : Z) : bytes := to_string d ++ [","%char].
Definition frame (m : Z * bytes) : bytes := prefix m.1 ++ m.2.

Lemma prefix_no_nul d : nul ∉ prefix d.
Proof.
  unfold prefix. rewrite not_elem_of_app, list_elem_of_singleton. split; [|done].
  by apply to_string_no_sep.
Qed.

Lemma prefix_length d : 1 ≤ zlen (prefix d) ≤ 12.
Proof. unfold prefix. rewrite length_app. cbn. pose proof (to_string_length d). lia. Qed.

(** The search for the comma, from inside the number. *)
Lemma split_frame_Ok fuel i pre rest message len :
  ","%char ∉ pre → (i ≤ length pre)%nat → (length pre - i < fuel)%nat →
  zlen pre + 1 ≤ len ≤ kInt32Max → len - (zlen pre + 1) ≤ zlen rest → len - (zlen pre + 1) ≤ zlen message →
  split_frame fuel (Z.of_nat i) (pre ++ ","%char :: rest) message len =
    Ok (len - (zlen pre + 1),
        take (Z.to_nat (len - (zlen pre + 1))) rest ++ drop (Z.to_nat (len - (zlen pre + 1))) message).
Proof.
  intros Hpre. revert i. induction fuel as [|fuel IH]; intros i Hi Hf Hlen Hr Hm; [lia|].
  cbn [split_frame]. destruct (decide (i = length pre)) as [->|Hne].
  - rewrite (vec_get_Ok _ _ ","%char); [|lia|rewrite Nat2Z.id; by apply list_lookup_middle].
    cbn [mbind res_bind]. rewrite decide_True by done. unfold sub32.
    rewrite i32_Ok by (unfold kInt32Min, kInt32Max in *; lia). cbn [mbind res_bind].
    rewrite i32_Ok by (unfold kInt32Min, kInt32Max in *; lia). cbn [mbind res_bind].
    replace (len - zlen pre - 1) with (len - (zlen pre + 1)) by lia.
    replace (Z.to_nat (zlen pre + 1)) with (length pre + 1)%nat by lia.
    rewrite drop_app_add. change (drop 1 (","%char :: rest)) with rest. rewrite memcpy_Ok by lia. done.
  - destruct (lookup_lt_is_Some_2 pre i) as [c Hc]; [lia|].
    rewrite (vec_get_Ok _ _ c); [|lia|rewrite Nat2Z.id; by apply lookup_app_l_Some].
    cbn [mbind res_bind]. rewrite decide_False by (intros ->; apply Hpre; by eapply list_elem_of_lookup_2).
    replace (Z.of_nat i + 1) with (Z.of_nat (S i)) by lia. apply IH; lia.
Qed.

Lemma sscanf_prefix d payload old :
  int32_ok d → sscanf_int (prefix d ++ payload) old = Ok d.
Proof.
  intros Hd. unfold sscanf_int, prefix. rewrite <- app_assoc.
  rewrite read_number_to_string by done. by apply i32_Ok.
Qed.

(** ** The port of a receiver

    Ports from 32768 on are negative as an [int16], and the endpoint names no
    port. *)

Theorem listen_endpoint_spec port (Hport : 0 ≤ port < 2 ^ 16) :
  listen_endpoint port = String.list_ascii_of_string "tcp://*:" ++
    to_string (if port <? 2 ^ 15 then port else port - 2 ^ 16).
Proof.
  assert (wrap16 port = if port <? 2 ^ 15 then port else port - 2 ^ 16) as Hw.
  { unfold wrap16. destruct (Z.ltb_spec port (2 ^ 15)); [rewrite Z.mod_small by lia; lia|].
    rewrite <- (Z_mod_plus_full _ (-1)), Z.mod_small by lia. lia. }
  assert (- 2 ^ 15 ≤ wrap16 port < 2 ^ 15) as Hr by (rewrite Hw; destruct (Z.ltb_spec port (2 ^ 15)); lia).
  rewrite <- Hw. unfold listen_endpoint. apply take_ge. rewrite length_app.
  assert (length (to_string (wrap16 port)) ≤ 6)%nat; [|cbn; lia]. unfold to_string.
  destruct (Z.ltb_spec (wrap16 port) 0); cbn [length]; [apply le_n_S|apply Nat.le_le_succ_r];
    apply (digits_short 10 4); cbn; lia.
Qed.

(** ** Delivery *)

(** What the code relies on of ZeroMQ: a socket stays connected to its
    endpoint until it is closed, a new one has a handle of its own, and what is
    sent on a socket is handed to its endpoint. *)
Class ZmqLaws {K : Type} (zmq_open : string → K → Z * K) (zmq_send : Z → bytes → K → Z * K)
    (peer : K → Z → option string) (wire : K → list (string * bytes)) : Prop := {
  open_peer e k : peer (zmq_open e k).2 (zmq_open e k).1 = Some e;
  open_fresh e k : peer k (zmq_open e k).1 = None;
  open_others e k h x : peer k h = Some x → peer (zmq_open e k).2 h = Some x;
  open_wire e k : wire (zmq_open e k).2 = wire k;
  send_peers h m k : peer (zmq_send h m k).2 = peer k;
  send_wire h m k e : peer k h = Some e → wire (zmq_send h m k).2 = wire k ++ [(e, m)];
}.

Section delivery.
Context {K : Type} (zmq_open : string → K → Z * K) (zmq_send : Z → bytes → K → Z * K).
Context (peer : K → Z → option string) (wire : K → list (string * bytes)).
Context `{Hlaws : !ZmqLaws zmq_open zmq_send peer wire}.
Context (alloc : nat → bytes) (Halloc : ∀ n, length (alloc n) = n).
Context (B : Z) (HB : 0 ≤ B ≤ kInt32Max).
Implicit Types (z : ZmqCommunicator K) (st : statics).
Set Default Proof Using "Type*".

(** Every known socket is connected to the endpoint of its address, and to that
    of no other. *)
Record sockets_ok (s : ZmqSendRecv K) : Prop := mksockets {
  so_peer : ∀ a h, mapper_ s !! a = Some h → peer (context_ s) h = Some (endpoint a);
  so_inj : ∀ a b h, mapper_ s !! a = Some h → mapper_ s !! b = Some h → a = b;
}.

(** A message that fits the buffer with its frame. *)
Definition fits (m : Z * bytes) : Prop :=
  int32_ok m.1 ∧ zlen (prefix m.1) < B ∧ zlen (frame m) ≤ B.

(** Where a message goes, if its destination is known. *)
Definition delivery (book : gmap Z string) (m : Z * bytes) : option (string * bytes) :=
  a ← book !! m.1; Some (endpoint a, m.2).

Lemma snprintf_mix d :
  zlen (prefix d) < B → ∃ rest, snprintf (alloc (Z.to_nat B)) (prefix d) = prefix d ++ nul :: rest ∧
    zlen (prefix d ++ nul :: rest) = B.
Proof using Halloc HB.
  intros Hd. unfold snprintf. destruct (length (alloc (Z.to_nat B))) as [|k] eqn:E; rewrite Halloc in E; [lia|].
  rewrite take_ge by lia. eexists. split; [done|].
  rewrite length_app, length_cons, length_drop, Halloc. lia.
Qed.

Lemma Send_Ok d p z :
  buffer_size_ z = B → fits (d, p) →
  Zmq.Send alloc d p z = Ok (zlen (frame (d, p)), z <| fifo_ring_ ::= λ q, q ++ [frame (d, p)] |>).
Proof using Halloc HB.
  intros Hz (Hd & Hpre & Hfit). cbn in Hd, Hpre. unfold frame in Hfit |- *. cbn in Hfit |- *.
  rewrite length_app in Hfit. unfold Zmq.Send, new_char. rewrite Hz.
  destruct (Z.ltb_spec B 0); [lia|]. cbn [mbind res_bind]. change (to_string d ++ [","%char]) with (prefix d).
  destruct (snprintf_mix d Hpre) as (rest & -> & Hlen). cbv zeta.
  rewrite strlen_nul by apply prefix_no_nul. cbn [mbind res_bind].
  rewrite memcpy_Ok by (try rewrite Hlen; lia). cbn [mbind res_bind].
  rewrite !Nat2Z.id, firstn_all, take_app_length.
  unfold add32. rewrite i32_Ok by (unfold kInt32Min, kInt32Max in *; lia). cbn [mbind res_bind].
  unfold ring_add. destruct (Z.ltb_spec (zlen p + zlen (prefix d)) 0); [lia|].
  set (tail := drop _ _). rewrite !length_app.
  rewrite (proj2 (Z.ltb_ge _ (zlen p + zlen (prefix d)))) by lia. cbn [mbind res_bind mret res_ret].
  rewrite app_assoc, take_app_length' by (rewrite length_app; lia). f_equal. f_equal; [lia|]. by rewrite <- Hz; destruct z.
Qed.

Lemma socket_send_Ok a m s :
  sockets_ok s → zlen m ≤ kInt32Max → ∀ buf, ∃ s',
  socket_send zmq_open zmq_send a (m ++ buf) (zlen m) s = Ok (zlen m, s') ∧
  sockets_ok s' ∧ wire (context_ s') = wire (context_ s) ++ [(endpoint a, m)].
Proof.
  intros Hs Hm buf. unfold socket_send. cbv zeta. rewrite to_size_t_nonneg by lia.
  assert (∃ h k mp, socket_for zmq_open a s = (h, mkSendRecv k mp) ∧ sockets_ok (mkSendRecv k mp) ∧
    peer k h = Some (endpoint a) ∧ wire k = wire (context_ s)) as (h & k & mp & -> & Hs' & Hp & Hw).
  { unfold socket_for. destruct (mapper_ s !! a) as [h|] eqn:E.
    - exists h, (context_ s), (mapper_ s). split; [by destruct s|]. split; [by destruct Hs|]. split; [by apply Hs|done].
    - destruct (zmq_open (endpoint a) (context_ s)) as [h k] eqn:Eo.
      pose proof (open_peer (ZmqLaws := Hlaws) (endpoint a) (context_ s)) as Hpe.
      pose proof (open_wire (ZmqLaws := Hlaws) (endpoint a) (context_ s)) as Hwi.
      pose proof (open_others (ZmqLaws := Hlaws) (endpoint a) (context_ s)) as Hot.
      pose proof (open_fresh (ZmqLaws := Hlaws) (endpoint a) (context_ s)) as Hfr. rewrite Eo in Hpe, Hwi, Hot, Hfr.
      eexists h, k, _. split; [done|]. split; [|done]. cbn in Hfr. constructor; cbn.
      + intros a' h' [[-> ->]|[Hne Ha']]%lookup_insert_Some; [done|]. by apply Hot, Hs.
      + intros a' b' h'. rewrite !lookup_insert_Some. intros [[Ha Hh]|[Ha Hh]] [[Hb Hh']|[Hb Hh']]; subst; [done|..].
        * apply (so_peer s Hs) in Hh'. congruence.
        * apply (so_peer s Hs) in Hh. congruence.
        * by apply (so_inj s Hs a' b' h'). }
  destruct (Z.ltb_spec (zlen (m ++ buf)) (zlen m)) as [Hlt|_]; [rewrite length_app in Hlt; lia|].
  rewrite Nat2Z.id, take_app_length. cbn [context_].
  pose proof (send_peers (ZmqLaws := Hlaws) h m k) as Hpe. pose proof (send_wire (ZmqLaws := Hlaws) h m k _ Hp) as Hwi.
  destruct (zmq_send h m k) as [rc k']. cbn in Hpe, Hwi. eexists. split; [done|]. cbn. split; [|by rewrite Hwi, Hw].
  constructor; cbn; [intros a' h' Ha'; rewrite Hpe|]; by apply Hs'.
Qed.

(** The static buffers have the size of the sender's. *)
Definition statics_ok st : Prop := zlen (mix_message st) = B ∧ zlen (message st) = B.

Lemma Consume_Ok st z d p q :
  buffer_size_ z = B → statics_ok st → sockets_ok (send_recv_ z) → fits (d, p) →
  fifo_ring_ z = frame (d, p) :: q →
  ∃ st' z', Consume zmq_open zmq_send st z = Ok (Some (st', z')) ∧ statics_ok st' ∧
    sockets_ok (send_recv_ z') ∧ fifo_ring_ z' = q ∧ buffer_size_ z' = B ∧ id_to_addr_ z' = id_to_addr_ z ∧
    wire (context_ (send_recv_ z')) =
      wire (context_ (send_recv_ z)) ++ omap (delivery (id_to_addr_ z)) [(d, p)].
Proof.
  intros Hz [Hmix Hmsg] Hs (Hd & Hpre & Hfit) Hq. cbn in Hd, Hpre. unfold frame in Hq, Hfit. cbn in Hq, Hfit.
  unfold Consume, ring_fetch. rewrite Hq, memcpy_front by lia. cbn [mbind res_bind].
  rewrite length_app in Hfit. set (mix := (prefix d ++ p) ++ _).
  assert (zlen mix = B) as Hml by (unfold mix; rewrite !length_app, length_drop, ?length_app; lia).
  pose proof (prefix_length d) as Hpl.
  assert (mix = to_string d ++ ","%char :: p ++ drop (length (prefix d ++ p)) (mix_message st)) as Hmx
    by (unfold mix, prefix; by rewrite <- !app_assoc).
  assert (zlen (prefix d) = zlen (to_string d) + 1) as Hpd by (unfold prefix; rewrite length_app; cbn; lia).
  pose proof (sscanf_prefix d (p ++ drop (length (prefix d ++ p)) (mix_message st)) (dst_id st) Hd) as Hsc.
  rewrite app_assoc in Hsc. fold mix in Hsc. change (frame (d, p)) with (prefix d ++ p). fold mix.
  cbn [mbind res_bind mret res_ret]. rewrite Hsc. cbn [mbind res_bind mret res_ret]. rewrite Hmx. change 0 with (Z.of_nat 0).
  rewrite split_frame_Ok; rewrite ?length_app, ?length_drop; [|by apply to_string_no_sep|lia..].
  replace (Z.of_nat (length (prefix d) + length p) - (zlen (to_string d) + 1)) with (zlen p) by lia.
  cbn [mbind res_bind]. rewrite Nat2Z.id, take_app_length. cbn [id_to_addr_].
  change (id_to_addr_ (z <| fifo_ring_ := q |>)) with (id_to_addr_ z).
  set (st' := mkStatics _ _ d).
  assert (statics_ok st') as Hst.
  { split; unfold st'; cbn; [rewrite length_app in Hmx; by rewrite <- Hmx|]. rewrite length_app, length_drop. lia. }
  unfold delivery. cbn [omap list_omap fst snd].
  destruct (id_to_addr_ z !! d) as [a|] eqn:Ea; cbn [mbind option_bind].
  - destruct (socket_send_Ok a p (send_recv_ z) Hs ltac:(lia) (drop (length p) (message st)))
      as (s' & Hss & Hs' & Hw).
    change (send_recv_ (z <| fifo_ring_ := q |>)) with (send_recv_ z). rewrite Hss. cbn [mbind res_bind].
    eexists st', _. split; [done|]. by split_and!.
  - eexists st', _. split; [done|]. cbn. rewrite app_nil_r. by split_and!.
Qed.

(** The messages given to [Send]. *)
Definition sent_by (e : event) : option (Z * bytes) :=
  match e with ESend d p => Some (d, p) | EConsume => None end.
Definition event_ok (e : event) : Prop := match e with ESend d p => fits (d, p) | EConsume => True end.

(** The state after [done] were consumed and [pending] wait in the ring. *)
Record sending (z0 : ZmqCommunicator K) (done pending : list (Z * bytes)) (x : statics * ZmqCommunicator K) : Prop := {
  se_size : buffer_size_ x.2 = B;
  se_book : id_to_addr_ x.2 = id_to_addr_ z0;
  se_statics : statics_ok x.1;
  se_sockets : sockets_ok (send_recv_ x.2);
  se_fits : Forall fits pending;
  se_ring : fifo_ring_ x.2 = frame <$> pending;
  se_wire : wire (context_ (send_recv_ x.2)) =
    wire (context_ (send_recv_ z0)) ++ omap (delivery (id_to_addr_ z0)) done;
}.

Lemma sender_step_Ok e z0 done pending x :
  event_ok e → sending z0 done pending x →
  sender_step zmq_open zmq_send alloc e x ⇓ λ x', ∃ done' pending',
    done ++ pending ++ option_list (sent_by e) = done' ++ pending' ∧ sending z0 done' pending' x'.
Proof.
  destruct x as [st z]. intros He [Hsz Hbk Hst Hso Hft Hrg Hwr]. cbn in Hsz, Hbk, Hst, Hso, Hrg, Hwr.
  destruct e as [d p|]; cbn [sender_step event_ok] in *.
  - rewrite Send_Ok by done. cbn. exists done, (pending ++ [(d, p)]). split; [done|].
    constructor; cbn; try done; [by apply Forall_app; auto|]. by rewrite Hrg, fmap_app.
  - cbn [sent_by option_list]. rewrite app_nil_r. destruct pending as [|[d p] pending].
    + unfold Consume, ring_fetch. rewrite Hrg. cbn. exists done, []. split; [done|]. by constructor.
    + inversion_clear Hft as [|? ? Hf Hfs].
      destruct (Consume_Ok st z d p (map frame pending) Hsz Hst Hso Hf Hrg)
        as (st' & z' & -> & Hst' & Hso' & Hrg' & Hsz' & Hbk' & Hwr').
      cbn. exists (done ++ [(d, p)]), pending. split; [by rewrite <- app_assoc|].
      constructor; cbn; try done; [congruence|]. by rewrite Hwr', Hwr, Hbk, omap_app, app_assoc.
Qed.

(** Messages reach their destination. However calls of [Send] and turns of
    the [Consume] thread alternate, when every message fits its buffer nothing
    fails, and what ZeroMQ has been given is, in the order of the calls, every
    message taken from the ring whose destination is in the address book,
    whole, and on a socket connected to the address of its destination; the
    others wait in the ring, each framed with the id of its destination. *)
Theorem Zmq_delivers st z evs
    (Hsize : buffer_size_ z = B) (Hst : statics_ok st) (Hsock : sockets_ok (send_recv_ z))
    (Hempty : fifo_ring_ z = []) (Hevs : Forall event_ok evs) :
  foldM (sender_step zmq_open zmq_send alloc) evs (st, z) ⇓ λ x, ∃ done pending,
    omap sent_by evs = done ++ pending ∧ fifo_ring_ x.2 = frame <$> pending ∧
    wire (context_ (send_recv_ x.2)) =
      wire (context_ (send_recv_ z)) ++ omap (delivery (id_to_addr_ z)) done.
Proof.
  apply (returns_mono _ (λ x, ∃ done pending, omap sent_by evs = done ++ pending ∧ sending z done pending x));
    last by (intros x (done & pending & Heq & []); exists done, pending).
  apply (foldM_inv (λ evs x, ∃ done pending, omap sent_by evs = done ++ pending ∧ sending z done pending x)).
  - exists [], []. split; [done|]. constructor; cbn; try done. by rewrite app_nil_r.
  - intros evs1 e evs2 x -> (done & pending & Heq & Hx). rewrite Forall_app, Forall_cons in Hevs.
    eapply returns_mono; [eapply sender_step_Ok; [apply Hevs|exact Hx]|].
    intros x' (done' & pending' & Heq' & Hx'). exists done', pending'. split; [|done].
    rewrite omap_app, Heq, <- Heq', app_assoc. done.
Qed.

(** C39: the bound of [Send]. A message that fits the buffer with its frame is
    queued and its length with the frame returned; a longer one is copied past
    the end of the buffer: [Send] does not check it. *)
Theorem Zmq_Send_bound d p z
    (Hsize : buffer_size_ z = B) (Hd : int32_ok d) (Hpre : zlen (prefix d) < B) (Hp : zlen p ≤ kInt32Max) :
  Zmq.Send alloc d p z =
    if zlen (frame (d, p)) <=? B then Ok (zlen (frame (d, p)), z <| fifo_ring_ ::= λ q, q ++ [frame (d, p)] |>)
    else Fault BufferOverflow.
Proof using Halloc HB.
  destruct (Z.leb_spec (zlen (frame (d, p))) B) as [Hle|Hgt]; [by apply Send_Ok|].
  unfold frame in Hgt. cbn in Hgt. rewrite length_app in Hgt. unfold Zmq.Send, new_char. rewrite Hsize.
  destruct (Z.ltb_spec B 0); [lia|]. cbn [mbind res_bind]. change (to_string d ++ [","%char]) with (prefix d).
  destruct (snprintf_mix d Hpre) as (rest & -> & Hlen). cbv zeta.
  rewrite strlen_nul by apply prefix_no_nul. cbn [mbind res_bind]. unfold memcpy. cbv zeta.
  rewrite to_size_t_nonneg, Hlen by lia. rewrite (proj2 (Z.ltb_lt _ _)) by lia. done.
Qed.

(** The bound of the receiving side. A message shorter than the buffer is
    put into the ring and comes out of [Receive] whole; one as long as the
    buffer or longer, or an error of ZeroMQ, makes [ZmqSendRecv::Receive]
    write its terminating zero outside the buffer. *)
Theorem Zmq_receive_bound (m buf : bytes) z
    (Hsize : buffer_size_ z = B) (Hbuf : zlen buf = B) (Hempty : fifo_ring_ z = []) :
  (zlen m < B → ∃ buf' z', Produce (Some m) buf z = Ok (buf', z') ∧ zlen buf' = B ∧
     Receive alloc z' = Ok (Some (m, z))) ∧
  (B ≤ zlen m → Produce (Some m) buf z = Fault OutOfBounds) ∧
  Produce None buf z = Fault OutOfBounds.
Proof using Halloc HB.
  unfold Produce, socket_receive. split; [|split].
  - intros Hm. rewrite take_ge by lia. rewrite vec_set_Ok by (rewrite length_app, length_drop; lia).
    cbn [mbind res_bind mret res_ret]. unfold ring_add. destruct (Z.ltb_spec (zlen m) 0); [lia|].
    rewrite length_insert, length_app, length_drop, (proj2 (Z.ltb_ge _ _)) by lia.
    cbn [mbind res_bind mret res_ret]. eexists _, (z <| fifo_ring_ ::= λ q, q ++ [_] |>). split; [done|].
    split; [rewrite length_insert, length_app, length_drop; lia|].
    unfold Receive, new_char, ring_fetch. cbn. rewrite Hsize, Hempty.
    destruct (Z.ltb_spec B 0); [lia|]. cbn [mbind res_bind app].
    rewrite Nat2Z.id, take_insert_ge, take_app_length by lia. rewrite memcpy_front by (rewrite ?Halloc; lia). cbn.
    rewrite Nat2Z.id, take_app_length. do 3 f_equal. destruct z. cbn in *. by subst.
  - intros Hm. rewrite vec_set_out; [done|]. rewrite length_app, length_take, length_drop. lia.
  - rewrite vec_set_out; [done|lia].
Qed.
End delivery.

(** ** Witnesses

    A network that records what it is given. *)

Record Net := mkNet { conns : gmap Z string; next_handle : Z; traffic : list (string * bytes) }.

Definition net_open (e : string) (k : Net) : Z * Net :=
  (next_handle k, mkNet (<[ next_handle k := e ]> (conns k)) (next_handle k + 1) (traffic k)).
Definition net_send (h : Z) (m : bytes) (k : Net) : Z * Net :=
  match conns k !! h with
  | Some e => (zlen m, mkNet (conns k) (next_handle k) (traffic k ++ [(e, m)]))
  | None => (-1, k)
  end.
(** Handles are given out in order: those in use are below the next one. *)
Definition net_peer (k : Net) (h : Z) : option string :=
  if h <? next_handle k then conns k !! h else None.

#[export] Instance net_laws : ZmqLaws net_open net_send net_peer traffic.
Proof.
  constructor; unfold net_open, net_send, net_peer; cbn.
  - intros e k. rewrite (proj2 (Z.ltb_lt _ _)) by lia. by rewrite lookup_insert_eq.
  - intros e k. by rewrite (proj2 (Z.ltb_ge _ _)) by lia.
  - intros e k h x. destruct (Z.ltb_spec h (next_handle k)); [|done].
    rewrite (proj2 (Z.ltb_lt _ _)) by lia. by rewrite lookup_insert_ne by lia.
  - done.
  - intros h m k. by destruct (conns k !! h).
  - intros h m k e. destruct (h <? next_handle k); [|done]. by intros ->.
Qed.

Definition zero_alloc (n : nat) : bytes := replicate n nul.

Definition zeros (B : nat) : statics := mkStatics (zero_alloc B) (zero_alloc B) 0.

Definition test_zmq : ZmqCommunicator Net :=
  mkZmq 64 [] (mkSendRecv (mkNet ∅ 0 []) ∅)
    (<[ 0 := "10.0.0.9:16666" ]> (<[ -7 := "10.0.0.1:5000" ]> ∅))%string.

Definition hello : bytes := String.list_ascii_of_string "hello, world".

Definition talk : list event := [ESend 0 hello; ESend (-7) hello; EConsume; ESend 3 []; EConsume; EConsume; EConsume].

Lemma zero_alloc_length n : length (zero_alloc n) = n.
Proof. apply length_replicate. Qed.

Lemma talk_ok : Forall (event_ok 64) talk.
Proof. unfold talk, event_ok, fits. repeat constructor; by vm_compute. Qed.

Lemma no_sockets k : sockets_ok net_peer (mkSendRecv k ∅).
Proof. constructor; intros a h; cbn; [|intros b]; by rewrite lookup_empty. Qed.

Example Zmq_delivers_witness :
  foldM (sender_step net_open net_send zero_alloc) talk (zeros 64, test_zmq) ⇓ λ x, ∃ done pending,
    omap sent_by talk = done ++ pending ∧ fifo_ring_ x.2 = frame <$> pending ∧
    traffic (context_ (send_recv_ x.2)) =
      traffic (context_ (send_recv_ test_zmq)) ++ omap (delivery (id_to_addr_ test_zmq)) done.
Proof.
  apply (Zmq_delivers net_open net_send net_peer traffic zero_alloc zero_alloc_length 64 ltac:(done)).
  - reflexivity.
  - split; reflexivity.
  - apply no_sockets.
  - reflexivity.
  - apply talk_ok.
Defined.

(** What the conversation puts on the wire. *)
Example talk_traffic :
  foldM (sender_step net_open net_send zero_alloc) talk (zeros 64, test_zmq) ⇓ λ x,
    traffic (context_ (send_recv_ x.2)) =
      [("tcp://10.0.0.9:16666"%string, hello); ("tcp://10.0.0.1:5000"%string, hello)].
Proof. by vm_compute. Qed.

Example Zmq_Send_bound_witness :
  Zmq.Send zero_alloc (-7) (zero_alloc 62) test_zmq =
    if zlen (frame (-7, zero_alloc 62)) <=? 64
    then Ok (zlen (frame (-7, zero_alloc 62)), test_zmq <| fifo_ring_ ::= λ q, q ++ [frame (-7, zero_alloc 62)] |>)
    else Fault BufferOverflow.
Proof.
  apply (Zmq_Send_bound zero_alloc zero_alloc_length 64 ltac:(done)); [reflexivity|by vm_compute..].
Defined.

Example Zmq_receive_bound_witness :
  (zlen hello < 64 → ∃ buf' z', Produce (Some hello) (zero_alloc 64) test_zmq = Ok (buf', z') ∧ zlen buf' = 64 ∧
     Receive zero_alloc z' = Ok (Some (hello, test_zmq))) ∧
  (64 ≤ zlen hello → Produce (Some hello) (zero_alloc 64) test_zmq = Fault OutOfBounds) ∧
  Produce None (zero_alloc 64) test_zmq = Fault OutOfBounds.
Proof.
  apply (Zmq_receive_bound zero_alloc zero_alloc_length 64 ltac:(done)); reflexivity.
Defined.
