(* ===== verification/ZmqRefines.v ===== *)
(** * The ZeroMQ communicator implements the interface

    The nodes are proved against the class of Communicator.v. Here the
    communicator over ZeroMQ is shown to simulate the least instance of the
    class, a log and an address book, for messages that fit its buffers: the
    calls give the same answers, nothing fails, and the log is, in order, what
    the [Consume] thread has taken and what still waits in the ring. *)

From S2P Require Import Prelude CppStd Decimal Float32 Messages Communicator ZmqCommunicator ZmqProps.
From stdpp Require Import options.

Import Zmq.

(** A call of the interface, or a turn of the [Consume] thread. *)
Inductive call :=
| CSend (dst_id : Z) (m : Message)
| CAddIdAddr (id : Z) (addr : string)
| CDeleteId (id : Z)
| CCheckIdAddr (id : Z) (addr : string)
| CConsume.

(** What a caller looks at: whether [Send] failed, the results of
    [AddIdAddr] and [CheckIdAddr]. *)
Definition answer : Type := option bool.

(** Closing sockets, as far as the code relies on it. *)
Class ZmqCloseLaws {K : Type} (zmq_close : Z → K → Z * K)
    (peer : K → Z → option string) (wire : K → list (string * bytes)) : Prop := {
  close_others h k h' x : h' ≠ h → peer k h' = Some x → peer (zmq_close h k).2 h' = Some x;
  close_wire h k : wire (zmq_close h k).2 = wire k;
}.

Section refinement.
Context {K : Type} (zmq_open : string → K → Z * K) (zmq_send : Z → bytes → K → Z * K) (zmq_close : Z → K → Z * K).
Context (peer : K → Z → option string) (wire : K → list (string * bytes)).
Context `{Hlaws : !ZmqLaws zmq_open zmq_send peer wire} `{Hclose : !ZmqCloseLaws zmq_close peer wire}.
Context (alloc : nat → bytes) (Halloc : ∀ n, length (alloc n) = n).
Context (B : Z) (HB : 0 ≤ B ≤ kInt32Max).
(** [SerializeToString] of the protobuf messages. *)
Context (serialize : Message → bytes).
Implicit Types (z : ZmqCommunicator K) (st : statics).
Set Default Proof Using "Type*".

(** The calls on the program's communicator. *)
Definition zmq_call (e : call) (x : statics * ZmqCommunicator K) : res (answer * (statics * ZmqCommunicator K)) :=
  let '(st, z) := x in
  match e with
  | CSend d m => '(n, z) ← Zmq.Send alloc d (serialize m) z; mret (Some (n =? -1), (st, z))
  | CAddIdAddr i a => let '(b, z) := AddIdAddr i a z in mret (Some b, (st, z))
  | CDeleteId i => mret (None, (st, (DeleteId zmq_close i z).2))
  | CCheckIdAddr i a => mret (Some (CheckIdAddr i a z), (st, z))
  | CConsume =>
      r ← Consume zmq_open zmq_send st z;
      mret (None, match r with Some x => x | None => (st, z) end)
  end.

(** The abstract machine: the least communicator, how much of its log was
    taken, and what was given to the network. *)
Record spec := mkSpec {
  communicator : Trace;
  taken : nat;
  given : list (string * bytes);
}.
#[local] Instance spec_eta : Eta spec := λ s, mkSpec (communicator s) (taken s) (given s).

Definition payload (dm : Z * Message) : Z * bytes := (dm.1, serialize dm.2).

Definition spec_call (e : call) (s : spec) : answer * spec :=
  let c := communicator s in
  match e with
  | CSend d m => let '(n, c) := Communicator.Send d m c in (Some (n =? -1), s <| communicator := c |>)
  | CAddIdAddr i a => let '(b, c) := Communicator.AddIdAddr i a c in (Some b, s <| communicator := c |>)
  | CDeleteId i => (None, s <| communicator := (Communicator.DeleteId i c).2 |>)
  | CCheckIdAddr i a => (Some (Communicator.CheckIdAddr i a c), s)
  | CConsume =>
      match outbox c !! taken s with
      | None => (None, s)
      | Some dm =>
          (None, s <| taken := S (taken s) |>
                   <| given := given s ++ omap (delivery (book c)) [payload dm] |>)
      end
  end.

(** The messages that fit the buffers of the communicator. *)
Definition call_ok (e : call) : Prop := match e with CSend d m => fits B (d, serialize m) | _ => True end.

(** The program's communicator in a state that implements [s]. *)
Record simulates (s : spec) (x : statics * ZmqCommunicator K) : Prop := mksimulates {
  si_size : buffer_size_ x.2 = B;
  si_statics : statics_ok B x.1;
  si_sockets : sockets_ok peer (send_recv_ x.2);
  si_book : id_to_addr_ x.2 = book (communicator s);
  si_ring : fifo_ring_ x.2 = (frame ∘ payload) <$> drop (taken s) (outbox (communicator s));
  si_fits : Forall (fits B ∘ payload) (drop (taken s) (outbox (communicator s)));
  si_taken : (taken s ≤ length (outbox (communicator s)))%nat;
  si_wire : wire (context_ (send_recv_ x.2)) = given s;
}.

Lemma simulates_Send s st z d m :
  fits B (d, serialize m) → simulates s (st, z) →
  zmq_call (CSend d m) (st, z) ⇓ λ r, r.1 = (spec_call (CSend d m) s).1 ∧ simulates (spec_call (CSend d m) s).2 r.2.
Proof.
  intros Hfit [Hsz Hst Hso Hbk Hrg Hft Htk Hwr]. cbn in Hsz, Hst, Hso, Hbk, Hrg, Hft, Htk, Hwr. cbn [zmq_call].
  rewrite (Send_Ok alloc Halloc B HB) by done. cbn. split.
  - f_equal. apply Z.eqb_neq. lia.
  - constructor; cbn; try done; rewrite ?drop_app_le by lia.
    + by rewrite Hrg, fmap_app.
    + by apply Forall_app; auto.
    + rewrite length_app. lia.
Qed.

Lemma simulates_Consume s st z :
  simulates s (st, z) →
  zmq_call CConsume (st, z) ⇓ λ r, r.1 = (spec_call CConsume s).1 ∧ simulates (spec_call CConsume s).2 r.2.
Proof.
  intros [Hsz Hst Hso Hbk Hrg Hft Htk Hwr]. cbn in Hsz, Hst, Hso, Hbk, Hrg, Hft, Htk, Hwr.
  cbn [zmq_call spec_call]. change (outbox (communicator s)) with (trace_log (communicator s)).
  destruct (trace_log (communicator s) !! taken s) as [dm|] eqn:Hdm.
  - rewrite (drop_S _ _ _ Hdm) in Hrg, Hft. apply Forall_cons in Hft as [Hf Hft]. cbn in Hrg, Hf.
    destruct (Consume_Ok zmq_open zmq_send peer wire B HB st z (payload dm).1 (payload dm).2 _ Hsz Hst Hso Hf Hrg)
      as (st' & z' & -> & Hst' & Hso' & Hrg' & Hsz' & Hbk' & Hwr').
    cbn. split; [done|]. constructor; cbn; try done.
    + by rewrite Hbk'.
    + apply lookup_lt_Some in Hdm. lia.
    + rewrite Hwr', Hwr. f_equal. unfold delivery. cbn. by rewrite Hbk.
  - rewrite drop_ge in Hrg by (by apply lookup_ge_None). unfold Consume, ring_fetch. cbn in Hrg. rewrite Hrg. cbn.
    split; [done|]. constructor; cbn; try done. by rewrite drop_ge by (by apply lookup_ge_None).
Qed.

Lemma CloseSocket_Ok addr s :
  sockets_ok peer s → sockets_ok peer (CloseSocket zmq_close addr s).2 ∧
  wire (context_ (CloseSocket zmq_close addr s).2) = wire (context_ s).
Proof.
  intros Hs. unfold CloseSocket. destruct (mapper_ s !! addr) as [h|] eqn:Ha; [|done].
  pose proof (close_others (ZmqCloseLaws := Hclose) h (context_ s)) as Hot.
  pose proof (close_wire (ZmqCloseLaws := Hclose) h (context_ s)) as Hwi.
  destruct (zmq_close h (context_ s)) as [rc k]. cbn in *. split; [|done]. constructor; cbn.
  - intros a h' [Hne Hh]%lookup_delete_Some. apply Hot; [|by apply Hs].
    intros ->. apply Hne. by apply (so_inj peer s Hs addr a h).
  - intros a b h' [_ Hx]%lookup_delete_Some [_ Hy]%lookup_delete_Some. by apply (so_inj peer s Hs a b h').
Qed.

Lemma simulates_call e s x :
  call_ok e → simulates s x →
  zmq_call e x ⇓ λ r, r.1 = (spec_call e s).1 ∧ simulates (spec_call e s).2 r.2.
Proof.
  destruct x as [st z]. intros He Hx.
  destruct e as [d m|i a|i|i a|]; [by apply simulates_Send| | | |by apply simulates_Consume];
    destruct Hx as [Hsz Hst Hso Hbk Hrg Hft Htk Hwr]; cbn in Hsz, Hst, Hso, Hbk, Hrg, Hft, Htk, Hwr.
  - cbn. unfold AddIdAddr, map_insert_new. rewrite Hbk.
    destruct (trace_book (communicator s) !! i) eqn:Hi; cbn; (split; [done|]); by constructor; cbn; rewrite ?Hbk.
  - cbn. split; [done|]. unfold DeleteId. rewrite Hbk. destruct (trace_book (communicator s) !! i) as [addr|] eqn:Hi.
    + destruct (CloseSocket_Ok addr (send_recv_ z) Hso) as [Hso' Hwr'].
      destruct (CloseSocket zmq_close addr (send_recv_ z)) as [rc sr]. cbn in Hso', Hwr'.
      constructor; cbn; try done; [by rewrite Hbk|congruence].
    + constructor; cbn; try done. by rewrite delete_id.
  - cbn. split; [|by constructor]. unfold CheckIdAddr. rewrite Hbk. f_equal.
    destruct (trace_book (communicator s) !! i) as [addr|]; [|by rewrite bool_decide_eq_false_2].
    apply bool_decide_ext. split; congruence.
Qed.

(** Sequences of calls, with the answers. *)
Definition zmq_calls (calls : list call) (x : statics * ZmqCommunicator K) :
    res (list answer * (statics * ZmqCommunicator K)) :=
  foldM (λ e '(answers, x), '(r, x) ← zmq_call e x; mret (answers ++ [r], x)) calls ([], x).
Definition spec_calls (calls : list call) (s : spec) : list answer * spec :=
  foldl (λ '(answers, s) e, let '(r, s) := spec_call e s in (answers ++ [r], s)) ([], s) calls.

(** C18: the ZeroMQ communicator implements the interface. However the callers
    and the [Consume] thread alternate, when every message sent fits the
    buffers no call fails, [Send], [AddIdAddr] and [CheckIdAddr] answer as
    those of the abstract communicator, the address books agree, and of the
    abstract log the messages taken were given to ZeroMQ whole and in order,
    each on a socket connected to the address its destination had when it was
    taken, while the others wait in the ring, framed with their destinations. *)
Theorem Zmq_refines st z calls
    (Hsize : buffer_size_ z = B) (Hst : statics_ok B st) (Hsock : sockets_ok peer (send_recv_ z))
    (Hempty : fifo_ring_ z = []) (Hcalls : Forall call_ok calls) :
  let s0 := mkSpec (mkTrace [] (id_to_addr_ z)) 0 (wire (context_ (send_recv_ z))) in
  zmq_calls calls (st, z) ⇓ λ r, r.1 = (spec_calls calls s0).1 ∧ simulates (spec_calls calls s0).2 r.2.
Proof.
  intros s0. unfold zmq_calls, spec_calls.
  apply (foldM_inv (λ calls r, r.1 = (foldl (λ '(answers, s) e, let '(x, s) := spec_call e s in (answers ++ [x], s)) ([], s0) calls).1 ∧
    simulates (foldl (λ '(answers, s) e, let '(x, s) := spec_call e s in (answers ++ [x], s)) ([], s0) calls).2 r.2)).
  - split; [done|]. by constructor; cbn; rewrite ?Hempty; try lia.
  - intros pre e post [answers x] -> [Hans Hx]. rewrite Forall_app, Forall_cons in Hcalls.
    rewrite foldl_app. cbn [foldl].
    destruct (foldl _ ([], s0) pre) as [answers' s]. cbn in Hans, Hx. subst answers'.
    eapply returns_bind, returns_mono; [apply (simulates_call e s x); [apply Hcalls|exact Hx]|].
    intros [r x'] [Hr Hx']. destruct (spec_call e s) as [r' s']. cbn in *. by subst.
Qed.
End refinement.

(** ** Witness

    A sender of the test network learns an address, sends, and forgets one. *)

Definition net_close (h : Z) (k : Net) : Z * Net := (0, mkNet (delete h (conns k)) (next_handle k) (traffic k)).

#[export] Instance net_close_laws : ZmqCloseLaws net_close net_peer traffic.
Proof.
  constructor; unfold net_close, net_peer; cbn; [|done].
  intros h k h' x Hne. destruct (h' <? next_handle k); [|done]. by rewrite lookup_delete_ne.
Qed.

Definition text (m : Message) : bytes := to_string (send_id m).
Definition beat (id : Z) : Message := mkMessage id 0 mt_heartbeat None None None None.

Definition dialogue : list call :=
  [CSend 0 (beat 5); CAddIdAddr 3 "10.0.0.3:7000"; CConsume; CSend 3 (beat 6); CDeleteId 0; CSend 0 (beat 7);
   CConsume; CCheckIdAddr 3 "10.0.0.3:7000"; CConsume].

Example Zmq_refines_witness :
  let s0 := mkSpec (mkTrace [] (id_to_addr_ test_zmq)) 0 [] in
  zmq_calls net_open net_send net_close zero_alloc text dialogue (zeros 64, test_zmq) ⇓ λ r,
    r.1 = (spec_calls text dialogue s0).1 ∧ simulates net_peer traffic 64 text (spec_calls text dialogue s0).2 r.2.
Proof.
  apply (Zmq_refines net_open net_send net_close net_peer traffic zero_alloc zero_alloc_length 64 ltac:(done) text
    (zeros 64) test_zmq dialogue).
  - reflexivity.
  - split; reflexivity.
  - apply no_sockets.
  - reflexivity.
  - unfold dialogue, call_ok, fits. repeat constructor; by vm_compute.
Defined.

(** The last message found no address: its destination was forgotten. *)
Example dialogue_given :
  given (spec_calls text dialogue (mkSpec (mkTrace [] (id_to_addr_ test_zmq)) 0 [])).2 =
    [("tcp://10.0.0.9:16666"%string, text (beat 5)); ("tcp://10.0.0.3:7000"%string, text (beat 6))].
Proof. by vm_compute. Qed.
