(* ===== verification/TaskConfig.v ===== *)
(** * The task configuration (src/master/task_config.h, src/master/task_config.cc)

    The master's table of nodes: ids are given out in order of registration,
    the key partition is drawn when the cluster is complete, and the whole is
    turned into the configuration message. The random engine is a parameter:
    [draw (a, b) n] is the [n]-th number it produces for the range [a .. b]. *)

From S2P Require Import Prelude CppStd Decimal Float32 Messages.
From Stdlib Require String.
From stdpp Require Import options.

Module TaskConfig.

Record TaskConfig := mkTaskConfig {
  worker_num_ : Z;
  server_num_ : Z;
  key_range_ : Z;
  backup_size_ : Z;
  partition_ : list Z;
  server_id_ : list Z;
  agent_id_ : list Z;
  master_id_ : list Z;
  id_to_addr_ : gmap Z string;
  bound_ : Z;
  node_id_ : Z;
  config_changed_ : bool;
  (** The bounds of [distribution_], and how many numbers [generator_] has given. *)
  distribution_ : Z * Z;
  generator_ : nat;
}.
#[global] Instance TaskConfig_eta : Eta TaskConfig := λ c,
  mkTaskConfig (worker_num_ c) (server_num_ c) (key_range_ c) (backup_size_ c) (partition_ c)
    (server_id_ c) (agent_id_ c) (master_id_ c) (id_to_addr_ c) (bound_ c) (node_id_ c)
    (config_changed_ c) (distribution_ c) (generator_ c).

(** The command-line flags (lines 18-22). *)
Record flags := mkFlags {
  FLAGS_worker_num : Z;
  FLAGS_server_num : Z;
  FLAGS_key_range : Z;
  FLAGS_bound : Z;
  FLAGS_backup_size : Z;
}.
Definition default_flags : flags := mkFlags 1 1 0 0 0.

(** The constructor, then [Initialize]. *)
Definition new_config : TaskConfig :=
  mkTaskConfig 0 0 0 0 [] [] [] [] ∅ 0 0 false (0, 0) 0.

Definition Initialize (f : flags) (c : TaskConfig) : res TaskConfig :=
  let c := c <| worker_num_ := FLAGS_worker_num f |> <| server_num_ := FLAGS_server_num f |>
             <| key_range_ := FLAGS_key_range f |> <| bound_ := FLAGS_bound f |>
             <| backup_size_ := FLAGS_backup_size f |> in
  hi ← sub32 (key_range_ c) 2;
  mret (c <| distribution_ := (1, hi) |>).

(** [ip + ":" + std::to_string(port)] *)
Definition address (ip : string) (port : Z) : string :=
  (ip +:+ ":" +:+ String.string_of_list_ascii (to_string port))%string.

Definition next_id (c : TaskConfig) : res TaskConfig :=
  n ← add32 (node_id_ c) 1; mret (c <| node_id_ := n |>).

Definition AppendServer (ip : string) (port : Z) (c : TaskConfig) : res TaskConfig :=
  let c := c <| server_id_ ::= λ l, l ++ [node_id_ c] |> in
  let c := c <| id_to_addr_ ::= <[ node_id_ c := address ip port ]> |> in
  next_id c.

Definition AppendAgent (ip : string) (port : Z) (c : TaskConfig) : res TaskConfig :=
  let c := c <| agent_id_ ::= λ l, l ++ [node_id_ c] |> in
  let c := c <| id_to_addr_ ::= <[ node_id_ c := address ip port ]> |> in
  next_id c.

(** [AppendMaster(ip, port)] *)
Definition AppendMaster_port (ip : string) (port : Z) (c : TaskConfig) : res TaskConfig :=
  let c := c <| master_id_ ::= λ l, l ++ [node_id_ c] |> in
  let c := c <| id_to_addr_ ::= <[ node_id_ c := address ip port ]> |> in
  next_id c.

(** [AppendMaster(ip_port)]: the parsed parts are not used. *)
Definition AppendMaster (ip_port : string) (c : TaskConfig) : res TaskConfig :=
  let c := c <| master_id_ ::= λ l, l ++ [node_id_ c] |> in
  let c := c <| id_to_addr_ ::= <[ node_id_ c := ip_port ]> |> in
  next_id c.

Definition Ready (c : TaskConfig) : bool :=
  (zlen (server_id_ c) =? to_size_t (server_num_ c)) && (zlen (agent_id_ c) =? to_size_t (worker_num_ c)).

(** [id_to_addr_\[id\]] of a non-const map: a missing id is added. *)
Definition GetIp (id : Z) (c : TaskConfig) : string * TaskConfig :=
  let '(a, m) := map_at EmptyString (id_to_addr_ c) id in (a, c <| id_to_addr_ := m |>).

Definition GetIdAddr (id : Z) (c : TaskConfig) : string := default EmptyString (id_to_addr_ c !! id).

Definition get_node_ip (c : TaskConfig) : list string := (map_to_list (id_to_addr_ c)).*2.

Definition IsServerId (id : Z) (c : TaskConfig) : bool := bool_decide (id ∈ server_id_ c).
Definition IsAgentId (id : Z) (c : TaskConfig) : bool := bool_decide (id ∈ agent_id_ c).
Definition IsMasterId (id : Z) (c : TaskConfig) : bool := bool_decide (id ∈ master_id_ c).

Definition set_config_changed (v : bool) (c : TaskConfig) : TaskConfig := c <| config_changed_ := v |>.

(** [GeneratePartition] appends to [partition_] and sorts it. *)
Definition GeneratePartition (draw : Z * Z → nat → Z) (c : TaskConfig) : res TaskConfig :=
  c ← for_ 0 (server_num_ c) (λ _ c,
    mret (c <| partition_ ::= λ l, l ++ [draw (distribution_ c) (generator_ c)] |>
            <| generator_ ::= S |>)) c;
  mret (c <| partition_ ::= std_sort |>).

(** The order of [std::pair<int, std::string>] on pairs with distinct ids. *)
Definition by_id : relation (Z * string) := λ p q, p.1 ≤ q.1.
#[global] Instance by_id_dec p q : Decision (by_id p q) := Z_le_dec p.1 q.1.

(** [set_node_ip_port(i, a)] on the repeated field. *)
Definition proto_set {A} (l : list A) (i : Z) (x : A) : res (list A) :=
  if (i <? 0) || (zlen l <=? i) then Fault ProtoIndex else Ok (<[ Z.to_nat i := x ]> l).

Definition ToMessage (c : TaskConfig) : res ConfigMessage :=
  let pairs := map_to_list (id_to_addr_ c) in
  let temp := merge_sort by_id pairs in
  addrs ← foldM (λ '(id, addr) l, proto_set l id addr) pairs temp.*2;
  mret (mkConfig (worker_num_ c) (server_num_ c) (key_range_ c) addrs (partition_ c)
          (backup_size_ c) (server_id_ c) (agent_id_ c) (master_id_ c) (bound_ c)).

(** [erase(begin + i)] *)
Definition erase_at {A} (l : list A) (i : nat) : res (list A) :=
  if decide (i < length l)%nat then Ok (delete i l) else Fault OutOfBounds.

(** One turn of the loop of [FixConfig]. *)
Definition fix_node (node_id : Z) (c : TaskConfig) : res TaskConfig :=
  match list_find (node_id =.) (agent_id_ c) with
  | Some (i, _) => mret (c <| agent_id_ ::= delete i |>)
  | None =>
      match list_find (node_id =.) (server_id_ c) with
      | Some (i, _) =>
          let c := c <| server_id_ ::= delete i |> in
          p ← erase_at (partition_ c) i;
          mret (c <| partition_ := p |>)
      | None => mret c
      end
  end.

Definition FixConfig (dead_node : list Z) (c : TaskConfig) : res TaskConfig :=
  if zlen dead_node =? 0 then mret c
  else foldM fix_node dead_node (c <| config_changed_ := true |>).

(** ** Well-formedness: ids are given out without gaps, one per node *)

Record wf (c : TaskConfig) : Prop := mkwf {
  wf_next : 0 ≤ node_id_ c;
  wf_addr : ∀ id, is_Some (id_to_addr_ c !! id) ↔ 0 ≤ id < node_id_ c;
  wf_ids : NoDup (server_id_ c ++ agent_id_ c ++ master_id_ c);
  wf_range : Forall (λ id, 0 ≤ id < node_id_ c) (server_id_ c ++ agent_id_ c ++ master_id_ c);
}.

Lemma new_config_wf : wf new_config.
Proof.
  constructor; cbn; [done| |constructor|constructor].
  intros id. rewrite lookup_empty. split; [by intros []|lia].
Qed.

Lemma Initialize_wf f c c' : wf c → Initialize f c = Ok c' → wf c'.
Proof.
  intros Hwf HI. unfold Initialize in HI. apply bind_Ok_inv in HI as (hi & _ & [= <-]).
  by destruct Hwf.
Qed.

(** A new node takes the next id. *)
Lemma insert_wf_addr c (a : string) id :
  wf c → is_Some (<[ node_id_ c := a ]> (id_to_addr_ c) !! id) ↔ 0 ≤ id < node_id_ c + 1.
Proof.
  intros [Hn Ha _ _]. rewrite lookup_insert. case_decide as Hd.
  - split; [lia|done].
  - rewrite Ha. lia.
Qed.

Lemma fresh_id c l :
  Forall (λ id, 0 ≤ id < node_id_ c) l → node_id_ c ∉ l.
Proof. rewrite Forall_forall. intros Hall Hin. specialize (Hall _ Hin). lia. Qed.

Lemma grow_range n (l : list Z) : Forall (λ id, 0 ≤ id < n) l → Forall (λ id, 0 ≤ id < n + 1) l.
Proof. intros Hall. eapply Forall_impl; [exact Hall|]. cbn. lia. Qed.

Lemma NoDup_snoc_middle {A} (l1 l2 : list A) x : NoDup (l1 ++ l2) → x ∉ l1 ++ l2 → NoDup ((l1 ++ [x]) ++ l2).
Proof.
  intros Hnd Hx. assert ((l1 ++ [x]) ++ l2 ≡ₚ x :: l1 ++ l2) as -> by (rewrite <- app_assoc; cbn; by rewrite <- Permutation_middle).
  by constructor.
Qed.

Lemma AppendServer_Ok ip port c :
  wf c → node_id_ c < kInt32Max →
  ∃ c', AppendServer ip port c = Ok c' ∧ wf c' ∧ server_id_ c' = server_id_ c ++ [node_id_ c] ∧
    agent_id_ c' = agent_id_ c ∧ partition_ c' = partition_ c ∧ node_id_ c' = node_id_ c + 1 ∧
    id_to_addr_ c' = <[ node_id_ c := address ip port ]> (id_to_addr_ c).
Proof.
  intros Hwf Hn. pose proof Hwf as [H0 _ Hnd Hr]. unfold AppendServer, next_id. cbn.
  unfold add32. rewrite i32_Ok by (unfold kInt32Min; lia). cbn. eexists. split; [done|].
  split_and!; try done. constructor; cbn; [lia| | |].
  - intros id. by apply insert_wf_addr.
  - apply NoDup_snoc_middle; [done|]. by apply fresh_id.
  - rewrite <- app_assoc. apply Forall_app in Hr as [Hr1 Hr2].
    apply Forall_app. split; [by apply grow_range|]. constructor; [lia|by apply grow_range].
Qed.

Lemma AppendAgent_Ok ip port c :
  wf c → node_id_ c < kInt32Max →
  ∃ c', AppendAgent ip port c = Ok c' ∧ wf c' ∧ agent_id_ c' = agent_id_ c ++ [node_id_ c] ∧
    server_id_ c' = server_id_ c ∧ partition_ c' = partition_ c ∧ node_id_ c' = node_id_ c + 1 ∧
    id_to_addr_ c' = <[ node_id_ c := address ip port ]> (id_to_addr_ c).
Proof.
  intros Hwf Hn. pose proof Hwf as [H0 _ Hnd Hr]. unfold AppendAgent, next_id. cbn.
  unfold add32. rewrite i32_Ok by (unfold kInt32Min; lia). cbn. eexists. split; [done|].
  split_and!; try done. constructor; cbn; [lia| | |].
  - intros id. by apply insert_wf_addr.
  - rewrite app_assoc, (app_assoc (server_id_ c)). apply NoDup_snoc_middle; rewrite <- app_assoc; [done|].
    by apply fresh_id.
  - rewrite <- app_assoc. rewrite !Forall_app in Hr. destruct Hr as (Hr1 & Hr2 & Hr3).
    rewrite !Forall_app. split_and!; [by apply grow_range|by apply grow_range|by repeat constructor; lia|by apply grow_range].
Qed.

Lemma AppendMaster_Ok ip_port c :
  wf c → node_id_ c < kInt32Max →
  ∃ c', AppendMaster ip_port c = Ok c' ∧ wf c' ∧ master_id_ c' = master_id_ c ++ [node_id_ c] ∧
    node_id_ c' = node_id_ c + 1 ∧ id_to_addr_ c' = <[ node_id_ c := ip_port ]> (id_to_addr_ c).
Proof.
  intros Hwf Hn. pose proof Hwf as [H0 _ Hnd Hr]. unfold AppendMaster, next_id. cbn.
  unfold add32. rewrite i32_Ok by (unfold kInt32Min; lia). cbn. eexists. split; [done|].
  split_and!; try done. constructor; cbn; [lia| | |].
  - intros id. by apply insert_wf_addr.
  - rewrite !app_assoc. apply NoDup_app. split_and!.
    + by rewrite <- app_assoc.
    + intros id Hid ->%list_elem_of_singleton. by apply (fresh_id c _ Hr); rewrite app_assoc.
    + repeat constructor. by intros ?%elem_of_nil.
  - rewrite !Forall_app in *. destruct Hr as (Hr1 & Hr2 & Hr3).
    split_and!; [by apply grow_range..|by repeat constructor; lia].
Qed.

End TaskConfig.
