(* ===== verification/Master.v ===== *)
(** * The master (src/master/master.h, src/master/master.cc)

    Registration of the nodes, delivery of the configuration, heartbeats and
    the detection of dead nodes; the election with ZooKeeper is in Election.v.
    Times are in seconds and arguments of the operations; the two background
    threads are single turns. Log lines are left out, but for the one in which
    [DetectDeadNode] uses a stream after its end. *)

From S2P Require Import Prelude CppStd Decimal Logging Float32 Messages Communicator TaskConfig.
From Stdlib Require String.
From Stdlib Require Import Ascii.
From stdpp Require Import options.

Module Master.

(** ** Splitting text: [std::getline(ss, x, sep)] *)

Fixpoint split (sep : Ascii.ascii) (l : bytes) : bytes * option bytes :=
  match l with
  | [] => ([], None)
  | c :: l' =>
      if decide (c = sep) then ([], Some l')
      else let '(a, rest) := split sep l' in (c :: a, rest)
  end.

(** The parts of an address: before the first colon, and from there to the next. *)
Definition ip_port (addr : string) : bytes * bytes :=
  let '(ip, rest) := split ":"%char (String.list_ascii_of_string addr) in
  (ip, match rest with Some l => (split ":"%char l).1 | None => [] end).

Section master.
Context {C : Type} `{Communicator C}.
Context (draw : Z * Z → nat → Z).
Context (FLAGS_max_cluster_node FLAGS_heartbeat_timeout : Z).
(** [localtime_r], of the machine. *)
Context (localtime : Z → Logging.tm).

(** ** State *)

Record Master := mkMaster {
  config_ : TaskConfig.TaskConfig;
  sender_ : C;
  alive_node_ : gmap Z Z;
  terminated_node_ : gset Z;
  is_lead_ : bool;
  (** Whether the thread was started. *)
  heartbeat_ : bool;
  detect_dead_node_ : bool;
}.
#[export] Instance Master_eta : Eta Master := λ m,
  mkMaster (config_ m) (sender_ m) (alive_node_ m) (terminated_node_ m) (is_lead_ m)
    (heartbeat_ m) (detect_dead_node_ m).

Definition send (dst : Z) (msg : Message) (m : Master) : Master :=
  m <| sender_ ::= λ c, (Send dst msg c).2 |>.

(** The constructor. *)
Definition new_master (f : TaskConfig.flags) (c : C) : res Master :=
  config ← TaskConfig.Initialize f TaskConfig.new_config;
  mret (mkMaster config c ∅ ∅ true false false).

(** [Initialize]: the masters of a comma-separated list; their number. *)
Fixpoint append_masters (fuel : nat) (l : bytes) (count : Z) (m : Master) : res (Master * Z) :=
  match fuel with
  | O => Fault OutOfFuel
  | S fuel =>
      let '(addr, rest) := split ","%char l in
      '(m, count) ← (if (0 <? zlen addr) then
           config ← TaskConfig.AppendMaster (String.string_of_list_ascii addr) (config_ m);
           count ← add32 count 1;
           mret (m <| config_ := config |>, count)
         else mret (m, count));
      match rest with
      | Some l => append_masters fuel l count m
      | None => mret (m, count)
      end
  end.

Definition Initialize (master_ip_port : string) (m : Master) : res (Master * Z) :=
  let l := String.list_ascii_of_string master_ip_port in
  append_masters (S (length l)) l 0 m.

(** ** Messages to the nodes *)

Definition config_message (id : Z) (c : ConfigMessage) : Message :=
  mkMessage 0 id mt_config (Some c) None None None.

Definition DeliverConfig (m : Master) : res Master :=
  c ← TaskConfig.ToMessage (config_ m);
  for_ 0 (zlen (TaskConfig.get_node_ip (config_ m))) (λ i m, mret (send i (config_message i c) m)) m.

Definition heartbeat_message (id : Z) (c : option ConfigMessage) : Message :=
  mkMessage 0 id mt_heartbeat c None (Some (mkHeartbeat true 0)) None.

Definition DeliverHeartbeat (m : Master) : res Master :=
  '(c, m) ← (if TaskConfig.config_changed_ (config_ m) then
      c ← TaskConfig.ToMessage (config_ m);
      mret (Some c, m <| config_ ::= TaskConfig.set_config_changed false |>)
    else mret (None, m));
  m ← foldM (λ id m, dst ← add32 id FLAGS_max_cluster_node; mret (send dst (heartbeat_message id c) m))
    (TaskConfig.agent_id_ (config_ m)) m;
  foldM (λ id m, mret (send id (heartbeat_message id c) m)) (TaskConfig.server_id_ (config_ m)) m.

(** ** Messages from the nodes *)

Definition ProcessRegisterMsg (msg : Message) (m : Master) : res Master :=
  let r := register_msg msg in
  config ← (if is_server r then TaskConfig.AppendServer (ip r) (port r) (config_ m)
            else TaskConfig.AppendAgent (ip r) (port r) (config_ m));
  mret (m <| config_ := config |>).

Definition ProcessHeartbeatMsg (cur_time : Z) (msg : Message) (m : Master) : res Master :=
  if negb (has_heartbeat_msg msg) then Fault Aborted
  else if negb (is_live (heartbeat_msg msg)) then Fault Aborted
  else
    let m := m <| alive_node_ ::= <[ send_id msg := cur_time ]> |> in
    mret (m <| config_ := (TaskConfig.GetIp (send_id msg) (config_ m)).2 |>).

(** The address of a node, and the one for its heartbeats: the next port,
    under the id shifted by [max_cluster_node]. *)
Definition add_addresses (pr : Z * string) (m : Master) : res Master :=
  let m := m <| sender_ ::= λ c, (AddIdAddr pr.1 pr.2 c).2 |> in
  let '(ip, port) := ip_port pr.2 in
  id ← add32 pr.1 FLAGS_max_cluster_node;
  p ← stoi port;
  p ← add32 p 1;
  mret (m <| sender_ ::= λ c,
    (AddIdAddr id (String.string_of_list_ascii (ip ++ ":"%char :: to_string p)) c).2 |>).

(** What a registration does when it completes the cluster. Replacing a
    running [std::thread] ends the process. *)
Definition cluster_ready (cur_time : Z) (m : Master) : res Master :=
  config ← TaskConfig.GeneratePartition draw (config_ m);
  let m := m <| config_ := config |> in
  m ← foldM add_addresses (map_to_list (TaskConfig.id_to_addr_ (config_ m))) m;
  m ← DeliverConfig m;
  if heartbeat_ m then Fault Aborted
  else
    let m := m <| heartbeat_ := true |> in
    m ← for_ 0 (zlen (TaskConfig.get_node_ip (config_ m))) (λ i m,
      mret (m <| alive_node_ ::= <[ i := cur_time ]> |>)) m;
    if detect_dead_node_ m then Fault Aborted
    else mret (m <| detect_dead_node_ := true |>).

(** One turn of [MainLoop]; the boolean is [terminated]. *)
Definition MainLoop_step (cur_time : Z) (msg : Message) (m : Master) : res (Master * bool) :=
  match message_type msg with
  | mt_heartbeat => m ← ProcessHeartbeatMsg cur_time msg m; mret (m, false)
  | mt_register =>
      m ← ProcessRegisterMsg msg m;
      if TaskConfig.Ready (config_ m) then m ← cluster_ready cur_time m; mret (m, false)
      else mret (m, false)
  | mt_terminate =>
      let m := m <| terminated_node_ ::= λ s, {[ send_id msg ]} ∪ s |> in
      mret (m, Z.of_nat (size (terminated_node_ m)) =? to_size_t (TaskConfig.worker_num_ (config_ m)))
  | _ => mret (m, false)
  end.

(** The loop over the messages received, with their times, until the end. *)
Fixpoint main_loop (msgs : list (Z * Message)) (m : Master) : res (Master * bool) :=
  match msgs with
  | [] => mret (m, false)
  | (cur_time, msg) :: msgs =>
      '(m, terminated) ← MainLoop_step cur_time msg m;
      if terminated : bool then mret (m, true) else main_loop msgs m
  end.

(** A master that is not the leader sleeps for ever. *)
Definition MainLoop (msgs : list (Z * Message)) (m : Master) : res (Master * bool) :=
  if is_lead_ m then main_loop msgs m else mret (m, false).

(** ** Dead nodes *)

Definition GetDeadNode (cur_time : Z) (m : Master) : list Z :=
  (filter (λ pr : Z * Z, pr.2 + FLAGS_heartbeat_timeout < cur_time) (map_to_list (alive_node_ m))).*1.

(** What the loop of lines 313 to 315 writes, and the calls of [GetIp] in it. *)
Fixpoint dead_node_texts (dead_node : list Z) (m : Master) : list bytes * Master :=
  match dead_node with
  | [] => ([], m)
  | node :: dead_node =>
      let '(ip, config) := TaskConfig.GetIp node (config_ m) in
      let '(texts, m) := dead_node_texts dead_node (m <| config_ := config |>) in
      ([to_string node; Logging.chars ":"; Logging.chars ip; Logging.chars " "] ++ texts, m)
  end.

(** One turn of [DetectDeadNode], with the log. [logger] is a reference to the
    stream of a temporary, which the loop uses after its end. *)
Definition DetectDeadNode (cur_time : Z) (m : Master) (log : Logging.world) : res (Master * Logging.world) :=
  let dead_node := GetDeadNode cur_time m in
  if 0 <? zlen dead_node then
    let '(texts, m) := dead_node_texts dead_node m in
    logged ← Logging.run (Logging.LOG_reference (fresh (dom (Logging.objects log))) (localtime cur_time)
      (Logging.mkPlace "src/master/master.cc" 312) texts) log;
    match logged with
    | Logging.Running log =>
        config ← TaskConfig.FixConfig dead_node (config_ m);
        mret (m <| config_ := config |>, log)
    | Logging.AbortedWith _ => Fault Aborted
    end
  else mret (m, log).

End master.
Arguments Master C : clear implicits.

End Master.
