(* ===== verification/Election.v ===== *)
(** * The election of a leading master (src/master/master.{h,cc}, USE_ZOOKEEPER)

    Built with ZooKeeper, masters compete for an ephemeral node: who creates it
    leads. The service is a parameter with the documented behaviour of its
    calls as laws; the calls of several masters, and of the two threads of one
    master, interleave in any order with the ends of their sessions. *)

From S2P Require Import Prelude Communicator Messages TaskConfig Master.
From stdpp Require Import relations options.

Local Open Scope Z_scope.

Module Election.

(** ** The service *)

(** The node "/" + FLAGS_task_name, as the masters (numbered by their sessions)
    use it. *)
Class ZooKeeper (T : Type) := {
  (** [zoo_create] with [ZOO_EPHEMERAL], and [zoo_exists] with a watch. *)
  zoo_create : nat → T → Z * T;
  zoo_exists : nat → T → Z * T;
  (** A notification is handed to a session. *)
  zoo_notify : nat → T → T;
  (** The service ends a session it has not heard of for the session timeout,
      because its process has ended or because it was cut off or too slow. *)
  zoo_expire : nat → T → T;
  (** The session that holds the node; those that will be, and those that are
      to be notified; those that have ended. *)
  node : T → option nat;
  watching : T → gset nat;
  notified : T → gset nat;
  ended : T → gset nat;
}.

Class ZooKeeperLaws (T : Type) `{ZooKeeper T} : Prop := {
  create_new i z : i ∉ ended z → node z = None →
    (zoo_create i z).1 = 0 ∧ node (zoo_create i z).2 = Some i ∧
    watching (zoo_create i z).2 = ∅ ∧ notified (zoo_create i z).2 = notified z ∪ watching z;
  create_taken i z : i ∉ ended z → is_Some (node z) →
    (zoo_create i z).1 ≠ 0 ∧ node (zoo_create i z).2 = node z ∧
    watching (zoo_create i z).2 = watching z ∧ notified (zoo_create i z).2 = notified z;
  (** A session that has ended can do nothing any more. *)
  create_ended i z : i ∈ ended z →
    (zoo_create i z).1 ≠ 0 ∧ node (zoo_create i z).2 = node z ∧
    watching (zoo_create i z).2 = watching z ∧ notified (zoo_create i z).2 = notified z;
  create_sessions i z : ended (zoo_create i z).2 = ended z;
  exists_node i z : node (zoo_exists i z).2 = node z;
  exists_watching i z : i ∉ ended z → watching (zoo_exists i z).2 = {[ i ]} ∪ watching z;
  exists_ended i z : i ∈ ended z → watching (zoo_exists i z).2 = watching z;
  exists_notified i z : notified (zoo_exists i z).2 = notified z;
  exists_sessions i z : ended (zoo_exists i z).2 = ended z;
  notify_node i z : node (zoo_notify i z) = node z;
  notify_watching i z : watching (zoo_notify i z) = watching z;
  notify_notified i z : notified (zoo_notify i z) = notified z ∖ {[ i ]};
  notify_sessions i z : ended (zoo_notify i z) = ended z;
  (** The node of a session goes with it, and its watchers are notified. *)
  expire_owner i z : node z = Some i →
    node (zoo_expire i z) = None ∧ watching (zoo_expire i z) = ∅ ∧
    notified (zoo_expire i z) = (notified z ∪ watching z) ∖ {[ i ]};
  expire_other i z : node z ≠ Some i →
    node (zoo_expire i z) = node z ∧ watching (zoo_expire i z) = watching z ∖ {[ i ]} ∧
    notified (zoo_expire i z) = notified z ∖ {[ i ]};
  expire_sessions i z : ended (zoo_expire i z) = {[ i ]} ∪ ended z;
}.

(** The least service. *)
Record Znode := mkZnode {
  holder : option nat;
  watches : gset nat;
  events : gset nat;
  expired : gset nat;
}.

(** ZSESSIONEXPIRED, ZNODEEXISTS and ZNONODE of zookeeper.h. *)
#[global] Instance Znode_ZooKeeper : ZooKeeper Znode := {
  zoo_create i z :=
    if decide (i ∈ expired z) then (-112, z)
    else match holder z with
    | None => (0, mkZnode (Some i) ∅ (events z ∪ watches z) (expired z))
    | Some _ => (-110, z)
    end;
  zoo_exists i z :=
    if decide (i ∈ expired z) then (-112, z)
    else (if holder z then 0 else -101, mkZnode (holder z) ({[ i ]} ∪ watches z) (events z) (expired z));
  zoo_notify i z := mkZnode (holder z) (watches z) (events z ∖ {[ i ]}) (expired z);
  zoo_expire i z :=
    if decide (holder z = Some i) then mkZnode None ∅ ((events z ∪ watches z) ∖ {[ i ]}) ({[ i ]} ∪ expired z)
    else mkZnode (holder z) (watches z ∖ {[ i ]}) (events z ∖ {[ i ]}) ({[ i ]} ∪ expired z);
  node := holder;
  watching := watches;
  notified := events;
  ended := expired;
}.

#[global] Instance Znode_laws : ZooKeeperLaws Znode.
Proof.
  split; intros i [h w e x]; cbn; intros; repeat first [case_decide; cbn|case_match; cbn]; simplify_eq; try done.
Qed.

(** ** The masters *)

(** Where a thread is in [CreateZookeeperNode]: not called, before
    [zoo_create], before [zoo_exists], returned; [rc] is its result. *)
Inductive call := Ready | Create | Exists (rc : Z) | Returned (rc : Z).

(** A master: its main thread calls [init_zookeeper] and then [MainLoop], the
    thread of the ZooKeeper library calls [ZkCallback]. *)
Record Candidate := mkCandidate {
  running : bool;
  init : call;
  callback : call;
  is_lead_ : bool;
  (** Once [MainLoop] of the main thread has looked at [is_lead_]: what it saw. *)
  MainLoop : option bool;
}.
#[export] Instance Candidate_eta : Eta Candidate := λ m,
  mkCandidate (running m) (init m) (callback m) (is_lead_ m) (MainLoop m).

(** As its constructor leaves it, at the start of [init_zookeeper]. *)
Definition new_candidate : Candidate := mkCandidate true Create Ready true None.

Lemma new_candidate_leads {C} `{Communicator C} f (c : C) m :
  Master.new_master f c = Ok m → Master.is_lead_ m = is_lead_ new_candidate.
Proof. unfold Master.new_master. destruct (TaskConfig.Initialize _ _); [|done]. by intros [= <-]. Qed.

Section election.
Context {T : Type} `{ZooKeeper T}.

Record state := mkState {
  service : T;
  masters : list Candidate;
}.

(** The callback thread is free: not called yet, or the last call returned
    and did not go on to [MainLoop]. *)
Definition free (c : call) : Prop :=
  match c with Ready => True | Returned rc => rc ≠ 0 | _ => False end.

(** The steps of master [i]. *)
Inductive step (i : nat) : T * Candidate → T * Candidate → Prop :=
| init_create z m :
    init m = Create →
    step i (z, m) ((zoo_create i z).2, m <| init := Exists (zoo_create i z).1 |>)
| init_exists z m rc :
    init m = Exists rc →
    step i (z, m) ((zoo_exists i z).2,
      m <| init := Returned rc |> <| is_lead_ := if rc =? 0 then true else is_lead_ m |>)
| start_loop z m rc :
    init m = Returned rc → MainLoop m = None →
    step i (z, m) (z, m <| MainLoop := Some (is_lead_ m) |>)
| callback_called z m :
    free (callback m) → i ∈ notified z →
    step i (z, m) (zoo_notify i z, m <| callback := Create |>)
| callback_create z m :
    callback m = Create →
    step i (z, m) ((zoo_create i z).2, m <| callback := Exists (zoo_create i z).1 |>)
| callback_exists z m rc :
    callback m = Exists rc →
    step i (z, m) ((zoo_exists i z).2,
      m <| callback := Returned rc |> <| is_lead_ := if rc =? 0 then true else is_lead_ m |>)
| crash z m :
    step i (z, m) (z, m <| running := false |>).

(** A step of a running master, or the end of a session. The end reaches a
    running master as a session event, whose path is empty: [ZkCallback]
    compares the path with the name of the node and does nothing. *)
Inductive next (s : state) : state → Prop :=
| master_step i m z' m' :
    masters s !! i = Some m → running m = true → step i (service s, m) (z', m') →
    next s (mkState z' (<[ i := m' ]> (masters s)))
| session_expires i :
    next s (mkState (zoo_expire i (service s)) (masters s)).

(** [n] masters and a service without the node. *)
Definition fresh (z : T) : Prop := node z = None ∧ watching z = ∅ ∧ notified z = ∅ ∧ ended z = ∅.
Definition start (n : nat) (z : T) : state := mkState z (replicate n new_candidate).
Definition reachable (n : nat) (z : T) (s : state) : Prop := rtc next (start n z) s.

(** The election decided for this master: a call of [zoo_create] returned 0. *)
Definition won (c : call) : Prop := match c with Exists rc | Returned rc => rc = 0 | _ => False end.
Definition elected (m : Candidate) : Prop := won (init m) ∨ won (callback m).

(** A property of every master, by itself and with the service, holds in every
    reachable state if every step preserves it. *)
Lemma masters_induction (P : Candidate → Prop) n z :
  P new_candidate → (∀ i z m z' m', P m → step i (z, m) (z', m') → P m') →
  ∀ s, reachable n z s → Forall P (masters s).
Proof.
  intros Hnew Hstep s Hs.
  cut (rtc next (start n z) s → Forall P (masters (start n z)) → Forall P (masters s)).
  { intros Hcut. apply Hcut; [done|]. by apply Forall_replicate. }
  clear Hs. induction 1 as [|s1 s2 s3 [i m z' m' Hm _ Hst|i] _ IH]; [done| |by intros Hall; apply IH].
  intros Hall. apply IH. apply Forall_insert; [done|]. eapply Hstep; [|exact Hst].
  by eapply Forall_lookup_1.
Qed.

(** The constructor sets [is_lead_], and nothing ever clears it. *)
Lemma never_cleared n z s i m :
  reachable n z s → masters s !! i = Some m → is_lead_ m = true ∧ MainLoop m ≠ Some false.
Proof.
  intros Hs. revert i m. apply Forall_lookup. revert s Hs. apply masters_induction; [done|].
  intros j z1 m1 z2 m2 [Hl Hw]. inversion 1; subst; cbn; rewrite ?Hl; repeat case_match; done.
Qed.

(** Who was elected stays so. *)
Lemma elected_stays s t :
  rtc next s t → ∀ i m, masters s !! i = Some m → elected m → ∃ m', masters t !! i = Some m' ∧ elected m'.
Proof.
  induction 1 as [|s1 s2 s3 [j x z' x' Hx _ Hst|j] _ IH]; intros i m Hm Hel; [by eauto| |by eauto].
  destruct (decide (j = i)) as [->|Hne]; [|apply (IH i m); [cbn; by rewrite list_lookup_insert_ne|done]].
  rewrite Hx in Hm. injection Hm as ->. apply (IH i x').
  - cbn. apply list_lookup_insert_eq. by eapply lookup_lt_Some.
  - revert Hel. unfold elected, free in *. inversion Hst; subst; cbn in *;
      repeat match goal with Hc : init m = _ |- _ => rewrite Hc in * | Hc : callback m = _ |- _ => rewrite Hc in * end;
      cbn in *; try tauto. destruct (callback m); cbn in *; tauto.
Qed.

(** ** What the service sees to *)

Section laws.
Set Default Proof Using "Type*".
Context `{!ZooKeeperLaws T}.

(** A call of [zoo_create] either makes the node or changes nothing. *)
Lemma create_cases i z :
  (i ∉ ended z ∧ node z = None ∧ (zoo_create i z).1 = 0 ∧ node (zoo_create i z).2 = Some i) ∨
  ((zoo_create i z).1 ≠ 0 ∧ node (zoo_create i z).2 = node z ∧
    watching (zoo_create i z).2 = watching z ∧ notified (zoo_create i z).2 = notified z).
Proof.
  destruct (decide (i ∈ ended z)) as [He|He]; [right; by apply create_ended|].
  destruct (node z) eqn:Hn.
  - right. rewrite <- Hn. apply create_taken; [done|]. by eexists.
  - left. destruct (create_new i z) as (? & ? & _); eauto.
Qed.

Lemma step_sessions i z m z' m' : step i (z, m) (z', m') → ended z' = ended z.
Proof. inversion 1; subst; rewrite ?create_sessions, ?exists_sessions, ?notify_sessions; done. Qed.

(** Relations between a master and the service that hold in all reachable
    states: the steps of the master, those of the others and the ends of
    sessions preserve them. *)
Lemma service_induction (P : nat → T → Candidate → Prop) n z :
  (∀ i, P i z new_candidate) →
  (∀ i z m z' m', step i (z, m) (z', m') → P i z m → P i z' m') →
  (∀ i j z m z' m' x, i ≠ j → step j (z, m) (z', m') → P i z x → P i z' x) →
  (∀ i j z x, P i z x → P i (zoo_expire j z) x) →
  ∀ s, reachable n z s → ∀ i m, masters s !! i = Some m → P i (service s) m.
Proof.
  intros Hnew Hown Hother Hexp s Hs.
  cut (rtc next (start n z) s → (∀ i m, masters (start n z) !! i = Some m → P i (service (start n z)) m) →
    ∀ i m, masters s !! i = Some m → P i (service s) m).
  { intros Hcut. apply Hcut; [done|]. intros i m Hm. by apply lookup_replicate in Hm as [-> _]. }
  clear Hs. induction 1 as [|s1 s2 s3 [j x z' x' Hx _ Hst|j] _ IH]; [done| |]; intros Hall; apply IH; cbn; [|by eauto].
  intros i m [(-> & <- & _)|[Hne Hm]]%list_lookup_insert_Some; eauto.
Qed.

(** Who won holds the node for as long as its session lasts. *)
Lemma elected_holds n z s :
  reachable n z s → ∀ i m, masters s !! i = Some m → i ∉ ended (service s) → elected m → node (service s) = Some i.
Proof.
  revert s. apply (service_induction (λ i z m, i ∉ ended z → elected m → node z = Some i)).
  - intros i _ [[]|[]].
  - intros i z1 m z2 m' Hst IH He. rewrite (step_sessions _ _ _ _ _ Hst) in He. specialize (IH He). unfold elected in *.
    pose proof (create_cases i z1) as Hcreate.
    inversion Hst; subst; cbn in *; rewrite ?exists_node, ?notify_node;
      repeat match goal with Hc : init m = _ |- _ => rewrite Hc in * | Hc : callback m = _ |- _ => rewrite Hc in * end;
      cbn in *; try done; destruct Hcreate as [(_ & Hn & Hrc & Hn')|(Hrc & Hn' & _)]; rewrite ?Hn'; tauto.
  - intros i j z1 m z2 m' x Hne Hst IH He Hel. rewrite (step_sessions _ _ _ _ _ Hst) in He. specialize (IH He Hel).
    pose proof (create_cases j z1) as Hcreate. rewrite IH in Hcreate.
    destruct Hcreate as [(_ & ? & _)|(_ & Hn & _)]; [done|].
    inversion Hst; subst; rewrite ?exists_node, ?notify_node, ?Hn; done.
  - intros i j z1 x IH He Hel. rewrite expire_sessions in He. destruct (expire_other j z1) as [-> _]; [|set_solver].
    rewrite IH by set_solver. intros [= ->]. set_solver.
Qed.

(** A master that has done its part and waits for a notification. *)
Definition waits (m : Candidate) : Prop := (∃ rc, init m = Returned rc) ∧ free (callback m).

Lemma watching_kept i j z m z' m' :
  i ≠ j → step j (z, m) (z', m') → i ∈ watching z ∪ notified z → i ∈ watching z' ∪ notified z'.
Proof.
  intros Hne Hst.
  assert (i ∈ watching z ∪ notified z → i ∈ watching (zoo_create j z).2 ∪ notified (zoo_create j z).2).
  { destruct (create_cases j z) as [(He & Hn & _)|(_ & _ & -> & ->)]; [|done].
    destruct (create_new j z He Hn) as (_ & _ & -> & ->). clear. set_solver. }
  assert (i ∈ watching z ∪ notified z → i ∈ watching (zoo_exists j z).2 ∪ notified (zoo_exists j z).2).
  { rewrite exists_notified. destruct (decide (j ∈ ended z)) as [He|He]; [by rewrite exists_ended|].
    rewrite exists_watching by done. clear. set_solver. }
  inversion Hst; subst; try done; rewrite ?notify_watching, ?notify_notified; set_solver by done.
Qed.

Lemma watching_expire i j z :
  i ≠ j → i ∈ watching z ∪ notified z → i ∈ watching (zoo_expire j z) ∪ notified (zoo_expire j z).
Proof.
  intros Hne. destruct (decide (node z = Some j)) as [Hn|Hn].
  - destruct (expire_owner j z Hn) as (_ & -> & ->). set_solver by done.
  - destruct (expire_other j z Hn) as (_ & -> & ->). set_solver by done.
Qed.

(** Who waits is watching the node, or will be notified. *)
Lemma waits_watching n z s :
  reachable n z s → ∀ i m, masters s !! i = Some m → i ∉ ended (service s) → waits m →
  i ∈ watching (service s) ∪ notified (service s).
Proof.
  revert s. apply (service_induction (λ i z m, i ∉ ended z → waits m → i ∈ watching z ∪ notified z)).
  - intros i _ [[rc Hrc] _]. done.
  - intros i z1 m z2 m' Hst IH He. pose proof (step_sessions _ _ _ _ _ Hst) as Hss. rewrite Hss in He.
    specialize (IH He). intros [[rc Hrc] Hfree]. unfold waits in IH.
    inversion Hst; subst; cbn in *; try done; rewrite ?exists_watching by done; try set_solver by done; eauto.
  - intros i j z1 m z2 m' x Hne Hst IH He Hw. rewrite (step_sessions _ _ _ _ _ Hst) in He. eapply watching_kept; eauto.
  - intros i j z1 x IH He Hw. rewrite expire_sessions in He. apply watching_expire; [set_solver|]. apply IH; [set_solver|done].
Qed.

(** [next] by one master, as a path. *)
Lemma run_step i z m z' m' ms t :
  ms !! i = Some m → running m = true → step i (z, m) (z', m') →
  rtc next (mkState z' (<[ i := m' ]> ms)) t → rtc next (mkState z ms) t.
Proof. intros Hm Hrun Hst Ht. eapply rtc_l; [|exact Ht]. by apply (master_step (mkState z ms) i m). Qed.

Lemma run_expire i z ms t : rtc next (mkState (zoo_expire i z) ms) t → rtc next (mkState z ms) t.
Proof. intros Ht. eapply rtc_l; [|exact Ht]. apply (session_expires (mkState z ms)). Qed.

(** The master that takes over. *)
Definition taken_over (m : Candidate) : Candidate := m <| callback := Returned 0 |> <| is_lead_ := true |>.

Lemma handover_run n z s o i m :
  reachable n z s → node (service s) = Some o → masters s !! i = Some m → running m = true → waits m →
  i ∉ ended (service s) → i ≠ o →
  ∃ t, rtc next (mkState (zoo_expire o (service s)) (masters s)) t ∧
    masters t = <[ i := taken_over m ]> (masters s) ∧ node (service t) = Some i ∧
    ended (service t) = {[ o ]} ∪ ended (service s).
Proof.
  intros Hs Hn Hm Hr Hw He Hne. pose proof (waits_watching n z s Hs i m Hm He Hw) as Hi.
  destruct (expire_owner o (service s) Hn) as (Hn1 & _ & Hnot1).
  pose proof (expire_sessions o (service s)) as He1.
  set (z1 := zoo_expire o (service s)) in *. set (z2 := zoo_notify i z1).
  assert (node z2 = None) as Hn2 by (unfold z2; by rewrite notify_node).
  assert (ended z2 = {[ o ]} ∪ ended (service s)) as He2 by (unfold z2; by rewrite notify_sessions).
  destruct (create_new i z2) as (Hrc & Hn3 & _); [set_solver|done|].
  set (m1 := m <| callback := Create |>). set (m2 := m1 <| callback := Exists (zoo_create i z2).1 |>).
  set (m3 := m2 <| callback := Returned 0 |> <| is_lead_ := if 0 =? 0 then true else is_lead_ m2 |>).
  assert (∀ x, (<[ i := x ]> (masters s)) !! i = Some x) as Hlook.
  { intros x. apply list_lookup_insert_eq. by eapply lookup_lt_Some. }
  exists (mkState (zoo_exists i (zoo_create i z2).2).2 (<[ i := m3 ]> (masters s))). split_and!.
  - eapply (run_step i z1 m z2 m1); [done|done| |].
    { apply callback_called; [apply Hw|]. rewrite Hnot1. set_solver by done. }
    eapply (run_step i z2 m1 _ m2); [by apply Hlook|done|by apply callback_create|]. rewrite list_insert_insert_eq.
    eapply (run_step i _ m2 _ m3); [by apply Hlook|done|apply callback_exists; cbn; by rewrite Hrc|].
    rewrite list_insert_insert_eq. done.
  - done.
  - cbn. by rewrite exists_node.
  - cbn. by rewrite exists_sessions, create_sessions.
Qed.

(** C26: the lead is handed over. When the session of the master that holds the
    node ends, whether that master has stopped or still runs, while another
    master with a session waits, the other one can be notified, create the node
    and be told that it leads. *)
Theorem election_handover n z s o i m (Hs : reachable n z s) (Howner : node (service s) = Some o)
    (Hm : masters s !! i = Some m ∧ running m = true ∧ waits m) (Hlive : i ∉ ended (service s)) (Hne : i ≠ o) :
  ∃ t m', rtc next (mkState (zoo_expire o (service s)) (masters s)) t ∧
    masters t !! i = Some m' ∧ elected m' ∧ is_lead_ m' = true ∧ node (service t) = Some i.
Proof.
  destruct Hm as (Hm & Hr & Hw).
  destruct (handover_run n z s o i m Hs Howner Hm Hr Hw Hlive Hne) as (t & Ht & Hms & Hnode & _).
  exists t, (taken_over m). split_and!; [done| |by right|done|done].
  rewrite Hms. apply list_lookup_insert_eq. by eapply lookup_lt_Some.
Qed.

(** C25: the election gives two leaders. When a master leads whose session
    expires while it runs (cut off from ZooKeeper, or too slow), and another
    master waits, the node can go to the other one: both run, both were told
    that they lead, and only the second holds the node. The first is never told
    otherwise: whatever happens from then on, it has been elected, [is_lead_]
    is set and it is in no loop but the leader's. *)
Theorem expired_master_leads n z s o i mo m (Hs : reachable n z s)
    (Ho : masters s !! o = Some mo ∧ running mo = true ∧ elected mo ∧ o ∉ ended (service s))
    (Hm : masters s !! i = Some m ∧ running m = true ∧ waits m ∧ i ∉ ended (service s)) (Hne : i ≠ o) :
  ∃ t m', rtc next s t ∧ node (service t) = Some i ∧ o ∈ ended (service t) ∧
    (masters t !! o = Some mo ∧ running mo = true ∧ elected mo) ∧
    (masters t !! i = Some m' ∧ running m' = true ∧ elected m') ∧
    ∀ u, rtc next t u → ∃ mo', masters u !! o = Some mo' ∧ elected mo' ∧ is_lead_ mo' = true ∧ MainLoop mo' ≠ Some false.
Proof.
  destruct Ho as (Ho & Hro & Hel & Heo), Hm as (Hm & Hr & Hw & He).
  pose proof (elected_holds n z s Hs o mo Ho Heo Hel) as Hn.
  destruct (handover_run n z s o i m Hs Hn Hm Hr Hw He Hne) as (t & Ht & Hms & Hnode & Hend).
  assert (rtc next s t) as Hst by (destruct s; by eapply run_expire).
  assert (masters t !! o = Some mo) as Hot by by rewrite Hms, list_lookup_insert_ne.
  exists t, (taken_over m). split_and!; [done|done|rewrite Hend; set_solver|done|done|done| |done|by right|].
  { rewrite Hms. apply list_lookup_insert_eq. by eapply lookup_lt_Some. }
  intros u Hu. destruct (elected_stays t u Hu o mo Hot Hel) as (mo' & Hmo' & Hel').
  exists mo'. split; [done|]. split; [done|]. apply (never_cleared n z u o mo'); [|done].
  unfold reachable in *. by do 2 (etransitivity; [done|]).
Qed.

(** ** Masters that come one after the other *)

(** A master that called [zoo_create] and [zoo_exists] and entered the loop. *)
Definition entered (rc : Z) : Candidate := mkCandidate true (Returned rc) Ready true (Some true).

Lemma enter_run i z ms t :
  ms !! i = Some new_candidate →
  rtc next (mkState (zoo_exists i (zoo_create i z).2).2 (<[ i := entered (zoo_create i z).1 ]> ms)) t →
  rtc next (mkState z ms) t.
Proof.
  intros Hi Ht. set (rc := (zoo_create i z).1) in *.
  assert (∀ x, (<[ i := x ]> ms) !! i = Some x) as Hlook.
  { intros x. apply list_lookup_insert_eq. by eapply lookup_lt_Some. }
  set (m1 := new_candidate <| init := Exists rc |>).
  set (m2 := new_candidate <| init := Returned rc |>).
  eapply (run_step i z new_candidate _ m1); [done|done|by apply init_create|].
  eapply (run_step i _ m1 _ m2); [by apply Hlook|done| |].
  { eenough (m2 = _) as ->; [by apply init_exists|]. unfold m2. cbn. by destruct (rc =? 0). }
  rewrite list_insert_insert_eq.
  eapply (run_step i _ m2 _ (entered rc)); [by apply Hlook|done|by eapply start_loop|].
  rewrite list_insert_insert_eq. done.
Qed.

(** The first [k] of [n] masters have entered their loops. *)
Lemma enter_all n z k :
  fresh z → (k ≤ n)%nat → ∃ z' ms, reachable n z (mkState z' (ms ++ replicate (n - k) new_candidate)) ∧
    length ms = k ∧ ended z' = ∅ ∧ node z' = (if k is O then None else Some 0%nat) ∧
    ∀ i m, ms !! i = Some m → ∃ rc, m = entered rc ∧ (rc = 0 ↔ i = 0%nat).
Proof.
  intros (Hn & _ & _ & He). induction k as [|k IH]; intros Hk.
  { exists z, []. rewrite Nat.sub_0_r. split_and!; [constructor|done|done|done|done]. }
  destruct IH as (z' & ms & Hr & Hlen & He' & Hn' & Hms); [lia|].
  set (rc := (zoo_create k z').1). exists (zoo_exists k (zoo_create k z').2).2, (ms ++ [entered rc]).
  assert (node (zoo_create k z').2 = Some 0%nat ∧ (rc = 0 ↔ k = 0%nat)) as [Hn2 Hrc].
  { destruct k as [|k]; unfold rc.
    - destruct (create_new 0 z') as (-> & -> & _); [by rewrite He'|done|done].
    - destruct (create_taken (S k) z') as (? & -> & _); [by rewrite He'|rewrite Hn'; by eexists|]. done. }
  split_and!.
  - unfold reachable in *. etransitivity; [exact Hr|].
    replace (n - k)%nat with (S (n - S k)) by lia. cbn [replicate].
    eapply (enter_run k); [by rewrite list_lookup_middle|]. rewrite <- Hlen at 3.
    rewrite insert_app_r_alt, Nat.sub_diag by lia. cbn. by rewrite <- app_assoc.
  - rewrite length_app. cbn. lia.
  - by rewrite exists_sessions, create_sessions.
  - by rewrite exists_node.
  - intros i m [Hm|[Hi Hm]]%lookup_app_Some; [by apply Hms|].
    apply list_lookup_singleton_Some in Hm as [Hi0 <-]. exists rc. split; [done|]. rewrite Hrc. lia.
Qed.

(** C24: every master leads, elected or not. Whatever ZooKeeper answers and in
    whatever order the calls come, no master ever takes the branch of
    [MainLoop] for one that does not lead: the constructor sets [is_lead_] and
    nothing clears it. So of any number of masters that start one after the
    other on a fresh service, all come to run the leader's loop at the same
    time, although exactly one of them was elected and holds the node. *)
Theorem every_master_leads (n : nat) z (Hn : (0 < n)%nat) (Hz : fresh z) :
  (∀ s i m, reachable n z s → masters s !! i = Some m → is_lead_ m = true ∧ MainLoop m ≠ Some false) ∧
  ∃ s, reachable n z s ∧ length (masters s) = n ∧ node (service s) = Some 0%nat ∧
    ∀ i m, masters s !! i = Some m → running m = true ∧ MainLoop m = Some true ∧ (elected m ↔ i = 0%nat).
Proof.
  split; [intros s i m; apply never_cleared|].
  destruct (enter_all n z n Hz ltac:(lia)) as (z' & ms & Hr & Hlen & _ & Hnode & Hms).
  rewrite Nat.sub_diag in Hr. cbn in Hr. rewrite app_nil_r in Hr. exists (mkState z' ms).
  split_and!; [done|done|destruct n; [lia|done]|]. intros i m Hm. destruct (Hms i m Hm) as (rc & -> & Hrc).
  split_and!; [done|done|]. rewrite <- Hrc. split; [by intros [?|[]]|by left].
Qed.

(** ** The node that nobody takes *)

(** The run of two masters in which the node is lost: the second master finds
    the node taken, its owner ends, and only then the second one looks at it. *)
Definition owner_gone : Candidate := mkCandidate false (Returned 0) Ready true None.
Definition left_behind (rc : Z) : Candidate := entered rc.

Lemma lost_run z :
  fresh z → ∃ z' rc, reachable 2 z (mkState z' [owner_gone; left_behind rc]) ∧ rc ≠ 0 ∧
    node z' = None ∧ notified z' = ∅.
Proof.
  intros (Hn & Hw & Hnot & He). destruct (create_new 0%nat z) as (Hrc & Hn1 & Hw1 & Hnot1); [by rewrite He|done|].
  pose proof (create_sessions 0%nat z) as He1.
  set (z1 := (zoo_create 0 z).2) in *. set (z2 := (zoo_exists 0 z1).2).
  assert (node z2 = Some 0%nat) as Hn2 by (unfold z2; by rewrite exists_node).
  assert (ended z2 = ∅) as He2 by (unfold z2; by rewrite exists_sessions, He1).
  destruct (create_taken 1%nat z2) as (Hrc3 & Hn3 & Hw3 & Hnot3); [by rewrite He2|by eexists|].
  set (z3 := (zoo_create 1 z2).2) in *. set (rc := (zoo_create 1 z2).1) in *.
  destruct (expire_owner 0%nat z3) as (Hn4 & _ & Hnot4); [by rewrite Hn3|].
  exists (zoo_exists 1 (zoo_expire 0 z3)).2, rc. split_and!; [|done|by rewrite exists_node|].
  2: { rewrite exists_notified, Hnot4, Hnot3, Hw3. unfold z2.
       rewrite exists_watching, exists_notified, Hw1, Hnot1, Hw, Hnot by by rewrite He1, He. clear. set_solver. }
  unfold reachable, start. cbn [replicate].
  eapply (run_step 0 z new_candidate z1 (new_candidate <| init := Exists 0 |>)); [done|done| |].
  { rewrite <- Hrc. by apply init_create. }
  eapply (run_step 0 z1 _ z2 (new_candidate <| init := Returned 0 |>)); [done|done|by apply init_exists|].
  eapply (run_step 1 z2 new_candidate z3 (new_candidate <| init := Exists rc |>)); [done|done|by apply init_create|].
  eapply (run_step 0 z3 _ _ owner_gone); [done|done|by apply crash|]. apply (run_expire 0).
  eapply (run_step 1 (zoo_expire 0 z3) (new_candidate <| init := Exists rc |>) _ (new_candidate <| init := Returned rc |>)); [done|done| |].
  { eenough (new_candidate <| init := Returned rc |> = _) as ->; [by apply init_exists|]. cbn. by destruct (rc =? 0). }
  eapply (run_step 1 _ (new_candidate <| init := Returned rc |>) _ (left_behind rc)); [done|done|by eapply start_loop|].
  done.
Qed.

(** From there nothing can happen but ends. *)
Lemma lost_stays rc s t :
  rtc next s t → node (service s) = None → notified (service s) = ∅ →
  (∃ r, masters s = [owner_gone; (left_behind rc) <| running := r |>]) →
  node (service t) = None ∧ ∃ r, masters t = [owner_gone; (left_behind rc) <| running := r |>].
Proof.
  induction 1 as [|s1 s2 s3 Hst _ IH]; [done|]. intros Hn Hnot [r Hms]. destruct Hst as [i m z' m' Hm Hr Hst|i].
  - rewrite Hms in Hm. destruct i as [|[|i]]; cbn in Hm; [..|done]; injection Hm as <-; [done|].
    apply IH; clear IH; cbn; rewrite ?Hms; inversion Hst; subst; cbn in *; try done;
      first [by rewrite Hnot in *|by eexists].
  - destruct (expire_other i (service s1)) as (He1 & _ & He3); [by rewrite Hn|].
    apply IH; cbn; [congruence|rewrite He3, Hnot; clear; set_solver|by eexists].
Qed.

(** C32: the election can be lost for good. [zoo_create] and the [zoo_exists]
    that sets the watch are two calls: if the owner of the node ends between
    the two calls of another master, that master has been refused the lead and
    watches a node that is not there. Nothing is left to do but to end:
    whatever happens from then on, the node is not made again and no master
    that runs was elected. *)
Theorem election_lost z (Hz : fresh z) :
  ∃ s rc, reachable 2 z s ∧ node (service s) = None ∧ masters s = [owner_gone; left_behind rc] ∧
    ¬ elected (left_behind rc) ∧
    (∀ i m z' m', masters s !! i = Some m → running m = true → step i (service s, m) (z', m') → running m' = false) ∧
    ∀ t, rtc next s t → node (service t) = None ∧ Forall (λ m, running m = true → ¬ elected m) (masters t).
Proof.
  destruct (lost_run z Hz) as (z' & rc & Hs & Hrc & Hn & Hnot).
  assert (∀ r, ¬ elected ((left_behind rc) <| running := r |>)) as Hel by by intros r [?|[]].
  exists (mkState z' [owner_gone; left_behind rc]), rc. split_and!; [done|done|done|apply (Hel true)| |].
  - intros [|[|i]] m z2 m2 Hm Hr Hst; cbn in Hm; [..|done]; injection Hm as <-; [done|].
    inversion Hst; subst; cbn in *; try done. by rewrite Hnot in *.
  - intros t Ht. destruct (lost_stays rc _ t Ht Hn Hnot) as [Hnt [r ->]]; [by exists true|].
    split; [done|]. constructor; [done|]. constructor; [|constructor]. intros _. apply Hel.
Qed.
End laws.
End election.

(** ** Witnesses

    Two masters of a fresh service: the first creates the node, the second is
    refused, and both enter the loop of the leader. *)

Definition fresh_znode : Znode := mkZnode None ∅ ∅ ∅.
Definition both_lead : state := mkState (mkZnode (Some 0%nat) {[ 1%nat; 0%nat ]} ∅ ∅) [entered 0; entered (-110)].

Lemma both_lead_reachable : reachable 2 fresh_znode both_lead.
Proof.
  unfold reachable, start. cbn [replicate].
  apply (enter_run 0); [done|]. apply (enter_run 1); [done|].
  cbn. unfold both_lead. by rewrite (right_id_L ∅ (∪)).
Qed.

Example every_master_leads_witness :
  (∀ s i m, reachable 3 fresh_znode s → masters s !! i = Some m → is_lead_ m = true ∧ MainLoop m ≠ Some false) ∧
  ∃ s, reachable 3 fresh_znode s ∧ length (masters s) = 3%nat ∧ node (service s) = Some 0%nat ∧
    ∀ i m, masters s !! i = Some m → running m = true ∧ MainLoop m = Some true ∧ (elected m ↔ i = 0%nat).
Proof. apply (every_master_leads 3 fresh_znode); [lia|done]. Defined.

Example election_handover_witness :
  ∃ t m', rtc next (mkState (zoo_expire 0 (service both_lead)) (masters both_lead)) t ∧
    masters t !! 1%nat = Some m' ∧ elected m' ∧ is_lead_ m' = true ∧ node (service t) = Some 1%nat.
Proof.
  apply (election_handover 2 fresh_znode both_lead 0 1 (entered (-110)) both_lead_reachable eq_refl).
  - split_and!; [done|done|]. split; [by eexists|done].
  - done.
  - done.
Defined.

Example expired_master_leads_witness :
  ∃ t m', rtc next both_lead t ∧ node (service t) = Some 1%nat ∧ 0%nat ∈ ended (service t) ∧
    (masters t !! 0%nat = Some (entered 0) ∧ running (entered 0) = true ∧ elected (entered 0)) ∧
    (masters t !! 1%nat = Some m' ∧ running m' = true ∧ elected m') ∧
    ∀ u, rtc next t u → ∃ mo', masters u !! 0%nat = Some mo' ∧ elected mo' ∧ is_lead_ mo' = true ∧ MainLoop mo' ≠ Some false.
Proof.
  apply (expired_master_leads 2 fresh_znode both_lead 0 1 (entered 0) (entered (-110)) both_lead_reachable).
  - split_and!; [done|done|by left|done].
  - split_and!; [done|done| |done]. split; [by eexists|done].
  - done.
Defined.

Example election_lost_witness :
  ∃ s rc, reachable 2 fresh_znode s ∧ node (service s) = None ∧ masters s = [owner_gone; left_behind rc] ∧
    ¬ elected (left_behind rc) ∧
    (∀ i m z' m', masters s !! i = Some m → running m = true → step i (service s, m) (z', m') → running m' = false) ∧
    ∀ t, rtc next s t → node (service t) = None ∧ Forall (λ m, running m = true → ¬ elected m) (masters t).
Proof. apply (election_lost fresh_znode). done. Defined.
End Election.
