(* ===== verification/Channel.v ===== *)
(** * The channel between worker and agent (src/channel/)

    The block of shared memory ([shmstruct]) that carries keys and values, and
    the pointer-range operations the agent performs on its arrays. Mapping the
    memory and the named pipes is the operating system's. *)

From S2P Require Import Prelude CppStd Float32.
From stdpp Require Import options.

Module Shm.

Record shmstruct := mk {
  size : Z;
  values : list float32;
  keys : list Z;
}.
#[global] Instance shmstruct_eta : Eta shmstruct := λ x, mk (size x) (values x) (keys x).

(** The extent of both arrays. *)
Definition capacity : Z := 100.

(** The arrays have their declared extent. *)
Record wf (x : shmstruct) : Prop := mkwf {
  wf_values : zlen (values x) = capacity;
  wf_keys : zlen (keys x) = capacity;
}.

(** [std::copy] of the whole of one array over another of the same extent. *)
Definition copy {A} (src dst : list A) : list A := src ++ drop (length src) dst.

(** [SharedMemory::Write]: the arrays, then the size. *)
Definition Write (data shared : shmstruct) : shmstruct :=
  let shared := shared <| values ::= copy (values data) |> in
  let shared := shared <| keys ::= copy (keys data) |> in
  shared <| size := size data |>.

(** [*SharedMemory::Read()]. *)
Definition Read (shared : shmstruct) : shmstruct := shared.

Lemma copy_same {A} (src dst : list A) : length src = length dst → copy src dst = src.
Proof. intros Hl. unfold copy. rewrite Hl, drop_all, app_nil_r. done. Qed.

Lemma Write_Read data shared : wf data → wf shared → Read (Write data shared) = data.
Proof.
  intros [Hv Hk] [Hv' Hk']. unfold Read, Write. cbn. rewrite !copy_same by lia. by destruct data.
Qed.

End Shm.

(** ** Pointer ranges [a, a + n) of an array [l] *)

(** [std::vector<T>(a, a + n)]: a negative length throws. *)
Definition array_vec {A} (l : list A) (n : Z) : res (list A) :=
  if n <? 0 then Fault Thrown
  else if zlen l <? n then Fault OutOfBounds
  else Ok (take (Z.to_nat n) l).

(** [std::sort(a, a + n)]. *)
Definition array_sort (l : list Z) (n : Z) : res (list Z) :=
  if (n <? 0) || (zlen l <? n) then Fault OutOfBounds
  else Ok (std_sort (take (Z.to_nat n) l) ++ drop (Z.to_nat n) l).

Lemma array_vec_Ok {A} (l : list A) n : 0 ≤ n ≤ zlen l → array_vec l n = Ok (take (Z.to_nat n) l).
Proof.
  intros. unfold array_vec. destruct (Z.ltb_spec n 0), (Z.ltb_spec (zlen l) n); try lia. done.
Qed.

Lemma array_sort_Ok l n :
  0 ≤ n ≤ zlen l → array_sort l n = Ok (std_sort (take (Z.to_nat n) l) ++ drop (Z.to_nat n) l).
Proof.
  intros. unfold array_sort. destruct (Z.ltb_spec n 0), (Z.ltb_spec (zlen l) n); try lia. done.
Qed.
