(* ===== verification/Fifo.v ===== *)
(** * The named pipes between worker and agent (src/channel/fifo.{h,cc})

    [Fifo] sends signals, one [int] each, through a named pipe of the operating
    system. The pipe is a parameter ([Pipe]) with the documented behaviour of
    [read] and [write] as its laws; the bytes of an [int] are those of the
    little-endian machines the program runs on. *)

From S2P Require Import Prelude Decimal.
From Stdlib Require Import Ascii NArith.
From stdpp Require Import options.

(** ** The bytes of an [int] *)

Definition to_byte (z : Z) : ascii := ascii_of_N (Z.to_N (z mod 256)).
Definition of_byte (c : ascii) : Z := Z.of_N (N_of_ascii c).

(** The [n] low bytes of [z], least significant first, and back. *)
Fixpoint le_bytes (n : nat) (z : Z) : bytes :=
  match n with O => [] | S n => to_byte z :: le_bytes n (z / 256) end.

Fixpoint le_value (bs : bytes) : Z :=
  match bs with [] => 0 | b :: bs => of_byte b + 256 * le_value bs end.

Lemma of_to_byte z : of_byte (to_byte z) = z mod 256.
Proof.
  unfold of_byte, to_byte. pose proof (Z.mod_pos_bound z 256).
  rewrite N_ascii_embedding by lia. lia.
Qed.

Lemma le_bytes_length n z : length (le_bytes n z) = n.
Proof. revert z. induction n as [|n IH]; intros z; [done|]. cbn. by rewrite IH. Qed.

Lemma le_value_bytes n z : le_value (le_bytes n z) = z mod 2 ^ (8 * Z.of_nat n).
Proof.
  revert z. induction n as [|n IH]; intros z; cbn [le_bytes le_value].
  - by rewrite Z.mod_1_r.
  - rewrite of_to_byte, IH. replace (8 * Z.of_nat (S n)) with (8 + 8 * Z.of_nat n) by lia.
    rewrite Z.pow_add_r by lia. change (2 ^ 8) with 256. rewrite Z.rem_mul_r by lia. lia.
Qed.

(** The value of an [int] object with the given bytes. *)
Definition int_of (bs : bytes) : Z := wrap32 (le_value bs).

Lemma int_of_bytes z : int32_ok z → int_of (le_bytes 4 z) = z.
Proof.
  intros Hz. unfold int_of. rewrite le_value_bytes. change (8 * Z.of_nat 4) with 32.
  unfold wrap32. rewrite Zplus_mod_idemp_l. fold (wrap32 z). by apply wrap32_id.
Qed.

Module Fifo.

(** ** Pipes *)

Class Pipe (P : Type) := {
  (** [write]: the number of bytes written, or -1. *)
  pipe_write : bytes → P → Z * P;
  (** [read] of at most [n] bytes: [None] while it blocks, otherwise the
      number of bytes read (0 at the end of the file, -1 for an error) and the
      bytes. *)
  pipe_read : Z → P → option (Z * bytes * P);
  (** The bytes in the pipe, and whether some process has it open for writing. *)
  pipe_bytes : P → bytes;
  pipe_writer : P → bool;
}.

(** pipe(7): writes of up to [PIPE_BUF] (4096) bytes are atomic. *)
Class PipeLaws (P : Type) `{Pipe P} : Prop := {
  write_bytes b p : zlen b ≤ 4096 → pipe_bytes (pipe_write b p).2 = pipe_bytes p ++ b;
  write_writer b p : pipe_writer (pipe_write b p).2 = pipe_writer p;
  read_some n p : 0 < n → pipe_bytes p ≠ [] → ∃ p',
    pipe_read n p = Some (Z.min n (zlen (pipe_bytes p)), take (Z.to_nat n) (pipe_bytes p), p') ∧
    pipe_bytes p' = drop (Z.to_nat n) (pipe_bytes p) ∧ pipe_writer p' = pipe_writer p;
  read_end n p : 0 < n → pipe_bytes p = [] → pipe_writer p = false → pipe_read n p = Some (0, [], p);
  read_blocks n p : 0 < n → pipe_bytes p = [] → pipe_writer p = true → pipe_read n p = None;
}.

(** The least pipe. *)
Record Buffer := mkBuffer {
  buffered : bytes;
  open_for_writing : bool;
}.

#[global] Instance Buffer_Pipe : Pipe Buffer := {
  pipe_write b p := (zlen b, mkBuffer (buffered p ++ b) (open_for_writing p));
  pipe_read n p :=
    match buffered p with
    | [] => if open_for_writing p then None else Some (0, [], p)
    | bs => Some (Z.min n (zlen bs), take (Z.to_nat n) bs, mkBuffer (drop (Z.to_nat n) bs) (open_for_writing p))
    end;
  pipe_bytes := buffered;
  pipe_writer := open_for_writing;
}.

#[global] Instance Buffer_laws : PipeLaws Buffer.
Proof.
  constructor; [done|done|..]; intros n [[|b bs] w]; cbn; try done; intros Hn; try done.
  - intros _. eexists. done.
  - by intros _ ->.
  - by intros _ ->.
Qed.

(** ** The class *)

Inductive open_flag := O_RDONLY | O_CREAT | O_WRONLY.

Record Fifo := mkFifo {
  filename_ : string;
  is_reader_ : bool;
  fd_ : Z;
}.
#[export] Instance Fifo_eta : Eta Fifo := λ f, mkFifo (filename_ f) (is_reader_ f) (fd_ f).

Definition Initialize (filename : string) (is_reader : bool) (f : Fifo) : Fifo :=
  f <| filename_ := filename |> <| is_reader_ := is_reader |>.

(** The arguments of the call of [open], and [Open] with the descriptor it
    returned. *)
Definition open_flags (f : Fifo) : list open_flag :=
  if is_reader_ f then [O_RDONLY] else [O_CREAT; O_WRONLY].
Definition Open (open : string → list open_flag → Z) (f : Fifo) : Fifo :=
  f <| fd_ := open (filename_ f) (open_flags f) |>.

Section pipe.
Context {P : Type} `{Pipe P}.

(** [Signal] and [Wait] on the pipe [fd_] stands for. What [read] returns is
    not looked at; [sig] is 0 before it. *)
Definition Signal (sig : Z) (p : P) : P := (pipe_write (le_bytes 4 sig) p).2.

Definition Wait (p : P) : option (Z * P) :=
  let sig := le_bytes 4 0 in
  match pipe_read 4 p with
  | None => None
  | Some (_, bs, p) => Some (int_of (bs ++ drop (length bs) sig), p)
  end.
End pipe.

(** ** Signals in transit *)

(** The bytes of a sequence of signals. *)
Definition signal_bytes (sigs : list Z) : bytes := sigs ≫= le_bytes 4.

Section laws.
Set Default Proof Using "Type*".
Context {P : Type} `{PipeLaws P}.
Implicit Types p : P.

Lemma Signal_bytes sig p : pipe_bytes (Signal sig p) = pipe_bytes p ++ le_bytes 4 sig.
Proof. unfold Signal. apply write_bytes. rewrite le_bytes_length. lia. Qed.

Lemma Signals_bytes sigs p : pipe_bytes (foldl (λ p sig, Signal sig p) p sigs) = pipe_bytes p ++ signal_bytes sigs.
Proof.
  revert p. induction sigs as [|sig sigs IH]; intros p; [by rewrite app_nil_r|]. cbn [foldl].
  rewrite IH, Signal_bytes, <- app_assoc. done.
Qed.

Lemma Signals_writer sigs p : pipe_writer (foldl (λ p sig, Signal sig p) p sigs) = pipe_writer p.
Proof. revert p. induction sigs as [|sig sigs IH]; intros p; [done|]. cbn. rewrite IH. apply write_writer. Qed.

(** [Wait] takes the oldest signal. *)
Lemma Wait_signal sig sigs p :
  int32_ok sig → pipe_bytes p = signal_bytes (sig :: sigs) →
  ∃ p', Wait p = Some (sig, p') ∧ pipe_bytes p' = signal_bytes sigs ∧ pipe_writer p' = pipe_writer p.
Proof.
  intros Hsig Hp. change (signal_bytes (sig :: sigs)) with (le_bytes 4 sig ++ signal_bytes sigs) in Hp.
  destruct (read_some 4 p) as (p' & Hr & Hb & Hw); [lia|by rewrite Hp|]. exists p'. unfold Wait. rewrite Hr.
  rewrite Hp in Hb |- *. change (Z.to_nat 4) with (length (le_bytes 4 sig)) in *.
  rewrite take_app_length, drop_app_length in *. split_and!; [|done|done].
  change (drop (length (le_bytes 4 sig)) (le_bytes 4 0)) with (@nil ascii). by rewrite app_nil_r, int_of_bytes.
Qed.

(** At the end of the file [Wait] returns 0. *)
Lemma Wait_end p : pipe_bytes p = [] → pipe_writer p = false → Wait p = Some (0, p).
Proof. intros Hb Hw. unfold Wait. by rewrite read_end. Qed.

Lemma Wait_blocks p : pipe_bytes p = [] → pipe_writer p = true → Wait p = None.
Proof. intros Hb Hw. unfold Wait. by rewrite read_blocks. Qed.

(** [n] calls of [Wait]. *)
Fixpoint Waits (n : nat) (p : P) : option (list Z * P) :=
  match n with
  | O => Some ([], p)
  | S n =>
      match Wait p with
      | None => None
      | Some (sig, p) => match Waits n p with None => None | Some (sigs, p) => Some (sig :: sigs, p) end
      end
  end.

Lemma Waits_signals sigs rest p :
  Forall int32 sigs → pipe_bytes p = signal_bytes (sigs ++ rest) →
  ∃ p', Waits (length sigs) p = Some (sigs, p') ∧ pipe_bytes p' = signal_bytes rest ∧ pipe_writer p' = pipe_writer p.
Proof.
  intros Hs. revert p. induction Hs as [|sig sigs Hsig _ IH]; intros p Hp; [by exists p|].
  destruct (Wait_signal sig (sigs ++ rest) p Hsig Hp) as (p1 & Hw & Hb & Hwr). destruct (IH p1 Hb) as (p' & Hws & Hb' & Hwr').
  exists p'. cbn. rewrite Hw, Hws. split_and!; [done|done|congruence].
Qed.

Lemma Waits_end n p : pipe_bytes p = [] → pipe_writer p = false → Waits n p = Some (replicate n 0, p).
Proof. intros Hb Hw. induction n as [|n IH]; [done|]. cbn. by rewrite Wait_end, IH. Qed.

(** Signals arrive in order, and then zeros. Any signals written to an
    empty pipe are returned by as many calls of [Wait], unchanged and in
    order; after them [Wait] blocks while a writer is there, and once the
    writer is gone every further call returns 0, which is also the signal by
    which a worker asks for parameters. *)
Theorem Fifo_signals p sigs (Hempty : pipe_bytes p = []) (Hsigs : Forall int32 sigs) :
  ∃ p', Waits (length sigs) (foldl (λ p sig, Signal sig p) p sigs) = Some (sigs, p') ∧
    if pipe_writer p then Wait p' = None else ∀ n, Waits n p' = Some (replicate n 0, p').
Proof.
  destruct (Waits_signals sigs [] (foldl (λ p sig, Signal sig p) p sigs) Hsigs) as (p' & Hw & Hb & Hwr).
  { by rewrite Signals_bytes, Hempty, app_nil_r. }
  rewrite Signals_writer in Hwr. exists p'. split; [done|]. destruct (pipe_writer p).
  - by apply Wait_blocks.
  - intros n. by apply Waits_end.
Qed.
End laws.

(** The signals of the test ChannelTest.Fifo, 2 and 3. *)
Example Fifo_signals_witness :
  ∃ p', Waits 2 (foldl (λ p sig, Signal sig p) (mkBuffer [] false) [2; 3]) = Some ([2; 3], p') ∧
    ∀ n, Waits n p' = Some (replicate n 0, p').
Proof. exact (Fifo_signals (mkBuffer [] false) [2; 3] eq_refl ltac:(repeat constructor; by vm_compute)). Defined.
End Fifo.
