(* ===== verification/Agent.v ===== *)
(** * The agent (src/agent/agent.h, src/agent/agent.cc)

    The agent stands between one worker and the servers: it sorts the worker's
    gradients, cuts them by the key partition and pushes each slice to its
    server, and it pulls parameters the same way and waits for the replies.
    The operations are modelled here; their theorems are in AgentSort.v,
    AgentPush.v, AgentPull.v, AgentProps.v and AgentConfig.v, the work loop is
    in AgentWork.v. *)

From S2P Require Import Prelude CppStd Partition Float32 Messages Communicator Channel.
From stdpp Require Import options.

Module Agent.

(** ** Sorting (lines 27-39)

    [std::map::insert] keeps the first index of every key; the arrays are then
    overwritten from the left. The caller's size is not changed. *)
Definition SortKeyValue (keys : list Z) (values : list float32) (size : Z) :
    res (list Z * list float32) :=
  tmp_values ← array_vec values size;
  key_map ← for_ 0 size (λ i m, k ← vec_get keys i; mret (omap_insert k i m)) [];
  '(keys, values, _) ← foldM (λ '(first, second) '(keys, values, size),
    keys ← vec_set keys size first;
    v ← vec_get tmp_values second;
    values ← vec_set values size v;
    mret (keys, values, size + 1)) key_map (keys, values, 0);
  mret (keys, values).

Section agent.
Context {C : Type} `{Communicator C}.

(** ** State *)

Record Agent := mkAgent {
  local_id_ : Z;
  local_ip_ : string;
  listen_port_ : Z;
  agent_num_ : Z;
  server_num_ : Z;
  key_range_ : Z;
  epoch_num_ : Z;
  server_ids_ : list Z;
  master_ids_ : list Z;
  sender_ : C;
  (** The signals written to the worker's pipe, oldest first. *)
  para_fifo_ : list Z;
  para_memory_ : Shm.shmstruct;
  grad_memory_ : Shm.shmstruct;
  gradients_ : Shm.shmstruct;
  parameters_ : Shm.shmstruct;
  partition_ : Partition.Partition;
  reconfig_msg_ : option Message;
}.
#[export] Instance Agent_eta : Eta Agent := λ a,
  mkAgent (local_id_ a) (local_ip_ a) (listen_port_ a) (agent_num_ a) (server_num_ a)
    (key_range_ a) (epoch_num_ a) (server_ids_ a) (master_ids_ a) (sender_ a) (para_fifo_ a)
    (para_memory_ a) (grad_memory_ a) (gradients_ a) (parameters_ a) (partition_ a)
    (reconfig_msg_ a).

Definition send (dst : Z) (m : Message) (a : Agent) : Agent :=
  a <| sender_ ::= λ c, (Send dst m c).2 |>.

Definition request_message (local dst : Z) (r : RequestMessage) : Message :=
  mkMessage local dst mt_request None (Some r) None None.

(** [new int32[n]] (a negative length throws), then
    [RepeatedField::ExtractSubrange(0, n, out)]: what ends up in the array. *)
Definition extract_prefix {A} (l : list A) (n : Z) : res (list A) :=
  if n <? 0 then Fault Thrown
  else if zlen l <? n then Fault ProtoIndex
  else Ok (take (Z.to_nat n) l).

(** ** Push *)

(** One turn of the loop of [Push], from [start]: the slice's end. *)
Definition push_slice (start : Z) (a : Agent) : res (Z * Agent) :=
  ks ← array_vec (Shm.keys (gradients_ a)) (Shm.size (gradients_ a));
  '(e, index) ← Partition.NextEnding (partition_ a) ks start;
  server_id ← vec_get (server_ids_ a) index;
  '(ks, vs) ← for_ start e (λ i '(ks, vs),
    k ← vec_get (Shm.keys (gradients_ a)) i;
    v ← vec_get (Shm.values (gradients_ a)) i;
    mret (ks ++ [k], vs ++ [v])) ([], []);
  mret (e, send server_id (request_message (local_id_ a) server_id (mkRequest rt_key_value ks vs)) a).

(** [while (start < size)] *)
Fixpoint push_loop (fuel : nat) (size start : Z) (a : Agent) : res Agent :=
  if start <? size then
    match fuel with
    | O => Fault OutOfFuel
    | S fuel =>
        '(e, a) ← push_slice start a;
        push_loop fuel size e a
    end
  else mret a.

(** Every turn sends at least one element, so [size] turns are enough. *)
Definition Push (a : Agent) : res (Agent * bool) :=
  let g := gradients_ a in
  '(ks, vs) ← SortKeyValue (Shm.keys g) (Shm.values g) (Shm.size g);
  let a := a <| gradients_ := Shm.mk (Shm.size g) vs ks |> in
  let size := Shm.size (gradients_ a) in
  a ← push_loop (Z.to_nat size) size 0 a;
  mret (a, true).

(** ** Pull *)

Definition pull_slice (start : Z) (a : Agent) : res (Z * Z * Agent) :=
  ks ← array_vec (Shm.keys (parameters_ a)) (Shm.size (parameters_ a));
  '(e, index) ← Partition.NextEnding (partition_ a) ks start;
  server_id ← vec_get (server_ids_ a) index;
  ks ← for_ start e (λ i ks, k ← vec_get (Shm.keys (parameters_ a)) i; mret (ks ++ [k])) [];
  mret (e, server_id, send server_id (request_message (local_id_ a) server_id (mkRequest rt_key ks [])) a).

Fixpoint pull_loop (fuel : nat) (size start : Z) (server_set : gset Z) (a : Agent) :
    res (gset Z * Agent) :=
  if start <? size then
    match fuel with
    | O => Fault OutOfFuel
    | S fuel =>
        '(e, server_id, a) ← pull_slice start a;
        pull_loop fuel size e ({[ server_id ]} ∪ server_set) a
    end
  else mret (server_set, a).

(** The part of [Pull] before the replies: lines 361-408. *)
Definition pull_requests (a : Agent) : res (gset Z * Agent) :=
  let p := parameters_ a in
  ks ← array_sort (Shm.keys p) (Shm.size p);
  let a := a <| parameters_ := p <| Shm.keys := ks |> |> in
  let size := Shm.size p in
  pull_loop (Z.to_nat size) size 0 ∅ a.

(** The checks of the receive loop, in the order of the code. *)
Definition wanted (local : Z) (server_set : gset Z) (m : Message) : bool :=
  bool_decide (message_type m = mt_request) && has_request_msg m &&
  bool_decide (send_id m ∈ server_set) && (recv_id m =? local) &&
  bool_decide (request_type (request_msg m) = rt_key_value).

(** Copies the pairs of a reply to the arrays, from [cur]. *)
Definition store_reply (r : RequestMessage) (cur : Z) (p : Shm.shmstruct) : res Shm.shmstruct :=
  for_ 0 (zlen (keys r)) (λ i p,
    k ← proto_get (keys r) i;
    j ← add32 cur i;
    ks ← vec_set (Shm.keys p) j k;
    let p := p <| Shm.keys := ks |> in
    v ← proto_get (values r) i;
    vs ← vec_set (Shm.values p) j v;
    mret (p <| Shm.values := vs |>)) p.

(** The receive loop over the messages that arrive ([None]: an error of
    [Receive]). It stops when no server is waited for; if the messages run out
    first, the agent is still waiting. The result has what is left of both. *)
Fixpoint pull_receive (msgs : list (option Message)) (local : Z) (server_set : gset Z) (cur : Z)
    (p : Shm.shmstruct) : res (gset Z * Z * Shm.shmstruct * list (option Message)) :=
  if decide (server_set = ∅) then mret (server_set, cur, p, msgs)
  else
    match msgs with
    | [] => mret (server_set, cur, p, [])
    | None :: msgs => pull_receive msgs local server_set cur p
    | Some m :: msgs =>
        if wanted local server_set m then
          let r := request_msg m in
          p ← store_reply r cur p;
          cur' ← add32 cur (zlen (keys r));
          pull_receive msgs local (server_set ∖ {[ send_id m ]}) cur' p
        else pull_receive msgs local server_set cur p
    end.

(** [Pull], given the messages that will arrive: the agent, whether the pull
    completed, and the messages not consumed. *)
Definition Pull (msgs : list (option Message)) (a : Agent) :
    res (Agent * bool * list (option Message)) :=
  '(server_set, a) ← pull_requests a;
  '(server_set, cur, p, msgs) ←
    pull_receive msgs (local_id_ a) server_set 0 ((parameters_ a) <| Shm.size := 0 |>);
  if decide (server_set = ∅) then
    mret (a <| parameters_ := p <| Shm.size := cur |> |>, true, msgs)
  else mret (a <| parameters_ := p |>, false, msgs).

(** ** Reconfiguration *)

Definition Reconfigurate (msg : Message) (a : Agent) : res Agent :=
  let config := config_msg msg in
  let a := a <| local_id_ := recv_id msg |> <| agent_num_ := worker_num config |>
             <| server_num_ := server_num config |> <| key_range_ := key_range config |>
             <| server_ids_ := [] |> in
  a ← for_ 0 (server_num_ a) (λ i a,
    x ← proto_get (server_id config) i;
    mret (a <| server_ids_ ::= λ l, l ++ [x] |>)) a;
  let a := a <| master_ids_ := master_id config |> in
  a ← for_ 0 (zlen (node_ip_port config)) (λ i a,
    addr ← proto_get (node_ip_port config) i;
    mret (if CheckIdAddr i addr (sender_ a) then a
          else a <| sender_ ::= λ c, (AddIdAddr i addr (DeleteId i c).2).2 |>)) a;
  n ← add32 (server_num_ a) 1;
  part_vec ← extract_prefix (partition config) n;
  '(p, _) ← Partition.Initialize_array (key_range_ a) (server_num_ a) part_vec
              (Partition.Finalize (partition_ a));
  mret (a <| partition_ := p |> <| epoch_num_ := 0 |> <| reconfig_msg_ := None |>).

(** ** Initialisation *)

Definition register_message (ip : string) (port : Z) : Message :=
  mkMessage (-1) 0 mt_register None None None (Some (mkRegister ip port false)).

(** The part of [Initialize] that reads the master's answer. *)
Definition configure (msg_recv : Message) (a : Agent) : res Agent :=
  let config := config_msg msg_recv in
  let a := a <| local_id_ := recv_id msg_recv |> <| agent_num_ := worker_num config |>
             <| server_num_ := server_num config |> <| key_range_ := key_range config |>
             <| server_ids_ := [] |> in
  a ← for_ 0 (server_num_ a) (λ i a,
    x ← proto_get (server_id config) i;
    addr ← proto_get (node_ip_port config) x;
    mret (a <| server_ids_ ::= λ l, l ++ [x] |> <| sender_ ::= λ c, (AddIdAddr x addr c).2 |>)) a;
  part_vec ← extract_prefix (partition config) (server_num_ a);
  '(p, _) ← Partition.Initialize_array (key_range_ a) (server_num_ a) part_vec (partition_ a);
  mret (a <| partition_ := p |> <| master_ids_ ::= λ l, l ++ master_id config |>
          <| epoch_num_ := 0 |> <| reconfig_msg_ := None |>).

(** [Initialize]: [ip] is what [GetIP] finds, [received] the master's answer.
    Opening the pipes and mapping the memory (lines 158-178) are the operating
    system's. *)
Definition Initialize (master_addr ip : string) (listen_port : Z) (received : option Message)
    (a : Agent) : res (Agent * bool) :=
  let a := a <| listen_port_ := listen_port |> in
  if bool_decide (ip = EmptyString) then mret (a, false)
  else
    let a := a <| local_ip_ := ip |> <| sender_ ::= λ c, (AddIdAddr 0 master_addr c).2 |> in
    let '(sent, c) := Send 0 (register_message ip listen_port) (sender_ a) in
    let a := a <| sender_ := c |> in
    if sent =? -1 then mret (a, false)
    else
      match received with
      | None => mret (a, false)
      | Some msg_recv => a ← configure msg_recv a; mret (a, true)
      end.

(** ** The work loop and the heartbeat *)

Definition terminate_message (local : Z) : Message :=
  mkMessage local 0 mt_terminate None None None None.

(** Where a turn of the loop of [AgentWork] ends: at the loop head, inside
    [Pull] waiting for replies, or with the [break]. *)
Inductive work_status : Set := Continue | Waiting | Terminated.

(** One turn of the loop of [AgentWork] on the signal [signal_type]: the worker
    has put [grad_memory_] in place, [msgs] are the messages that will arrive.
    The result has the messages left. *)
Definition work_step (signal_type : Z) (msgs : list (option Message)) (a : Agent) :
    res (Agent * work_status * list (option Message)) :=
  a ← (match reconfig_msg_ a with Some m => Reconfigurate m a | None => mret a end);
  if signal_type =? 0 then
    let a := a <| parameters_ := Shm.Read (grad_memory_ a) |> in
    '(a, completed, msgs) ← Pull msgs a;
    if negb completed then mret (a, Waiting, msgs)
    else
      let a := a <| para_memory_ ::= Shm.Write (parameters_ a) |> in
      mret (a <| para_fifo_ ::= λ l, l ++ [2] |>, Continue, msgs)
  else if signal_type =? 1 then
    let a := a <| gradients_ := Shm.Read (grad_memory_ a) |> in
    '(a, _) ← Push a;
    n ← add32 (epoch_num_ a) 1;
    mret (a <| epoch_num_ := n |>, Continue, msgs)
  else mret (send 0 (terminate_message (local_id_ a)) a, Terminated, msgs).

(** One turn of the heartbeat thread; [self] is the id the agent had when the
    thread started. *)
Definition HeartBeat (self : Z) (recv_msg : Message) (a : Agent) : Agent :=
  let a := if has_config_msg recv_msg then a <| reconfig_msg_ := Some recv_msg |> else a in
  send 0 (mkMessage self (send_id recv_msg) mt_heartbeat None None
            (Some (mkHeartbeat true (epoch_num_ a))) None) a.

Definition Finalize (a : Agent) : Agent := a <| partition_ ::= Partition.Finalize |>.

End agent.
Arguments Agent C : clear implicits.

End Agent.
