(* ===== verification/AgentSort.v ===== *)
(** * [SortKeyValue]

    The sort of the agent: strictly increasing keys, each with the value of
    its first occurrence, followed by what was in the arrays before. *)

From S2P Require Import Prelude CppStd Partition Float32 Messages Communicator Channel Agent.
From stdpp Require Import options.

Import Agent.

(** Index [i] is the first place of key [k] among the first [n] keys. *)
Definition first_at (keys : list Z) (n k i : Z) : Prop :=
  0 ≤ i < n ∧ keys !! Z.to_nat i = Some k ∧ ∀ j, 0 ≤ j < i → keys !! Z.to_nat j ≠ Some k.

(** What the [std::map] holds after the first [n] insertions. *)
Record key_map_ok (keys : list Z) (n : Z) (m : list (Z * Z)) : Prop := mkkm {
  km_sorted : sorted_lt m.*1;
  km_first : ∀ k i, (k, i) ∈ m ↔ first_at keys n k i;
  km_length : zlen m ≤ n;
}.

Lemma omap_insert_length {V} k (v : V) m :
  (length m ≤ length (omap_insert k v m) ≤ S (length m))%nat.
Proof.
  induction m as [|[k' v'] m IH]; cbn; [lia|].
  destruct (k <? k'); [cbn; lia|]. destruct (k =? k'); cbn; lia.
Qed.

(** A key that occurs has a first occurrence. *)
Lemma first_exists keys n k j :
  0 ≤ j < n → keys !! Z.to_nat j = Some k → ∃ i, first_at keys n k i.
Proof.
  intros Hj Hk. destruct (list_find (k =.) keys) as [[i x]|] eqn:E; last first.
  { rewrite list_find_None, Forall_lookup in E. by destruct (E _ _ Hk). }
  apply list_find_Some in E as (Hi & <- & Hfirst). exists (Z.of_nat i).
  assert (i ≤ Z.to_nat j)%nat.
  { destruct (decide (i ≤ Z.to_nat j)%nat); [done|]. by destruct (Hfirst _ _ Hk ltac:(lia)). }
  split; [lia|]. rewrite Nat2Z.id. split; [done|]. intros q Hq Hqk.
  by destruct (Hfirst _ _ Hqk ltac:(lia)).
Qed.

Lemma key_map_step keys n m k :
  0 ≤ n → keys !! Z.to_nat n = Some k → key_map_ok keys n m →
  key_map_ok keys (n + 1) (omap_insert k n m).
Proof.
  intros Hn Hk [Hs Hf Hl]. constructor.
  - by apply omap_insert_sorted.
  - intros k0 i. rewrite omap_insert_lookup, Hf by done. split.
    + intros [(Hi & Hki & Hj)|(-> & -> & Hnew)]; [split; [lia|done]|].
      split; [lia|]. split; [done|]. intros j Hj Hjk. apply Hnew.
      destruct (first_exists keys n k j Hj Hjk) as (i & Hi%Hf).
      apply list_elem_of_fmap. by exists (k, i).
    + intros (Hi & Hki & Hj). destruct (decide (i = n)) as [->|].
      * right. simplify_eq. split_and!; [done|done|]. intros (kv & Hkv & Hin)%list_elem_of_fmap.
        destruct kv as [k1 i1]. cbn in Hkv. subst k1. apply Hf in Hin as (Hi1 & Hk1 & _).
        by apply (Hj i1).
      * left. split; [lia|done].
  - pose proof (omap_insert_length k n m). lia.
Qed.

Lemma key_map_Ok keys n :
  0 ≤ n ≤ zlen keys →
  for_ 0 n (λ i m, k ← vec_get keys i; mret (omap_insert k i m)) [] ⇓ key_map_ok keys n.
Proof.
  intros Hn. apply (for_inv (key_map_ok keys)); [lia| |].
  - constructor; cbn; [constructor| |lia]. intros k i. split; [by intros ?%elem_of_nil|].
    intros (? & _). lia.
  - intros i m Hi Hm. destruct (vec_get_lt keys i) as (k & -> & Hk); [lia|]. cbn.
    apply key_map_step; [lia|done..].
Qed.

(** The loop that writes the map back. *)
Lemma write_back_Ok (tmp vs0 : list float32) (ks0 : list Z) (m : list (Z * Z)) :
  zlen m ≤ zlen ks0 → length ks0 = length vs0 →
  Forall (λ ki, 0 ≤ ki.2 < zlen tmp) m →
  foldM (λ '(first, second) '(keys, values, size),
    keys ← vec_set keys size first;
    v ← vec_get tmp second;
    values ← vec_set values size v;
    mret (keys, values, size + 1)) m (ks0, vs0, 0) ⇓ λ '(ks, vs, _), ∃ sorted,
    ks = m.*1 ++ drop (length m) ks0 ∧ vs = sorted ++ drop (length m) vs0 ∧
    Forall2 (λ ki v, tmp !! Z.to_nat ki.2 = Some v) m sorted.
Proof.
  intros Hm Hlen Hidx.
  apply (returns_mono _ (λ '(ks, vs, size), size = zlen m ∧ ∃ sorted,
    ks = m.*1 ++ drop (length m) ks0 ∧ vs = sorted ++ drop (length m) vs0 ∧
    Forall2 (λ ki v, tmp !! Z.to_nat ki.2 = Some v) m sorted)).
  2: { by intros [[ks vs] size] [_ ?]. }
  eapply (foldM_inv (λ done '(ks, vs, size), size = zlen done ∧ ∃ sorted,
    ks = done.*1 ++ drop (length done) ks0 ∧ vs = sorted ++ drop (length done) vs0 ∧
    Forall2 (λ ki v, tmp !! Z.to_nat ki.2 = Some v) done sorted)).
  { split; [done|]. by exists []. }
  intros l1 [k i] l2 [[ks vs] size] -> (-> & sorted & -> & -> & Hall).
  rewrite length_app in Hm. cbn in Hm. pose proof (Forall2_length _ _ _ Hall) as Hsl.
  assert (0 ≤ i < zlen tmp) as Hi.
  { rewrite Forall_lookup in Hidx. apply (Hidx (length l1) (k, i)). by rewrite lookup_app_r, Nat.sub_diag. }
  rewrite vec_set_Ok by (rewrite length_app, length_fmap, length_drop; lia). cbn.
  destruct (vec_get_lt tmp i Hi) as (v & -> & Hv). cbn.
  rewrite vec_set_Ok by (rewrite length_app, length_drop; lia). cbn.
  rewrite length_app. cbn. split; [lia|]. exists (sorted ++ [v]).
  rewrite Nat2Z.id, !insert_app_r_alt by (rewrite ?length_fmap; lia).
  rewrite length_fmap, <- Hsl, Nat.sub_diag, fmap_app, <- !app_assoc.
  destruct (lookup_lt_is_Some_2 ks0 (length l1)) as [k0 Hk0]; [lia|].
  destruct (lookup_lt_is_Some_2 vs0 (length l1)) as [v0 Hv0]; [lia|].
  rewrite (drop_S ks0 k0), (drop_S vs0 v0), Nat.add_1_r by done. cbn.
  split_and!; [done|done|]. apply Forall2_app; [done|]. by constructor.
Qed.

(** The result of the sort: [m] pairs, then the old contents. *)
Record sorted_pairs (keys : list Z) (values : list float32) (n : Z)
    (ks : list Z) (vs : list float32) : Prop := mksp {
  sp_sorted : sorted_lt ks;
  sp_values : length vs = length ks;
  sp_length : zlen ks ≤ n;
  sp_pairs : ∀ k v, (k, v) ∈ zip ks vs ↔
    ∃ i, first_at keys n k i ∧ values !! Z.to_nat i = Some v;
}.

Lemma zip_elem_of {A B D} (m : list (A * D)) (vs : list B) (P : D → B → Prop) k v :
  Forall2 (λ ki v, P ki.2 v) m vs →
  (∀ i v1 v2, P i v1 → P i v2 → v1 = v2) →
  (k, v) ∈ zip m.*1 vs ↔ ∃ i, (k, i) ∈ m ∧ P i v ∧ (∃ j, m !! j = Some (k, i) ∧ vs !! j = Some v).
Proof.
  intros Hall Hfun. split.
  - intros (j & (k' & v' & [= <- <-] & Hk & Hv)%lookup_zip_with_Some)%list_elem_of_lookup.
    rewrite list_lookup_fmap in Hk. apply fmap_Some in Hk as ([k1 i] & Hj & ->).
    exists i. split_and!; [by eapply list_elem_of_lookup_2| |by exists j].
    by apply (Forall2_lookup_lr _ _ _ _ _ _ Hall Hj Hv).
  - intros (i & _ & _ & j & Hj & Hv). apply list_elem_of_lookup. exists j.
    apply lookup_zip_with_Some. exists k, v. by rewrite list_lookup_fmap, Hj.
Qed.

Lemma SortKeyValue_Ok keys values n :
  0 ≤ n ≤ zlen keys → length keys = length values →
  ∃ ks vs, SortKeyValue keys values n = Ok (ks ++ drop (length ks) keys, vs ++ drop (length ks) values) ∧
    sorted_pairs keys values n ks vs.
Proof.
  intros Hn Hlen. unfold SortKeyValue. rewrite array_vec_Ok by lia. cbn [mbind res_bind].
  pose proof (key_map_Ok keys n Hn) as Hm. apply returns_elim in Hm as (m & Hm & Hok).
  rewrite Hm. cbn [mbind res_bind]. pose proof Hok as [Hs Hf Hl].
  pose proof (write_back_Ok (take (Z.to_nat n) values) values keys m ltac:(lia) Hlen) as Hw.
  apply returns_elim in Hw as ([[ks vs] z] & Hw & sorted & -> & -> & Hall).
  2: { apply Forall_forall. intros [k i] Hin%Hf. cbn. destruct Hin as (Hi & _ & _).
       rewrite length_take. lia. }
  rewrite Hw. cbn [mbind res_bind]. pose proof (Forall2_length _ _ _ Hall) as Hsl.
  exists m.*1, sorted. rewrite length_fmap. split; [done|].
  constructor; [done|by rewrite length_fmap|rewrite length_fmap; lia|]. intros k v.
  rewrite (zip_elem_of m sorted (λ i v, take (Z.to_nat n) values !! Z.to_nat i = Some v)); [|done|congruence].
  split.
  - intros (i & Hin%Hf & Hv & _). exists i. split; [done|].
    by apply lookup_take_Some in Hv as [? _].
  - intros (i & Hfi & Hv). pose proof Hfi as (Hi & _ & _). exists i.
    apply Hf in Hfi as Hin. split; [done|].
    assert (take (Z.to_nat n) values !! Z.to_nat i = Some v) as Hv' by (by rewrite lookup_take_lt by lia).
    split; [done|]. apply list_elem_of_lookup in Hin as [j Hj]. exists j. split; [done|].
    destruct (Forall2_lookup_l _ _ _ _ _ Hall Hj) as (v' & Hv1 & Hv2). cbn in Hv2. congruence.
Qed.
