(* ===== verification/Slices.v ===== *)
(** * Cutting sorted keys into slices

    [Push] and [Pull] both walk over the keys with [NextEnding]. [cuts] is the
    list of slices such a walk visits: it exists, covers the keys exactly once
    and in order, and every slice is routed to the owner of its keys. *)

From S2P Require Import Prelude CppStd Partition.
From stdpp Require Import options.

Import Partition.

(** A slice [[s_start, s_end)] for the server at index [s_index]. *)
Record slice := mkSlice {
  s_start : Z;
  s_end : Z;
  s_index : Z;
}.

(** The elements of a sequence in a slice. *)
Definition part {A} (l : list A) (s : slice) : list A :=
  take (Z.to_nat (s_end s - s_start s)) (drop (Z.to_nat (s_start s)) l).

Lemma part_lookup {A} (xs : list A) s x :
  x ∈ part xs s → 0 ≤ s_start s → ∃ j, s_start s ≤ j < s_end s ∧ xs !! Z.to_nat j = Some x.
Proof.
  intros [j Hj]%list_elem_of_lookup Hs. unfold part in Hj.
  apply lookup_take_Some in Hj as [Hj Hlt]. rewrite lookup_drop in Hj.
  exists (s_start s + Z.of_nat j). split; [lia|]. rewrite <- Hj. f_equal. lia.
Qed.

Section cuts.
Context (p : Partition) (ks : list Z).

Inductive cuts : Z → list slice → Prop :=
| cuts_done start : zlen ks ≤ start → cuts start []
| cuts_slice start e i l :
    0 ≤ start → start < e ≤ zlen ks → NextEnding p ks start = Ok (e, i) → cuts e l →
    cuts start (mkSlice start e i :: l).

(** A walk visits one list of slices. *)
Lemma cuts_unique start l l' : cuts start l → cuts start l' → l = l'.
Proof using Type.
  intros Hl. revert l'. induction Hl as [start Hs|start e i l Hs He Hne _ IH]; intros l' Hl'.
  - inversion_clear Hl'; [done|lia].
  - inversion Hl' as [|? e' i' l2 ? ? Hne' Hl2]; subst; [lia|]. rewrite Hne in Hne'. injection Hne' as <- <-.
    f_equal. by apply IH.
Qed.

Context (Hwf : wf p) (Hlen : zlen ks ≤ kInt32Max) (Hrange : Forall (λ k, 0 ≤ k < key_range_ p) ks).

Lemma cuts_exist start : 0 ≤ start → ∃ l, cuts start l.
Proof using Hwf Hlen Hrange.
  intros Hs. remember (Z.to_nat (zlen ks - start)) as n eqn:Hn. revert start Hs Hn.
  induction n as [n IH] using (well_founded_induction lt_wf). intros start Hs Hn.
  destruct (Z.le_gt_cases (zlen ks) start) as [|Hlt]; [exists []; by constructor|].
  destruct (lookup_lt_is_Some_2 ks (Z.to_nat start)) as [k Hk]; [lia|].
  assert (0 ≤ k < key_range_ p) as Hkr by (rewrite Forall_lookup in Hrange; eauto).
  destruct (wf_first p Hwf) as (p0 & Hp0 & _).
  pose proof (NextEnding_advances p Hwf ks Hlen start k p0 Hs Hk Hkr Hp0) as H.
  apply returns_elim in H as ([e i] & Hne & He).
  destruct (IH (Z.to_nat (zlen ks - e)) ltac:(lia) e) as [l Hl]; [lia|done|].
  exists (mkSlice start e i :: l). by constructor.
Qed.

(** The slices cover what follows [start], in order, and none is empty. *)
Lemma cuts_concat {A} (xs : list A) start l :
  length xs = length ks → cuts start l → concat (part xs <$> l) = drop (Z.to_nat start) xs.
Proof using Type.
  intros Hxs. induction 1 as [start Hs|start e i l Hs He Hne _ IH]; cbn.
  { by rewrite drop_ge by lia. }
  rewrite IH. unfold part. cbn.
  rewrite <- (take_drop (Z.to_nat (e - start)) (drop (Z.to_nat start) xs)) at 2.
  rewrite drop_drop. repeat f_equal. lia.
Qed.

Lemma cuts_nonempty start l : cuts start l → Forall (λ s, part ks s ≠ []) l.
Proof using Type.
  induction 1 as [|start e i l Hs He Hne _ IH]; constructor; [|done].
  unfold part. cbn. intros Hnil%(f_equal length). rewrite length_take, length_drop in Hnil. cbn in Hnil. lia.
Qed.

Lemma cuts_within start l : cuts start l → Forall (λ s, 0 ≤ s_start s < s_end s ∧ s_end s ≤ zlen ks) l.
Proof using Type. induction 1; constructor; [cbn; lia|done]. Qed.

Lemma cuts_bound start l : cuts start l → start ≤ zlen ks → (length l ≤ Z.to_nat (zlen ks - start))%nat.
Proof using Type.
  induction 1 as [|start e i l Hs He Hne _ IH]; intros Hle; cbn; [lia|].
  specialize (IH ltac:(lia)). lia.
Qed.

(** On sorted keys every slice belongs to the server it is sent to. *)
Lemma cuts_owner start l :
  sorted_le ks → cuts start l → Forall (λ s, ∀ k, k ∈ part ks s → in_arc p (s_index s) k) l.
Proof using Hwf Hlen Hrange.
  intros Hsorted. induction 1 as [|start e i l Hs He Hne _ IH]; constructor; [|done].
  intros k (j & Hj & Hjk)%part_lookup; [|done]. cbn in *.
  destruct (lookup_lt_is_Some_2 ks (Z.to_nat start)) as [k0 Hk0]; [lia|].
  assert (0 ≤ k0 < key_range_ p) as Hkr by (rewrite Forall_lookup in Hrange; eauto).
  destruct (wf_first p Hwf) as (p0 & Hp0 & _).
  pose proof (NextEnding_owner p Hwf ks Hlen start k0 p0 Hs Hk0 Hkr Hp0 Hsorted) as H.
  rewrite Hne in H. cbn in H. destruct H as [H _]. by apply (H j).
Qed.

(** Every slice goes to one of the servers. *)
Lemma cuts_index start l : cuts start l → Forall (λ s, 0 ≤ s_index s < server_num_ p) l.
Proof using Hwf Hlen Hrange.
  induction 1 as [|start e i l Hs He Hne _ IH]; constructor; [|done].
  destruct (lookup_lt_is_Some_2 ks (Z.to_nat start)) as [k0 Hk0]; [lia|].
  assert (0 ≤ k0 < key_range_ p) as Hkr by (rewrite Forall_lookup in Hrange; eauto).
  destruct (wf_first p Hwf) as (p0 & Hp0 & _).
  destruct (NextEnding_cases p Hwf ks Hlen start k0 p0 Hs Hk0 Hkr Hp0) as (sid & e' & Hc & [Hi _] & _).
  rewrite Hne in Hc. by simplify_eq/=.
Qed.

Lemma cuts_after start l : cuts start l → Forall (λ s, start ≤ s_start s) l.
Proof using Type.
  induction 1 as [|start e i l Hs He Hne _ IH]; constructor; [done|].
  eapply Forall_impl; [done|]. cbn. intros s; lia.
Qed.

(** When no key is below the first starting point, no server gets two slices. *)
Lemma cuts_once start l p0 :
  sorted_le ks → part_vec_ p !! 0%nat = Some p0 → Forall (λ k, p0 ≤ k) ks → cuts start l →
  NoDup (s_index <$> l).
Proof using Hwf Hlen Hrange.
  intros Hsorted Hp0 Hlow Hcuts. pose proof (cuts_owner start l Hsorted Hcuts) as Hown.
  induction Hcuts as [|start e i l Hs He Hne Hcuts IH]; [constructor|].
  inversion_clear Hown as [|? ? Hi Hown']. cbn. constructor; [|by apply IH].
  intros (s & -> & Hin)%list_elem_of_fmap. rewrite Forall_forall in Hown'. specialize (Hown' s Hin).
  pose proof (cuts_after _ _ Hcuts) as Ha. rewrite Forall_forall in Ha. specialize (Ha s Hin).
  pose proof (cuts_within _ _ Hcuts) as Hw. rewrite Forall_forall in Hw. specialize (Hw s Hin).
  rewrite Forall_lookup in Hrange. rewrite Forall_lookup in Hlow.
  destruct (lookup_lt_is_Some_2 ks (Z.to_nat start)) as [k Hk]; [lia|].
  destruct (lookup_lt_is_Some_2 ks (Z.to_nat e)) as [x Hx]; [lia|].
  destruct (lookup_lt_is_Some_2 ks (Z.to_nat (s_start s))) as [y Hy]; [lia|].
  pose proof (NextEnding_owner p Hwf ks Hlen start k p0 Hs Hk (Hrange _ _ Hk) Hp0 Hsorted) as Hend.
  rewrite Hne in Hend. destruct Hend as [Hpart Hend].
  pose proof (Hlow _ _ Hk) as Hk0. pose proof (Hlow _ _ Hx) as Hx0.
  assert (x ≤ y) as Hxy.
  { destruct (decide (e = s_start s)) as [->|]; [by simplify_eq|].
    apply (StronglySorted_lookup Z.le ks (Z.to_nat e) (Z.to_nat (s_start s))); [done|lia|done|done]. }
  assert (k ≤ x) as Hkx.
  { apply (StronglySorted_lookup Z.le ks (Z.to_nat start) (Z.to_nat e)); [done|lia|done|done]. }
  specialize (Hpart start k ltac:(lia) Hk). pose proof Hpart as [Hb _].
  destruct (in_arc_upper p _ k p0 Hpart Hp0 Hk0) as (lo & Hlo & Hle & _).
  assert (in_arc p (s_index s) y) as Hyarc.
  { apply Hown'. apply list_elem_of_lookup. exists 0%nat. unfold part.
    rewrite lookup_take_lt by lia. by rewrite lookup_drop, Nat.add_0_r. }
  destruct (in_arc_upper p _ y p0 Hyarc Hp0 ltac:(lia)) as (_ & _ & _ & Hhi).
  destruct (Hend x Hx) as [Hcontra _]; [|lia]. split; [done|]. right. exists lo.
  split_and!; [done|lia|]. intros hi Hlk. specialize (Hhi hi Hlk). lia.
Qed.
End cuts.
