(* ===== verification/AgentPush.v ===== *)
(** * Push, and the requests of Pull

    Both loops walk over the slices of Slices.v and send one message per
    slice. *)

From S2P Require Import Prelude CppStd Partition Float32 Messages Communicator Channel Agent.
From S2P Require Import AgentSort Slices.
From stdpp Require Import options.

Import Agent.

(** ** Reading a slice of an array *)

Lemma part_take {A} n (l : list A) s :
  0 ≤ s_start s → s_end s ≤ n → part (take (Z.to_nat n) l) s = part l s.
Proof.
  intros Hs He. unfold part. rewrite skipn_firstn_comm, firstn_firstn. f_equal. lia.
Qed.

Lemma part_step {A} (l : list A) s0 i j x :
  0 ≤ s0 ≤ j → l !! Z.to_nat j = Some x →
  part l (mkSlice s0 (j + 1) i) = part l (mkSlice s0 j i) ++ [x].
Proof.
  intros Hj Hx. unfold part. cbn. replace (Z.to_nat (j + 1 - s0)) with (S (Z.to_nat (j - s0))) by lia.
  apply take_S_r. rewrite lookup_drop. rewrite <- Hx. f_equal. lia.
Qed.

Lemma part_empty {A} (l : list A) s0 i : part l (mkSlice s0 s0 i) = [].
Proof. unfold part. cbn. by rewrite Z.sub_diag. Qed.

Lemma read_pairs {A B} (l1 : list A) (l2 : list B) s :
  0 ≤ s_start s ≤ s_end s → s_end s ≤ zlen l1 → s_end s ≤ zlen l2 →
  for_ (s_start s) (s_end s) (λ i '(ks, vs),
    k ← vec_get l1 i; v ← vec_get l2 i; mret (ks ++ [k], vs ++ [v])) ([], [])
  = Ok (part l1 s, part l2 s).
Proof.
  destruct s as [s0 e i]. cbn. intros Hs H1 H2.
  destruct (proj1 (returns_elim (for_ s0 e (λ i '(ks, vs),
    k ← vec_get l1 i; v ← vec_get l2 i; mret (ks ++ [k], vs ++ [v])) ([], []))
    (λ r, r = (part l1 (mkSlice s0 e i), part l2 (mkSlice s0 e i))))) as (? & -> & ->); [|done].
  apply (for_inv (λ j r, r = (part l1 (mkSlice s0 j i), part l2 (mkSlice s0 j i)))); [lia|by rewrite !part_empty|].
  intros j r Hj ->. destruct (vec_get_lt l1 j) as (x & -> & Hx); [lia|]. cbn.
  destruct (vec_get_lt l2 j) as (y & -> & Hy); [lia|]. cbn.
  by rewrite (part_step l1 _ _ _ x), (part_step l2 _ _ _ y) by (done || lia).
Qed.

Lemma read_part {A} (l : list A) s :
  0 ≤ s_start s ≤ s_end s → s_end s ≤ zlen l →
  for_ (s_start s) (s_end s) (λ i ks, k ← vec_get l i; mret (ks ++ [k])) [] = Ok (part l s).
Proof.
  destruct s as [s0 e i]. cbn. intros Hs H1.
  destruct (proj1 (returns_elim (for_ s0 e (λ i ks, k ← vec_get l i; mret (ks ++ [k])) [])
    (λ r, r = part l (mkSlice s0 e i)))) as (? & -> & ->); [|done].
  apply (for_inv (λ j r, r = part l (mkSlice s0 j i))); [lia|by rewrite part_empty|].
  intros j r Hj ->. destruct (vec_get_lt l j) as (x & -> & Hx); [lia|]. cbn.
  by rewrite (part_step l _ _ _ x) by (done || lia).
Qed.

Section push.
Set Default Proof Using "Type*".
Context {C : Type} `{CommunicatorLaws C}.
Implicit Types a : Agent C.

(** The agent knows the partition and the id of every server. *)
Record ready a : Prop := mkready {
  rd_wf : Partition.wf (partition_ a);
  rd_ids : zlen (server_ids_ a) = Partition.server_num_ (partition_ a);
}.

(** The id of the server a slice goes to. *)
Definition dest a (s : slice) : Z := server_ids_ a !!! Z.to_nat (s_index s).

Lemma dest_get a s :
  ready a → 0 ≤ s_index s < Partition.server_num_ (partition_ a) →
  vec_get (server_ids_ a) (s_index s) = Ok (dest a s).
Proof.
  intros [_ Hids] Hs. destruct (vec_get_lt (server_ids_ a) (s_index s)) as (x & -> & Hx); [lia|].
  unfold dest. by erewrite list_lookup_total_correct.
Qed.

(** The messages of a push and of a pull, one per slice. *)
Definition push_message a (s : slice) : Z * Message :=
  (dest a s, request_message (local_id_ a) (dest a s)
     (mkRequest rt_key_value (part (Shm.keys (gradients_ a)) s) (part (Shm.values (gradients_ a)) s))).
Definition pull_message a (s : slice) : Z * Message :=
  (dest a s, request_message (local_id_ a) (dest a s)
     (mkRequest rt_key (part (Shm.keys (parameters_ a)) s) [])).

Lemma push_loop_Ok a n start l fuel :
  let g := gradients_ a in
  ready a → Shm.size g = n → 0 ≤ n ≤ zlen (Shm.keys g) → n ≤ zlen (Shm.values g) →
  cuts (partition_ a) (take (Z.to_nat n) (Shm.keys g)) start l →
  Forall (λ s, 0 ≤ s_index s < Partition.server_num_ (partition_ a)) l →
  (length l ≤ fuel)%nat →
  ∃ c, push_loop fuel n start a = Ok (a <| sender_ := c |>) ∧ sends (sender_ a) c (push_message a <$> l).
Proof.
  intros g Hr Hn Hk Hv Hcuts. revert a g fuel Hr Hn Hk Hv Hcuts.
  enough (∀ ks p g ids, cuts p ks start l → zlen ids = Partition.server_num_ p → Partition.wf p →
    ks = take (Z.to_nat n) (Shm.keys g) → 0 ≤ n ≤ zlen (Shm.keys g) → n ≤ zlen (Shm.values g) →
    ∀ a fuel, partition_ a = p → gradients_ a = g → server_ids_ a = ids → Shm.size g = n →
    Forall (λ s, 0 ≤ s_index s < Partition.server_num_ p) l → (length l ≤ fuel)%nat →
    ∃ c, push_loop fuel n start a = Ok (a <| sender_ := c |>) ∧ sends (sender_ a) c (push_message a <$> l)) as Hall.
  { intros a g fuel [Hwf Hids] Hn Hk Hv Hcuts Hidx Hf. by eapply (Hall _ _ g (server_ids_ a) Hcuts). }
  intros ks p g ids Hcuts Hids Hwf Hks Hk Hv.
  assert (zlen ks = n) as Hksn by (rewrite Hks, length_take; lia).
  induction Hcuts as [start Hs|start e i l Hs He Hne _ IH]; intros a fuel Hp Hg Hi Hn Hidx Hf.
  { exists (sender_ a). split; [|apply sends_nil].
    destruct fuel; cbn; (destruct (Z.ltb_spec start n); [lia|by destruct a]). }
  destruct fuel as [|fuel]; [cbn in Hf; lia|]. inversion_clear Hidx as [|? ? Hi0 Hidx'].
  cbn [push_loop]. destruct (Z.ltb_spec start n); [|lia].
  unfold push_slice. rewrite Hg, Hn, array_vec_Ok, <- Hks by lia. cbn [mbind res_bind].
  rewrite Hp, Hne. cbn [mbind res_bind].
  assert (vec_get (server_ids_ a) i = Ok (dest a (mkSlice start e i))) as ->.
  { apply (dest_get a (mkSlice start e i)); [constructor|]; rewrite ?Hp, ?Hi; done. }
  cbn [mbind res_bind]. rewrite (read_pairs _ _ (mkSlice start e i)) by (cbn; lia).
  cbn [mbind res_bind mret res_ret].
  destruct (IH (send (push_message a (mkSlice start e i)).1 (push_message a (mkSlice start e i)).2 a) fuel)
    as (c & Hc & Hsend); [done..|cbn in Hf; lia|].
  exists c. split.
  - unfold push_message in Hc. rewrite Hg in Hc. exact Hc.
  - rewrite fmap_cons. apply (sends_app _ _ _ [_] _ (sends_one _ _ _) Hsend).
Qed.

Lemma pull_loop_Ok a n start l fuel (S0 : gset Z) :
  let g := parameters_ a in
  ready a → Shm.size g = n → 0 ≤ n ≤ zlen (Shm.keys g) →
  cuts (partition_ a) (take (Z.to_nat n) (Shm.keys g)) start l →
  Forall (λ s, 0 ≤ s_index s < Partition.server_num_ (partition_ a)) l →
  (length l ≤ fuel)%nat →
  ∃ c, pull_loop fuel n start S0 a = Ok (list_to_set (dest a <$> l) ∪ S0, a <| sender_ := c |>) ∧
    sends (sender_ a) c (pull_message a <$> l).
Proof.
  intros g Hr Hn Hk Hcuts. revert a g fuel S0 Hr Hn Hk Hcuts.
  enough (∀ ks p g ids, cuts p ks start l → zlen ids = Partition.server_num_ p → Partition.wf p →
    ks = take (Z.to_nat n) (Shm.keys g) → 0 ≤ n ≤ zlen (Shm.keys g) →
    ∀ a fuel (S0 : gset Z), partition_ a = p → parameters_ a = g → server_ids_ a = ids → Shm.size g = n →
    Forall (λ s, 0 ≤ s_index s < Partition.server_num_ p) l → (length l ≤ fuel)%nat →
    ∃ c, pull_loop fuel n start S0 a = Ok (list_to_set (dest a <$> l) ∪ S0, a <| sender_ := c |>) ∧
      sends (sender_ a) c (pull_message a <$> l)) as Hall.
  { intros a g fuel S0 [Hwf Hids] Hn Hk Hcuts Hidx Hf. by eapply (Hall _ _ g (server_ids_ a) Hcuts). }
  intros ks p g ids Hcuts Hids Hwf Hks Hk.
  assert (zlen ks = n) as Hksn by (rewrite Hks, length_take; lia).
  induction Hcuts as [start Hs|start e i l Hs He Hne _ IH]; intros a fuel S0 Hp Hg Hi Hn Hidx Hf.
  { exists (sender_ a). split; [|apply sends_nil]. cbn. rewrite (union_empty_l_L S0).
    destruct fuel; cbn; (destruct (Z.ltb_spec start n); [lia|by destruct a]). }
  destruct fuel as [|fuel]; [cbn in Hf; lia|]. inversion_clear Hidx as [|? ? Hi0 Hidx'].
  cbn [pull_loop]. destruct (Z.ltb_spec start n); [|lia].
  unfold pull_slice. rewrite Hg, Hn, array_vec_Ok, <- Hks by lia. cbn [mbind res_bind].
  rewrite Hp, Hne. cbn [mbind res_bind].
  assert (vec_get (server_ids_ a) i = Ok (dest a (mkSlice start e i))) as ->.
  { apply (dest_get a (mkSlice start e i)); [constructor|]; rewrite ?Hp, ?Hi; done. }
  cbn [mbind res_bind]. rewrite (read_part _ (mkSlice start e i)) by (cbn; lia).
  cbn [mbind res_bind mret res_ret].
  destruct (IH (send (pull_message a (mkSlice start e i)).1 (pull_message a (mkSlice start e i)).2 a) fuel
    ({[dest a (mkSlice start e i)]} ∪ S0)) as (c & Hc & Hsend); [done..|cbn in Hf; lia|].
  exists c. split.
  - unfold pull_message in Hc. rewrite Hg in Hc.
    replace (list_to_set (dest a <$> mkSlice start e i :: l) ∪ S0)
      with (list_to_set (dest a <$> l) ∪ ({[dest a (mkSlice start e i)]} ∪ S0)) by set_solver.
    exact Hc.
  - rewrite fmap_cons. apply (sends_app _ _ _ [_] _ (sends_one _ _ _) Hsend).
Qed.

(** ** The slices of an array prefix *)

Lemma prefix_cuts a (ks : list Z) :
  ready a → zlen ks ≤ kInt32Max → Forall (λ k, 0 ≤ k < Partition.key_range_ (partition_ a)) ks →
  ∃ l, cuts (partition_ a) ks 0 l ∧ (length l ≤ length ks)%nat ∧
    Forall (λ s, 0 ≤ s_index s < Partition.server_num_ (partition_ a)) l ∧
    Forall (λ s, 0 ≤ s_start s ∧ s_end s ≤ zlen ks) l.
Proof.
  intros [Hwf _] Hlen Hr. destruct (cuts_exist _ ks Hwf Hlen Hr 0) as [l Hl]; [done|].
  exists l. split_and!; [done| |by apply (cuts_index _ ks Hwf Hlen Hr 0)|].
  - pose proof (cuts_bound _ _ _ _ Hl ltac:(lia)). lia.
  - eapply Forall_impl; [by eapply cuts_within|]. cbn. intros s; lia.
Qed.

Lemma concat_parts {A} n (l : list A) sl :
  Forall (λ s, 0 ≤ s_start s ∧ s_end s ≤ n) sl →
  (part (take (Z.to_nat n) l) <$> sl) = (part l <$> sl).
Proof.
  intros Hall. apply list_fmap_ext. intros i s Hs. rewrite Forall_lookup in Hall.
  destruct (Hall i s Hs). by apply part_take.
Qed.

(** ** Pull: sorting and sending the requests *)

Lemma pull_requests_Ok a :
  let p := parameters_ a in
  let sorted := std_sort (take (Z.to_nat (Shm.size p)) (Shm.keys p)) in
  ready a → 0 ≤ Shm.size p ≤ zlen (Shm.keys p) → Shm.size p ≤ kInt32Max →
  Forall (λ k, 0 ≤ k < Partition.key_range_ (partition_ a)) (take (Z.to_nat (Shm.size p)) (Shm.keys p)) →
  ∃ l c, let a' := a <| parameters_ := p <| Shm.keys := sorted ++ drop (Z.to_nat (Shm.size p)) (Shm.keys p) |> |> in
    pull_requests a = Ok (list_to_set (dest a <$> l), a' <| sender_ := c |>) ∧
    sends (sender_ a) c (pull_message a' <$> l) ∧ cuts (partition_ a) sorted 0 l ∧
    concat (part (Shm.keys (parameters_ a')) <$> l) = sorted.
Proof.
  intros p sorted Hr Hn Hmax Hrange.
  assert (zlen sorted = Shm.size p) as Hsl by (unfold sorted; rewrite std_sort_length, length_take; lia).
  set (a' := a <| parameters_ := p <| Shm.keys := sorted ++ drop (Z.to_nat (Shm.size p)) (Shm.keys p) |> |>).
  assert (Forall (λ k, 0 ≤ k < Partition.key_range_ (partition_ a)) sorted) as Hrange'
    by (unfold sorted; by rewrite std_sort_perm).
  destruct (prefix_cuts a sorted Hr ltac:(lia) Hrange') as (l & Hl & Hcount & Hidx & Hb).
  assert (take (Z.to_nat (Shm.size p)) (Shm.keys (parameters_ a')) = sorted) as Hpre.
  { cbn. rewrite take_app_length' by lia. done. }
  destruct (pull_loop_Ok a' (Shm.size p) 0 l (Z.to_nat (Shm.size p)) ∅) as (c & Hc & Hs);
    [by destruct Hr|done| |by rewrite Hpre|done|lia|].
  { cbn. rewrite length_app, length_drop. lia. }
  exists l, c. split_and!; [|done|done|].
  - unfold pull_requests. fold p. rewrite array_sort_Ok by lia. cbn [mbind res_bind].
    etransitivity; [exact Hc|]. by rewrite (union_empty_r_L (list_to_set _)).
  - fold a'. rewrite <- (concat_parts (zlen sorted)) by done.
    rewrite Hsl, Hpre. by rewrite (cuts_concat (partition_ a) sorted sorted 0 l).
Qed.
End push.
