(* ===== verification/AgentPull.v ===== *)
(** * The receive loop of Pull

    Which replies the loop takes, and what it leaves in the arrays. *)

From S2P Require Import Prelude CppStd Partition Float32 Messages Communicator Channel Agent.
From S2P Require Import AgentSort Slices AgentPush.
From stdpp Require Import options.

Import Agent.

(** ** The replies taken

    The first acceptable reply of every server waited for. *)

Fixpoint accepted (msgs : list (option Message)) (local : Z) (S : gset Z) : list Message :=
  match msgs with
  | [] => []
  | None :: msgs => accepted msgs local S
  | Some m :: msgs =>
      if wanted local S m then m :: accepted msgs local (S ∖ {[ send_id m ]})
      else accepted msgs local S
  end.

(** A message that passes every check but the sender's. *)
Definition acceptable (local : Z) (m : Message) : Prop :=
  message_type m = mt_request ∧ is_Some (request_msg_ m) ∧ recv_id m = local ∧
  request_type (request_msg m) = rt_key_value.

Lemma wanted_spec local S m : wanted local S m = true ↔ acceptable local m ∧ send_id m ∈ S.
Proof.
  unfold wanted, has_request_msg, acceptable.
  rewrite !andb_true_iff, !bool_decide_eq_true, Z.eqb_eq. tauto.
Qed.

Lemma accepted_empty msgs local : accepted msgs local ∅ = [].
Proof.
  induction msgs as [|[m|] msgs IH]; cbn; [done| |done].
  destruct (wanted local ∅ m) eqn:Hw; [|done]. apply wanted_spec in Hw as [_ ?]. set_solver.
Qed.

Lemma accepted_elem msgs local S m :
  m ∈ accepted msgs local S → acceptable local m ∧ send_id m ∈ S ∧ Some m ∈ msgs.
Proof.
  revert S. induction msgs as [|[m'|] msgs IH]; intros S; cbn; [by intros ?%elem_of_nil| |].
  2: { intros (? & ? & ?)%IH. split_and!; [done|done|by right]. }
  destruct (wanted local S m') eqn:Hw; [|intros (? & ? & ?)%IH; split_and!; [done|done|by right]].
  apply wanted_spec in Hw as [Ha Hs]. intros [->|Hin]%elem_of_cons; [split_and!; [done|done|by left]|].
  apply IH in Hin as (? & ? & ?). split_and!; [done|set_solver|by right].
Qed.

(** No server is listened to twice. *)
Lemma accepted_NoDup msgs local S : NoDup (send_id <$> accepted msgs local S).
Proof.
  revert S. induction msgs as [|[m|] msgs IH]; intros S; cbn; [constructor| |done].
  destruct (wanted local S m); [|done]. cbn. constructor; [|done].
  intros (m' & Heq & Hin)%list_elem_of_fmap. apply accepted_elem in Hin as (_ & Hin & _). set_solver.
Qed.

(** A server is heard exactly when an acceptable message of it arrives. *)
Lemma accepted_heard msgs local S x :
  x ∈ S → x ∈ send_id <$> accepted msgs local S ↔
  ∃ m, Some m ∈ msgs ∧ acceptable local m ∧ send_id m = x.
Proof.
  intros Hx. split.
  - intros (m & -> & Hin)%list_elem_of_fmap. apply accepted_elem in Hin as (? & _ & ?). eauto.
  - intros (m & Hin & Ha & <-). revert S Hx. induction msgs as [|[m'|] msgs IH]; intros S Hx; cbn.
    + by apply elem_of_nil in Hin.
    + apply elem_of_cons in Hin as [[= <-]|Hin].
      * rewrite (proj2 (wanted_spec local S m)) by done. cbn. by left.
      * destruct (wanted local S m') eqn:Hw; [|by apply IH]. cbn.
        destruct (decide (send_id m = send_id m')) as [->|Hne]; [by left|].
        right. apply IH; [done|]. set_solver.
    + apply elem_of_cons in Hin as [|Hin]; [done|]. by apply IH.
Qed.

Lemma accepted_all msgs local S :
  S ∖ list_to_set (send_id <$> accepted msgs local S) = ∅ ↔
  ∀ x, x ∈ S → ∃ m, Some m ∈ msgs ∧ acceptable local m ∧ send_id m = x.
Proof.
  split.
  - intros HS x Hx. apply (accepted_heard msgs local S x Hx).
    destruct (decide (x ∈ send_id <$> accepted msgs local S)) as [|Hnin]; [done|]. exfalso.
    apply (not_elem_of_empty (C := gset Z) x). rewrite <- HS. by rewrite elem_of_difference, elem_of_list_to_set.
  - intros Hall. apply set_eq. intros x. split; [|by intros ?%elem_of_empty].
    intros [Hx Hnin]%elem_of_difference. destruct Hnin. apply elem_of_list_to_set.
    by apply accepted_heard, Hall.
Qed.

(** ** The arrays *)

Definition reply_keys (ms : list Message) : list Z := ms ≫= λ m, keys (request_msg m).
Definition reply_values (ms : list Message) : list float32 :=
  ms ≫= λ m, take (length (keys (request_msg m))) (values (request_msg m)).

(** [l] after its beginning is overwritten by [xs]. *)
Definition over {A} (xs l : list A) : list A := xs ++ drop (length xs) l.

Lemma over_snoc {A} (xs l : list A) x :
  (length xs < length l)%nat → <[ length xs := x ]> (over xs l) = over (xs ++ [x]) l.
Proof.
  intros Hl. unfold over. rewrite insert_app_r_alt, Nat.sub_diag by lia.
  destruct (lookup_lt_is_Some_2 l (length xs)) as [y Hy]; [lia|].
  rewrite (drop_S _ y), length_app, Nat.add_1_r, <- app_assoc by done. done.
Qed.

Lemma over_length {A} (xs l : list A) : (length xs ≤ length l)%nat → length (over xs l) = length l.
Proof. intros. unfold over. rewrite length_app, length_drop. lia. Qed.

(** Every key of a reply has a value. *)
Definition reply_ok (m : Message) : Prop :=
  zlen (keys (request_msg m)) ≤ zlen (values (request_msg m)).

Lemma reply_lengths ms : Forall reply_ok ms → length (reply_values ms) = length (reply_keys ms).
Proof.
  induction 1 as [|m l Hm _ IH]; [done|]. unfold reply_values, reply_keys in *. cbn.
  rewrite !length_app, IH, length_take. unfold reply_ok in Hm. lia.
Qed.

Section arrays.
Context (k0 : list Z) (v0 : list float32) (Hk0 : zlen k0 = Shm.capacity) (Hv0 : zlen v0 = Shm.capacity).

Definition filled (sz : Z) (ks : list Z) (vs : list float32) : Shm.shmstruct :=
  Shm.mk sz (over vs v0) (over ks k0).

Lemma store_step sz ks vs r i k v :
  length ks = length vs → zlen ks + i < Shm.capacity → 0 ≤ i →
  keys r !! Z.to_nat i = Some k → values r !! Z.to_nat i = Some v →
  let ks' := ks ++ take (Z.to_nat i) (keys r) in
  let vs' := vs ++ take (Z.to_nat i) (values r) in
  (k ← proto_get (keys r) i;
   j ← add32 (zlen ks) i;
   ks ← vec_set (Shm.keys (filled sz ks' vs')) j k;
   let p := (filled sz ks' vs') <| Shm.keys := ks |> in
   v ← proto_get (values r) i;
   vs ← vec_set (Shm.values p) j v;
   mret (p <| Shm.values := vs |>))
  = Ok (filled sz (ks' ++ [k]) (vs' ++ [v])).
Proof using Hk0 Hv0.
  intros Hl Hc Hi Hk Hv ks' vs'. unfold Shm.capacity in *.
  pose proof (lookup_lt_Some _ _ _ Hk). pose proof (lookup_lt_Some _ _ _ Hv).
  assert (zlen ks' = zlen ks + i) as Hks by (unfold ks'; rewrite length_app, length_take; lia).
  assert (zlen vs' = zlen ks + i) as Hvs by (unfold vs'; rewrite length_app, length_take; lia).
  rewrite (proto_get_Ok (keys r) i k) by done. cbn [mbind res_bind].
  unfold add32. rewrite i32_Ok by (unfold kInt32Min, kInt32Max; lia). cbn [mbind res_bind].
  rewrite <- Hks. clearbody ks' vs'.
  rewrite vec_set_Ok by (cbn; rewrite over_length by lia; lia). cbn.
  rewrite (proto_get_Ok (values r) i v) by done. cbn.
  rewrite vec_set_Ok by (rewrite over_length by lia; lia). cbn.
  rewrite Nat2Z.id, over_snoc by lia. replace (length ks') with (length vs') by lia.
  by rewrite over_snoc by lia.
Qed.

Lemma store_reply_Ok sz ks vs r :
  length ks = length vs → zlen ks + zlen (keys r) ≤ Shm.capacity → zlen (keys r) ≤ zlen (values r) →
  store_reply r (zlen ks) (filled sz ks vs) =
    Ok (filled sz (ks ++ keys r) (vs ++ take (length (keys r)) (values r))).
Proof using Hk0 Hv0.
  intros Hl Hc Hr.
  destruct (proj1 (returns_elim (store_reply r (zlen ks) (filled sz ks vs)) (λ p, p =
    filled sz (ks ++ take (Z.to_nat (zlen (keys r))) (keys r)) (vs ++ take (Z.to_nat (zlen (keys r))) (values r)))))
    as (? & -> & ->); [|by rewrite Nat2Z.id, firstn_all].
  apply (for_inv (λ i p, p = filled sz (ks ++ take (Z.to_nat i) (keys r)) (vs ++ take (Z.to_nat i) (values r))));
    [lia|by rewrite !app_nil_r|].
  intros i p Hi ->. destruct (lookup_lt_is_Some_2 (keys r) (Z.to_nat i)) as [k Hk]; [lia|].
  destruct (lookup_lt_is_Some_2 (values r) (Z.to_nat i)) as [v Hv]; [lia|].
  rewrite (store_step sz ks vs r i k v) by (done || lia). cbn [returns].
  replace (Z.to_nat (i + 1)) with (S (Z.to_nat i)) by lia.
  by rewrite (take_S_r _ _ k), (take_S_r _ _ v), !app_assoc.
Qed.

(** A reply that does not fit. *)
Lemma store_reply_overflow sz ks vs r :
  length ks = length vs → zlen ks ≤ Shm.capacity → Shm.capacity < zlen ks + zlen (keys r) →
  zlen (keys r) ≤ zlen (values r) →
  store_reply r (zlen ks) (filled sz ks vs) = Fault OutOfBounds.
Proof using Hk0 Hv0.
  intros Hl Hks Hc Hr. unfold store_reply.
  apply (for_fault (λ i p, p = filled sz (ks ++ take (Z.to_nat i) (keys r)) (vs ++ take (Z.to_nat i) (values r)))
    _ _ _ _ (Shm.capacity - zlen ks)); [lia|cbn; by rewrite !app_nil_r| |].
  - intros i p Hi ->. right. destruct (lookup_lt_is_Some_2 (keys r) (Z.to_nat i)) as [k Hk]; [lia|].
    destruct (lookup_lt_is_Some_2 (values r) (Z.to_nat i)) as [v Hv]; [lia|].
    eexists. split; [apply (store_step sz ks vs r i k v); (done || lia)|].
    replace (Z.to_nat (i + 1)) with (S (Z.to_nat i)) by lia.
    by rewrite (take_S_r _ _ k), (take_S_r _ _ v), !app_assoc.
  - intros p ->. unfold Shm.capacity in *.
    destruct (lookup_lt_is_Some_2 (keys r) (Z.to_nat (100 - zlen ks))) as [k Hk]; [lia|].
    rewrite (proto_get_Ok _ _ k) by (done || lia). cbn [mbind res_bind]. unfold add32.
    rewrite i32_Ok by (unfold kInt32Min, kInt32Max; lia). cbn [mbind res_bind].
    rewrite vec_set_out; [done|]. cbn. rewrite over_length by (rewrite length_app, length_take; lia). lia.
Qed.

(** ** The loop *)

Lemma pull_receive_Ok msgs local S sz ks vs :
  let ms := accepted msgs local S in
  length ks = length vs → Forall reply_ok ms → zlen ks + zlen (reply_keys ms) ≤ Shm.capacity →
  ∃ rest, pull_receive msgs local S (zlen ks) (filled sz ks vs) =
    Ok (S ∖ list_to_set (send_id <$> ms), zlen ks + zlen (reply_keys ms),
        filled sz (ks ++ reply_keys ms) (vs ++ reply_values ms), rest).
Proof using Hk0 Hv0.
  revert S ks vs. induction msgs as [|[m|] msgs IH]; intros S ks vs ms Hl Hok Hc; unfold ms in *; cbn.
  - exists []. rewrite !app_nil_r, Z.add_0_r, difference_empty_L. by case_decide.
  - case_decide as HS.
    { exists (Some m :: msgs). subst S. rewrite accepted_empty. cbn in *.
      destruct (wanted local ∅ m) eqn:Hw; [apply wanted_spec in Hw as [_ ?]; set_solver|].
      cbn. rewrite !app_nil_r, Z.add_0_r, (difference_diag_L (∅ : gset Z)). done. }
    cbn in Hok, Hc. destruct (wanted local S m) eqn:Hw; [|by apply IH].
    inversion_clear Hok as [|? ? Hm Hok']. cbn in Hc. unfold reply_keys in Hc. cbn in Hc.
    rewrite length_app in Hc. fold (reply_keys (accepted msgs local (S ∖ {[send_id m]}))) in Hc.
    rewrite store_reply_Ok by (done || lia). cbn [mbind res_bind].
    unfold add32, Shm.capacity in *. rewrite i32_Ok by (unfold kInt32Min, kInt32Max; lia). cbn [mbind res_bind].
    replace (zlen ks + zlen (keys (request_msg m))) with (zlen (ks ++ keys (request_msg m)))
      by (rewrite length_app; lia).
    destruct (IH (S ∖ {[send_id m]}) (ks ++ keys (request_msg m))
      (vs ++ take (length (keys (request_msg m))) (values (request_msg m)))) as [rest ->].
    + rewrite !length_app, length_take. unfold reply_ok in Hm. lia.
    + done.
    + rewrite length_app. lia.
    + exists rest. cbn. unfold reply_keys, reply_values. cbn. rewrite !length_app, !app_assoc.
      rewrite (difference_difference_l_L S). rewrite !Nat2Z.inj_add, Z.add_assoc. done.
  - case_decide as HS; [|by apply IH]. exists (None :: msgs). subst S. cbn.
    rewrite accepted_empty. cbn. by rewrite !app_nil_r, Z.add_0_r.
Qed.
End arrays.
