(* ===== verification/AgentProps.v ===== *)
(** * Properties of the agent *)

From S2P Require Import Prelude CppStd Partition Float32 Messages Communicator Channel Agent.
From S2P Require Import AgentSort Slices AgentPush AgentPull.
From stdpp Require Import options.

Import Agent.

(** [SortKeyValue] sorts by key and drops repeated keys: the arrays start
    with strictly increasing keys, namely the keys that occur among the first
    [size], each with the value of its first occurrence. The rest of the
    arrays is untouched, and the number of pairs is not reported. *)
Theorem SortKeyValue_spec (keys : list Z) (values : list float32) (size : Z)
    (Hsize : 0 ≤ size ≤ zlen keys) (Hlen : length keys = length values) :
  ∃ ks vs, SortKeyValue keys values size =
      Ok (ks ++ drop (length ks) keys, vs ++ drop (length ks) values) ∧
    sorted_lt ks ∧ length vs = length ks ∧ zlen ks ≤ size ∧
    ∀ k v, (k, v) ∈ zip ks vs ↔ ∃ i, first_at keys size k i ∧ values !! Z.to_nat i = Some v.
Proof.
  destruct (SortKeyValue_Ok keys values size Hsize Hlen) as (ks & vs & Hs & []).
  by exists ks, vs.
Qed.

(** The sorted keys come from the first [n]. *)
Lemma sorted_pairs_Forall keys values n ks vs (P : Z → Prop) :
  sorted_pairs keys values n ks vs → Forall P (take (Z.to_nat n) keys) → Forall P ks.
Proof.
  intros [_ Hvl _ Hp] Hall. apply Forall_forall. intros k [i Hi]%list_elem_of_lookup.
  destruct (lookup_lt_is_Some_2 vs i) as [v Hvi]; [apply lookup_lt_Some in Hi; lia|].
  assert ((k, v) ∈ zip ks vs) as Hkv.
  { apply list_elem_of_lookup. exists i. apply lookup_zip_with_Some. eauto. }
  apply Hp in Hkv as (j & (Hj & Hjk & _) & _). rewrite Forall_lookup in Hall.
  apply (Hall (Z.to_nat j)). by rewrite lookup_take_lt by lia.
Qed.

(** Distinct keys: nothing is dropped. *)
Lemma sorted_pairs_distinct keys values n ks vs :
  sorted_pairs keys values n ks vs → 0 ≤ n ≤ zlen keys → length keys = length values →
  NoDup (take (Z.to_nat n) keys) →
  zip ks vs ≡ₚ zip (take (Z.to_nat n) keys) (take (Z.to_nat n) values) ∧ zlen ks = n.
Proof.
  intros [Hs Hv Hl Hp] Hn Hlen Hnd.
  assert (zip ks vs ≡ₚ zip (take (Z.to_nat n) keys) (take (Z.to_nat n) values)) as Hperm.
  { apply NoDup_Permutation.
    - apply (NoDup_fmap_1 fst). rewrite fst_zip by lia. clear -Hs.
      induction Hs as [|k l _ IH Hall]; constructor; [|done]. intros Hin.
      rewrite Forall_forall in Hall. specialize (Hall k Hin). lia.
    - apply (NoDup_fmap_1 fst). by rewrite fst_zip by (rewrite !length_take; lia).
    - intros [k v]. rewrite Hp. split.
      + intros (i & (Hi & Hk & _) & Hiv). apply list_elem_of_lookup. exists (Z.to_nat i).
        apply lookup_zip_with_Some. exists k, v. by rewrite !lookup_take_lt by lia.
      + intros (j & (k' & v' & [= <- <-] & Hk & Hjv)%lookup_zip_with_Some)%list_elem_of_lookup.
        pose proof Hk as [Hk' Hj]%lookup_take_Some. apply lookup_take_Some in Hjv as [Hjv _].
        exists (Z.of_nat j). rewrite Nat2Z.id. split; [|done]. split; [lia|].
        rewrite Nat2Z.id. split; [done|]. intros q Hq Hqk.
        assert (take (Z.to_nat n) keys !! Z.to_nat q = Some k) as Hqk' by (by rewrite lookup_take_lt by lia).
        pose proof (NoDup_lookup _ _ _ _ Hnd Hk Hqk'). lia. }
  split; [done|]. apply Permutation_length in Hperm.
  rewrite !length_zip_with, !length_take in Hperm. lia.
Qed.

Section push.
Set Default Proof Using "Type*".
Context {C : Type} `{CommunicatorLaws C}.
Implicit Types a : Agent C.

(** The gradients the worker left: arrays of the declared extent, a size
    within it, and keys of the key range. *)
Record gradients_ok a : Prop := mkgok {
  go_wf : Shm.wf (gradients_ a);
  go_size : 0 ≤ Shm.size (gradients_ a) ≤ Shm.capacity;
  go_range : Forall (λ k, 0 ≤ k < Partition.key_range_ (partition_ a))
    (take (Z.to_nat (Shm.size (gradients_ a))) (Shm.keys (gradients_ a)));
}.

(** The push loop over arrays [ks], [vs] with [n] entries in use. *)
Lemma push_array a n :
  let g := gradients_ a in
  ready a → Shm.size g = n → 0 ≤ n ≤ Shm.capacity → zlen (Shm.keys g) = Shm.capacity →
  zlen (Shm.values g) = Shm.capacity →
  Forall (λ k, 0 ≤ k < Partition.key_range_ (partition_ a)) (take (Z.to_nat n) (Shm.keys g)) →
  ∃ l c, push_loop (Z.to_nat n) n 0 a = Ok (a <| sender_ := c |>) ∧
    sends (sender_ a) c (push_message a <$> l) ∧
    cuts (partition_ a) (take (Z.to_nat n) (Shm.keys g)) 0 l ∧
    Forall (λ s, 0 ≤ s_index s < Partition.server_num_ (partition_ a)) l ∧
    concat (part (Shm.keys g) <$> l) = take (Z.to_nat n) (Shm.keys g) ∧
    concat (part (Shm.values g) <$> l) = take (Z.to_nat n) (Shm.values g).
Proof.
  intros g Hr Hn Hc Hk Hv Hrange. subst g. unfold Shm.capacity in *.
  set (ks := take (Z.to_nat n) (Shm.keys (gradients_ a))) in *.
  assert (zlen ks = n) as Hks by (unfold ks; rewrite length_take; lia).
  destruct (prefix_cuts a ks Hr ltac:(unfold kInt32Max; lia) Hrange) as (l & Hl & Hcount & Hidx & Hb).
  destruct (push_loop_Ok a n 0 l (Z.to_nat n) Hr) as (c & Hloop & Hs); [done|lia|lia|done|done|lia|].
  exists l, c. split_and!; [done|done|done|done| |].
  - rewrite <- (concat_parts n) by (by rewrite Hks in Hb). fold ks.
    by rewrite (cuts_concat (partition_ a) ks ks 0 l).
  - rewrite <- (concat_parts n) by (by rewrite Hks in Hb).
    rewrite (cuts_concat (partition_ a) ks (take (Z.to_nat n) (Shm.values (gradients_ a))) 0 l); [done| |done].
    unfold ks. rewrite !length_take. lia.
Qed.

(** [Push] on any keys: the sorted arrays, cut into slices. Only the gradients
    and the communicator change. *)
Lemma Push_array_Ok a :
  let n := Z.to_nat (Shm.size (gradients_ a)) in
  ready a → gradients_ok a →
  ∃ ks vs l g c, let a' := a <| gradients_ := g |> <| sender_ := c |> in
    Push a = Ok (a', true) ∧
    sorted_pairs (Shm.keys (gradients_ a)) (Shm.values (gradients_ a)) (Shm.size (gradients_ a)) ks vs ∧
    sends (sender_ a) c (push_message a' <$> l) ∧
    Forall (λ s, 0 ≤ s_index s < Partition.server_num_ (partition_ a)) l ∧
    concat (part (Shm.keys g) <$> l) = ks ++ drop (length ks) (take n (Shm.keys (gradients_ a))) ∧
    concat (part (Shm.values g) <$> l) = vs ++ drop (length ks) (take n (Shm.values (gradients_ a))).
Proof.
  intros n Hr Hg. destruct Hg as [[Hv Hk] Hn Hrange]. set (g := gradients_ a) in *. unfold Shm.capacity in *.
  destruct (SortKeyValue_Ok (Shm.keys g) (Shm.values g) (Shm.size g)) as (ks & vs & Hsort & Hsp); [lia|lia|].
  pose proof Hsp as [Hs Hvl Hl _].
  set (a1 := a <| gradients_ := Shm.mk (Shm.size g) (vs ++ drop (length ks) (Shm.values g))
                                   (ks ++ drop (length ks) (Shm.keys g)) |>).
  destruct (push_array a1 (Shm.size g)) as (l & c & Hloop & Hsend & Hcuts & Hidx & Hck & Hcv); cbn.
  - by destruct Hr.
  - done.
  - done.
  - unfold Shm.capacity. rewrite length_app, length_drop. lia.
  - unfold Shm.capacity. rewrite length_app, length_drop. lia.
  - rewrite take_app_ge, take_drop_commute by lia.
    replace (length ks + (Z.to_nat (Shm.size g) - length ks))%nat with n by lia.
    apply Forall_app. split; [|by apply Forall_drop]. by apply (sorted_pairs_Forall _ _ _ _ _ _ Hsp).
  - exists ks, vs, l, (gradients_ a1), c. cbv zeta. split_and!; [|done|done|done| |].
    + unfold Push. fold g. rewrite Hsort. cbn [mbind res_bind]. cbv zeta.
      match goal with |- mbind _ ?x = _ => change x with (push_loop (Z.to_nat (Shm.size g)) (Shm.size g) 0 a1) end.
      by rewrite Hloop.
    + cbn in Hck |- *. rewrite Hck, take_app_ge, take_drop_commute by lia. do 3 f_equal. lia.
    + cbn in Hcv |- *. rewrite Hcv, take_app_ge, take_drop_commute by lia. rewrite Hvl. do 3 f_equal. lia.
Qed.

(** [Push] on any keys of the key range ends and sends every one of the
    [size] entries of the sorted arrays exactly once, in order, cut into
    messages that [NextEnding] delimits. When keys are repeated, those entries
    are the [length ks] distinct keys followed by leftovers of the unsorted
    arrays: the size is not corrected after the sort. *)
Theorem Push_sends_array a
    (Hr : ready a) (Hg : gradients_ok a) :
  let n := Z.to_nat (Shm.size (gradients_ a)) in
  ∃ ks vs l a', Push a = Ok (a', true) ∧
    sorted_pairs (Shm.keys (gradients_ a)) (Shm.values (gradients_ a)) (Shm.size (gradients_ a)) ks vs ∧
    outbox (sender_ a') = outbox (sender_ a) ++ (push_message a' <$> l) ∧
    concat (part (Shm.keys (gradients_ a')) <$> l) = ks ++ drop (length ks) (take n (Shm.keys (gradients_ a))) ∧
    concat (part (Shm.values (gradients_ a')) <$> l) = vs ++ drop (length ks) (take n (Shm.values (gradients_ a))).
Proof.
  intros n. destruct (Push_array_Ok a Hr Hg) as (ks & vs & l & g & c & Hp & Hs & [Hout _] & _ & Hk & Hv).
  by exists ks, vs, l, (a <| gradients_ := g |> <| sender_ := c |>).
Qed.

(** [Push] on distinct keys: the sorted pairs, cut into slices. *)
Lemma Push_cuts a :
  let g := gradients_ a in
  let n := Z.to_nat (Shm.size g) in
  ready a → gradients_ok a → NoDup (take n (Shm.keys g)) →
  ∃ ks vs l a', Push a = Ok (a', true) ∧
    outbox (sender_ a') = outbox (sender_ a) ++ (push_message a' <$> l) ∧
    local_id_ a' = local_id_ a ∧ server_ids_ a' = server_ids_ a ∧
    sorted_lt ks ∧ length vs = length ks ∧ zlen ks ≤ Shm.capacity ∧
    Forall (λ k, 0 ≤ k < Partition.key_range_ (partition_ a)) ks ∧
    zip ks vs ≡ₚ zip (take n (Shm.keys g)) (take n (Shm.values g)) ∧ cuts (partition_ a) ks 0 l ∧
    Forall (λ s, part (Shm.keys (gradients_ a')) s = part ks s ∧
                 part (Shm.values (gradients_ a')) s = part vs s) l.
Proof.
  intros g n Hr [[Hv Hk] Hn Hrange] Hnd. fold g in Hv, Hk, Hn, Hrange. unfold Shm.capacity in *.
  destruct (SortKeyValue_Ok (Shm.keys g) (Shm.values g) (Shm.size g)) as (ks & vs & Hsort & Hsp); [lia|lia|].
  destruct (sorted_pairs_distinct _ _ _ _ _ Hsp) as [Hperm Hkn]; [lia|lia|done|].
  pose proof Hsp as [Hs Hvl _ _].
  set (a1 := a <| gradients_ := Shm.mk (Shm.size g) (vs ++ drop (length ks) (Shm.values g))
                                   (ks ++ drop (length ks) (Shm.keys g)) |>).
  assert (∀ {A} (xs ys : list A), length xs = length ks → take (Z.to_nat (Shm.size g)) (xs ++ ys) = xs) as Hpre.
  { intros A xs ys Hxs. rewrite take_app_length' by lia. done. }
  pose proof (sorted_pairs_Forall _ _ _ _ _ _ Hsp Hrange) as Hrange1.
  destruct (push_array a1 (Shm.size g)) as (l & c & Hloop & [Hsend _] & Hcuts & _ & _ & _); cbn.
  - by destruct Hr.
  - done.
  - done.
  - unfold Shm.capacity. rewrite length_app, length_drop. lia.
  - unfold Shm.capacity. rewrite length_app, length_drop. lia.
  - by rewrite Hpre.
  - exists ks, vs, l, (a1 <| sender_ := c |>). cbn in Hcuts |- *. rewrite Hpre in Hcuts by done.
    split_and!; [|done|done|done|done|done|lia|done|done|done|].
    + unfold Push. fold g. rewrite Hsort. cbn [mbind res_bind]. cbv zeta.
      match goal with |- mbind _ ?x = _ => change x with (push_loop (Z.to_nat (Shm.size g)) (Shm.size g) 0 a1) end.
      by rewrite Hloop.
    + eapply Forall_impl; [by eapply cuts_within|]. cbn. intros s [Hs1 Hs2].
      split; rewrite <- (part_take (Shm.size g)), Hpre by lia; done.
Qed.

(** C11: [Push] routes the gradients. When the worker's keys are distinct, every
    pair of key and value is sent exactly once, in key order; every message
    has at least one key and goes to the server that owns all its keys. *)
Theorem Push_routes a
    (Hr : ready a) (Hg : gradients_ok a)
    (Hnd : NoDup (take (Z.to_nat (Shm.size (gradients_ a))) (Shm.keys (gradients_ a)))) :
  let n := Z.to_nat (Shm.size (gradients_ a)) in
  ∃ l a', Push a = Ok (a', true) ∧ outbox (sender_ a') = outbox (sender_ a) ++ (push_message a' <$> l) ∧
    let sent_keys := concat (part (Shm.keys (gradients_ a')) <$> l) in
    let sent_values := concat (part (Shm.values (gradients_ a')) <$> l) in
    sorted_lt sent_keys ∧
    zip sent_keys sent_values ≡ₚ zip (take n (Shm.keys (gradients_ a))) (take n (Shm.values (gradients_ a))) ∧
    Forall (λ s, part (Shm.keys (gradients_ a')) s ≠ [] ∧
      ∀ k, k ∈ part (Shm.keys (gradients_ a')) s → Partition.in_arc (partition_ a) (s_index s) k) l.
Proof.
  destruct (Push_cuts a Hr Hg Hnd)
    as (ks & vs & l & a' & Hp & Hout & _ & _ & Hs & Hvl & Hcap & Hrange & Hperm & Hcuts & Hparts).
  exists l, a'. split; [done|]. split; [done|].
  assert (part (Shm.keys (gradients_ a')) <$> l = part ks <$> l) as ->.
  { apply list_fmap_ext. intros i s Hi. rewrite Forall_lookup in Hparts. by apply (Hparts i). }
  assert (part (Shm.values (gradients_ a')) <$> l = part vs <$> l) as ->.
  { apply list_fmap_ext. intros i s Hi. rewrite Forall_lookup in Hparts. by apply (Hparts i). }
  rewrite (cuts_concat (partition_ a) ks ks 0 l), (cuts_concat (partition_ a) ks vs 0 l) by done.
  cbn. split; [done|]. split; [done|]. unfold Shm.capacity in Hcap.
  pose proof (cuts_owner (partition_ a) ks (rd_wf a Hr) ltac:(unfold kInt32Max; lia) Hrange 0 l
    (sorted_lt_le ks Hs) Hcuts) as Hown.
  pose proof (cuts_nonempty _ _ _ _ Hcuts) as Hne. clear Hcuts Hout Hp Hperm.
  rewrite Forall_lookup in Hown. rewrite Forall_lookup in Hne. rewrite Forall_lookup in Hparts.
  apply Forall_lookup. intros i s Hi. destruct (Hparts i s Hi) as [-> _]. split; [by eapply Hne|by eapply Hown].
Qed.

(** The keys the worker asked for. *)
Record parameters_ok a : Prop := mkpok {
  po_wf : Shm.wf (parameters_ a);
  po_size : 0 ≤ Shm.size (parameters_ a) ≤ Shm.capacity;
  po_range : Forall (λ k, 0 ≤ k < Partition.key_range_ (partition_ a))
    (take (Z.to_nat (Shm.size (parameters_ a))) (Shm.keys (parameters_ a)));
}.

(** The requests of [Pull]. The keys the worker asked for are sorted and
    each of them is asked for exactly once (repeated keys included), in
    non-empty slices, each from the server that owns all its keys; the servers
    waited for are exactly those that were asked. *)
Theorem pull_requests_routes a (Hr : ready a) (Hp : parameters_ok a) :
  let n := Z.to_nat (Shm.size (parameters_ a)) in
  let sorted := std_sort (take n (Shm.keys (parameters_ a))) in
  ∃ l a', pull_requests a = Ok (list_to_set (dest a <$> l), a') ∧ Shm.wf (parameters_ a') ∧
    outbox (sender_ a') = outbox (sender_ a) ++ (pull_message a' <$> l) ∧
    concat (part (Shm.keys (parameters_ a')) <$> l) = sorted ∧
    Forall (λ s, part (Shm.keys (parameters_ a')) s ≠ [] ∧
      ∀ k, k ∈ part (Shm.keys (parameters_ a')) s → Partition.in_arc (partition_ a) (s_index s) k) l.
Proof.
  destruct Hp as [[Hv Hk] Hn Hrange]. intros n sorted. unfold Shm.capacity in *.
  destruct (pull_requests_Ok a Hr) as (l & c & Hreq & [Hsend _] & Hcuts & Hcat);
    [lia|unfold kInt32Max; lia|done|]. cbv zeta in Hreq, Hsend, Hcat. fold n sorted in Hreq, Hsend, Hcuts, Hcat.
  assert (zlen sorted = Shm.size (parameters_ a)) as Hsl
    by (unfold sorted, n; rewrite std_sort_length, length_take; lia).
  eexists l, _. split; [exact Hreq|]. split; [|split_and!; [exact Hsend|exact Hcat|]].
  { constructor; cbn; [done|]. unfold Shm.capacity. rewrite length_app, length_drop. lia. }
  assert (Forall (λ k, 0 ≤ k < Partition.key_range_ (partition_ a)) sorted) as Hrange1
    by (unfold sorted, n; by rewrite std_sort_perm).
  pose proof (cuts_owner (partition_ a) sorted (rd_wf a Hr) ltac:(unfold kInt32Max; lia) Hrange1 0 l
    (std_sort_sorted _) Hcuts) as Hown.
  pose proof (cuts_nonempty _ _ _ _ Hcuts) as Hne. pose proof (cuts_within _ _ _ _ Hcuts) as Hw.
  apply Forall_lookup. intros i s Hi. rewrite Forall_lookup in Hown, Hne, Hw. cbn.
  rewrite <- (part_take (zlen sorted)), take_app_length' by first [lia|destruct (Hw i s Hi); lia].
  split; [by eapply Hne|by eapply Hown].
Qed.

(** C12: the replies of [Pull]. Whatever messages arrive, in whatever order,
    the loop takes the first acceptable reply of each server it waits for and
    nothing else; it ends exactly when every server asked has been heard, and
    the worker then gets the pairs of those replies, in order of arrival, and
    their number. *)
Theorem Pull_replies a a1 (S : gset Z) (msgs : list (option Message))
    (Hreq : pull_requests a = Ok (S, a1)) (Hwf : Shm.wf (parameters_ a1))
    (Hok : Forall reply_ok (accepted msgs (local_id_ a1) S))
    (Hfit : zlen (reply_keys (accepted msgs (local_id_ a1) S)) ≤ Shm.capacity) :
  let ms := accepted msgs (local_id_ a1) S in
  ∃ a' completed rest, Pull msgs a = Ok (a', completed, rest) ∧ sender_ a' = sender_ a1 ∧
    (completed = true ↔ ∀ x, x ∈ S → ∃ m, Some m ∈ msgs ∧ acceptable (local_id_ a1) m ∧ send_id m = x) ∧
    NoDup (send_id <$> ms) ∧
    take (length (reply_keys ms)) (Shm.keys (parameters_ a')) = reply_keys ms ∧
    take (length (reply_keys ms)) (Shm.values (parameters_ a')) = reply_values ms ∧
    (completed = true → Shm.size (parameters_ a') = zlen (reply_keys ms)).
Proof.
  intros ms. destruct Hwf as [Hv Hk].
  destruct (pull_receive_Ok (Shm.keys (parameters_ a1)) (Shm.values (parameters_ a1)) Hk Hv
    msgs (local_id_ a1) S 0 [] []) as [rest Hrecv]; [done|done|by cbn|]. fold ms in Hrecv. cbn [app length] in Hrecv.
  assert (length (reply_values ms) = length (reply_keys ms)) as Hl by by apply reply_lengths.
  assert (∀ b : bool, b = bool_decide (S ∖ list_to_set (send_id <$> ms) = ∅) →
    b = true ↔ ∀ x, x ∈ S → ∃ m, Some m ∈ msgs ∧ acceptable (local_id_ a1) m ∧ send_id m = x) as Hdone.
  { intros b ->. rewrite bool_decide_eq_true. apply accepted_all. }
  unfold Pull. rewrite Hreq. cbn [mbind res_bind].
  change (Shm.size ((parameters_ a1) <| Shm.size := 0 |>)) with 0 in *.
  assert ((parameters_ a1) <| Shm.size := 0 |> =
    filled (Shm.keys (parameters_ a1)) (Shm.values (parameters_ a1)) 0 [] []) as -> by done.
  change (Z.of_nat 0) with 0 in Hrecv. rewrite Hrecv. cbn [mbind res_bind].
  destruct (decide (S ∖ list_to_set (send_id <$> ms) = ∅)) as [HS|HS].
  - eexists _, true, rest. split; [done|]. cbn. unfold over.
    rewrite !take_app_length' by done.
    split_and!; [done|apply Hdone; by rewrite bool_decide_eq_true_2|apply accepted_NoDup|done|done|lia].
  - eexists _, false, rest. split; [done|]. cbn. unfold over.
    rewrite !take_app_length' by done.
    split_and!; [done|apply Hdone; by rewrite bool_decide_eq_false_2|apply accepted_NoDup|done|done|done].
Qed.

(** The bounds of the reply arrays. A reply is stored behind the [length
    ks] pairs received so far when it fits in the 100 elements of the shared
    structure, and overruns the arrays otherwise: nothing checks its size. *)
Theorem store_reply_bounds (k0 : list Z) (v0 : list float32) (sz : Z) (ks : list Z) (vs : list float32)
    (r : RequestMessage)
    (Hk0 : zlen k0 = Shm.capacity) (Hv0 : zlen v0 = Shm.capacity)
    (Hl : length ks = length vs) (Hks : zlen ks ≤ Shm.capacity) (Hr : zlen (keys r) ≤ zlen (values r)) :
  store_reply r (zlen ks) (filled k0 v0 sz ks vs) =
    if zlen ks + zlen (keys r) <=? Shm.capacity
    then Ok (filled k0 v0 sz (ks ++ keys r) (vs ++ take (length (keys r)) (values r)))
    else Fault OutOfBounds.
Proof.
  destruct (Z.leb_spec (zlen ks + zlen (keys r)) Shm.capacity).
  - by apply store_reply_Ok.
  - by apply store_reply_overflow.
Qed.
End push.
