(* ===== verification/AgentConfig.v ===== *)
(** * Configuring and reconfiguring the agent

    [Initialize] and [Reconfigurate] on the configurations the master sends,
    and the witnesses for the theorems about the agent. *)

From S2P Require Import Prelude CppStd Partition Float32 Messages Communicator Channel Agent.
From S2P Require Import AgentSort Slices AgentPush AgentPull AgentProps.
From stdpp Require Import options.

Import Agent.

(** A configuration an agent can route by: one id and one sorted starting
    point per server, and an address for every server. *)
Record routable (c : ConfigMessage) : Prop := mkroutable {
  ro_servers : 0 < server_num c < kInt32Max;
  ro_ids : zlen (server_id c) = server_num c;
  ro_addrs : Forall (λ x, 0 ≤ x < zlen (node_ip_port c)) (server_id c);
  ro_points : server_num c ≤ zlen (partition c);
  ro_sorted : sorted_le (take (Z.to_nat (server_num c)) (partition c));
  ro_range : Forall (λ x, 0 ≤ x < key_range c) (take (Z.to_nat (server_num c)) (partition c));
}.

(** The partition of a configuration. *)
Definition config_partition (c : ConfigMessage) : Partition.Partition :=
  Partition.mkPartition (key_range c) (server_num c) (take (Z.to_nat (server_num c)) (partition c)).

Lemma config_partition_wf c : routable c → Partition.wf (config_partition c).
Proof.
  intros []. apply Partition.mkPartition_wf; [lia|rewrite length_take; lia|done|done].
Qed.

Lemma extract_prefix_Ok {A} (l : list A) n : 0 ≤ n ≤ zlen l → extract_prefix l n = Ok (take (Z.to_nat n) l).
Proof.
  intros. unfold extract_prefix. destruct (Z.ltb_spec n 0), (Z.ltb_spec (zlen l) n); try lia. done.
Qed.

Section config.
Set Default Proof Using "Type*".
Context {C : Type} `{CommunicatorLaws C}.
Implicit Types a : Agent C.

Lemma ids_loop_Ok c a :
  zlen (server_id c) = server_num c → 0 ≤ server_num c → server_ids_ a = [] →
  for_ 0 (server_num c) (λ i a,
    x ← proto_get (server_id c) i; mret (a <| server_ids_ ::= λ l, l ++ [x] |>)) a
  = Ok (a <| server_ids_ := server_id c |>).
Proof.
  intros Hlen Hn Hids.
  destruct (proj1 (returns_elim (for_ 0 (server_num c) (λ i a,
    x ← proto_get (server_id c) i; mret (a <| server_ids_ ::= λ l, l ++ [x] |>)) a)
    (λ a', a' = a <| server_ids_ := take (Z.to_nat (server_num c)) (server_id c) |>))) as (? & -> & ->);
    [|by rewrite take_ge by lia].
  apply (for_inv (λ i a', a' = a <| server_ids_ := take (Z.to_nat i) (server_id c) |>));
    [lia|destruct a; cbn in *; by subst|].
  intros i a' Hi ->. destruct (lookup_lt_is_Some_2 (server_id c) (Z.to_nat i)) as [x Hx]; [lia|].
  rewrite (proto_get_Ok _ i x) by (done || lia). cbn.
  replace (Z.to_nat (i + 1)) with (S (Z.to_nat i)) by lia. by rewrite (take_S_r _ _ x).
Qed.

Lemma agent_refresh_Ok c a :
  for_ 0 (zlen (node_ip_port c)) (λ i a,
    addr ← proto_get (node_ip_port c) i;
    mret (if CheckIdAddr i addr (sender_ a) then a
          else a <| sender_ ::= λ ch, (AddIdAddr i addr (DeleteId i ch).2).2 |>)) a ⇓ λ a', ∃ ch,
    a' = a <| sender_ := ch |> ∧ outbox ch = outbox (sender_ a).
Proof.
  apply (for_inv (λ _ a', ∃ ch, a' = a <| sender_ := ch |> ∧ outbox ch = outbox (sender_ a)));
    [lia|exists (sender_ a); by destruct a|].
  intros i a' Hi (ch & -> & Hout).
  destruct (lookup_lt_is_Some_2 (node_ip_port c) (Z.to_nat i)) as [addr Ha]; [lia|].
  rewrite (proto_get_Ok _ i addr) by (done || lia). cbn [mbind res_bind returns mret res_ret].
  destruct (CheckIdAddr i addr _); [by exists ch|].
  eexists. split; [done|]. cbn. by rewrite AddIdAddr_outbox, DeleteId_outbox.
Qed.

(** The loop of [Initialize] that records the servers and their addresses. *)
Lemma servers_loop_Ok c a :
  routable c → server_ids_ a = [] →
  for_ 0 (server_num c) (λ i a,
    x ← proto_get (server_id c) i;
    addr ← proto_get (node_ip_port c) x;
    mret (a <| server_ids_ ::= λ l, l ++ [x] |> <| sender_ ::= λ c, (AddIdAddr x addr c).2 |>)) a
  ⇓ λ a', ∃ ch, a' = a <| server_ids_ := server_id c |> <| sender_ := ch |> ∧
    outbox ch = outbox (sender_ a) ∧
    ∀ x, x ∈ server_id c → book (sender_ a) !! x = None → book ch !! x = node_ip_port c !! Z.to_nat x.
Proof.
  intros [Hn Hids Haddr _ _ _] Hempty.
  set (P := λ i a', ∃ ch, a' = a <| server_ids_ := take (Z.to_nat i) (server_id c) |> <| sender_ := ch |> ∧
    outbox ch = outbox (sender_ a) ∧ ∀ x, book (sender_ a) !! x = None →
      (x ∈ take (Z.to_nat i) (server_id c) → book ch !! x = node_ip_port c !! Z.to_nat x) ∧
      (x ∉ take (Z.to_nat i) (server_id c) → book ch !! x = None)).
  apply (returns_mono _ (P (server_num c))).
  2: { intros a' (ch & -> & Hout & Hbook). exists ch. rewrite take_ge in * by lia.
       split_and!; [done|done|]. intros x Hx Hnone. by apply Hbook. }
  apply (for_inv P); [lia| |].
  { exists (sender_ a). split_and!; [destruct a; cbn in *; by subst|done|]. intros x Hx.
    rewrite take_0. split; [by intros ?%elem_of_nil|done]. }
  intros i a' Hi (ch & -> & Hout & Hbook).
  destruct (lookup_lt_is_Some_2 (server_id c) (Z.to_nat i)) as [x Hx]; [lia|].
  assert (0 ≤ x < zlen (node_ip_port c)) as Hxr by (rewrite Forall_lookup in Haddr; eauto).
  destruct (lookup_lt_is_Some_2 (node_ip_port c) (Z.to_nat x)) as [addr Ha]; [lia|].
  rewrite (proto_get_Ok (server_id c) i x) by (done || lia). cbn.
  rewrite (proto_get_Ok _ x addr) by (done || lia). cbn. unfold P.
  replace (Z.to_nat (i + 1)) with (S (Z.to_nat i)) by lia. rewrite (take_S_r _ _ x) by done.
  eexists. split; [done|]. split; [by rewrite AddIdAddr_outbox|]. intros y Hy.
  destruct (Hbook y Hy) as [Hin Hout']. rewrite AddIdAddr_book. unfold map_insert_new.
  rewrite elem_of_app, list_elem_of_singleton. split.
  - intros Hyin. destruct (decide (y ∈ take (Z.to_nat i) (server_id c))) as [Hd|Hd].
    + rewrite <- Hin by done. destruct (book ch !! x) eqn:E; [done|].
      rewrite lookup_insert_ne; [done|]. intros ->. by rewrite Hin, Ha in E.
    + destruct Hyin as [?|Heq]; [done|subst y]. by rewrite Hout', lookup_insert_eq.
  - intros Hyn. destruct (book ch !! x); [by apply Hout'; tauto|].
    rewrite lookup_insert_ne; [by apply Hout'; tauto|]. intros ->. tauto.
Qed.

(** Everything [configure] does to an agent. *)
Lemma configure_state (c : ConfigMessage) (m : Message) a :
  config_msg m = c → routable c →
  configure m a ⇓ λ a', ∃ ch, outbox ch = outbox (sender_ a) ∧
    (∀ x, x ∈ server_id c → book (sender_ a) !! x = None → book ch !! x = node_ip_port c !! Z.to_nat x) ∧
    a' = a <| local_id_ := recv_id m |> <| agent_num_ := worker_num c |> <| server_num_ := server_num c |>
           <| key_range_ := key_range c |> <| server_ids_ := server_id c |> <| sender_ := ch |>
           <| partition_ := config_partition c |> <| master_ids_ ::= λ l, l ++ master_id c |>
           <| epoch_num_ := 0 |> <| reconfig_msg_ := None |>.
Proof.
  intros Hc Hok. pose proof Hok as [Hn Hids _ Hpts _ _]. unfold configure. rewrite Hc. cbv zeta.
  apply returns_bind. eapply returns_mono; [by apply (servers_loop_Ok c)|].
  intros a1 (ch & -> & Hout & Hbook). rewrite extract_prefix_Ok by (cbn; lia).
  eapply returns_bind_Ok; [done|]. rewrite Partition.Initialize_array_Ok by (cbn; rewrite length_take; lia).
  cbn. rewrite firstn_firstn, Nat.min_id. exists ch. by split_and!.
Qed.

(** After [Initialize] the agent can route. On a configuration with one id,
    one address and one sorted starting point per server, it holds exactly
    that partition, knows the id of every server and how to reach it, and
    satisfies what [Push] and [Pull] need; only addresses were added. *)
Theorem configure_routes (c : ConfigMessage) (m : Message) a
    (Hc : config_msg m = c) (Hok : routable c)
    (Hnew : ∀ x, x ∈ server_id c → book (sender_ a) !! x = None) :
  ∃ a', configure m a = Ok a' ∧ ready a' ∧ local_id_ a' = recv_id m ∧
    partition_ a' = config_partition c ∧ server_ids_ a' = server_id c ∧
    (∀ x, x ∈ server_id c → book (sender_ a') !! x = node_ip_port c !! Z.to_nat x) ∧
    outbox (sender_ a') = outbox (sender_ a).
Proof.
  pose proof (configure_state c m a Hc Hok) as Hall. apply returns_elim in Hall as (a' & Ha' & ch & Hout & Hbook & ->).
  eexists. split; [exact Ha'|]. split_and!; try done.
  - constructor; cbn; [by apply config_partition_wf|apply Hok].
  - intros x Hx. apply Hbook; [done|]. by apply Hnew.
Qed.

(** [Reconfigurate] reads one starting point too many. It extracts
    [server_num + 1] points; on a configuration with exactly one point per
    server, which is what [Initialize] accepts, the extraction is out of
    range, and with one more point the agent is ready again. *)
Theorem Reconfigurate_points (c : ConfigMessage) (m : Message) a
    (Hc : config_msg m = c) (Hok : routable c) :
  if zlen (partition c) =? server_num c then Reconfigurate m a = Fault ProtoIndex
  else ∃ a', Reconfigurate m a = Ok a' ∧ ready a' ∧ local_id_ a' = recv_id m ∧
    partition_ a' = config_partition c ∧ server_ids_ a' = server_id c ∧
    epoch_num_ a' = 0 ∧ reconfig_msg_ a' = None ∧ outbox (sender_ a') = outbox (sender_ a).
Proof.
  pose proof Hok as [Hn Hids _ Hpts _ _].
  set (a0 := a <| local_id_ := recv_id m |> <| agent_num_ := worker_num c |>
    <| server_num_ := server_num c |> <| key_range_ := key_range c |> <| server_ids_ := [] |>).
  pose proof (agent_refresh_Ok c (a0 <| server_ids_ := server_id c |> <| master_ids_ := master_id c |>)) as Hl.
  apply returns_elim in Hl as (a1 & Hl & ch & -> & Hout).
  assert (∀ r, Reconfigurate m a = r ↔
    (part_vec ← extract_prefix (partition c) (server_num c + 1);
     '(p, _) ← Partition.Initialize_array (key_range c) (server_num c) part_vec (Partition.Finalize (partition_ a));
     mret (a0 <| server_ids_ := server_id c |> <| master_ids_ := master_id c |> <| sender_ := ch |>
       <| partition_ := p |> <| epoch_num_ := 0 |> <| reconfig_msg_ := None |>)) = r) as Hrec.
  { intros r. unfold Reconfigurate. rewrite Hc. cbv zeta. fold a0.
    change (server_num_ a0) with (server_num c). rewrite (ids_loop_Ok c a0) by (done || lia).
    cbn [mbind res_bind]. rewrite Hl. cbn [mbind res_bind].
    unfold add32. rewrite i32_Ok by (unfold kInt32Min; cbn; lia). done. }
  destruct (Z.eqb_spec (zlen (partition c)) (server_num c)) as [Heq|Hne].
  - apply Hrec. unfold extract_prefix.
    destruct (Z.ltb_spec (server_num c + 1) 0); [lia|].
    destruct (Z.ltb_spec (zlen (partition c)) (server_num c + 1)); [done|lia].
  - eexists. split; [apply Hrec; rewrite extract_prefix_Ok by lia; cbn [mbind res_bind];
      rewrite Partition.Initialize_array_Ok by (rewrite length_take; lia); cbn [mbind res_bind]; done|].
    rewrite firstn_firstn, Nat.min_l by lia. fold (config_partition c).
    split_and!; try done. constructor; cbn; [by apply config_partition_wf|done].
Qed.
End config.

(** ** Witnesses

    An agent of the two-server cluster: keys 2 to 5 belong to server 1, the
    others of the ten keys to server 2. *)

Definition agent_config : ConfigMessage :=
  mkConfig 2 2 10 ["m:1"; "a:1"; "b:1"; "c:1"; "d:1"] [2; 6] 1 [1; 2] [3; 4] [0] 2.

Lemma agent_config_routable : routable agent_config.
Proof.
  constructor; [by vm_compute|by vm_compute| |by vm_compute| |]; repeat constructor; by vm_compute.
Qed.

(** Keys and values in the shared structure, padded to its extent. *)
Definition shm_of (ks : list Z) (vs : list float32) : Shm.shmstruct :=
  Shm.mk (zlen ks) (vs ++ replicate (100 - length vs) f0) (ks ++ replicate (100 - length ks) 0).

Definition blank_agent : Agent Trace :=
  mkAgent 0 EmptyString 0 0 0 0 0 [] [] new_trace [] (shm_of [] []) (shm_of [] []) (shm_of [] [])
    (shm_of [] []) (Partition.mkPartition 0 0 []) None.

Definition config_to (id : Z) : Message := mkMessage 0 id mt_config (Some agent_config) None None None.

(** Agent 3, with gradients and a request for parameters from its worker. *)
Definition test_agent : Agent Trace :=
  match configure (config_to 3) blank_agent with
  | Ok a => a <| gradients_ := shm_of [7; 3; 1; 4] (f_of_int <$> [70; 30; 10; 40]) |>
              <| parameters_ := shm_of [9; 4; 1; 3] [] |>
  | Fault _ => blank_agent
  end.

(** An agent of this cluster with the given gradients. *)
Definition trainer (id : Z) (l : list (Z * Z)) : Agent Trace :=
  match configure (config_to id) blank_agent with
  | Ok a => a <| gradients_ := shm_of l.*1 (f_of_int <$> l.*2) |>
  | Fault _ => blank_agent
  end.

Lemma test_agent_ready : ready test_agent.
Proof.
  constructor; [|by vm_compute].
  replace (partition_ test_agent) with (config_partition agent_config) by (by vm_compute).
  apply config_partition_wf, agent_config_routable.
Qed.

Lemma test_agent_gradients : gradients_ok test_agent.
Proof. constructor; [by constructor|by vm_compute|]. repeat constructor; by vm_compute. Qed.

Lemma test_agent_parameters : parameters_ok test_agent.
Proof. constructor; [by constructor|by vm_compute|]. repeat constructor; by vm_compute. Qed.

Example SortKeyValue_spec_witness :
  ∃ ks vs, SortKeyValue [5; 2; 5] (f_of_int <$> [1; 2; 3]) 3 =
      Ok (ks ++ drop (length ks) [5; 2; 5], vs ++ drop (length ks) (f_of_int <$> [1; 2; 3])) ∧
    sorted_lt ks ∧ length vs = length ks ∧ zlen ks ≤ 3 ∧
    ∀ k v, (k, v) ∈ zip ks vs ↔ ∃ i, first_at [5; 2; 5] 3 k i ∧ (f_of_int <$> [1; 2; 3]) !! Z.to_nat i = Some v.
Proof. apply (SortKeyValue_spec [5; 2; 5] (f_of_int <$> [1; 2; 3]) 3); [by vm_compute|done]. Defined.

Example Push_sends_array_witness :
  let n := Z.to_nat (Shm.size (gradients_ test_agent)) in
  ∃ ks vs l a', Push test_agent = Ok (a', true) ∧
    sorted_pairs (Shm.keys (gradients_ test_agent)) (Shm.values (gradients_ test_agent))
      (Shm.size (gradients_ test_agent)) ks vs ∧
    outbox (sender_ a') = outbox (sender_ test_agent) ++ (push_message a' <$> l) ∧
    concat (part (Shm.keys (gradients_ a')) <$> l) =
      ks ++ drop (length ks) (take n (Shm.keys (gradients_ test_agent))) ∧
    concat (part (Shm.values (gradients_ a')) <$> l) =
      vs ++ drop (length ks) (take n (Shm.values (gradients_ test_agent))).
Proof. apply (Push_sends_array test_agent test_agent_ready test_agent_gradients). Defined.

Example Push_routes_witness :
  let n := Z.to_nat (Shm.size (gradients_ test_agent)) in
  ∃ l a', Push test_agent = Ok (a', true) ∧
    outbox (sender_ a') = outbox (sender_ test_agent) ++ (push_message a' <$> l) ∧
    let sent_keys := concat (part (Shm.keys (gradients_ a')) <$> l) in
    let sent_values := concat (part (Shm.values (gradients_ a')) <$> l) in
    sorted_lt sent_keys ∧
    zip sent_keys sent_values ≡ₚ zip (take n (Shm.keys (gradients_ test_agent))) (take n (Shm.values (gradients_ test_agent))) ∧
    Forall (λ s, part (Shm.keys (gradients_ a')) s ≠ [] ∧
      ∀ k, k ∈ part (Shm.keys (gradients_ a')) s → Partition.in_arc (partition_ test_agent) (s_index s) k) l.
Proof.
  apply (Push_routes test_agent test_agent_ready test_agent_gradients).
  apply (bool_decide_unpack _). by vm_compute.
Defined.

Example pull_requests_routes_witness :
  let n := Z.to_nat (Shm.size (parameters_ test_agent)) in
  let sorted := std_sort (take n (Shm.keys (parameters_ test_agent))) in
  ∃ l a', pull_requests test_agent = Ok (list_to_set (dest test_agent <$> l), a') ∧ Shm.wf (parameters_ a') ∧
    outbox (sender_ a') = outbox (sender_ test_agent) ++ (pull_message a' <$> l) ∧
    concat (part (Shm.keys (parameters_ a')) <$> l) = sorted ∧
    Forall (λ s, part (Shm.keys (parameters_ a')) s ≠ [] ∧
      ∀ k, k ∈ part (Shm.keys (parameters_ a')) s → Partition.in_arc (partition_ test_agent) (s_index s) k) l.
Proof. apply (pull_requests_routes test_agent test_agent_ready test_agent_parameters). Defined.

(** The replies of the two servers, the second with an unwanted one before. *)
Definition reply_from (id : Z) (ks : list Z) : Message :=
  mkMessage id 3 mt_request None (Some (mkRequest rt_key_value ks ((λ k, f_of_int (10 * k)) <$> ks))) None None.
Definition test_replies : list (option Message) :=
  [Some (reply_from 9 [0]); Some (reply_from 2 [1]); None; Some (reply_from 2 [9]); Some (reply_from 1 [3; 4])].

Definition asked_agent : Agent Trace :=
  match pull_requests test_agent with Ok (_, a) => a | Fault _ => test_agent end.

(** Server 2 is asked twice (for key 1 and for key 9) and heard once. *)
Example Pull_replies_witness :
  let ms := accepted test_replies (local_id_ asked_agent) {[ 1; 2 ]} in
  ∃ a' completed rest, Pull test_replies test_agent = Ok (a', completed, rest) ∧ sender_ a' = sender_ asked_agent ∧
    (completed = true ↔ ∀ x, x ∈ ({[ 1; 2 ]} : gset Z) →
       ∃ m, Some m ∈ test_replies ∧ acceptable (local_id_ asked_agent) m ∧ send_id m = x) ∧
    NoDup (send_id <$> ms) ∧
    take (length (reply_keys ms)) (Shm.keys (parameters_ a')) = reply_keys ms ∧
    take (length (reply_keys ms)) (Shm.values (parameters_ a')) = reply_values ms ∧
    (completed = true → Shm.size (parameters_ a') = zlen (reply_keys ms)).
Proof.
  apply (Pull_replies test_agent asked_agent {[ 1; 2 ]} test_replies).
  - by vm_compute.
  - by constructor.
  - repeat constructor; by vm_compute.
  - by vm_compute.
Defined.

Example store_reply_bounds_witness :
  store_reply (mkRequest rt_key_value [7] [f0]) 0 (filled (replicate 100 0) (replicate 100 f0) 0 [] []) =
    if zlen (@nil Z) + zlen [7] <=? Shm.capacity
    then Ok (filled (replicate 100 0) (replicate 100 f0) 0 [7] [f0])
    else Fault OutOfBounds.
Proof.
  by apply (store_reply_bounds (replicate 100 0) (replicate 100 f0) 0 [] [] (mkRequest rt_key_value [7] [f0])).
Defined.

Example configure_routes_witness :
  ∃ a', configure (config_to 3) blank_agent = Ok a' ∧ ready a' ∧ local_id_ a' = 3 ∧
    partition_ a' = config_partition agent_config ∧ server_ids_ a' = [1; 2] ∧
    (∀ x, x ∈ server_id agent_config → book (sender_ a') !! x = node_ip_port agent_config !! Z.to_nat x) ∧
    outbox (sender_ a') = outbox (sender_ blank_agent).
Proof. by apply (configure_routes agent_config (config_to 3) blank_agent eq_refl agent_config_routable). Defined.

Example Reconfigurate_points_witness :
  if zlen (partition agent_config) =? server_num agent_config
  then Reconfigurate (config_to 3) test_agent = Fault ProtoIndex
  else ∃ a', Reconfigurate (config_to 3) test_agent = Ok a' ∧ ready a' ∧ local_id_ a' = 3 ∧
    partition_ a' = config_partition agent_config ∧ server_ids_ a' = server_id agent_config ∧
    epoch_num_ a' = 0 ∧ reconfig_msg_ a' = None ∧ outbox (sender_ a') = outbox (sender_ test_agent).
Proof. apply (Reconfigurate_points agent_config (config_to 3) test_agent eq_refl agent_config_routable). Defined.
