(* ===== verification/AgentWork.v ===== *)
(** * The work loop of the agent (src/agent/agent.cc, [Agent::AgentWork])

    A worker writes a signal to a pipe and its arrays to the shared memory;
    the agent serves the request and signals back. The file runs the loop on
    everything that can reach it, and states what a worker is served as a
    specification of its own ([view], [spec_turn]). *)

From S2P Require Import Prelude CppStd Decimal Partition Float32 Messages Communicator Channel Fifo Agent.
From S2P Require Import AgentSort Slices AgentPush AgentPull AgentProps AgentConfig.
From stdpp Require Import options.

Import Agent.

(** ** The loop *)

(** What the agent finds in one turn: the worker's memory when [Wait]
    returns, the configuration the heartbeat thread left since the last turn,
    and the messages that arrive during [Pull]. *)
Record turn := mkTurn {
  memory : Shm.shmstruct;
  update : option Message;
  replies : list (option Message);
}.

Section work.
Context {C P : Type} `{Communicator C} `{Fifo.Pipe P}.

(** [AgentWork] over the turns to come: where it stands when they are used up
    or it does not get to the next one. [p] is the pipe of [grad_fifo_]. *)
Fixpoint AgentWork (turns : list turn) (p : P) (a : Agent C) : res (Agent C * P * work_status) :=
  match turns with
  | [] => mret (a, p, Continue)
  | t :: turns =>
      match Fifo.Wait p with
      | None => mret (a, p, Waiting)
      | Some (signal_type, p) =>
          let a := a <| grad_memory_ := memory t |> in
          let a := match update t with Some m => a <| reconfig_msg_ := Some m |> | None => a end in
          '(a, status, _) ← work_step signal_type (replies t) a;
          match status with
          | Continue => AgentWork turns p a
          | _ => mret (a, p, status)
          end
      end
  end.
End work.

(** ** What a worker sees *)

(** The signals sent to it, the epoch its agent reports, and the pairs it
    finds in the shared memory. *)
Record view := mkView {
  v_signals : list Z;
  v_epoch : Z;
  v_keys : list Z;
  v_values : list float32;
}.

Section session.
Set Default Proof Using "Type*".
Context {C : Type} `{CommunicatorLaws C}.
Implicit Types a b : Agent C.

Definition view_of a : view :=
  let m := para_memory_ a in
  let n := Z.to_nat (Shm.size m) in
  mkView (para_fifo_ a) (epoch_num_ a) (take n (Shm.keys m)) (take n (Shm.values m)).

(** The servers asked for the keys in the worker's memory, and the replies
    taken of those that arrive. *)
Definition asked a (mem : Shm.shmstruct) : gset Z :=
  match pull_requests (a <| parameters_ := mem |>) with Ok (server_set, _) => server_set | Fault _ => ∅ end.
Definition taken a (t : turn) : list Message := accepted (replies t) (local_id_ a) (asked a (memory t)).

(** What a served request changes: a pull shows the worker the pairs of the
    replies and signals it, a push counts. *)
Definition spec_turn a (v : view) (st : Z * turn) : view :=
  let '(signal_type, t) := st in
  if signal_type =? 0 then
    mkView (v_signals v ++ [2]) (v_epoch v) (reply_keys (taken a t)) (reply_values (taken a t))
  else mkView (v_signals v) (v_epoch v + 1) (v_keys v) (v_values v).

(** A worker's arrays that the agent can serve. *)
Record memory_ok a (m : Shm.shmstruct) : Prop := mkmemory {
  mo_wf : Shm.wf m;
  mo_size : 0 ≤ Shm.size m ≤ Shm.capacity;
  mo_range : Forall (λ k, 0 ≤ k < Partition.key_range_ (partition_ a)) (take (Z.to_nat (Shm.size m)) (Shm.keys m));
}.

(** Requests that can be served: for a pull, every server asked answers. *)
Inductive turn_ok a : Z → turn → Prop :=
| ok_push t : update t = None → memory_ok a (memory t) → turn_ok a 1 t
| ok_pull t :
    update t = None → memory_ok a (memory t) → Forall reply_ok (taken a t) →
    zlen (reply_keys (taken a t)) ≤ Shm.capacity →
    (∀ x, x ∈ asked a (memory t) → ∃ m, Some m ∈ replies t ∧ acceptable (local_id_ a) m ∧ send_id m = x) →
    turn_ok a 0 t.

(** What stays the same during a session. *)
Record same_route a b : Prop := mkroute {
  rt_partition : partition_ b = partition_ a;
  rt_ids : server_ids_ b = server_ids_ a;
  rt_local : local_id_ b = local_id_ a;
  rt_config : reconfig_msg_ b = None;
}.

Lemma same_route_ready a b : same_route a b → ready a → ready b.
Proof. intros [Hp Hi _ _] [Hwf Hids]. split; by rewrite ?Hp, ?Hi. Qed.

Lemma same_route_memory a b m : same_route a b → memory_ok a m → memory_ok b m.
Proof. intros [Hp _ _ _] []. constructor; by rewrite ?Hp. Qed.

(** A request of type [ty] the agent sends to one of the servers. *)
Definition request_of a (ty : RequestType) (dm : Z * Message) : Prop :=
  dm.1 ∈ server_ids_ a ∧ ∃ ks vs, dm.2 = request_message (local_id_ a) dm.1 (mkRequest ty ks vs).

Lemma request_of_same a b ty dm : same_route a b → request_of b ty dm → request_of a ty dm.
Proof. intros [_ Hi Hl _]. unfold request_of. by rewrite Hi, Hl. Qed.

Lemma dest_known a s :
  ready a → 0 ≤ s_index s < Partition.server_num_ (partition_ a) → dest a s ∈ server_ids_ a.
Proof.
  intros [_ Hids] Hs. unfold dest.
  destruct (lookup_lt_is_Some_2 (server_ids_ a) (Z.to_nat (s_index s))) as [x Hx]; [lia|].
  rewrite (list_lookup_total_correct _ _ _ Hx). by eapply list_elem_of_lookup_2.
Qed.

Lemma pull_requests_asked a m :
  ready a → memory_ok a m →
  let sorted := std_sort (take (Z.to_nat (Shm.size m)) (Shm.keys m)) in
  ∃ l c ks out, pull_requests (a <| parameters_ := m |>) =
      Ok (list_to_set (dest a <$> l), a <| parameters_ := m <| Shm.keys := ks |> |> <| sender_ := c |>) ∧
    cuts (partition_ a) sorted 0 l ∧ zlen ks = Shm.capacity ∧
    outbox c = outbox (sender_ a) ++ out ∧ Forall (request_of a rt_key) out.
Proof.
  intros [Hwf Hids] [[Hv Hk] Hn Hr] sorted. unfold Shm.capacity in *.
  destruct (pull_requests_Ok (a <| parameters_ := m |>)) as (l & c & Hreq & [Hout _] & Hcuts & _);
    [by split|cbn; lia|cbn; unfold kInt32Max; lia|done|]. cbn in Hreq, Hout, Hcuts.
  assert (zlen sorted = Shm.size m) as Hsl by (unfold sorted; rewrite std_sort_length, length_take; lia).
  eexists l, c, (sorted ++ drop (Z.to_nat (Shm.size m)) (Shm.keys m)), _.
  split_and!; [exact Hreq|done| |exact Hout|].
  - rewrite length_app, length_drop. lia.
  - pose proof (cuts_index (partition_ a) sorted Hwf ltac:(unfold kInt32Max; lia)
      ltac:(unfold sorted; by rewrite std_sort_perm) 0 l Hcuts) as Hidx.
    apply Forall_fmap. eapply Forall_impl; [exact Hidx|]. intros s Hs.
    split; [by apply (dest_known a s)|]. by eexists _, _.
Qed.

Lemma asked_same a b m : same_route a b → ready a → memory_ok a m → asked b m = asked a m.
Proof.
  intros Hr Hra Hm. pose proof (same_route_ready _ _ Hr Hra) as Hrb. pose proof (same_route_memory _ _ _ Hr Hm) as Hmb.
  destruct (pull_requests_asked a m Hra Hm) as (l & c & ks & out & Ha & Hcuts & _).
  destruct (pull_requests_asked b m Hrb Hmb) as (l' & c' & ks' & out' & Hb & Hcuts' & _).
  unfold asked. rewrite Ha, Hb. destruct Hr as [Hp Hi _ _]. rewrite Hp in Hcuts'.
  rewrite (cuts_unique _ _ _ _ _ Hcuts' Hcuts). unfold dest. by rewrite Hi.
Qed.

Lemma taken_same a b t : same_route a b → ready a → memory_ok a (memory t) → taken b t = taken a t.
Proof. intros Hr Ha Hm. unfold taken. by rewrite (asked_same a b), (rt_local _ _ Hr). Qed.

Lemma turn_ok_same a b sig t : same_route a b → ready a → turn_ok a sig t → turn_ok b sig t.
Proof.
  intros Hr Ha []; constructor; try done; try by eapply same_route_memory.
  - by rewrite (taken_same a b).
  - by rewrite (taken_same a b).
  - by rewrite (asked_same a b), (rt_local _ _ Hr).
Qed.

(** ** One turn *)

(** [b] served one request more than [a]: the worker's view follows the
    specification, and only requests of the given type were sent. *)
Record served a b (ty : RequestType) (v : view) : Prop := mkserved {
  se_route : same_route a b;
  se_memory : Shm.wf (para_memory_ b);
  se_view : view_of b = v;
  se_sent : ∃ out, outbox (sender_ b) = outbox (sender_ a) ++ out ∧ Forall (request_of a ty) out;
}.

(** A pull that every server asked answers completes. *)
Lemma Pull_complete a m msgs :
  ready a → memory_ok a m →
  let ms := accepted msgs (local_id_ a) (asked a m) in
  Forall reply_ok ms → zlen (reply_keys ms) ≤ Shm.capacity →
  (∀ x, x ∈ asked a m → ∃ m, Some m ∈ msgs ∧ acceptable (local_id_ a) m ∧ send_id m = x) →
  ∃ p c out rest, Pull msgs (a <| parameters_ := m |>) = Ok (a <| parameters_ := p |> <| sender_ := c |>, true, rest) ∧
    Shm.wf p ∧ Shm.size p = zlen (reply_keys ms) ∧
    take (length (reply_keys ms)) (Shm.keys p) = reply_keys ms ∧
    take (length (reply_keys ms)) (Shm.values p) = reply_values ms ∧
    outbox c = outbox (sender_ a) ++ out ∧ Forall (request_of a rt_key) out.
Proof.
  intros Hr Hm ms Hok Hfit Hall.
  destruct (pull_requests_asked a m Hr Hm) as (l & c & ks & out & Hreq & _ & Hks & Hout & Hreqs).
  assert (asked a m = list_to_set (dest a <$> l)) as Hasked by (unfold asked; by rewrite Hreq).
  destruct (mo_wf _ _ Hm) as [Hv _]. pose proof (reply_lengths ms Hok) as Hl.
  destruct (pull_receive_Ok ks (Shm.values m) Hks Hv msgs (local_id_ a) (asked a m) 0 [] []) as [rest Hrecv];
    [done|done|by cbn|]. fold ms in Hrecv. cbn [app length] in Hrecv. change (Z.of_nat 0) with 0 in Hrecv.
  pose proof (proj2 (accepted_all msgs (local_id_ a) (asked a m)) Hall) as Hdone. fold ms in Hdone.
  rewrite Hdone, Z.add_0_l in Hrecv. rewrite <- Hasked in Hreq.
  exists ((filled ks (Shm.values m) 0 (reply_keys ms) (reply_values ms)) <| Shm.size := zlen (reply_keys ms) |>), c, out, rest.
  split_and!; try done.
  - unfold Pull. rewrite Hreq. cbn [mbind res_bind].
    match goal with |- context [pull_receive msgs ?x _ 0 ?y] =>
      change x with (local_id_ a); change y with (filled ks (Shm.values m) 0 [] []) end.
    rewrite Hrecv. cbn [mbind res_bind]. by rewrite decide_True by done.
  - unfold Shm.capacity in *. constructor; cbn; rewrite over_length; unfold Shm.capacity; lia.
  - cbn. unfold over. by rewrite take_app_length' by done.
  - cbn. unfold over. by rewrite take_app_length' by done.
Qed.

Lemma pull_turn a t :
  ready a → reconfig_msg_ a = None → Shm.wf (para_memory_ a) → turn_ok a 0 t →
  ∃ b rest, work_step 0 (replies t) (a <| grad_memory_ := memory t |>) = Ok (b, Continue, rest) ∧
    served a b rt_key (spec_turn a (view_of a) (0, t)).
Proof.
  intros Hr Hc Hw Ht. inversion Ht as [|? _ Hm Hok Hfit Hall]; subst.
  set (a0 := a <| grad_memory_ := memory t |>). assert (same_route a a0) as Hroute by by constructor.
  pose proof (asked_same a a0 (memory t) Hroute Hr Hm) as Hasked.
  destruct (Pull_complete a0 (memory t) (replies t)) as (p & c & out & rest & Hp & Hpw & Hsz & Hpk & Hpv & Hout & Hreqs).
  - by eapply same_route_ready.
  - by eapply same_route_memory.
  - by rewrite Hasked.
  - by rewrite Hasked.
  - by rewrite Hasked.
  - rewrite Hasked in Hsz, Hpk, Hpv. change (local_id_ a0) with (local_id_ a) in *. fold (taken a t) in Hsz, Hpk, Hpv.
    exists (a0 <| parameters_ := p |> <| sender_ := c |> <| para_memory_ := Shm.Write p (para_memory_ a) |>
             <| para_fifo_ := para_fifo_ a ++ [2] |>), rest. split.
    + unfold work_step. change (reconfig_msg_ a0) with (reconfig_msg_ a). rewrite Hc. cbn [mbind res_bind mret res_ret].
      change (0 =? 0) with true. cbv iota zeta. change (Shm.Read (grad_memory_ a0)) with (memory t).
      rewrite Hp. cbn [mbind res_bind negb]. reflexivity.
    + assert (Shm.Write p (para_memory_ a) = p) as -> by by apply Shm.Write_Read.
      constructor; [by constructor|done| |].
      * unfold view_of. cbn. rewrite Hsz, Nat2Z.id, Hpk, Hpv. done.
      * exists out. split; [done|]. eapply Forall_impl; [exact Hreqs|]. intros dm. by apply request_of_same.
Qed.

Lemma push_turn a t :
  ready a → reconfig_msg_ a = None → Shm.wf (para_memory_ a) → turn_ok a 1 t → epoch_num_ a < kInt32Max →
  kInt32Min ≤ epoch_num_ a →
  ∃ b rest, work_step 1 (replies t) (a <| grad_memory_ := memory t |>) = Ok (b, Continue, rest) ∧
    served a b rt_key_value (spec_turn a (view_of a) (1, t)).
Proof.
  intros Hr Hc Hw Ht Hmax Hmin. inversion Ht as [? _ Hm|]; subst.
  set (a0 := a <| grad_memory_ := memory t |>). set (a1 := a0 <| gradients_ := memory t |>).
  assert (ready a1) as Hr1 by (by destruct Hr). assert (gradients_ok a1) as Hg by (by destruct Hm).
  destruct (Push_array_Ok a1 Hr1 Hg) as (ks & vs & l & g & c & Hp & _ & [Hout _] & Hidx & _).
  eexists _, (replies t). split.
  - unfold work_step. change (reconfig_msg_ a0) with (reconfig_msg_ a). rewrite Hc. cbn [mbind res_bind mret res_ret].
    change (1 =? 0) with false. change (1 =? 1) with true. cbv iota zeta.
    change (Shm.Read (grad_memory_ a0)) with (memory t). fold a1. rewrite Hp. cbn [mbind res_bind].
    unfold add32. change (epoch_num_ (a1 <| gradients_ := g |> <| sender_ := c |>)) with (epoch_num_ a).
    rewrite i32_Ok by lia. cbn [mbind res_bind]. reflexivity.
  - constructor; [by constructor|done|done|]. eexists. split; [exact Hout|].
    apply Forall_fmap. eapply Forall_impl; [exact Hidx|]. intros s Hs.
    split; [by apply (dest_known a1)|]. by eexists _, _.
Qed.

(** ** A session *)

Lemma same_route_trans a b c : same_route a b → same_route b c → same_route a c.
Proof. intros [] []. constructor; congruence. Qed.

Definition request_type (signal_type : Z) : RequestType := if signal_type =? 0 then rt_key else rt_key_value.

Lemma spec_turn_same a b sig t v :
  same_route a b → ready a → turn_ok a sig t → spec_turn b v (sig, t) = spec_turn a v (sig, t).
Proof. intros Hr Ha []; [done|]. unfold spec_turn. by rewrite (taken_same a b). Qed.

(** A turn that can be served, on the signal [Wait] returns. *)
Lemma AgentWork_turn {P} `{!Fifo.Pipe P} (p p' : P) a b sig t ts :
  ready a → same_route a b → Shm.wf (para_memory_ b) → (sig ≠ 0 → kInt32Min ≤ epoch_num_ b < kInt32Max) →
  Fifo.Wait p = Some (sig, p') → turn_ok a sig t →
  ∃ b', AgentWork (t :: ts) p b = AgentWork ts p' b' ∧
    served b b' (request_type sig) (spec_turn a (view_of b) (sig, t)).
Proof.
  intros Ha Hr Hw He Hwait Ht. pose proof (same_route_ready _ _ Hr Ha) as Hb.
  assert (∃ b' rest, work_step sig (replies t) (b <| grad_memory_ := memory t |>) = Ok (b', Continue, rest) ∧
    served b b' (request_type sig) (spec_turn b (view_of b) (sig, t))) as (b' & rest & Hstep & Hserved).
  { pose proof (turn_ok_same _ _ _ _ Hr Ha Ht) as Htb. pose proof (rt_config _ _ Hr) as Hc.
    inversion Ht; subst; [destruct He; [done|]; by apply push_turn|by apply pull_turn]. }
  rewrite (spec_turn_same a b) in Hserved by done. exists b'. split; [|done].
  cbn [AgentWork]. rewrite Hwait. replace (update t) with (@None Message) by (by inversion Ht).
  rewrite Hstep. done.
Qed.

Lemma view_of_epoch a : v_epoch (view_of a) = epoch_num_ a.
Proof. done. Qed.

(** The pushes among the signals, each of which counts. *)
Definition pushes (sigs : list Z) : Z := zlen (filter (λ sig, sig ≠ 0) sigs).

Lemma pushes_nonneg sigs : 0 ≤ pushes sigs.
Proof. unfold pushes. lia. Qed.

Lemma spec_turn_epoch a v sig sigs t :
  v_epoch (spec_turn a v (sig, t)) + pushes sigs = v_epoch v + pushes (sig :: sigs).
Proof.
  unfold spec_turn, pushes. rewrite filter_cons. destruct (Z.eqb_spec sig 0), (decide (sig ≠ 0)); cbn [v_epoch length]; lia.
Qed.

(** [b] was reached from [a] by serving the signals: every request they cause
    is for a server, in the order of the signals. *)
Record served_all a b (sigs : list Z) (v : view) : Prop := mkservedall {
  sa_route : same_route a b;
  sa_memory : Shm.wf (para_memory_ b);
  sa_view : view_of b = v;
  sa_sent : ∃ outs, outbox (sender_ b) = outbox (sender_ a) ++ concat outs ∧
    Forall2 (λ sig out, Forall (request_of a (request_type sig)) out) sigs outs;
}.

Lemma served_all_snoc a b c sigs sig v v' :
  served_all a b sigs v → served b c (request_type sig) v' → served_all a c (sigs ++ [sig]) v'.
Proof.
  intros [Hr _ _ (outs & Ho & Hall)] [Hr' Hm Hv (out & Ho' & Hreq)].
  constructor; [by eapply same_route_trans|done|done|]. exists (outs ++ [out]).
  rewrite concat_app, app_assoc, <- Ho. cbn. rewrite app_nil_r. split; [done|].
  apply Forall2_app; [done|]. repeat constructor. eapply Forall_impl; [exact Hreq|].
  intros dm. by apply request_of_same.
Qed.

(** Requests that can be served are served one by one, whatever comes after. *)
Lemma AgentWork_serves {P} `{!Fifo.Pipe P} a sigs ts :
  ready a → reconfig_msg_ a = None → Shm.wf (para_memory_ a) →
  kInt32Min ≤ epoch_num_ a → epoch_num_ a + pushes sigs ≤ kInt32Max →
  Forall2 (turn_ok a) sigs ts → ∀ (p p' : P) rest,
  Fifo.Waits (length sigs) p = Some (sigs, p') →
  ∃ b, AgentWork (ts ++ rest) p a = AgentWork rest p' b ∧
    served_all a b sigs (foldl (spec_turn a) (view_of a) (zip sigs ts)).
Proof.
  intros Ha Hc Hm He1 He2 Hts.
  enough (∀ done b (p p' : P) rest v, served_all a b done v → kInt32Min ≤ v_epoch v →
    v_epoch v + pushes sigs ≤ kInt32Max → Fifo.Waits (length sigs) p = Some (sigs, p') →
    ∃ c, AgentWork (ts ++ rest) p b = AgentWork rest p' c ∧
      served_all a c (done ++ sigs) (foldl (spec_turn a) v (zip sigs ts))) as Hloop.
  { intros p p' rest Hp. apply (Hloop [] a p p' rest); [|done|done|done].
    constructor; [by constructor|done|done|]. exists []. by rewrite app_nil_r. }
  clear He1 He2. induction Hts as [|sig t sigs ts Ht Hts IH]; intros pre b p p' rest v Hb He1 He2 Hp.
  { inversion Hp; subst. exists b. by rewrite app_nil_r. }
  cbn in Hp. destruct (Fifo.Wait p) as [[sig' p1]|] eqn:Hw; [|done].
  destruct (Fifo.Waits (length sigs) p1) as [[sigs' p2]|] eqn:Hws; [|done].
  apply (inj Some) in Hp as [= -> -> ->].
  destruct Hb as [Hr Hmb Hv Hs]. pose proof (spec_turn_epoch a v sig sigs t) as Hep.
  pose proof (pushes_nonneg sigs).
  destruct (AgentWork_turn p p1 a b sig t (ts ++ rest)) as (b1 & Hrun & Hb1); try done.
  { intros Hne. rewrite <- view_of_epoch, Hv. unfold spec_turn in Hep.
    destruct (Z.eqb_spec sig 0); [done|]. cbn [v_epoch] in Hep. lia. }
  rewrite Hv in Hb1. assert (v_epoch v ≤ v_epoch (spec_turn a v (sig, t)))
    by (unfold spec_turn; destruct (sig =? 0); cbn; lia).
  destruct (IH (pre ++ [sig]) b1 p1 p' rest (spec_turn a v (sig, t))) as (c & Hc' & Hsc); [|lia|lia|done|].
  - eapply served_all_snoc; [by constructor|done].
  - exists c. cbn [app]. rewrite Hrun, <- app_assoc in *. done.
Qed.

Lemma turn_ok_signal a sig t : turn_ok a sig t → int32 sig.
Proof. by destruct 1. Qed.

(** C13: a worker's session. From a pipe that holds requests that can be served
    and then a signal to quit, the agent serves all of them in order and
    terminates: the worker's signals, memory and epoch are those of the
    specification [spec_turn], every pull sends requests for keys only and
    every push requests with values only, all to servers of the partition, and
    the last message tells the master that the agent terminates. *)
Theorem AgentWork_session {P} `{!Fifo.Pipe P, !Fifo.PipeLaws P} (p : P) a sigs ts quit last rest
    (Hready : ready a) (Hconfig : reconfig_msg_ a = None) (Hmem : Shm.wf (para_memory_ a))
    (Hepoch : 0 ≤ epoch_num_ a ∧ epoch_num_ a + pushes sigs ≤ kInt32Max)
    (Hts : Forall2 (turn_ok a) sigs ts)
    (Hquit : int32 quit ∧ quit ≠ 0 ∧ quit ≠ 1) (Hlast : update last = None)
    (Hpipe : Fifo.pipe_bytes p = Fifo.signal_bytes (sigs ++ [quit])) :
  ∃ b p' outs, AgentWork (ts ++ last :: rest) p a = Ok (b, p', Terminated) ∧ Fifo.pipe_bytes p' = [] ∧
    view_of b = foldl (spec_turn a) (view_of a) (zip sigs ts) ∧
    Forall2 (λ sig out, Forall (request_of a (request_type sig)) out) sigs outs ∧
    outbox (sender_ b) = outbox (sender_ a) ++ concat outs ++ [(0, terminate_message (local_id_ a))].
Proof.
  destruct Hquit as (Hq & Hq0 & Hq1), Hepoch as [He1 He2].
  assert (Forall int32 sigs) as Hsigs
    by (eapply Forall2_Forall_l; [exact Hts|]; apply Forall_forall; intros t _ sig; apply turn_ok_signal).
  destruct (Fifo.Waits_signals sigs [quit] p Hsigs Hpipe) as (p1 & Hwaits & Hp1 & _).
  destruct (Fifo.Wait_signal quit [] p1 Hq Hp1) as (p2 & Hwait & Hp2 & _).
  assert (kInt32Min ≤ epoch_num_ a) as He0 by (unfold kInt32Min, kInt32Max in *; lia).
  destruct (AgentWork_serves a sigs ts Hready Hconfig Hmem He0 He2 Hts p p1 (last :: rest) Hwaits)
    as (b & Hrun & [Hr _ Hv (outs & Hout & Hreqs)]).
  exists (send 0 (terminate_message (local_id_ b)) (b <| grad_memory_ := memory last |>)), p2, outs.
  split_and!; [|exact Hp2|exact Hv|exact Hreqs|].
  - rewrite Hrun. cbn [AgentWork]. rewrite Hwait, Hlast. unfold work_step.
    change (reconfig_msg_ (b <| grad_memory_ := memory last |>)) with (reconfig_msg_ b).
    rewrite (rt_config _ _ Hr). cbn [mbind res_bind mret res_ret].
    destruct (Z.eqb_spec quit 0), (Z.eqb_spec quit 1); try done.
  - cbn. rewrite Send_outbox, Hout, (rt_local _ _ Hr), <- app_assoc. done.
Qed.

End session.

(** ** Witnesses

    Agent 3 of the two-server cluster serves a pull of four keys and a push,
    and then the signal to quit. *)

Definition pull_turn_3 : turn := mkTurn (shm_of [9; 4; 1; 3] []) None test_replies.
Definition push_turn_3 : turn := mkTurn (shm_of [7; 3; 1; 4] (f_of_int <$> [70; 30; 10; 40])) None [].
Definition quit_turn_3 : turn := mkTurn (shm_of [] []) None [].

Lemma memory_3 t : t ∈ [pull_turn_3; push_turn_3] → memory_ok test_agent (memory t).
Proof.
  rewrite !elem_of_cons. intros [->|[->|Ht]]; [..|by apply elem_of_nil in Ht];
    (constructor; [by constructor|by vm_compute|]; apply (bool_decide_unpack _); by vm_compute).
Qed.

Lemma asked_3 : asked test_agent (memory pull_turn_3) = {[ 1; 2 ]}.
Proof. apply (bool_decide_unpack _). by vm_compute. Qed.

Lemma pull_turn_3_ok : turn_ok test_agent 0 pull_turn_3.
Proof.
  constructor; [done|apply memory_3; left|apply (bool_decide_unpack _); by vm_compute|by vm_compute|].
  rewrite asked_3. intros x. rewrite elem_of_union, !elem_of_singleton. intros [-> | ->].
  - exists (reply_from 1 [3; 4]). split; [do 4 right; left|split; [|done]; split_and!; solve [by vm_compute | by eexists]].
  - exists (reply_from 2 [1]). split; [right; left|split; [|done]; split_and!; solve [by vm_compute | by eexists]].
Qed.

Lemma push_turn_3_ok : turn_ok test_agent 1 push_turn_3.
Proof. constructor; [done|]. apply memory_3. right. left. Qed.

Lemma test_agent_memory : Shm.wf (para_memory_ test_agent).
Proof. by constructor. Qed.

Example AgentWork_session_witness :
  ∃ b p' outs, AgentWork [pull_turn_3; push_turn_3; quit_turn_3]
      (Fifo.mkBuffer (Fifo.signal_bytes [0; 1; 2]) true) test_agent = Ok (b, p', Terminated) ∧
    Fifo.pipe_bytes p' = [] ∧
    view_of b = mkView [2] 1 [1; 3; 4] (f_of_int <$> [10; 30; 40]) ∧
    Forall2 (λ sig out, Forall (request_of test_agent (request_type sig)) out) [0; 1] outs ∧
    outbox (sender_ b) = outbox (sender_ test_agent) ++ concat outs ++ [(0, terminate_message 3)].
Proof.
  replace (mkView [2] 1 [1; 3; 4] (f_of_int <$> [10; 30; 40])) with
    (foldl (spec_turn test_agent) (view_of test_agent) (zip [0; 1] [pull_turn_3; push_turn_3])) by (by vm_compute).
  apply (AgentWork_session (Fifo.mkBuffer (Fifo.signal_bytes [0; 1; 2]) true) test_agent [0; 1]
    [pull_turn_3; push_turn_3] 2 quit_turn_3 []).
  - apply test_agent_ready.
  - by vm_compute.
  - apply test_agent_memory.
  - by vm_compute.
  - constructor; [apply pull_turn_3_ok|]. constructor; [apply push_turn_3_ok|constructor].
  - by vm_compute.
  - done.
  - done.
Defined.

