(* ===== verification/Worker.v ===== *)
(** * A worker and its agent (src/agent/agent.cc, [Agent::AgentWork]; src/channel/)

    The worker and the agent share one memory for requests and two pipes. The
    file runs them side by side: the worker as the samples of src/channel/
    drive the channel (arrays, signal, and for a pull the answer), the agent as
    the turns of [AgentWork], in every interleaving. *)

From S2P Require Import Prelude CppStd Decimal Partition Float32 Messages Communicator Channel Fifo Agent.
From S2P Require Import AgentSort Slices AgentPush AgentPull AgentProps AgentConfig AgentWork.
From stdpp Require Import relations options.

Local Open Scope Z_scope.

Import Agent.

(** ** The agent's side: one signal per pull *)

Section frame.
Set Default Proof Using "Type*".
Context {C : Type} `{Communicator C}.
Implicit Types a b : Agent C.

Definition keeps_fifo a b : Prop := para_fifo_ b = para_fifo_ a.

Lemma push_slice_fifo start a : ensures (push_slice start a) (λ r, keeps_fifo a r.2).
Proof.
  unfold push_slice. repeat (eapply ensures_bind; [apply ensures_true|]; intros ? _; repeat case_match). done.
Qed.

Lemma push_loop_fifo fuel size start a : ensures (push_loop fuel size start a) (keeps_fifo a).
Proof.
  revert start a. induction fuel as [|fuel IH]; intros start a; cbn; case_match; try done.
  eapply ensures_bind; [apply push_slice_fifo|]. intros [e b] Hb. eapply ensures_mono; [apply IH|].
  intros c Hc. unfold keeps_fifo in *. cbn in Hb. congruence.
Qed.

Lemma Push_fifo a : ensures (Push a) (λ r, keeps_fifo a r.1).
Proof.
  unfold Push. eapply ensures_bind; [apply ensures_true|]. intros [ks vs] _.
  eapply ensures_bind; [apply push_loop_fifo|]. done.
Qed.

Lemma pull_slice_fifo start a : ensures (pull_slice start a) (λ r, keeps_fifo a r.2).
Proof.
  unfold pull_slice. repeat (eapply ensures_bind; [apply ensures_true|]; intros ? _; repeat case_match). done.
Qed.

Lemma pull_loop_fifo fuel size start S a : ensures (pull_loop fuel size start S a) (λ r, keeps_fifo a r.2).
Proof.
  revert start S a. induction fuel as [|fuel IH]; intros start S a; cbn; case_match; try done.
  eapply ensures_bind; [apply pull_slice_fifo|]. intros [[e x] b] Hb. eapply ensures_mono; [apply IH|].
  intros c Hc. unfold keeps_fifo in *. cbn in Hb. congruence.
Qed.

Lemma Pull_fifo msgs a : ensures (Pull msgs a) (λ r, keeps_fifo a r.1.1).
Proof.
  unfold Pull, pull_requests. eapply (ensures_bind _ _ (λ r, keeps_fifo a r.2)).
  { eapply ensures_bind; [apply ensures_true|]. intros ks _. eapply ensures_mono; [apply pull_loop_fifo|done]. }
  intros [S b] Hb. eapply ensures_bind; [apply ensures_true|]. intros [[[S' cur] p] rest] _.
  case_match; exact Hb.
Qed.

Lemma Reconfigurate_fifo msg a : ensures (Reconfigurate msg a) (keeps_fifo a).
Proof.
  unfold Reconfigurate. cbv zeta.
  eapply ensures_bind; [apply (ensures_for (keeps_fifo a)); [done|]|].
  { intros i b _ Hb. eapply ensures_bind; [apply ensures_true|]. done. }
  intros b Hb. eapply ensures_bind; [apply (ensures_for (keeps_fifo a)); [exact Hb|]|].
  { intros i c _ Hc. eapply ensures_bind; [apply ensures_true|]. intros addr _. cbn. by case_match. }
  intros c Hc. repeat (eapply ensures_bind; [apply ensures_true|]; intros ? _; repeat case_match). exact Hc.
Qed.

(** The answers to a signal. *)
Definition answer (signal_type : Z) : list Z := if signal_type =? 0 then [2] else [].

Lemma work_step_fifo sig msgs a :
  ensures (work_step sig msgs a) (λ r, r.1.2 = Continue →
    (sig = 0 ∨ sig = 1) ∧ para_fifo_ r.1.1 = para_fifo_ a ++ answer sig).
Proof.
  unfold work_step, answer.
  eapply (ensures_bind _ _ (keeps_fifo a)).
  { destruct (reconfig_msg_ a); [apply Reconfigurate_fifo|done]. }
  intros b Hb. destruct (Z.eqb_spec sig 0) as [->|].
  - eapply ensures_bind; [apply Pull_fifo|]. intros [[c done'] rest] Hc. unfold keeps_fifo in *. cbn in Hc.
    destruct done'; cbn; [|done]. intros _. split; [by left|]. congruence.
  - destruct (Z.eqb_spec sig 1) as [->|]; [|done].
    eapply ensures_bind; [apply Push_fifo|]. intros [c ok] Hc. unfold keeps_fifo in *. cbn in Hc.
    eapply ensures_bind; [apply ensures_true|]. intros epoch _. cbn. intros _. split; [by right|].
    rewrite app_nil_r. congruence.
Qed.
End frame.

(** ** The worker's side *)

(** What a worker does: it writes its arrays to the shared memory, signals,
    and waits for the answer to a pull. *)
Inductive op := Store (m : Shm.shmstruct) | Notify (signal_type : Z) | Await.

Definition request_ops (r : Z * Shm.shmstruct) : list op :=
  Store r.2 :: Notify r.1 :: (if r.1 =? 0 then [Await] else []).
Definition script (reqs : list (Z * Shm.shmstruct)) : list op := reqs ≫= request_ops.

Section system.
Context {C P : Type} `{Communicator C} `{Fifo.Pipe P}.

Record state := mkState {
  agent : Agent C;
  (** The pipe and the memory for requests. *)
  grad_fifo : P;
  shared : Shm.shmstruct;
  (** What the worker has left to do, and the answers it has had. *)
  todo : list op;
  answers : nat;
  (** The signals the agent has taken, with the arrays it read. *)
  log : list (Z * Shm.shmstruct);
}.
#[export] Instance state_eta : Eta state := λ s,
  mkState (agent s) (grad_fifo s) (shared s) (todo s) (answers s) (log s).

(** While the worker writes, the memory can hold anything. *)
Inductive step : state → state → Prop :=
| store_part s m ops torn :
    todo s = Store m :: ops → step s (s <| shared := torn |>)
| store s m ops :
    todo s = Store m :: ops → step s (s <| shared := m |> <| todo := ops |>)
| notify s sig ops :
    todo s = Notify sig :: ops →
    step s (s <| grad_fifo := Fifo.Signal sig (grad_fifo s) |> <| todo := ops |>)
| await s ops :
    todo s = Await :: ops → (answers s < length (para_fifo_ (agent s)))%nat →
    step s (s <| answers := S (answers s) |> <| todo := ops |>)
| agent_turn s sig p msgs rest a :
    Fifo.Wait (grad_fifo s) = Some (sig, p) →
    work_step sig msgs ((agent s) <| grad_memory_ := shared s |>) = Ok (a, Continue, rest) →
    step s (s <| agent := a |> <| grad_fifo := p |> <| log := log s ++ [(sig, shared s)] |>).

Definition start (a : Agent C) (p : P) (m : Shm.shmstruct) (reqs : list (Z * Shm.shmstruct)) : state :=
  mkState a p m (script reqs) (length (para_fifo_ a)) [].

(** ** What the agent reads *)

(** A request as the agent took it: the arrays of a pull are the worker's. *)
Definition taken_as (r t : Z * Shm.shmstruct) : Prop := t.1 = r.1 ∧ (r.1 = 0 → t.2 = r.2).

Definition pushes_only (l : list (Z * Shm.shmstruct)) : Prop := Forall (λ r, r.1 = 1) l.

(** How far the worker is, when the requests [pending] are in the pipe and
    [rest] are to come. *)
Inductive phase : list (Z * Shm.shmstruct) → list (Z * Shm.shmstruct) → state → Prop :=
| idle pending rest s :
    pushes_only pending → todo s = script rest → answers s = length (para_fifo_ (agent s)) →
    phase pending rest s
| stored pending sig m rest s :
    pushes_only pending → todo s = Notify sig :: (if sig =? 0 then [Await] else []) ++ script rest →
    shared s = m → answers s = length (para_fifo_ (agent s)) →
    phase pending ((sig, m) :: rest) s
| asking pending m rest s :
    pushes_only pending → todo s = Await :: script rest → shared s = m →
    answers s = length (para_fifo_ (agent s)) → phase (pending ++ [(0, m)]) rest s
| answered rest s :
    todo s = Await :: script rest → S (answers s) = length (para_fifo_ (agent s)) → phase [] rest s.

Definition inv (reqs : list (Z * Shm.shmstruct)) (s : state) : Prop :=
  Fifo.pipe_writer (grad_fifo s) = true ∧
  ∃ done pending rest, reqs = done ++ pending ++ rest ∧ Forall2 taken_as done (log s) ∧
    Fifo.pipe_bytes (grad_fifo s) = Fifo.signal_bytes pending.*1 ∧ phase pending rest s.
End system.

Section proofs.
Set Default Proof Using "Type*".
Context {C P : Type} `{Communicator C} `{Fifo.PipeLaws P}.
Implicit Types s t : state (C := C) (P := P).

Definition known (reqs : list (Z * Shm.shmstruct)) : Prop := Forall (λ r, r.1 = 0 ∨ r.1 = 1) reqs.

Lemma signal_bytes_nil_inv l : Fifo.signal_bytes l = [] → l = [].
Proof. by destruct l. Qed.

Lemma signal_bytes_snoc l x : Fifo.signal_bytes (l ++ [x]) = Fifo.signal_bytes l ++ le_bytes 4 x.
Proof. unfold Fifo.signal_bytes. by rewrite bind_app, bind_singleton. Qed.

Lemma pushes_snoc pending m : pushes_only pending → pushes_only (pending ++ [(1, m)]).
Proof. intros Hp. apply Forall_app. by repeat constructor. Qed.

(** The head of the script tells the phase. *)
Lemma script_head rest : script rest = [] ∨ ∃ m ops, script rest = Store m :: ops.
Proof. destruct rest as [|r rest]; [by left|]. right. by eexists _, _. Qed.

(** The agent takes the oldest request, which is a push unless it is the pull
    the worker waits for. *)
Lemma phase_turn r pending rest s s' :
  phase (r :: pending) rest s → (r.1 = 0 ∨ r.1 = 1) →
  todo s' = todo s → shared s' = shared s → answers s' = answers s →
  para_fifo_ (agent s') = para_fifo_ (agent s) ++ answer r.1 →
  (r.1 = 0 → shared s = r.2) ∧ phase pending rest s'.
Proof.
  intros Hph Hr Ht Hsh Hans Hf.
  assert (r.1 = 1 → para_fifo_ (agent s') = para_fifo_ (agent s)) as Hf1.
  { intros Heq. rewrite Hf, Heq. apply app_nil_r. }
  inversion Hph as [? ? ? Hp Htodo Ha|? sig m rest' ? Hp Htodo Hm Ha|pending0 m ? ? Hp Htodo Hm Ha|]; subst.
  - apply Forall_cons in Hp as [Hr1 Hp]. split; [lia|]. specialize (Hf1 Hr1).
    constructor; [done|congruence..].
  - apply Forall_cons in Hp as [Hr1 Hp]. split; [lia|]. specialize (Hf1 Hr1). rewrite <- Hsh.
    constructor; [done|congruence..].
  - destruct pending0 as [|r0 pending0]; cbn in *; simplify_eq.
    + split; [done|]. constructor; [congruence|]. rewrite Hf, Hans, length_app, Ha. cbn. lia.
    + apply Forall_cons in Hp as [Hr1 Hp]. split; [lia|]. specialize (Hf1 Hr1). rewrite <- Hsh.
      constructor; [done|congruence..].
Qed.

Lemma inv_turn reqs s sig p msgs rest a :
  known reqs → inv reqs s → Fifo.Wait (grad_fifo s) = Some (sig, p) →
  work_step sig msgs ((agent s) <| grad_memory_ := shared s |>) = Ok (a, Continue, rest) →
  inv reqs (s <| agent := a |> <| grad_fifo := p |> <| log := log s ++ [(sig, shared s)] |>).
Proof.
  intros Hk (Hw & served & [|r pending] & later & -> & Hlog & Hb & Hph) Hwait Hstep.
  { rewrite (Fifo.Wait_blocks (grad_fifo s)) in Hwait by done. done. }
  assert (r.1 = 0 ∨ r.1 = 1) as Hr.
  { unfold known in Hk. rewrite !Forall_app, Forall_cons in Hk. by destruct Hk as (_ & [? _] & _). }
  destruct (Fifo.Wait_signal r.1 pending.*1 (grad_fifo s)) as (p' & Hwait' & Hb' & Hw');
    [unfold kInt32Min, kInt32Max; lia|done|].
  rewrite Hwait' in Hwait. apply (inj Some) in Hwait as [= <- <-].
  pose proof (ensures_elim _ _ _ (work_step_fifo _ _ _) Hstep eq_refl) as [_ Hf]. cbn in Hf.
  set (s' := s <| agent := a |> <| grad_fifo := p' |> <| log := log s ++ [(r.1, shared s)] |>).
  destruct (phase_turn r pending later s s' Hph Hr eq_refl eq_refl eq_refl Hf) as [Hsame Hph'].
  split; [cbn; congruence|]. exists (served ++ [r]), pending, later. split_and!; [by rewrite <- app_assoc| |done|done].
  apply Forall2_app; [done|]. repeat constructor. exact Hsame.
Qed.

Lemma inv_step reqs s s' : known reqs → inv reqs s → step s s' → inv reqs s'.
Proof.
  intros Hk Hinv Hst. destruct Hst as [s m ops torn Htodo|s m ops Htodo|s sig ops Htodo|s ops Htodo Hans|s sig p msgs rest a Hwait Hstep].
  5: by eapply inv_turn.
  all: destruct Hinv as (Hw & served & pending & later & -> & Hlog & Hb & Hph).
  - split; [done|]. exists served, pending, later. split_and!; try done.
    inversion Hph; subst; try congruence. by constructor.
  - split; [done|]. exists served, pending, later. split_and!; try done.
    inversion Hph as [? ? ? Hp Ht Ha| | |]; subst; try congruence.
    destruct later as [|[sig m'] later]; [cbn in Ht; congruence|]. rewrite Ht in Htodo. cbn in Htodo. simplify_eq.
    by constructor.
  - unfold known in Hk. rewrite !Forall_app in Hk. destruct Hk as (_ & _ & Hk).
    inversion Hph as [? ? ? Hp Ht Ha|? sig' m later' ? Hp Ht Hm Ha| |]; subst; try congruence.
    { destruct (script_head later) as [Hs|(? & ? & Hs)]; congruence. }
    rewrite Ht in Htodo. simplify_eq. apply Forall_cons in Hk as [Hsig _]. cbn in Hsig.
    split; [cbn; unfold Fifo.Signal; by rewrite Fifo.write_writer|].
    exists served, (pending ++ [(sig, shared s)]), later'. split_and!; [by rewrite <- app_assoc|done| |].
    + rewrite fmap_app. change ([(sig, shared s)].*1) with [sig]. rewrite signal_bytes_snoc, <- Hb. apply Fifo.Signal_bytes.
    + destruct Hsig as [-> | ->]; cbn; [by constructor|]. constructor; [by apply pushes_snoc|done|done].
  - split; [done|]. exists served, pending, later. split_and!; try done.
    inversion Hph as [? ? ? Hp Ht Ha|? sig' m later' ? Hp Ht Hm Ha|? m ? ? Hp Ht Hm Ha|? ? Ht Ha]; subst; try congruence.
    + destruct (script_head later) as [Hs|(? & ? & Hs)]; congruence.
    + lia.
    + constructor; [constructor|cbn; congruence|cbn; lia].
Qed.

Lemma inv_start reqs (a : Agent C) (p : P) m :
  Fifo.pipe_bytes p = [] → Fifo.pipe_writer p = true → inv reqs (start a p m reqs).
Proof. intros Hb Hw. split; [done|]. exists [], [], reqs. split_and!; [done|constructor|done|]. by apply idle; [constructor|..]. Qed.

(** C15: a pull is answered for the keys the worker asked for. In every
    interleaving of a worker and its agent, the agent takes the requests in the
    order they were made, and when it takes a pull it reads exactly the arrays
    the worker wrote for it: the worker waits for the answer before it writes
    again. *)
Theorem worker_requests reqs (a : Agent C) (p : P) m s
    (Hknown : known reqs) (Hpipe : Fifo.pipe_bytes p = [] ∧ Fifo.pipe_writer p = true)
    (Hs : rtc step (start a p m reqs) s) :
  Forall2 taken_as (take (length (log s)) reqs) (log s).
Proof.
  destruct Hpipe as [Hb Hw]. pose proof (inv_start reqs a p m Hb Hw) as Hinv.
  revert Hinv. induction Hs as [s|s1 s2 s3 Hst _ IH]; intros Hinv; [|by eapply IH, inv_step].
  destruct Hinv as (_ & served & pending & later & -> & Hlog & _ & _).
  rewrite <- (Forall2_length _ _ _ Hlog), take_app_length. exact Hlog.
Qed.

(** A push has no answer, and the worker goes on to its next pull in the same
    memory: the agent can read the arrays of the pull as gradients. The
    gradients [g] are then lost. *)
Theorem push_overtaken (a b : Agent C) (p : P) m g k msgs rest
    (Hpipe : Fifo.pipe_bytes p = [] ∧ Fifo.pipe_writer p = true)
    (Hpush : work_step 1 msgs (a <| grad_memory_ := k |>) = Ok (b, Continue, rest)) :
  ∃ s, rtc step (start a p m [(1, g); (0, k)]) s ∧ log s = [(1, k)] ∧ agent s = b.
Proof.
  destruct Hpipe as [Hb Hw].
  destruct (Fifo.Wait_signal 1 [] (Fifo.Signal 1 p)) as (p' & Hwait & _); [by vm_compute| |].
  { by rewrite Fifo.Signal_bytes, Hb. }
  eexists. split; [|split].
  - eapply rtc_l; [by eapply store|]. eapply rtc_l; [by eapply notify|]. eapply rtc_l; [by eapply store|].
    eapply rtc_l; [|apply rtc_refl]. eapply agent_turn; [exact Hwait|exact Hpush].
  - done.
  - done.
Qed.
End proofs.

(** ** Witnesses *)

(** Agent 3 has taken the push of the session of [AgentWork_session_witness],
    made before the pull. *)
Definition session_3 : list (Z * Shm.shmstruct) := [(1, memory push_turn_3); (0, memory pull_turn_3)].
Definition asked_3 : state (C := Trace) (P := Fifo.Buffer) :=
  mkState test_agent (Fifo.mkBuffer (Fifo.signal_bytes [1]) true) (memory push_turn_3)
    (script [(0, memory pull_turn_3)]) 0 [].
Definition pushed_3 : state (C := Trace) (P := Fifo.Buffer) :=
  match work_step 1 [] (test_agent <| grad_memory_ := memory push_turn_3 |>) with
  | Ok (b, _, _) => asked_3 <| agent := b |> <| grad_fifo := Fifo.mkBuffer [] true |> <| log := [(1, memory push_turn_3)] |>
  | Fault _ => asked_3
  end.

Lemma asked_3_reachable : rtc step (start test_agent (Fifo.mkBuffer [] true) (shm_of [] []) session_3) asked_3.
Proof.
  eapply rtc_l; [by eapply store|]. eapply rtc_l; [by eapply notify|].
  match goal with |- rtc _ ?x _ => replace x with asked_3 by (by vm_compute) end. done.
Qed.

Lemma pushed_3_reachable : rtc step (start test_agent (Fifo.mkBuffer [] true) (shm_of [] []) session_3) pushed_3.
Proof.
  destruct (work_step 1 [] (test_agent <| grad_memory_ := memory push_turn_3 |>)) as [[[b st] rest]|] eqn:E; [|by vm_compute in E].
  assert (st = Continue) as -> by (vm_compute in E; congruence).
  eapply rtc_r; [apply asked_3_reachable|]. unfold pushed_3. rewrite E.
  apply (agent_turn asked_3 1 (Fifo.mkBuffer [] true) [] rest b); [by vm_compute|exact E].
Qed.

Example worker_requests_witness : Forall2 taken_as [(1, memory push_turn_3)] [(1, memory push_turn_3)].
Proof.
  replace [(1, memory push_turn_3)] with (take (length (log pushed_3)) session_3) at 1 by (by vm_compute).
  replace [(1, memory push_turn_3)] with (log pushed_3) at 1 by (by vm_compute).
  apply (worker_requests session_3 test_agent (Fifo.mkBuffer [] true) (shm_of [] []) pushed_3).
  - repeat constructor; cbn; lia.
  - done.
  - apply pushed_3_reachable.
Defined.
