(* ===== verification/Server.v ===== *)
(** * The parameter server (src/server/server.h, src/server/server.cc)

    The state of [Server] and its handlers: initialisation from the master's
    configuration, push, pull, update, reply to blocked pulls, backup and
    reconfiguration. Lemmas are in ServerMerge.v,
    ServerInv.v, ServerRound.v, ServerPush.v, ServerPull.v, ServerInit.v and
    ServerReconf.v, theorems in ServerProps.v, ServerHistory.v, ServerReconfProps.v
    and ServerFaults.v. *)

From S2P Require Import Prelude CppStd Float32 Messages Communicator KeyValueList.
From stdpp Require Import options.

Module Server.

Section server.
Context {C : Type} `{Communicator C}.

(** ** State *)

Record Server := mkServer {
  sender_ : C;
  local_address_ : string;
  local_index_ : Z;
  local_id_ : Z;
  start_key_ : Z;
  parameter_length_ : Z;
  consistency_bound_ : Z;
  bottom_version_ : Z;
  agent_num_ : Z;
  server_num_ : Z;
  key_range_ : Z;
  backup_size_ : Z;
  master_ids_ : list Z;
  server_ids_ : list Z;
  servers_ : gmap Z Z;
  agent_ids_ : gset Z;
  parameters_ : list float32;
  backup_parameters_ : list (list float32);
  version_buffer_ : list (list KeyValueList.t);
  finish_count_ : list Z;
  pull_request_ : list PullInfo.t;
  id_to_index_ : gmap Z Z;
}.
#[export] Instance Server_eta : Eta Server := λ s,
  mkServer (sender_ s) (local_address_ s) (local_index_ s) (local_id_ s) (start_key_ s)
    (parameter_length_ s) (consistency_bound_ s) (bottom_version_ s) (agent_num_ s)
    (server_num_ s) (key_range_ s) (backup_size_ s) (master_ids_ s) (server_ids_ s)
    (servers_ s) (agent_ids_ s) (parameters_ s) (backup_parameters_ s) (version_buffer_ s)
    (finish_count_ s) (pull_request_ s) (id_to_index_ s).

(** [new Server], with an initialised communicator; the integer fields have no
    initial value in the program and are not read before they are set. *)
Definition new_server (c : C) : Server :=
  mkServer c EmptyString 0 0 0 0 0 0 0 0 0 0 [] [] ∅ ∅ [] [] [] [] [] ∅.

(** [if (sender_->Send(id, str) == -1) LOG(ERROR)]: the result only selects a log line. *)
Definition send (dst : Z) (m : Message) (s : Server) : Server :=
  s <| sender_ ::= λ c, (Send dst m c).2 |>.

(** [std::vector<float>(n)] with an [int32] size: a negative one converts to
    a huge [size_t], for which the constructor throws. *)
Definition float_vector (n : Z) : res (list float32) :=
  if n <? 0 then Fault Thrown else Ok (replicate (Z.to_nat n) f0).

(** [(partition(j) - partition(i) + key_range) % key_range] *)
Definition arc_length (config : ConfigMessage) (i j key_range : Z) : res Z :=
  b ← proto_get (partition config) j;
  a ← proto_get (partition config) i;
  ring_sub b a key_range.

Definition next_index (i n : Z) : res Z := j ← add32 i 1; rem32 j n.

(** ** Initialisation *)

Definition register_message (ip : string) (server_port : Z) : Message :=
  mkMessage (-1) 0 mt_register None None None (Some (mkRegister ip server_port true)).

(** One turn of the loop over the servers of the configuration; [found] is
    [found_local]. *)
Definition init_server_id (config : ConfigMessage) (i : Z) (st : Server * bool) : res (Server * bool) :=
  let '(s, found) := st in
  server_i_id ← proto_get (server_id config) i;
  let s := s <| server_ids_ ::= λ l, l ++ [server_i_id] |>
             <| servers_ ::= map_insert_new server_i_id i |> in
  if server_i_id =? local_id_ s then
    start ← proto_get (partition config) i;
    j ← next_index i (server_num_ s);
    p ← proto_get (partition config) j;
    len ← ring_sub p start (key_range_ s);
    let s := s <| local_index_ := i |> <| start_key_ := start |> <| parameter_length_ := len |> in
    s ← for_ 1 (backup_size_ s + 1) (λ j s,
      target ← ring_sub i j (server_num_ s);
      t1 ← next_index target (server_num_ s);
      len ← arc_length config target t1 (key_range_ s);
      v ← float_vector len;
      mret (s <| backup_parameters_ ::= λ l, l ++ [v] |>)) s;
    mret (s, true)
  else mret (s, found).

(** The part of [Initialize] that follows the reception of the configuration. *)
Definition configure (msg_recv : Message) (s : Server) : res (Server * bool) :=
  let config := config_msg msg_recv in
  let s := s <| local_id_ := recv_id msg_recv |> <| bottom_version_ := 0 |>
             <| consistency_bound_ := bound config |> <| agent_num_ := worker_num config |>
             <| server_num_ := server_num config |> in
  s ← for_ 1 (zlen (node_ip_port config)) (λ i s,
    a ← proto_get (node_ip_port config) i;
    mret (s <| sender_ ::= λ c, (AddIdAddr i a c).2 |>)) s;
  let s := s <| backup_size_ := backup_size config |> in
  if (backup_size_ s <? 0) || (server_num_ s <=? backup_size_ s) then mret (s, false)
  else
    let s := s <| key_range_ := key_range config |> in
    '(s, found) ← for_ 0 (server_num_ s) (init_server_id config) (s, false);
    if negb found then mret (s, false)
    else
      s ← for_ 0 (zlen (worker_id config)) (λ i s,
        w ← proto_get (worker_id config) i;
        mret (s <| agent_ids_ ::= λ a, {[ w ]} ∪ a |>)) s;
      s ← for_ 0 (zlen (master_id config)) (λ i s,
        m ← proto_get (master_id config) i;
        mret (s <| master_ids_ ::= λ l, l ++ [m] |>)) s;
      s ← for_ 0 (agent_num_ s) (λ i s,
        w ← proto_get (worker_id config) i;
        mret (s <| id_to_index_ ::= <[ w := i ]> |>)) s;
      let s := s <| parameters_ ::= λ l, l ++ replicate (Z.to_nat (parameter_length_ s)) f0 |> in
      let s := s <| finish_count_ ::= λ l, l ++ replicate (Z.to_nat (consistency_bound_ s)) 0 |> in
      let s := s <| version_buffer_ ::= λ l, l ++ replicate (Z.to_nat (agent_num_ s)) [] |> in
      mret (s, true).

(** [Initialize]: [ip] is what [GetIP] finds for the interface, [received] the
    master's answer ([None] when [Receive] returns -1). *)
Definition Initialize (master_ip_port ip : string) (server_port : Z) (received : option Message)
    (s : Server) : res (Server * bool) :=
  let s := s <| sender_ ::= λ c, (AddIdAddr 0 master_ip_port c).2 |> in
  if bool_decide (ip = EmptyString) then mret (s, false)
  else
    let s := s <| local_address_ := ip |> in
    let '(sent, c) := Send 0 (register_message ip server_port) (sender_ s) in
    let s := s <| sender_ := c |> in
    if sent =? -1 then mret (s, false)
    else
      match received with
      | None => mret (s, false)
      | Some msg_recv => configure msg_recv s
      end.

(** ** Replies *)

Definition reply_message (local id : Z) (r : RequestMessage) : Message :=
  mkMessage local id mt_request None (Some r) None None.

(** One turn of [RespondToAll]: the reply to the request popped. *)
Definition respond_one (request : PullInfo.t) (s : Server) : res Server :=
  '(ks, vs) ← for_ 0 (PullInfo.Length request) (λ i '(ks, vs),
    k ← PullInfo.Key request i;
    index ← sub32 k (start_key_ s);
    v ← vec_get (parameters_ s) index;
    mret (ks ++ [k], vs ++ [v])) ([], []);
  let id := PullInfo.get_id request in
  mret (send id (reply_message (local_id_ s) id (mkRequest rt_key_value ks vs)) s).

(** [while (pull_request_.empty() == false)]: [q] is the queue at the loop head. *)
Fixpoint respond_loop (q : list PullInfo.t) (s : Server) : res Server :=
  match q with
  | [] => mret s
  | request :: q' =>
      s ← respond_one request (s <| pull_request_ := q' |>);
      respond_loop q' s
  end.

Definition RespondToAll (s : Server) : res Server := respond_loop (pull_request_ s) s.

(** ** Update *)

(** [update[update_i.Key(j) - start_key_] += update_i.Value(j)], for all [j]. *)
Definition merge_update (start : Z) (u : KeyValueList.t) (update : list float32) : res (list float32) :=
  for_ 0 (KeyValueList.Length u) (λ j update,
    k ← KeyValueList.Key u j;
    v ← KeyValueList.Value u j;
    index ← sub32 k start;
    old ← vec_get update index;
    vec_set update index (fadd old v)) update.

(** The merge loop over the agents: takes the front of every buffer. *)
Definition merge_agents (s : Server) : res (Server * list float32) :=
  update ← float_vector (parameter_length_ s);
  for_ 0 (agent_num_ s) (λ i '(s, update),
    b ← vec_get (version_buffer_ s) i;
    match b with
    | [] => Fault EmptyAccess
    | update_i :: b' =>
        vb ← vec_set (version_buffer_ s) i b';
        update ← merge_update (start_key_ s) update_i update;
        mret (s <| version_buffer_ := vb |>, update)
    end) (s, update).

Definition UpdateParameter (s : Server) : res Server :=
  '(s, update) ← merge_agents s;
  params ← for_ 0 (parameter_length_ s) (λ i params,
    p ← vec_get params i;
    u ← vec_get update i;
    vec_set params i (fadd p (fdiv u (f_of_int (agent_num_ s))))) (parameters_ s);
  let s := s <| parameters_ := params |> in
  v ← add32 (bottom_version_ s) 1;
  mret (s <| bottom_version_ := v |>).

(** ** Backup *)

Definition RequestBackup (s : Server) : res Server :=
  for_ 1 (backup_size_ s + 1) (λ i s,
    target ← ring_sub (local_index_ s) i (server_num_ s);
    server_id ← vec_get (server_ids_ s) target;
    mret (send server_id (mkMessage (local_id_ s) server_id mt_request None None None None) s)) s.

Definition Backup (msg : Message) (s : Server) : res Server :=
  let server_id := send_id msg in
  let '(index, servers) := map_at 0 (servers_ s) server_id in
  let s := s <| servers_ := servers |> in
  i1 ← sub32 (local_index_ s) 1;
  server_index ← ring_sub i1 index (server_num_ s);
  let request := request_msg msg in
  b ← vec_get (backup_parameters_ s) server_index;
  let b := if zlen b =? zlen (values request) then b
           else replicate (length (values request)) f0 in
  b ← for_ 0 (zlen (values request)) (λ i b,
    v ← proto_get (values request) i; vec_set b i v) b;
  bp ← vec_set (backup_parameters_ s) server_index b;
  mret (s <| backup_parameters_ := bp |>).

Definition RespondBackup (server_id : Z) (s : Server) : res Server :=
  '(ks, vs) ← for_ 0 (parameter_length_ s) (λ i '(ks, vs),
    k ← add32 (start_key_ s) i;
    v ← vec_get (parameters_ s) i;
    mret (ks ++ [k], vs ++ [v])) ([], []);
  mret (send server_id (reply_message (local_id_ s) server_id (mkRequest rt_key_value ks vs)) s).

(** ** Push and pull *)

(** [version_buffer_[...].size() >= consistency_bound_]: the bound is
    converted to [size_t]. *)
Definition buffer_full (b : list KeyValueList.t) (s : Server) : bool :=
  to_size_t (consistency_bound_ s) <=? zlen b.

(** The update of one push request. *)
Definition worker_update (request : RequestMessage) : res KeyValueList.t :=
  for_ 0 (zlen (keys request)) (λ i u,
    k ← proto_get (keys request) i;
    v ← proto_get (values request) i;
    KeyValueList.AddPair k v u) KeyValueList.init.

(** The end of [ServePush]: a finished round is applied and announced. *)
Definition finish_round (s : Server) : res Server :=
  c0 ← vec_get (finish_count_ s) 0;
  if c0 =? agent_num_ s then
    let s := s <| finish_count_ ::= λ l, tail l ++ [0] |> in
    s ← UpdateParameter s;
    s ← RespondToAll s;
    RequestBackup s
  else mret s.

Definition ServePush (sender_id : Z) (request : RequestMessage) (s : Server) : res Server :=
  if bool_decide (sender_id ∉ agent_ids_ s) then mret s
  else
    let '(index, m) := map_at 0 (id_to_index_ s) sender_id in
    let s := s <| id_to_index_ := m |> in
    b ← vec_get (version_buffer_ s) index;
    s ← (if buffer_full b s then mret s
         else
           c ← vec_get (finish_count_ s) (zlen b);
           c' ← add32 c 1;
           fc ← vec_set (finish_count_ s) (zlen b) c';
           u ← worker_update request;
           vb ← vec_set (version_buffer_ s) index (b ++ [u]);
           mret (s <| finish_count_ := fc |> <| version_buffer_ := vb |>));
    finish_round s.

(** The request stored for an agent that is ahead of the others. *)
Definition blocked_request (sender_id : Z) (request : RequestMessage) : res PullInfo.t :=
  for_ 0 (zlen (keys request)) (λ i p,
    k ← proto_get (keys request) i;
    PullInfo.AddKey k p) (PullInfo.set_id sender_id PullInfo.init).

(** The index of a key in [parameters_], as [ServePull] computes it. *)
Definition pull_index (s : Server) (key : Z) : res Z :=
  index ← sub32 key (start_key_ s);
  if index <? 0 then add32 index (key_range_ s) else mret index.

Definition ServePull (sender_id : Z) (request : RequestMessage) (s : Server) : res Server :=
  match id_to_index_ s !! sender_id with
  | None => mret s
  | Some index =>
      b ← vec_get (version_buffer_ s) index;
      if buffer_full b s then
        p ← blocked_request sender_id request;
        mret (s <| pull_request_ ::= λ l, l ++ [p] |>)
      else
        '(ks, vs) ← for_ 0 (zlen (keys request)) (λ i '(ks, vs),
          k ← proto_get (keys request) i;
          index ← pull_index s k;
          v ← vec_get (parameters_ s) index;
          mret (ks ++ [k], vs ++ [v])) ([], []);
        mret (send sender_id (reply_message (local_id_ s) sender_id (mkRequest rt_key_value ks vs)) s)
  end.

(** ** Heartbeat: one turn of the loop of the heartbeat thread *)

(** [self] is the id the server had when the thread started. *)
Definition HeartBeat (self : Z) (recv_msg : Message) (s : Server) : Server :=
  send 0 (mkMessage self (send_id recv_msg) mt_heartbeat None None
            (Some (mkHeartbeat true 0)) None) s.

(** ** Reconfiguration *)

(** The loop of [ExtendParameter] over the backups, with its [break]. *)
Fixpoint extend_loop (indices : list Z) (s : Server) : res Server :=
  match indices with
  | [] => mret s
  | i :: indices' =>
      if zlen (parameters_ s) =? to_size_t (parameter_length_ s) then mret s
      else
        b ← vec_get (backup_parameters_ s) i;
        extend_loop indices' (s <| parameters_ ::= λ l, b ++ l |>)
  end.

Definition ExtendParameter (s : Server) : res Server := extend_loop (seqZ 0 (backup_size_ s)) s.

Definition reconfigure_server_id (config : ConfigMessage) (i : Z) (st : Server * bool) :
    res (Server * bool) :=
  let '(s, found) := st in
  server_i_id ← proto_get (server_id config) i;
  let s := s <| server_ids_ ::= λ l, l ++ [server_i_id] |>
             <| servers_ ::= map_insert_new server_i_id i |> in
  if server_i_id =? local_id_ s then
    start ← proto_get (partition config) i;
    j ← next_index i (server_num_ s);
    p ← proto_get (partition config) j;
    len ← ring_sub p start (key_range_ s);
    mret (s <| local_index_ := i |> <| start_key_ := start |> <| parameter_length_ := len |>, true)
  else mret (s, found).

(** An agent that left: its pending updates are taken out of the counts. *)
Definition remove_agent (id : Z) (s : Server) : res Server :=
  let '(index, m) := map_at 0 (id_to_index_ s) id in
  let s := s <| id_to_index_ := m |> in
  b ← vec_get (version_buffer_ s) index;
  fc ← for_ 0 (zlen b) (λ i fc, c ← vec_get fc i; c' ← sub32 c 1; vec_set fc i c') (finish_count_ s);
  vb ← vec_set (version_buffer_ s) index [];
  mret (s <| finish_count_ := fc |> <| version_buffer_ := vb |> <| id_to_index_ := delete id m |>).

(** The second half of [Reconfigure]: the agents of the new configuration. The
    index loop runs over the old number of agents. *)
Definition refresh_agents (config : ConfigMessage) (s : Server) : res Server :=
  s ← foldM (λ id s,
    if bool_decide (id ∈ worker_id config) then mret s else remove_agent id s)
    (elements (agent_ids_ s)) s;
  let s := s <| agent_ids_ := list_to_set (worker_id config) |> in
  s ← for_ 0 (agent_num_ s) (λ i s,
    w ← proto_get (worker_id config) i;
    mret (match id_to_index_ s !! w with
          | Some _ => s
          | None => s <| id_to_index_ ::= <[ w := wrap32 (zlen (version_buffer_ s)) ]> |>
                      <| version_buffer_ ::= λ l, l ++ [[]] |>
          end)) s;
  s ← ExtendParameter s;
  mret (s <| agent_num_ := worker_num config |>).

Definition Reconfigure (config : ConfigMessage) (s : Server) : res Server :=
  s ← RespondToAll s;
  let s := s <| server_num_ := server_num config |> <| key_range_ := key_range config |>
             <| server_ids_ := [] |> <| servers_ := ∅ |> in
  '(s, found) ← for_ 0 (server_num_ s) (reconfigure_server_id config) (s, false);
  if negb found then mret s
  else
    s ← for_ 0 (zlen (node_ip_port config)) (λ i s,
      a ← proto_get (node_ip_port config) i;
      mret (if CheckIdAddr i a (sender_ s) then s
            else s <| sender_ ::= λ c, (AddIdAddr i a (DeleteId i c).2).2 |>)) s;
    refresh_agents config (s <| master_ids_ := master_id config |>).

(** ** The main loop *)

(** One turn of the loop of [Start], on the message received. *)
Definition handle (msg : Message) (s : Server) : res Server :=
  if bool_decide (is_Some (servers_ s !! send_id msg)) then
    if has_request_msg msg then Backup msg s else RespondBackup (send_id msg) s
  else if bool_decide (message_type msg = mt_request) then
    let request := request_msg msg in
    match request_type request with
    | rt_key_value => ServePush (send_id msg) request s
    | rt_key => ServePull (send_id msg) request s
    | _ => mret s
    end
  else if bool_decide (message_type msg = mt_config) then Reconfigure (config_msg msg) s
  else mret s.

(** The messages a server receives, in order. *)
Definition Start (msgs : list Message) (s : Server) : res Server := foldM handle msgs s.

End server.
Arguments Server C : clear implicits.

End Server.
