(* ===== verification/ServerMerge.v ===== *)
(** * What an update of the server computes

    [vals key ps]: the values pushed for [key], in order. [merge_update] adds
    the values of one update list into the accumulator; [UpdateParameter]
    takes the oldest update of every agent, adds them up in agent order and
    applies the average. *)

From S2P Require Import Prelude CppStd Float32 Messages Communicator KeyValueList Server.
From stdpp Require Import options.

Import Server.

(** ** The values pushed for one key *)

Definition vals (key : Z) (ps : list (Z * float32)) : list float32 :=
  snd <$> filter (λ kv, kv.1 = key) ps.

Lemma vals_app key ps qs : vals key (ps ++ qs) = vals key ps ++ vals key qs.
Proof. unfold vals. by rewrite filter_app, fmap_app. Qed.

Lemma vals_single_eq key v : vals key [(key, v)] = [v].
Proof. unfold vals. by rewrite filter_cons_True. Qed.

Lemma vals_single_ne key k v : k ≠ key → vals key [(k, v)] = [].
Proof. intros. unfold vals. by rewrite filter_cons_False. Qed.

(** The keys of an update list all fall in the server's own segment, without
    wrapping around the key circle. *)
Definition in_segment (start len key : Z) : Prop := start ≤ key < start + len.

Definition update_ok (start len : Z) (u : KeyValueList.t) : Prop :=
  KeyValueList.wf u ∧ Forall (λ kv, in_segment start len kv.1) (KeyValueList.pairs u).

(** ** One update list *)

(** [acc'] is [acc] with the values of [ps] added key by key. *)
Definition accumulates (start : Z) (ps : list (Z * float32)) (acc acc' : list float32) : Prop :=
  length acc' = length acc ∧
  ∀ j x, acc !! j = Some x → acc' !! j = Some (fsum x (vals (start + Z.of_nat j) ps)).

Lemma accumulates_nil start acc : accumulates start [] acc acc.
Proof. by split. Qed.

Lemma accumulates_app start ps qs a b c :
  accumulates start ps a b → accumulates start qs b c → accumulates start (ps ++ qs) a c.
Proof.
  intros [Hl1 H1] [Hl2 H2]. split; [congruence|]. intros j x Hj.
  by rewrite vals_app, fsum_app, (H2 _ _ (H1 _ _ Hj)).
Qed.

Lemma accumulates_one start k v acc i old :
  start + Z.of_nat i = k → acc !! i = Some old →
  accumulates start [(k, v)] acc (<[ i := fadd old v ]> acc).
Proof.
  intros Hk Hi. split; [by rewrite length_insert|]. intros j x Hj.
  destruct (decide (j = i)) as [->|Hne].
  - simplify_eq. rewrite vals_single_eq, list_lookup_insert_eq by (by eapply lookup_lt_Some). done.
  - rewrite list_lookup_insert_ne, vals_single_ne by lia. done.
Qed.

Lemma merge_update_Ok start len u acc :
  update_ok start len u → zlen acc = len → int32_ok len →
  merge_update start u acc ⇓ accumulates start (KeyValueList.pairs u) acc.
Proof.
  intros [Hwf Hkeys] Hlen Hlen32. pose proof (KeyValueList.pairs_length u Hwf) as Hpl.
  unfold merge_update.
  apply (returns_mono _ (λ a, accumulates start
    (take (Z.to_nat (KeyValueList.Length u)) (KeyValueList.pairs u)) acc a)); last first.
  { intros a. by rewrite take_ge by lia. }
  apply (for_inv (λ j a, accumulates start (take (Z.to_nat j) (KeyValueList.pairs u)) acc a)).
  { lia. }
  { apply accumulates_nil. }
  intros j a Hj Hacc.
  destruct (lookup_lt_is_Some_2 (KeyValueList.pairs u) (Z.to_nat j)) as [[k v] Hkv]; [lia|].
  destruct (KeyValueList.Key_Value_pairs u j k v Hwf) as [-> ->]; [lia|done|]. simpl.
  assert (in_segment start len k) as Hseg by (rewrite Forall_lookup in Hkeys; by apply Hkeys in Hkv).
  unfold in_segment, kInt32Min in *. unfold sub32.
  rewrite i32_Ok by (unfold kInt32Min; lia). simpl.
  destruct Hacc as [Hla Hacc].
  destruct (vec_get_lt a (k - start)) as (old & -> & Hold); [lia|]. simpl.
  rewrite vec_set_Ok by lia. simpl.
  replace (Z.to_nat (j + 1)) with (S (Z.to_nat j)) by lia.
  rewrite (take_S_r _ _ (k, v)) by done.
  eapply accumulates_app; [by split|]. apply accumulates_one; [lia|done].
Qed.

(** ** The merge over the agents *)

Section merge.
Context {C : Type} `{Communicator C}.
Implicit Types s : Server C.

(** The oldest update of every agent, and what is left. *)
Definition heads (vb : list (list KeyValueList.t)) : list KeyValueList.t := omap head vb.

Lemma heads_app vb1 vb2 : heads (vb1 ++ vb2) = heads vb1 ++ heads vb2.
Proof. apply omap_app. Qed.

Definition all_pairs (us : list KeyValueList.t) : list (Z * float32) := us ≫= KeyValueList.pairs.

Lemma all_pairs_app us vs : all_pairs (us ++ vs) = all_pairs us ++ all_pairs vs.
Proof. apply bind_app. Qed.

(** What [UpdateParameter] needs of the buffers. *)
Record mergeable s : Prop := mkmergeable {
  mg_len : 0 ≤ parameter_length_ s ≤ kInt32Max;
  mg_agents : 0 ≤ agent_num_ s ≤ zlen (version_buffer_ s);
  mg_ready : Forall (λ b, b ≠ []) (take (Z.to_nat (agent_num_ s)) (version_buffer_ s));
  mg_updates : Forall (Forall (update_ok (start_key_ s) (parameter_length_ s))) (version_buffer_ s);
}.

(** The buffers after one round: the fronts of the first [n] are gone. *)
Definition pop_front (n : nat) (vb : list (list KeyValueList.t)) : list (list KeyValueList.t) :=
  (tail <$> take n vb) ++ drop n vb.

Lemma pop_front_step n vb b :
  vb !! n = Some b → <[ n := tail b ]> (pop_front n vb) = pop_front (S n) vb.
Proof.
  intros Hn. unfold pop_front. pose proof (lookup_lt_Some _ _ _ Hn).
  rewrite insert_app_r_alt; rewrite length_fmap, length_take; [|lia].
  replace (n - n `min` length vb)%nat with 0%nat by lia.
  rewrite (drop_S _ b) by done. simpl.
  rewrite (take_S_r _ _ b), fmap_app, <- app_assoc by done. done.
Qed.

Lemma pop_front_lookup n vb : pop_front n vb !! n = vb !! n.
Proof.
  unfold pop_front. destruct (decide (n < length vb)%nat) as [Hlt|Hge].
  - rewrite lookup_app_r; rewrite length_fmap, length_take; [|lia].
    rewrite lookup_drop. f_equal. lia.
  - rewrite !lookup_ge_None_2; [done|lia|].
    rewrite length_app, length_fmap, length_take, length_drop. lia.
Qed.

Lemma merge_agents_Ok s :
  mergeable s →
  merge_agents s ⇓ λ '(s', update),
    s' = s <| version_buffer_ := pop_front (Z.to_nat (agent_num_ s)) (version_buffer_ s) |> ∧
    accumulates (start_key_ s)
      (all_pairs (heads (take (Z.to_nat (agent_num_ s)) (version_buffer_ s))))
      (replicate (Z.to_nat (parameter_length_ s)) f0) update.
Proof.
  intros [Hlen Hn Hready Hupd]. unfold merge_agents, float_vector.
  destruct (Z.ltb_spec (parameter_length_ s) 0); [lia|]. cbn [mbind res_bind].
  set (acc0 := replicate _ f0).
  assert (zlen acc0 = parameter_length_ s) as Hacc0 by (unfold acc0; rewrite length_replicate; lia).
  eapply (for_inv (λ i '(s', update),
    s' = s <| version_buffer_ := pop_front (Z.to_nat i) (version_buffer_ s) |> ∧
    accumulates (start_key_ s) (all_pairs (heads (take (Z.to_nat i) (version_buffer_ s)))) acc0 update)).
  { lia. }
  { split; [by destruct s|apply accumulates_nil]. }
  intros i [s' update] Hi [-> Hacc]. cbn.
  destruct (lookup_lt_is_Some_2 (version_buffer_ s) (Z.to_nat i)) as [b Hb]; [lia|].
  rewrite (vec_get_Ok _ i b) by (rewrite ?pop_front_lookup; first [lia | done]). cbn.
  destruct b as [|u b'].
  { exfalso. rewrite Forall_lookup in Hready. eapply (Hready (Z.to_nat i)); [|done].
    rewrite lookup_take_lt by lia. done. }
  rewrite vec_set_Ok by (unfold pop_front; rewrite length_app, length_fmap, length_take, length_drop; lia).
  cbn. apply returns_bind. eapply returns_mono.
  { apply (merge_update_Ok _ (parameter_length_ s)).
    - rewrite Forall_lookup in Hupd. specialize (Hupd _ _ Hb). by inversion_clear Hupd.
    - destruct Hacc as [Hl _]. lia.
    - unfold kInt32Min; lia. }
  intros update' Hacc'. cbn.
  replace (Z.to_nat (i + 1)) with (S (Z.to_nat i)) by lia. split.
  - rewrite <- (pop_front_step _ _ (u :: b')) by done. done.
  - rewrite (take_S_r _ _ (u :: b')), heads_app, all_pairs_app by done.
    eapply accumulates_app; [done|]. cbn. rewrite app_nil_r. done.
Qed.
End merge.
