(* ===== verification/ServerInv.v ===== *)
(** * The invariant of the server's handlers

    [core] is what holds at every point of a handler, [inv] what holds
    between two messages: the counters of [finish_count_] are the numbers of
    agents ahead by each distance, no buffer holds more than [bound] updates,
    some agent has no pending update, and all stored updates and blocked
    requests stay inside the server's own segment of keys. *)

From S2P Require Import Prelude CppStd Float32 Messages Communicator KeyValueList Ssp Server ServerMerge.
From stdpp Require Import options.

Import Server.

(** ** Counting the agents that are ahead *)

Abbreviation buffers := (list (list KeyValueList.t)).

(** The number of agents with more than [k] pending updates. *)
Definition ahead (k : nat) (vb : buffers) : Z := zlen (filter (λ b, k < length b)%nat vb).

Lemma ahead_le k vb : 0 ≤ ahead k vb ≤ zlen vb.
Proof. unfold ahead. pose proof (length_filter (λ b : list KeyValueList.t, k < length b)%nat vb). lia. Qed.

Lemma ahead_cons k b vb :
  ahead k (b :: vb) = (if decide (k < length b)%nat then 1 else 0) + ahead k vb.
Proof. unfold ahead. rewrite filter_cons. case_decide; simpl; lia. Qed.

Lemma ahead_push k vb i b u :
  vb !! i = Some b →
  ahead k (<[ i := b ++ [u] ]> vb) = ahead k vb + (if decide (k = length b) then 1 else 0).
Proof.
  revert i. induction vb as [|b' vb IH]; intros i Hi; [done|].
  destruct i as [|i]; simplify_eq/=; rewrite !ahead_cons.
  - rewrite length_app. simpl. repeat case_decide; lia.
  - rewrite IH by done. lia.
Qed.

Lemma ahead_tail k vb : ahead k (tail <$> vb) = ahead (S k) vb.
Proof.
  induction vb as [|b vb IH]; [done|]. rewrite fmap_cons, !ahead_cons, IH.
  destruct b; simpl; repeat case_decide; lia.
Qed.

Lemma ahead_zero k vb : Forall (λ b, length b ≤ k)%nat vb → ahead k vb = 0.
Proof.
  induction 1 as [|b vb Hb _ IH]; [done|]. rewrite ahead_cons, IH. case_decide; lia.
Qed.

Lemma ahead_all vb : ahead 0 vb = zlen vb ↔ Forall (λ b, b ≠ []) vb.
Proof.
  induction vb as [|b vb IH]; [split; [intros; constructor|done]|].
  rewrite ahead_cons, Forall_cons, <- IH, length_cons. pose proof (ahead_le 0 vb).
  destruct b as [|u b]; case_decide as Hd; cbn in Hd; try lia; split; intros; naive_solver lia.
Qed.

Lemma ahead_some_empty vb : ahead 0 vb < zlen vb ↔ [] ∈ vb.
Proof.
  induction vb as [|b vb IH]; [split; [done|by intros ?%elem_of_nil]|].
  rewrite ahead_cons, elem_of_cons, <- IH, length_cons. pose proof (ahead_le 0 vb).
  destruct b as [|u b]; case_decide as Hd; cbn in Hd; try lia; split; intros; naive_solver lia.
Qed.

(** ** The invariant *)

Section inv.
Context {C : Type} `{Communicator C}.
Implicit Types s : Server C.

Definition pull_ok (start len : Z) (p : PullInfo.t) : Prop :=
  PullInfo.wf p ∧ Forall (in_segment start len) (PullInfo.keys_ p).

(** The counters of the consistency protocol. *)
Record counts_inv (bound agents : Z) (fc : list Z) (vb : buffers) : Prop := mkcounts {
  ci_bound : 0 < bound ≤ kInt32Max;
  ci_agents : 0 < agents ≤ kInt32Max;
  ci_buffers : zlen vb = agents;
  ci_counts : fc = (λ k, ahead k vb) <$> seq 0 (Z.to_nat bound);
  ci_full : Forall (λ b, zlen b ≤ bound) vb;
}.

(** The segment of parameters, and what is stored for it. *)
Record segment_inv s : Prop := mksegment {
  si_start : 0 ≤ start_key_ s;
  si_len : 0 ≤ parameter_length_ s;
  si_end : start_key_ s + parameter_length_ s ≤ kInt32Max;
  si_params : zlen (parameters_ s) = parameter_length_ s;
  si_updates : Forall (Forall (update_ok (start_key_ s) (parameter_length_ s))) (version_buffer_ s);
  si_pulls : Forall (pull_ok (start_key_ s) (parameter_length_ s)) (pull_request_ s);
}.

(** The ring of servers used for backups. *)
Record ring_inv s : Prop := mkring {
  ri_num : 0 < server_num_ s < 2 ^ 30;
  ri_ids : zlen (server_ids_ s) = server_num_ s;
  ri_local : 0 ≤ local_index_ s < server_num_ s;
  ri_backup : 0 ≤ backup_size_ s < server_num_ s;
}.

Record index_inv s : Prop := mkindex {
  xi_known : ∀ id, id ∈ agent_ids_ s → is_Some (id_to_index_ s !! id);
  xi_range : ∀ id i, id_to_index_ s !! id = Some i → 0 ≤ i < agent_num_ s;
}.

Record core s : Prop := mkcore {
  co_counts : counts_inv (consistency_bound_ s) (agent_num_ s) (finish_count_ s) (version_buffer_ s);
  co_segment : segment_inv s;
  co_ring : ring_inv s;
  co_index : index_inv s;
  co_version : 0 ≤ bottom_version_ s;
}.

(** Between two messages some agent has nothing pending: its updates are all
    in the parameters, so [bottom_version_] is its version. *)
Definition inv s : Prop := core s ∧ [] ∈ version_buffer_ s.

(** The clocks of the agents: the versions each one has pushed. *)
Definition abs s : list Z := (λ b, bottom_version_ s + zlen b) <$> version_buffer_ s.

Lemma floor_abs s : inv s → Ssp.floor (abs s) = bottom_version_ s.
Proof.
  intros [_ Hempty]. apply Ssp.floor_unique.
  - intros x (b & -> & _)%list_elem_of_fmap. lia.
  - apply list_elem_of_fmap. exists []. split; [simpl; lia|done].
Qed.

(** The contract of Ssp.v holds of the server. *)
Lemma abs_within s : inv s → Ssp.within (consistency_bound_ s) (abs s).
Proof.
  intros Hinv x (b & -> & Hb)%list_elem_of_fmap. rewrite floor_abs by done.
  destruct Hinv as [[[] _ _ _] _]. rewrite Forall_forall in ci_full0. specialize (ci_full0 b Hb). lia.
Qed.

Lemma counts_lookup bound agents fc vb k :
  counts_inv bound agents fc vb → 0 ≤ k < bound → fc !! Z.to_nat k = Some (ahead (Z.to_nat k) vb).
Proof.
  intros [Hb _ _ -> _] Hk. rewrite list_lookup_fmap, lookup_seq_lt by lia. done.
Qed.

Lemma counts_length bound agents fc vb : counts_inv bound agents fc vb → zlen fc = bound.
Proof. intros [Hb _ _ -> _]. rewrite length_fmap, length_seq. lia. Qed.

(** ** The transitions of the counters *)

(** One update accepted for the agent at index [i]. *)
Lemma counts_accept bound agents fc vb i b u :
  counts_inv bound agents fc vb → vb !! i = Some b → zlen b < bound →
  counts_inv bound agents (<[ length b := ahead (length b) vb + 1 ]> fc) (<[ i := b ++ [u] ]> vb).
Proof.
  intros [Hb Ha Hvb -> Hfull] Hi Hlen. constructor; [done|done|by rewrite length_insert| |].
  - apply list_eq_same_length with (Z.to_nat bound);
      rewrite ?length_insert, ?length_fmap, ?length_seq; [done|done|].
    intros k x y Hk. rewrite list_lookup_fmap, lookup_seq_lt by done. simpl. intros Hx [= <-].
    rewrite (ahead_push _ _ _ b) by done.
    destruct (decide (k = length b)) as [->|Hne].
    + rewrite list_lookup_insert_eq in Hx by (rewrite length_fmap, length_seq; lia). congruence.
    + rewrite list_lookup_insert_ne, list_lookup_fmap, lookup_seq_lt in Hx by lia.
      simplify_eq/=. lia.
  - apply Forall_insert; [done|]. rewrite length_app. simpl. lia.
Qed.

(** One round applied: every buffer loses its front. *)
Lemma counts_round bound agents fc vb :
  counts_inv bound agents fc vb →
  counts_inv bound agents (tail fc ++ [0]) (tail <$> vb).
Proof.
  intros [Hb Ha Hvb -> Hfull]. constructor; [done|done|by rewrite length_fmap| |].
  - destruct (Z.to_nat bound) as [|n] eqn:Hn; [lia|].
    rewrite (seq_S n 0) at 2. rewrite fmap_app. simpl. f_equal.
    + rewrite <- fmap_S_seq, <- list_fmap_compose. apply list_fmap_ext. intros k x _. simpl.
      by rewrite ahead_tail.
    + rewrite ahead_tail, ahead_zero; [done|].
      eapply Forall_impl; [exact Hfull|]. cbn. intros; lia.
  - apply Forall_fmap. eapply Forall_impl; [exact Hfull|]. cbn. intros b.
    destruct b; simpl; lia.
Qed.
End inv.
