(* ===== verification/ServerRound.v ===== *)
(** * The end of a round

    What [UpdateParameter], [RespondToAll], [RequestBackup] and their
    composition at the end of [ServePush] do, as lemmas for ServerProps.v. *)

From S2P Require Import Prelude CppStd Float32 Messages Communicator KeyValueList Ssp Server.
From S2P Require Import ServerMerge ServerInv.
From stdpp Require Import options.

Import Server.

Section round.
Set Default Proof Using "Type*".
Context {C : Type} `{CommunicatorLaws C}.
Implicit Types s : Server C.

(** ** Replies to blocked pulls *)

(** The parameter of a key of the segment. *)
Definition param_of s (k : Z) : float32 := default f0 (parameters_ s !! Z.to_nat (k - start_key_ s)).

Definition pull_reply s (p : PullInfo.t) : Z * Message :=
  (PullInfo.id_ p, reply_message (local_id_ s) (PullInfo.id_ p)
     (mkRequest rt_key_value (PullInfo.keys_ p) (param_of s <$> PullInfo.keys_ p))).

Lemma param_lookup s k :
  segment_inv s → in_segment (start_key_ s) (parameter_length_ s) k →
  vec_get (parameters_ s) (k - start_key_ s) = Ok (param_of s k).
Proof.
  intros Hseg Hk. unfold in_segment in Hk. pose proof (si_params s Hseg).
  destruct (vec_get_lt (parameters_ s) (k - start_key_ s)) as (x & -> & Hx); [lia|].
  unfold param_of. by rewrite Hx.
Qed.

Lemma respond_one_Ok s p :
  segment_inv s → pull_ok (start_key_ s) (parameter_length_ s) p →
  respond_one p s = Ok (send (PullInfo.id_ p) (pull_reply s p).2 s).
Proof.
  intros Hseg [Hwf Hkeys]. unfold respond_one, PullInfo.Length. rewrite <- Hwf.
  rewrite (for_pairs _ (PullInfo.keys_ p) (param_of s)); [done|].
  intros i k a b Hi Hk. unfold PullInfo.Key. rewrite (vec_get_Ok _ i k) by done. simpl.
  assert (in_segment (start_key_ s) (parameter_length_ s) k) as Hin
    by (rewrite Forall_lookup in Hkeys; eauto).
  pose proof (si_start s Hseg). pose proof (si_end s Hseg).
  unfold sub32. rewrite i32_Ok by (unfold in_segment, kInt32Min in *; lia). simpl.
  by rewrite param_lookup.
Qed.

(** The replies go out in the order in which the pulls were blocked, with the
    current parameters, and no request is left. *)
Lemma RespondToAll_Ok s :
  segment_inv s →
  ∃ c', RespondToAll s = Ok (s <| sender_ := c' |> <| pull_request_ := [] |>) ∧
    sends (sender_ s) c' (pull_reply s <$> pull_request_ s).
Proof.
  intros Hseg. unfold RespondToAll.
  pose proof (si_pulls s Hseg) as Hq. revert Hq.
  enough (∀ q c, Forall (pull_ok (start_key_ s) (parameter_length_ s)) q →
    ∃ c', respond_loop q (s <| sender_ := c |> <| pull_request_ := q |>) =
        Ok (s <| sender_ := c' |> <| pull_request_ := [] |>) ∧
      sends c c' (pull_reply s <$> q)) as Hall.
  { intros Hq. destruct (Hall (pull_request_ s) (sender_ s) Hq) as (c' & Hc' & Hs).
    exists c'. split; [|done]. rewrite <- Hc'. by destruct s. }
  induction q as [|p q IH]; intros c Hq.
  { exists c. split; [done|apply sends_nil]. }
  inversion_clear Hq as [|? ? Hp Hq']. simpl.
  rewrite respond_one_Ok; [|by destruct Hseg; constructor|done].
  cbn [mbind res_bind].
  destruct (IH (Send (PullInfo.id_ p) (pull_reply s p).2 c).2 Hq') as (c' & Hc' & Hs).
  exists c'. split; [exact Hc'|].
  change (pull_reply s <$> p :: q) with ([pull_reply s p] ++ (pull_reply s <$> q)).
  apply (sends_app _ _ _ [pull_reply s p] (pull_reply s <$> q) (sends_one _ _ _) Hs).
Qed.

(** ** The update *)

(** [params] averaged with the oldest pending update of every agent. *)
Definition averaged s (params : list float32) : Prop :=
  length params = length (parameters_ s) ∧
  ∀ j p, parameters_ s !! j = Some p →
    params !! j = Some (fadd p (fdiv
      (fsum f0 (vals (start_key_ s + Z.of_nat j)
         (all_pairs (heads (take (Z.to_nat (agent_num_ s)) (version_buffer_ s))))))
      (f_of_int (agent_num_ s)))).

Lemma apply_average (n : Z) (params update : list float32) :
  length update = length params →
  for_ 0 (zlen params) (λ i ps,
    p ← vec_get ps i; u ← vec_get update i; vec_set ps i (fadd p (fdiv u (f_of_int n)))) params
  ⇓ λ ps, ps = zip_with (λ p u, fadd p (fdiv u (f_of_int n))) params update.
Proof.
  intros Hlen. set (f := λ p u, fadd p (fdiv u (f_of_int n))).
  eapply returns_mono.
  { apply (for_inv (λ i ps,
      ps = take (Z.to_nat i) (zip_with f params update) ++ drop (Z.to_nat i) params)); [lia|done|].
    intros i ps Hi ->.
    destruct (lookup_lt_is_Some_2 params (Z.to_nat i)) as [p Hp]; [lia|].
    destruct (lookup_lt_is_Some_2 update (Z.to_nat i)) as [u Hu]; [lia|].
    assert (length (take (Z.to_nat i) (zip_with f params update)) = Z.to_nat i) as Ht
      by (rewrite length_take, length_zip_with; lia).
    assert (zip_with f params update !! Z.to_nat i = Some (f p u)) as Hf
      by (apply lookup_zip_with_Some; eauto).
    assert (vec_get (take (Z.to_nat i) (zip_with f params update) ++ drop (Z.to_nat i) params) i = Ok p)
      as -> by (apply vec_get_Ok; [lia|by rewrite lookup_app_r, Ht, Nat.sub_diag, lookup_drop, Nat.add_0_r by lia]).
    simpl. rewrite (vec_get_Ok _ i u) by (done || lia). simpl.
    rewrite vec_set_Ok by (rewrite length_app, Ht, length_drop; lia). simpl.
    replace (Z.to_nat (i + 1)) with (S (Z.to_nat i)) by lia.
    rewrite (take_S_r _ _ (f p u)) by done.
    rewrite insert_app_r_alt, Ht, Nat.sub_diag by lia.
    rewrite (drop_S _ p) by done. simpl. by rewrite <- app_assoc. }
  simpl. intros ps ->. rewrite take_ge by (rewrite length_zip_with; lia).
  by rewrite drop_ge, app_nil_r by lia.
Qed.

Lemma UpdateParameter_Ok s :
  mergeable s → zlen (parameters_ s) = parameter_length_ s →
  0 ≤ bottom_version_ s < kInt32Max →
  ∃ params, averaged s params ∧
    UpdateParameter s = Ok (s
      <| version_buffer_ := pop_front (Z.to_nat (agent_num_ s)) (version_buffer_ s) |>
      <| parameters_ := params |> <| bottom_version_ := bottom_version_ s + 1 |>).
Proof.
  intros Hm Hlen Hv. pose proof (merge_agents_Ok s Hm) as Hmerge. unfold UpdateParameter.
  destruct (merge_agents s) as [[s' update]|]; [|done]. cbn in Hmerge.
  destruct Hmerge as [-> [Hul Hacc]]. cbn.
  rewrite length_replicate in Hul. rewrite <- Hlen.
  pose proof (apply_average (agent_num_ s) (parameters_ s) update ltac:(lia)) as Hav.
  destruct (for_ 0 _ _ _) as [ps|]; [|done]. cbn in Hav |- *. subst ps.
  unfold add32. rewrite i32_Ok by (unfold kInt32Min; lia). cbn.
  eexists. split; [|done]. split; [rewrite length_zip_with; lia|].
  intros j p Hp. apply lookup_zip_with_Some. exists p.
  eexists. split_and!; [done|done|].
  apply Hacc. apply lookup_replicate_2. apply lookup_lt_Some in Hp. lia.
Qed.

(** ** Backup requests *)

Definition backup_request s (server_id : Z) : Z * Message :=
  (server_id, mkMessage (local_id_ s) server_id mt_request None None None None).

(** The predecessors of the server on the ring, nearest first. *)
Definition backup_targets s : list Z :=
  (λ i, server_ids_ s !!! Z.to_nat ((local_index_ s - i) mod server_num_ s))
    <$> seqZ 1 (backup_size_ s).

Lemma RequestBackup_Ok s :
  ring_inv s →
  ∃ c', RequestBackup s = Ok (s <| sender_ := c' |>) ∧
    sends (sender_ s) c' (backup_request s <$> backup_targets s).
Proof.
  intros [Hn Hids Hl Hb]. unfold RequestBackup, backup_targets.
  set (tgt := λ i : Z, server_ids_ s !!! Z.to_nat ((local_index_ s - i) mod server_num_ s)).
  destruct (proj1 (returns_elim (for_ 1 (backup_size_ s + 1) (λ i s,
      target ← ring_sub (local_index_ s) i (server_num_ s);
      server_id ← vec_get (server_ids_ s) target;
      mret (send server_id (mkMessage (local_id_ s) server_id mt_request None None None None) s)) s)
    (λ s', ∃ c', s' = s <| sender_ := c' |> ∧
       sends (sender_ s) c' (backup_request s <$> (tgt <$> seqZ 1 (backup_size_ s + 1 - 1))))))
    as (s' & -> & c' & -> & Hs).
  { apply (for_inv (λ i s', ∃ c', s' = s <| sender_ := c' |> ∧
      sends (sender_ s) c' (backup_request s <$> (tgt <$> seqZ 1 (i - 1))))); [lia| |].
    - exists (sender_ s). split; [by destruct s|apply sends_nil].
    - intros i s' Hi (c' & -> & Hs). cbn.
      assert (0 ≤ (local_index_ s - i) mod server_num_ s < server_num_ s) by (apply Z.mod_pos_bound; lia).
      rewrite ring_sub_Ok by (unfold kInt32Min, kInt32Max; lia). cbn.
      destruct (vec_get_lt (server_ids_ s) ((local_index_ s - i) mod server_num_ s))
        as (x & -> & Hx); [lia|]. cbn.
      eexists. split; [done|].
      replace (i + 1 - 1) with ((i - 1) + 1) by lia.
      rewrite seqZ_app, !fmap_app by lia.
      eapply sends_app; [exact Hs|]. replace (1 + (i - 1)) with i by lia.
      change (seqZ i 1) with [i]. cbn.
      replace (tgt i) with x by (unfold tgt; by erewrite list_lookup_total_correct).
      apply sends_one. }
  exists c'. split; [done|]. replace (backup_size_ s) with (backup_size_ s + 1 - 1) by lia. done.
Qed.
End round.
