(* ===== verification/ServerPush.v ===== *)
(** * Push and pull

    The handlers [ServePush] and [ServePull] on states that satisfy the
    invariant: they are defined, keep the invariant and implement the
    specification of Ssp.v. *)

From S2P Require Import Prelude CppStd Float32 Messages Communicator KeyValueList Ssp Server.
From S2P Require Import ServerMerge ServerInv ServerRound.
From stdpp Require Import options.

Import Server.

(** ** Requests *)

(** A push request for this server: every key has a value and lies in the
    server's segment. *)
Record push_ok (start len : Z) (r : RequestMessage) : Prop := mkpush {
  po_values : zlen (keys r) ≤ zlen (values r);
  po_count : zlen (keys r) ≤ kInt32Max;
  po_keys : Forall (in_segment start len) (keys r);
}.

Lemma worker_update_Ok start len r :
  push_ok start len r →
  ∃ u, worker_update r = Ok u ∧ update_ok start len u ∧
    KeyValueList.pairs u = zip (keys r) (values r).
Proof.
  intros [Hv Hc Hk]. unfold worker_update. apply returns_elim.
  apply (returns_mono _ (λ u, KeyValueList.wf u ∧ KeyValueList.pairs u =
    take (Z.to_nat (zlen (keys r))) (zip (keys r) (values r)))); last first.
  { intros u [Hwf Hp]. rewrite take_ge in Hp by (rewrite length_zip_with; lia).
    split; [|done]. split; [done|]. rewrite Hp. apply Forall_lookup. intros i [k v].
    intros (k' & v' & [= <- <-] & Hik & _)%lookup_zip_with_Some.
    rewrite Forall_lookup in Hk. by eapply Hk. }
  apply (for_inv (λ i u, KeyValueList.wf u ∧
    KeyValueList.pairs u = take (Z.to_nat i) (zip (keys r) (values r)))); [lia| |].
  { split; [apply KeyValueList.init_wf|done]. }
  intros i u Hi [Hwf Hp].
  destruct (lookup_lt_is_Some_2 (keys r) (Z.to_nat i)) as [k Hik]; [lia|].
  destruct (lookup_lt_is_Some_2 (values r) (Z.to_nat i)) as [v Hiv]; [lia|].
  rewrite (proto_get_Ok _ i k) by (done || lia). simpl.
  rewrite (proto_get_Ok _ i v) by (done || lia). simpl.
  destruct (KeyValueList.AddPair_Ok k v u Hwf) as (u' & -> & Hwf' & Hp').
  { rewrite Hp, length_take. lia. }
  simpl. split; [done|]. rewrite Hp', Hp.
  replace (Z.to_nat (i + 1)) with (S (Z.to_nat i)) by lia.
  symmetry. apply take_S_r. apply lookup_zip_with_Some. eauto.
Qed.

Lemma blocked_request_Ok id r :
  zlen (keys r) ≤ kInt32Max →
  blocked_request id r = Ok (PullInfo.mk (zlen (keys r)) id (keys r)).
Proof.
  intros Hc.
  destruct (proj1 (returns_elim (blocked_request id r)
    (λ p, p = PullInfo.mk (zlen (keys r)) id (keys r)))) as (? & -> & ->); [|done].
  apply (returns_mono _ (λ p, p = PullInfo.mk (zlen (keys r)) id (take (Z.to_nat (zlen (keys r))) (keys r))));
    last by (intros p ->; rewrite take_ge by lia).
  apply (for_inv (λ i p, p = PullInfo.mk i id (take (Z.to_nat i) (keys r)))); [lia|done|].
  intros i p Hi ->. destruct (lookup_lt_is_Some_2 (keys r) (Z.to_nat i)) as [k Hik]; [lia|].
  rewrite (proto_get_Ok _ i k) by (done || lia). simpl.
  unfold PullInfo.AddKey. cbn. rewrite i32_Ok by (unfold kInt32Min; lia). cbn.
  replace (Z.to_nat (i + 1)) with (S (Z.to_nat i)) by lia. by rewrite (take_S_r _ _ k).
Qed.

Section push.
Set Default Proof Using "Type*".
Context {C : Type} `{CommunicatorLaws C}.
Implicit Types s : Server C.

Lemma buffer_full_spec s b :
  0 < consistency_bound_ s ≤ kInt32Max →
  buffer_full b s = bool_decide (consistency_bound_ s ≤ zlen b).
Proof.
  intros. unfold buffer_full. rewrite to_size_t_nonneg by lia.
  case_bool_decide; [by apply Z.leb_le|]. apply Z.leb_gt. lia.
Qed.

(** ** The end of a round *)

(** The state after a complete round. *)
Definition next_round s (params : list float32) (c : C) : Server C :=
  s <| finish_count_ := tail (finish_count_ s) ++ [0] |>
    <| version_buffer_ := tail <$> version_buffer_ s |>
    <| parameters_ := params |> <| bottom_version_ := bottom_version_ s + 1 |>
    <| pull_request_ := [] |> <| sender_ := c |>.

(** The messages a complete round sends: the replies to the blocked pulls,
    with the new parameters, then the backup requests. *)
Definition round_messages s s' : list (Z * Message) :=
  (pull_reply s' <$> pull_request_ s) ++ (backup_request s <$> backup_targets s).

Lemma next_round_core s params c :
  core s → length params = length (parameters_ s) → core (next_round s params c).
Proof.
  intros [Hc Hs Hr Hx Hv] Hlen. constructor.
  - apply (counts_round _ _ _ _ Hc).
  - destruct Hs. constructor; cbn; [done..| | |constructor].
    + lia.
    + apply Forall_fmap. eapply Forall_impl; [done|]. intros [|u b] Hb; [done|by inversion_clear Hb].
  - by destruct Hr.
  - by destruct Hx.
  - cbn. lia.
Qed.

Lemma next_round_abs s params c :
  Forall (λ b, b ≠ []) (version_buffer_ s) → abs (next_round s params c) = abs s.
Proof.
  intros Hne. unfold abs. cbn. rewrite <- list_fmap_compose. apply list_fmap_ext.
  intros i b Hb. rewrite Forall_lookup in Hne. specialize (Hne i b Hb).
  destruct b; [done|]. simpl. lia.
Qed.

Lemma pop_front_all (vb : buffers) n : n = length vb → pop_front n vb = tail <$> vb.
Proof. intros ->. unfold pop_front. by rewrite take_ge, drop_ge, app_nil_r by lia. Qed.

Lemma finish_round_open s : core s → [] ∈ version_buffer_ s → finish_round s = Ok s.
Proof.
  intros Hcore Hempty. pose proof (co_counts s Hcore) as [Hb Ha Hvb _ _].
  unfold finish_round.
  rewrite (vec_get_Ok _ 0 (ahead 0 (version_buffer_ s)));
    [|lia|apply (counts_lookup _ _ _ _ 0 (co_counts s Hcore)); lia].
  simpl. apply ahead_some_empty in Hempty. destruct (Z.eqb_spec (ahead 0 (version_buffer_ s)) (agent_num_ s)); [lia|done].
Qed.

(** A full count applies the round and answers the blocked pulls; what is left
    is to ask for backups. *)
Lemma finish_round_applied s :
  counts_inv (consistency_bound_ s) (agent_num_ s) (finish_count_ s) (version_buffer_ s) → segment_inv s →
  Forall (λ b, b ≠ []) (version_buffer_ s) → 0 ≤ bottom_version_ s < kInt32Max →
  ∃ params c, averaged s params ∧ finish_round s = RequestBackup (next_round s params c) ∧
    sends (sender_ s) c (pull_reply (next_round s params c) <$> pull_request_ s).
Proof.
  intros Hc Hseg Hne Hver. pose proof Hc as [Hb Ha Hvb _ _]. unfold finish_round.
  rewrite (vec_get_Ok _ 0 (ahead 0 (version_buffer_ s)));
    [|lia|apply (counts_lookup _ _ _ _ 0 Hc); lia].
  cbn [mbind res_bind]. replace (ahead 0 (version_buffer_ s)) with (agent_num_ s)
    by (symmetry; rewrite <- Hvb; by apply ahead_all).
  rewrite Z.eqb_refl. cbv zeta iota.
  set (s0 := s <| finish_count_ ::= λ l, tail l ++ [0] |>).
  assert (mergeable s0) as Hm.
  { destruct Hseg. constructor; cbn; [lia|lia|by apply Forall_take|done]. }
  destruct (UpdateParameter_Ok s0 Hm) as (params & Hav & ->);
    [apply (si_params s Hseg)|cbn; lia|].
  exists params. cbn [mbind res_bind].
  assert (length params = length (parameters_ s)) as Hlen by apply Hav.
  set (s1 := s0 <| version_buffer_ := _ |> <| parameters_ := _ |> <| bottom_version_ := _ |>).
  assert (segment_inv s1) as Hseg1.
  { pose proof (si_updates s Hseg) as Hup. destruct Hseg. constructor; cbn; [done..|lia| |done].
    rewrite pop_front_all by lia.
    apply Forall_fmap. eapply Forall_impl; [exact Hup|]. intros [|u b] Hu; [done|by inversion_clear Hu]. }
  destruct (RespondToAll_Ok s1 Hseg1) as (c1 & -> & Hs1). cbn [mbind res_bind].
  exists c1. split_and!; [done| |exact Hs1].
  f_equal. unfold s1, s0, next_round. cbn. by rewrite pop_front_all by lia.
Qed.

Lemma finish_round_closed s :
  core s → Forall (λ b, b ≠ []) (version_buffer_ s) → bottom_version_ s < kInt32Max →
  ∃ params c, averaged s params ∧ finish_round s = Ok (next_round s params c) ∧
    sends (sender_ s) c (round_messages s (next_round s params c)).
Proof.
  intros Hcore Hne Hver. pose proof (co_version s Hcore).
  destruct (finish_round_applied s (co_counts s Hcore) (co_segment s Hcore) Hne) as (params & c1 & Hav & -> & Hs1); [lia|].
  destruct (RequestBackup_Ok (next_round s params c1)) as (c2 & -> & Hs2); [by destruct (co_ring s Hcore)|].
  exists params, c2. split_and!; [done|done|]. eapply sends_app; [exact Hs1|exact Hs2].
Qed.

(** ** [ServePush] *)

(** The state after an update [u] is stored for the agent at index [i]. *)
Definition accept s (i : nat) (b : list KeyValueList.t) (u : KeyValueList.t) : Server C :=
  s <| finish_count_ ::= <[ length b := ahead (length b) (version_buffer_ s) + 1 ]> |>
    <| version_buffer_ ::= <[ i := b ++ [u] ]> |>.

Lemma accept_core s i b u :
  core s → version_buffer_ s !! i = Some b → zlen b < consistency_bound_ s →
  update_ok (start_key_ s) (parameter_length_ s) u → core (accept s i b u).
Proof.
  intros [Hc Hs Hr Hx Hv] Hi Hb Hu. constructor.
  - by apply counts_accept.
  - destruct Hs as [? ? ? ? Hup ?]. constructor; cbn; [done..| |done].
    apply Forall_insert; [done|]. apply Forall_app. split; [|by constructor].
    rewrite Forall_lookup in Hup. by eapply Hup.
  - by destruct Hr.
  - by destruct Hx.
  - done.
Qed.

Lemma accept_abs s i b u :
  inv s → version_buffer_ s !! i = Some b → zlen b < consistency_bound_ s →
  abs (accept s i b u) = Ssp.push (consistency_bound_ s) i (abs s).
Proof.
  intros Hinv Hi Hb. unfold Ssp.push, Ssp.allowed. rewrite floor_abs by done.
  unfold abs at 2. rewrite list_lookup_fmap, Hi. cbn [fmap option_fmap option_map].
  destruct (Z.ltb_spec (bottom_version_ s + zlen b - bottom_version_ s) (consistency_bound_ s)); [|lia].
  unfold abs, accept. cbn. apply list_eq. intros j. rewrite list_lookup_fmap.
  destruct (decide (i = j)) as [<-|Hne].
  - rewrite list_lookup_alter_eq, list_lookup_fmap, Hi.
    rewrite list_lookup_insert_eq by (by eapply lookup_lt_Some). simpl. f_equal.
    rewrite length_app. simpl. lia.
  - by rewrite list_lookup_alter_ne, list_lookup_insert_ne, list_lookup_fmap by done.
Qed.

Lemma blocked_abs s i b :
  inv s → version_buffer_ s !! i = Some b → consistency_bound_ s ≤ zlen b →
  Ssp.push (consistency_bound_ s) i (abs s) = abs s.
Proof.
  intros Hinv Hi Hb. unfold Ssp.push, Ssp.allowed. rewrite floor_abs by done.
  unfold abs at 1. rewrite list_lookup_fmap, Hi. cbn [fmap option_fmap option_map].
  destruct (Z.ltb_spec (bottom_version_ s + zlen b - bottom_version_ s) (consistency_bound_ s)); [lia|done].
Qed.

(** A push that is taken is stored, and the round is looked at. *)
Lemma ServePush_accepts s id i b r u :
  counts_inv (consistency_bound_ s) (agent_num_ s) (finish_count_ s) (version_buffer_ s) →
  id ∈ agent_ids_ s → id_to_index_ s !! id = Some (Z.of_nat i) → version_buffer_ s !! i = Some b →
  zlen b < consistency_bound_ s → worker_update r = Ok u →
  ServePush id r s = finish_round (accept s i b u).
Proof.
  intros Hc Hid Hi Hbi Hlt Hu. pose proof Hc as [Hb Ha Hvb _ _]. pose proof (lookup_lt_Some _ _ _ Hbi) as Hlen.
  unfold ServePush. rewrite bool_decide_eq_false_2 by (by intros []).
  rewrite (map_at_Some _ _ _ (Z.of_nat i)) by done. cbv zeta.
  replace (s <| id_to_index_ := id_to_index_ s |>) with s by by destruct s.
  rewrite (vec_get_Ok _ (Z.of_nat i) b) by (rewrite ?Nat2Z.id; done || lia). cbn [mbind res_bind].
  rewrite buffer_full_spec, bool_decide_eq_false_2 by (done || lia). cbn [mbind res_bind].
  assert (0 ≤ zlen b < consistency_bound_ s) as Hlt' by lia.
  rewrite (vec_get_Ok (finish_count_ s) (zlen b) (ahead (length b) (version_buffer_ s)));
    [|lia|rewrite (counts_lookup _ _ _ _ _ Hc Hlt'); by rewrite Nat2Z.id].
  cbn [mbind res_bind]. pose proof (ahead_le (length b) (version_buffer_ s)).
  unfold add32. rewrite i32_Ok; [|unfold kInt32Min; split; [lia|]]; last first.
  { (* this agent is not counted yet *)
    assert (ahead (length b) (version_buffer_ s) + 1 ≤ zlen (version_buffer_ s)); [|lia].
    pose proof (ahead_push (length b) _ _ b u Hbi) as Hp. rewrite decide_True in Hp by done.
    pose proof (ahead_le (length b) (<[i:=b ++ [u]]> (version_buffer_ s))) as Hp'.
    rewrite length_insert in Hp'. lia. }
  cbn [mbind res_bind]. rewrite vec_set_Ok by (rewrite (counts_length _ _ _ _ Hc); lia).
  cbn [mbind res_bind]. rewrite Hu. cbn [mbind res_bind].
  rewrite vec_set_Ok by lia. cbn [mbind res_bind]. by rewrite !Nat2Z.id.
Qed.

(** What [ServePush] did: nothing (the agent is [bound] ahead), stored the
    update, or stored it and applied the round it completes. *)
Inductive push_outcome s (i : nat) (b : list KeyValueList.t) (u : KeyValueList.t) : Server C → Prop :=
| push_dropped :
    consistency_bound_ s ≤ zlen b → push_outcome s i b u s
| push_stored :
    zlen b < consistency_bound_ s → [] ∈ version_buffer_ (accept s i b u) →
    push_outcome s i b u (accept s i b u)
| push_round params c :
    zlen b < consistency_bound_ s → Forall (λ b, b ≠ []) (version_buffer_ (accept s i b u)) →
    averaged (accept s i b u) params →
    sends (sender_ s) c (round_messages (accept s i b u) (next_round (accept s i b u) params c)) →
    push_outcome s i b u (next_round (accept s i b u) params c).

Lemma push_outcome_inv s i b u s' :
  inv s → version_buffer_ s !! i = Some b → update_ok (start_key_ s) (parameter_length_ s) u →
  push_outcome s i b u s' →
  inv s' ∧ abs s' = Ssp.push (consistency_bound_ s) i (abs s).
Proof.
  intros Hinv Hi Hu Hout. pose proof Hinv as [Hcore Hempty].
  destruct Hout as [Hb|Hb Hne|params c Hb Hall Hav _].
  - split; [done|]. by erewrite blocked_abs.
  - split; [split; [by apply accept_core|done]|]. by apply accept_abs.
  - split; [|by rewrite next_round_abs, accept_abs].
    split; [apply next_round_core; [by apply accept_core|apply Hav]|].
    apply list_elem_of_lookup in Hempty as [j Hj].
    assert (j = i) as ->.
    { destruct (decide (j = i)); [done|]. exfalso. rewrite Forall_lookup in Hall.
      apply (Hall j []); [|done]. cbn. by rewrite list_lookup_insert_ne. }
    simplify_eq. cbn. apply list_elem_of_fmap. exists [u]. split; [done|].
    apply list_elem_of_lookup. exists i.
    apply list_lookup_insert_eq. by eapply lookup_lt_Some.
Qed.

Lemma ServePush_Ok s id r :
  inv s → id ∈ agent_ids_ s → push_ok (start_key_ s) (parameter_length_ s) r →
  bottom_version_ s < kInt32Max →
  ∃ i b u s', id_to_index_ s !! id = Some (Z.of_nat i) ∧ version_buffer_ s !! i = Some b ∧
    worker_update r = Ok u ∧ update_ok (start_key_ s) (parameter_length_ s) u ∧
    KeyValueList.pairs u = zip (keys r) (values r) ∧
    ServePush id r s = Ok s' ∧ push_outcome s i b u s'.
Proof.
  intros Hinv Hid Hr Hver. pose proof Hinv as [Hcore Hempty].
  pose proof (co_counts s Hcore) as Hc. pose proof Hc as [Hb Ha Hvb _ _].
  destruct (xi_known s (co_index s Hcore) id Hid) as [z Hz].
  pose proof (xi_range s (co_index s Hcore) id z Hz) as Hzr.
  destruct (lookup_lt_is_Some_2 (version_buffer_ s) (Z.to_nat z)) as [b Hbz]; [lia|].
  destruct (worker_update_Ok _ _ r Hr) as (u & Hu & Huok & Hpairs).
  exists (Z.to_nat z), b, u.
  assert (id_to_index_ s !! id = Some (Z.of_nat (Z.to_nat z))) as Hz' by (rewrite Hz; f_equal; lia).
  enough (∃ s', ServePush id r s = Ok s' ∧ push_outcome s (Z.to_nat z) b u s') as (s' & ? & ?) by by exists s'.
  destruct (decide (zlen b < consistency_bound_ s)) as [Hlt|Hfull]; last first.
  { exists s. split; [|constructor; lia]. unfold ServePush. rewrite bool_decide_eq_false_2 by (by intros []).
    rewrite (map_at_Some _ _ _ z) by done. cbv zeta.
    replace (s <| id_to_index_ := id_to_index_ s |>) with s by by destruct s.
    rewrite (vec_get_Ok _ z b) by (done || lia). cbn [mbind res_bind].
    rewrite buffer_full_spec, bool_decide_eq_true_2 by (done || lia). by apply finish_round_open. }
  rewrite (ServePush_accepts s id (Z.to_nat z) b r u) by done.
  pose proof (accept_core s (Z.to_nat z) b u Hcore Hbz Hlt Huok) as Hcore'.
  destruct (decide ([] ∈ version_buffer_ (accept s (Z.to_nat z) b u))) as [Hin|Hnin].
  - eexists. split; [by apply finish_round_open|]. by constructor.
  - assert (Forall (λ b, b ≠ []) (version_buffer_ (accept s (Z.to_nat z) b u))) as Hall
      by (apply Forall_forall; by intros b' Hb' ->).
    destruct (finish_round_closed (accept s (Z.to_nat z) b u) Hcore' Hall Hver) as (params & c & Hav & Hfr & Hs).
    eexists. split; [exact Hfr|]. by constructor.
Qed.
End push.
