(* ===== verification/ServerPull.v ===== *)
(** * Pull, backup and the message loop

    [ServePull], [RespondBackup] and [Backup] on states that satisfy the
    invariant, and the invariant along any sequence of expected messages. *)

From S2P Require Import Prelude CppStd Float32 Messages Communicator KeyValueList Ssp Server.
From S2P Require Import ServerMerge ServerInv ServerRound ServerPush.
From stdpp Require Import options.

Import Server.

Section pull.
Set Default Proof Using "Type*".
Context {C : Type} `{CommunicatorLaws C}.
Implicit Types s : Server C.

(** ** [ServePull] *)

(** The position of a key on the server's arc of the key circle: keys below
    [start_key_] are those that wrapped around. *)
Definition arc_pos s (k : Z) : Z := (k - start_key_ s) mod key_range_ s.

Definition on_arc s (k : Z) : Prop := 0 ≤ k < key_range_ s ∧ arc_pos s k < parameter_length_ s.

Lemma pull_index_Ok s k :
  0 ≤ start_key_ s < key_range_ s → key_range_ s ≤ kInt32Max → 0 ≤ k < key_range_ s →
  pull_index s k = Ok (arc_pos s k).
Proof.
  intros Hstart Hr Hk. unfold pull_index, arc_pos, sub32, add32, kInt32Min in *.
  rewrite i32_Ok by (unfold kInt32Min; lia). simpl.
  destruct (Z.ltb_spec (k - start_key_ s) 0).
  - rewrite i32_Ok by (unfold kInt32Min; lia). f_equal.
    rewrite <- (Z_mod_plus_full _ 1), Z.mod_small by lia. lia.
  - simpl. f_equal. by rewrite Z.mod_small by lia.
Qed.

Definition arc_param s (k : Z) : float32 := default f0 (parameters_ s !! Z.to_nat (arc_pos s k)).

(** The message that answers a pull at once. *)
Definition pull_answer s (id : Z) (ks : list Z) : Message :=
  reply_message (local_id_ s) id (mkRequest rt_key_value ks (arc_param s <$> ks)).

Lemma ServePull_answered s id i b r :
  id_to_index_ s !! id = Some (Z.of_nat i) → version_buffer_ s !! i = Some b →
  0 < consistency_bound_ s ≤ kInt32Max → zlen b < consistency_bound_ s →
  0 ≤ start_key_ s < key_range_ s → key_range_ s ≤ kInt32Max →
  zlen (parameters_ s) = parameter_length_ s → Forall (on_arc s) (keys r) →
  ServePull id r s = Ok (send id (pull_answer s id (keys r)) s).
Proof.
  intros Hid Hb Hbound Hlt Hstart Hr Hlen Hkeys. unfold ServePull.
  rewrite Hid, (vec_get_Ok _ _ b) by (rewrite ?Nat2Z.id; done || lia). cbn [mbind res_bind].
  rewrite buffer_full_spec, bool_decide_eq_false_2 by (done || lia).
  rewrite (for_pairs _ (keys r) (arc_param s)); [done|].
  intros j k xs ys Hj Hk. rewrite (proto_get_Ok _ j k) by done. cbn [mbind res_bind].
  rewrite Forall_lookup in Hkeys. destruct (Hkeys _ _ Hk) as [Hkr Hpos].
  rewrite pull_index_Ok by done. cbn [mbind res_bind].
  assert (0 ≤ arc_pos s k) by (apply Z.mod_pos_bound; lia).
  destruct (vec_get_lt (parameters_ s) (arc_pos s k)) as (x & -> & Hx); [lia|]. simpl.
  unfold arc_param. by rewrite Hx.
Qed.

Lemma ServePull_blocked s id i b r :
  id_to_index_ s !! id = Some (Z.of_nat i) → version_buffer_ s !! i = Some b →
  0 < consistency_bound_ s ≤ kInt32Max → consistency_bound_ s ≤ zlen b →
  zlen (keys r) ≤ kInt32Max →
  ServePull id r s = Ok (s <| pull_request_ ::= λ l, l ++ [PullInfo.mk (zlen (keys r)) id (keys r)] |>).
Proof.
  intros Hid Hb Hbound Hge Hlen. unfold ServePull.
  rewrite Hid, (vec_get_Ok _ _ b) by (rewrite ?Nat2Z.id; done || lia). cbn [mbind res_bind].
  rewrite buffer_full_spec, bool_decide_eq_true_2 by (done || lia).
  by rewrite blocked_request_Ok.
Qed.

(** A key of the segment that does not wrap. *)
Definition plain_key s (k : Z) : Prop := in_segment (start_key_ s) (parameter_length_ s) k ∧ k < key_range_ s.

(** On keys that do not wrap, any known agent's pull is answered or queued, and
    the invariant is kept. *)
Lemma ServePull_inv s id r :
  inv s → 0 ≤ start_key_ s < key_range_ s → key_range_ s ≤ kInt32Max →
  zlen (keys r) ≤ kInt32Max → Forall (plain_key s) (keys r) →
  ∃ c q, ServePull id r s = Ok (s <| sender_ := c |> <| pull_request_ := q |>) ∧
    inv (s <| sender_ := c |> <| pull_request_ := q |>).
Proof.
  intros [Hcore Hempty] Hstart Hr Hlen Hkeys.
  pose proof (co_counts s Hcore) as [Hb _ Hvb _ _].
  assert (∀ c q, Forall (pull_ok (start_key_ s) (parameter_length_ s)) q →
    inv (s <| sender_ := c |> <| pull_request_ := q |>)) as Hinv.
  { intros c q Hq. split; [|done]. destruct Hcore as [? [] [] [] ?]. constructor; first [done|by constructor]. }
  pose proof (si_pulls s (co_segment s Hcore)) as Hpulls.
  destruct (id_to_index_ s !! id) as [z|] eqn:Hz; last first.
  { exists (sender_ s), (pull_request_ s). split; [|by apply Hinv].
    unfold ServePull. rewrite Hz. by destruct s. }
  pose proof (xi_range s (co_index s Hcore) id z Hz).
  assert (id_to_index_ s !! id = Some (Z.of_nat (Z.to_nat z))) as Hz' by (rewrite Hz; f_equal; lia).
  destruct (lookup_lt_is_Some_2 (version_buffer_ s) (Z.to_nat z)) as [b Hbz]; [lia|].
  destruct (Z.le_gt_cases (consistency_bound_ s) (zlen b)) as [Hge|Hlt].
  - exists (sender_ s), (pull_request_ s ++ [PullInfo.mk (zlen (keys r)) id (keys r)]).
    split; [|apply Hinv, Forall_app; split; [done|apply Forall_singleton; split; [by unfold PullInfo.wf|]]];
      [|by eapply Forall_impl; [exact Hkeys|]; intros k [Hk _]].
    rewrite (ServePull_blocked s id (Z.to_nat z) b) by done. by destruct s.
  - exists (Send id (pull_answer s id (keys r)) (sender_ s)).2, (pull_request_ s).
    split; [|by apply Hinv].
    rewrite (ServePull_answered s id (Z.to_nat z) b); try done.
    + apply (si_params s (co_segment s Hcore)).
    + eapply Forall_impl; [exact Hkeys|]. intros k [Hk Hkr]. unfold in_segment in Hk.
      pose proof (si_start s (co_segment s Hcore)). split; [lia|]. unfold arc_pos. rewrite Z.mod_small by lia. lia.
Qed.

(** ** Backup *)

Definition segment_keys s : list Z := seqZ (start_key_ s) (parameter_length_ s).

Lemma RespondBackup_Ok s id :
  segment_inv s →
  RespondBackup id s = Ok (send id (reply_message (local_id_ s) id
    (mkRequest rt_key_value (segment_keys s) (parameters_ s))) s).
Proof.
  intros Hseg. pose proof (si_start s Hseg). pose proof (si_len s Hseg).
  pose proof (si_end s Hseg). pose proof (si_params s Hseg).
  unfold RespondBackup, segment_keys.
  assert (zlen (seqZ (start_key_ s) (parameter_length_ s)) = parameter_length_ s) as Hl
    by (rewrite length_seqZ; lia).
  rewrite <- Hl at 1.
  rewrite (for_pairs _ _ (param_of s)).
  - cbn [mbind res_bind]. do 4 f_equal. apply list_eq_same_length with (length (parameters_ s)).
    { done. } { rewrite length_fmap, length_seqZ. lia. }
    intros i x y Hi Hx Hy. rewrite list_lookup_fmap in Hx.
    apply fmap_Some in Hx as (k & Hk & ->). apply lookup_seqZ in Hk as [-> Hk].
    unfold param_of. replace (Z.to_nat (start_key_ s + Z.of_nat i - start_key_ s)) with i by lia.
    by rewrite Hy.
  - intros i k a b Hi Hk. apply lookup_seqZ in Hk as [-> Hk]. rewrite Z2Nat.id in * by lia.
    unfold add32. rewrite i32_Ok by (unfold kInt32Min; lia). cbn [mbind res_bind].
    replace i with (start_key_ s + i - start_key_ s) at 1 by lia.
    rewrite param_lookup by (done || unfold in_segment; lia). done.
Qed.

(** The slot of [backup_parameters_] for the server at ring index [i]. *)
Definition backup_slot s (i : Z) : Z := (local_index_ s - 1 - i) mod server_num_ s.

Lemma Backup_Ok s m i :
  ring_inv s → servers_ s !! send_id m = Some i → 0 ≤ i < server_num_ s →
  backup_slot s i < zlen (backup_parameters_ s) →
  Backup m s = Ok (s <| backup_parameters_ ::=
    <[ Z.to_nat (backup_slot s i) := values (request_msg m) ]> |>).
Proof.
  intros [Hn Hids Hl Hb] Hi Hir Hslot. unfold Backup.
  rewrite (map_at_Some _ _ _ i) by done. cbv zeta.
  replace (s <| servers_ := servers_ s |>) with s by by destruct s.
  assert (0 ≤ backup_slot s i < server_num_ s) by (apply Z.mod_pos_bound; lia).
  unfold sub32. rewrite i32_Ok by (unfold kInt32Min, kInt32Max; lia). cbn [mbind res_bind].
  rewrite ring_sub_Ok by (unfold kInt32Min, kInt32Max; lia). cbn [mbind res_bind].
  fold (backup_slot s i).
  destruct (vec_get_lt (backup_parameters_ s) (backup_slot s i)) as (b & -> & _); [lia|].
  cbn [mbind res_bind].
  set (vs := values (request_msg m)).
  set (b0 := if zlen b =? zlen vs then b else replicate (length vs) f0).
  assert (length b0 = length vs) as Hb0.
  { unfold b0. destruct (Z.eqb_spec (zlen b) (zlen vs)); [lia|]. apply length_replicate. }
  assert (for_ 0 (zlen vs) (λ i b, v ← proto_get vs i; vec_set b i v) b0 = Ok vs) as ->.
  { destruct (proj1 (returns_elim (for_ 0 (zlen vs) (λ i b, v ← proto_get vs i; vec_set b i v) b0)
      (λ a, a = vs))) as (? & -> & ->); [|done].
    apply (returns_mono _ (λ a, a = take (Z.to_nat (zlen vs)) vs ++ drop (Z.to_nat (zlen vs)) b0)); last first.
    { intros ? ->. by rewrite take_ge, drop_ge, app_nil_r by lia. }
    apply (for_inv (λ j a, a = take (Z.to_nat j) vs ++ drop (Z.to_nat j) b0)); [lia|done|].
    intros j a Hj ->. destruct (lookup_lt_is_Some_2 vs (Z.to_nat j)) as [v Hv]; [lia|].
    destruct (lookup_lt_is_Some_2 b0 (Z.to_nat j)) as [w Hw]; [lia|].
    rewrite (proto_get_Ok _ j v) by (done || lia). cbn [mbind res_bind].
    rewrite vec_set_Ok by (rewrite length_app, length_take, length_drop; lia). simpl.
    replace (Z.to_nat (j + 1)) with (S (Z.to_nat j)) by lia.
    rewrite (take_S_r _ _ v), (drop_S _ w) by done.
    rewrite insert_app_r_alt by (rewrite length_take; lia).
    rewrite length_take, Nat.min_l, Nat.sub_diag by lia. simpl. by rewrite <- app_assoc. }
  cbn [mbind res_bind]. rewrite vec_set_Ok by lia. done.
Qed.

(** ** The message loop *)

(** The fields no push, pull or backup message changes. *)
Record same_setup s s' : Prop := mksetup {
  ss_start : start_key_ s' = start_key_ s;
  ss_len : parameter_length_ s' = parameter_length_ s;
  ss_range : key_range_ s' = key_range_ s;
  ss_servers : servers_ s' = servers_ s;
  ss_agents : agent_ids_ s' = agent_ids_ s;
  ss_index : id_to_index_ s' = id_to_index_ s;
  ss_num : server_num_ s' = server_num_ s;
  ss_local : local_index_ s' = local_index_ s;
  ss_bound : consistency_bound_ s' = consistency_bound_ s;
  ss_backups : length (backup_parameters_ s') = length (backup_parameters_ s);
  ss_count : agent_num_ s' = agent_num_ s;
  ss_id : local_id_ s' = local_id_ s;
}.

Lemma same_setup_trans s1 s2 s3 : same_setup s1 s2 → same_setup s2 s3 → same_setup s1 s3.
Proof. intros [] []. constructor; congruence. Qed.

(** What the server is meant to receive between two reconfigurations:
    requests on keys of its segment (pulls only of those that do not wrap, since
    a blocked pull is answered without the wrap), backup traffic from the servers it backs
    up or is backed up by, and messages it ignores. *)
Inductive expected s (m : Message) : Prop :=
| ex_push :
    servers_ s !! send_id m = None → message_type m = mt_request →
    request_type (request_msg m) = rt_key_value →
    push_ok (start_key_ s) (parameter_length_ s) (request_msg m) → expected s m
| ex_pull :
    servers_ s !! send_id m = None → message_type m = mt_request →
    request_type (request_msg m) = rt_key → zlen (keys (request_msg m)) ≤ kInt32Max →
    Forall (plain_key s) (keys (request_msg m)) → expected s m
| ex_ignored :
    servers_ s !! send_id m = None → message_type m ≠ mt_request → message_type m ≠ mt_config →
    expected s m
| ex_backup_request i :
    servers_ s !! send_id m = Some i → request_msg_ m = None → expected s m
| ex_backup i :
    servers_ s !! send_id m = Some i → is_Some (request_msg_ m) → 0 ≤ i < server_num_ s →
    backup_slot s i < zlen (backup_parameters_ s) → expected s m.

Lemma expected_setup s s' m : same_setup s s' → expected s m → expected s' m.
Proof.
  intros [E1 E2 Er E3 _ _ E4 E5 _ E6]. unfold backup_slot, plain_key in *.
  intros []; [eapply ex_push|eapply ex_pull|eapply ex_ignored|eapply ex_backup_request|eapply ex_backup];
    unfold backup_slot, plain_key in *; rewrite ?E1, ?E2, ?Er, ?E3, ?E4, ?E5, ?E6; eauto.
Qed.

Definition on_circle s : Prop :=
  0 ≤ start_key_ s < key_range_ s ∧ key_range_ s ≤ kInt32Max.

Lemma push_outcome_setup s i b u s' : push_outcome s i b u s' → same_setup s s'.
Proof. by intros []. Qed.

Lemma push_outcome_version s i b u s' :
  push_outcome s i b u s' → bottom_version_ s ≤ bottom_version_ s' ≤ bottom_version_ s + 1.
Proof. intros []; cbn; lia. Qed.

(** The agent whose push a message is, by its index. *)
Definition push_of s (m : Message) : option nat :=
  if bool_decide (servers_ s !! send_id m = None) && bool_decide (message_type m = mt_request) &&
     bool_decide (request_type (request_msg m) = rt_key_value) && bool_decide (send_id m ∈ agent_ids_ s)
  then Z.to_nat <$> id_to_index_ s !! send_id m else None.

(** What the contract of Ssp.v says a message does to the clocks. *)
Definition spec_step s (c : list Z) (m : Message) : list Z :=
  match push_of s m with Some i => Ssp.push (consistency_bound_ s) i c | None => c end.

Lemma spec_step_setup s s' c m : same_setup s s' → spec_step s' c m = spec_step s c m.
Proof. intros [E1 E2 _ E3 E4 E5 E6 _ E7 _]. unfold spec_step, push_of. by rewrite E3, E4, E5, E7. Qed.

(** What [handle] did with a message: a push, or nothing to parameters, pending
    updates and version. *)
Inductive handled s (m : Message) s' : Prop :=
| handled_push i b u :
    push_of s m = Some i → version_buffer_ s !! i = Some b →
    push_ok (start_key_ s) (parameter_length_ s) (request_msg m) → worker_update (request_msg m) = Ok u →
    update_ok (start_key_ s) (parameter_length_ s) u → push_outcome s i b u s' → handled s m s'
| handled_other :
    push_of s m = None → parameters_ s' = parameters_ s → version_buffer_ s' = version_buffer_ s →
    bottom_version_ s' = bottom_version_ s → inv s' → same_setup s s' → handled s m s'.

Lemma push_of_push s m i :
  servers_ s !! send_id m = None → message_type m = mt_request →
  request_type (request_msg m) = rt_key_value → send_id m ∈ agent_ids_ s →
  id_to_index_ s !! send_id m = Some (Z.of_nat i) → push_of s m = Some i.
Proof. intros Hs Ht Hr Hin Hi. unfold push_of. rewrite !bool_decide_eq_true_2 by done. rewrite Hi. cbn. by rewrite Nat2Z.id. Qed.

Lemma push_of_other s m :
  servers_ s !! send_id m ≠ None ∨ message_type m ≠ mt_request ∨
  request_type (request_msg m) ≠ rt_key_value ∨ send_id m ∉ agent_ids_ s →
  push_of s m = None.
Proof.
  intros Hor. unfold push_of.
  destruct Hor as [Hn|[Hn|[Hn|Hn]]]; rewrite (bool_decide_eq_false_2 _ Hn), ?andb_false_r; done.
Qed.

Lemma handle_Ok s m :
  inv s → on_circle s → bottom_version_ s < kInt32Max → expected s m → ∃ s', handle m s = Ok s' ∧ handled s m s'.
Proof.
  intros Hinv (Hc1 & Hc2) Hver Hm. unfold handle.
  destruct Hm as [Hs Ht Hrt Hpush|Hs Ht Hrt Hlen Hkeys|Hs Ht1 Ht2|i Hs Hr|i Hs Hr Hi Hslot].
  - rewrite Hs, bool_decide_eq_false_2, bool_decide_eq_true_2 by (by apply is_Some_None || done).
    rewrite Hrt. destruct (decide (send_id m ∈ agent_ids_ s)) as [Hin|Hnin].
    + destruct (ServePush_Ok s _ _ Hinv Hin Hpush Hver) as (i & b & u & s' & Hi & Hb & Hw & Hu & _ & -> & Hout).
      exists s'. split; [done|]. eapply handled_push; [by apply (push_of_push s m i)|done..].
    + exists s. unfold ServePush. rewrite bool_decide_eq_true_2 by done.
      split; [done|]. apply handled_other; try done. apply push_of_other. tauto.
  - rewrite Hs, bool_decide_eq_false_2, bool_decide_eq_true_2 by (by apply is_Some_None || done).
    rewrite Hrt. destruct (ServePull_inv s (send_id m) (request_msg m)) as (c & q & -> & Hinv'); try done.
    eexists. split; [done|]. apply handled_other; try done. apply push_of_other. do 2 right. left. by rewrite Hrt.
  - rewrite Hs, !bool_decide_eq_false_2 by (by apply is_Some_None || done).
    exists s. split; [done|]. apply handled_other; try done. apply push_of_other. tauto.
  - rewrite Hs, bool_decide_eq_true_2 by eauto. unfold has_request_msg.
    rewrite Hr, bool_decide_eq_false_2 by apply is_Some_None.
    rewrite RespondBackup_Ok by (apply Hinv). eexists. split; [done|].
    apply handled_other; try done; [apply push_of_other; left; by rewrite Hs|].
    destruct Hinv as [[? [] [] [] ?] ?]. split; [|done]. constructor; first [done|by constructor].
  - rewrite Hs, bool_decide_eq_true_2 by eauto. unfold has_request_msg.
    rewrite bool_decide_eq_true_2 by done.
    rewrite (Backup_Ok s m i); [|apply Hinv|done|done|done]. eexists. split; [done|].
    apply handled_other; try done; [apply push_of_other; left; by rewrite Hs| |].
    + destruct Hinv as [[? [] [] [] ?] ?]. split; [|done]. constructor; first [done|by constructor].
    + constructor; try done. apply length_insert.
Qed.

(** What all handlers keep. *)
Lemma handled_inv s m s' :
  inv s → handled s m s' →
  inv s' ∧ same_setup s s' ∧ bottom_version_ s ≤ bottom_version_ s' ≤ bottom_version_ s + 1 ∧
  abs s' = spec_step s (abs s) m.
Proof.
  intros Hinv [i b u Hp Hb _ _ Hu Hout|Hp _ Hvb Hv Hinv' Hset]; unfold spec_step; rewrite Hp.
  - destruct (push_outcome_inv s i b u s' Hinv Hb Hu Hout) as [Hinv' Habs].
    split_and!; [done|by eapply push_outcome_setup|by eapply push_outcome_version..|done].
  - split_and!; [done|done|lia..|]. unfold abs. by rewrite Hvb, Hv.
Qed.

Lemma handle_inv s m :
  inv s → on_circle s → bottom_version_ s < kInt32Max → expected s m →
  ∃ s', handle m s = Ok s' ∧ inv s' ∧ same_setup s s' ∧
    bottom_version_ s ≤ bottom_version_ s' ≤ bottom_version_ s + 1 ∧ abs s' = spec_step s (abs s) m.
Proof.
  intros Hinv Hc Hver Hm. destruct (handle_Ok s m Hinv Hc Hver Hm) as (s' & Hs' & Hh).
  exists s'. split; [done|]. by apply handled_inv.
Qed.

Lemma spec_run_setup s s' c ms : same_setup s s' → foldl (spec_step s') c ms = foldl (spec_step s) c ms.
Proof.
  intros Hset. revert c. induction ms as [|m ms IH]; intros c; [done|].
  cbn. by rewrite (spec_step_setup s s'), IH.
Qed.

(** The main loop over the messages of one configuration. *)
Lemma Start_Ok s ms :
  inv s → on_circle s → Forall (expected s) ms → bottom_version_ s + zlen ms ≤ kInt32Max →
  ∃ s', Start ms s = Ok s' ∧ inv s' ∧ same_setup s s' ∧
    abs s' = foldl (spec_step s) (abs s) ms ∧ bottom_version_ s ≤ bottom_version_ s'.
Proof.
  unfold Start. revert s. induction ms as [|m ms IH]; intros s Hinv Hcircle Hms Hver.
  { exists s. split_and!; [done|done|by constructor|done|lia]. }
  inversion_clear Hms as [|? ? Hm Hms']. rewrite length_cons in Hver. simpl.
  destruct (handle_inv s m Hinv Hcircle ltac:(lia) Hm) as (s1 & -> & Hinv1 & Hset & Hv1 & Ha1). cbn [mbind res_bind].
  destruct (IH s1) as (s' & Hs' & Hinv' & Hset' & Ha' & Hv'); [done| | |lia|].
  - unfold on_circle in *. by rewrite (ss_start _ _ Hset), (ss_range _ _ Hset).
  - eapply Forall_impl; [done|]. intros. by eapply expected_setup.
  - exists s'. split_and!; [done|done|by eapply same_setup_trans| |lia].
    rewrite Ha', Ha1. by apply spec_run_setup.
Qed.
End pull.
