(* ===== verification/ServerInit.v ===== *)
(** * Initialisation establishes the invariant

    [configure] on a configuration the master is meant to send: one
    id and one partition point per server, and at least one agent. *)

From S2P Require Import Prelude CppStd Float32 Messages Communicator KeyValueList Ssp Server.
From S2P Require Import ServerMerge ServerInv.
From stdpp Require Import options.

Import Server.

(** ** Well-formed configurations *)

Record config_ok (c : ConfigMessage) : Prop := mkconfig_ok {
  cf_servers : 0 < server_num c < 2 ^ 30;
  cf_server_ids : zlen (server_id c) = server_num c;
  cf_nodup : NoDup (server_id c);
  cf_partition : zlen (partition c) = server_num c;
  cf_range : 0 < key_range c ≤ 2 ^ 30;
  cf_points : Forall (λ x, 0 ≤ x < key_range c) (partition c);
  cf_backup : 0 ≤ backup_size c < server_num c;
  cf_workers : 0 < worker_num c ≤ kInt32Max;
  cf_worker_ids : zlen (worker_id c) = worker_num c;
  cf_bound : 0 < bound c ≤ kInt32Max;
}.

(** The first key of a server, and the number of keys the server is
    configured with. *)
Definition point (c : ConfigMessage) (i : Z) : Z := partition c !!! Z.to_nat i.
Definition arc_len (c : ConfigMessage) (i : Z) : Z :=
  (point c ((i + 1) mod server_num c) - point c i) mod key_range c.

Section points.
Context (c : ConfigMessage) (Hok : config_ok c).

Lemma point_get i : 0 ≤ i < server_num c → proto_get (partition c) i = Ok (point c i).
Proof using Hok.
  intros Hi. pose proof (cf_partition c Hok).
  destruct (lookup_lt_is_Some_2 (partition c) (Z.to_nat i)) as [x Hx]; [lia|].
  rewrite (proto_get_Ok _ i x) by (done || lia). unfold point.
  by erewrite list_lookup_total_correct.
Qed.

Lemma point_range i : 0 ≤ i < server_num c → 0 ≤ point c i < key_range c.
Proof using Hok.
  intros Hi. pose proof (point_get i Hi) as Hg. apply proto_get_inv in Hg as [_ Hl].
  pose proof (cf_points c Hok) as Hf. rewrite Forall_lookup in Hf. by eapply Hf.
Qed.

Lemma next_index_Ok i : 0 ≤ i < server_num c → next_index i (server_num c) = Ok ((i + 1) mod server_num c).
Proof using Hok.
  intros Hi. pose proof (cf_servers c Hok). unfold next_index, add32.
  rewrite i32_Ok by (unfold kInt32Min, kInt32Max; lia). simpl. by rewrite rem32_nonneg by lia.
Qed.

Lemma next_range i : 0 ≤ (i + 1) mod server_num c < server_num c.
Proof using Hok. pose proof (cf_servers c Hok). apply Z.mod_pos_bound. lia. Qed.

Lemma arc_ring_sub i :
  0 ≤ i < server_num c →
  ring_sub (point c ((i + 1) mod server_num c)) (point c i) (key_range c) = Ok (arc_len c i).
Proof using Hok.
  intros Hi. pose proof (cf_range c Hok). pose proof (point_range i Hi).
  pose proof (point_range _ (next_range i)).
  apply ring_sub_Ok; unfold kInt32Min, kInt32Max in *; lia.
Qed.

Lemma arc_len_range i : 0 ≤ arc_len c i < key_range c.
Proof using Hok. pose proof (cf_range c Hok). apply Z.mod_pos_bound. lia. Qed.

Lemma arc_length_Ok i :
  0 ≤ i < server_num c →
  arc_length c i ((i + 1) mod server_num c) (key_range c) = Ok (arc_len c i).
Proof using Hok.
  intros Hi. unfold arc_length. rewrite (point_get _ (next_range i)). simpl.
  rewrite (point_get i Hi). simpl. by apply arc_ring_sub.
Qed.
End points.

Section init.
Set Default Proof Using "Type*".
Context {C : Type} `{CommunicatorLaws C}.
Implicit Types s : Server C.

(** ** The loop over the servers *)

(** Server [id] is recorded at index [i] exactly when it is the [i]-th of the
    first [k] servers. *)
Definition records (c : ConfigMessage) (k : Z) (m : gmap Z Z) : Prop :=
  ∀ id i, m !! id = Some i ↔ 0 ≤ i < k ∧ server_id c !! Z.to_nat i = Some id.

Lemma records_insert c k m id :
  NoDup (server_id c) → 0 ≤ k → server_id c !! Z.to_nat k = Some id → records c k m →
  records c (k + 1) (map_insert_new id k m).
Proof.
  intros Hnd Hk Hid Hm. unfold map_insert_new.
  destruct (m !! id) as [j|] eqn:Hj.
  { apply Hm in Hj as [Hj Hj']. pose proof (NoDup_lookup _ _ _ _ Hnd Hid Hj'). lia. }
  intros id' i. rewrite lookup_insert. case_decide as Hc; [subst id'|].
  - split; [intros [= <-]; split; [lia|done]|]. intros [Hi Hi'].
    pose proof (NoDup_lookup _ _ _ _ Hnd Hid Hi'). f_equal. lia.
  - rewrite (Hm id' i). split; [intros []; split; [lia|done]|]. intros [Hi Hi']. split; [|done].
    destruct (decide (i = k)) as [->|]; [congruence|lia].
Qed.

(** The zero vectors for the segments of the predecessors. *)
Definition zero_backups (c : ConfigMessage) (i n : Z) : list (list float32) :=
  (λ j, replicate (Z.to_nat (arc_len c ((i - j) mod server_num c))) f0) <$> seqZ 1 n.

(** The fields that the turn for the local server sets. *)
Definition set_local (c : ConfigMessage) (i : Z) s : Server C :=
  s <| local_index_ := i |> <| start_key_ := point c i |> <| parameter_length_ := arc_len c i |>
    <| backup_parameters_ ::= λ l, l ++ zero_backups c i (backup_size_ s) |>.

Lemma backup_loop_Ok c i s :
  config_ok c → 0 ≤ i < server_num c → server_num_ s = server_num c →
  key_range_ s = key_range c → backup_size_ s = backup_size c →
  for_ 1 (backup_size_ s + 1) (λ j s,
      target ← ring_sub i j (server_num_ s);
      t1 ← next_index target (server_num_ s);
      len ← arc_length c target t1 (key_range_ s);
      v ← float_vector len;
      mret (s <| backup_parameters_ ::= λ l, l ++ [v] |>)) s
  = Ok (s <| backup_parameters_ ::= λ l, l ++ zero_backups c i (backup_size_ s) |>).
Proof.
  intros Hok Hi Hn Hr Hb. pose proof (cf_servers c Hok). pose proof (cf_backup c Hok).
  destruct (proj1 (returns_elim (for_ 1 (backup_size_ s + 1) (λ j s,
      target ← ring_sub i j (server_num_ s);
      t1 ← next_index target (server_num_ s);
      len ← arc_length c target t1 (key_range_ s);
      v ← float_vector len;
      mret (s <| backup_parameters_ ::= λ l, l ++ [v] |>)) s)
    (λ s', s' = s <| backup_parameters_ ::= λ l, l ++ zero_backups c i (backup_size_ s + 1 - 1) |>)))
    as (s' & -> & ->).
  - apply (for_inv (λ j s', s' = s <| backup_parameters_ ::= λ l, l ++ zero_backups c i (j - 1) |>));
      [lia|unfold zero_backups; cbn; rewrite app_nil_r; by destruct s|].
    intros j s' Hj ->. cbn. rewrite Hn, Hr.
    assert (0 ≤ (i - j) mod server_num c < server_num c) as Hmod by (apply Z.mod_pos_bound; lia).
    rewrite ring_sub_Ok by (unfold kInt32Min, kInt32Max; lia). cbn.
    rewrite (next_index_Ok c Hok) by done. cbn. rewrite (arc_length_Ok c Hok) by done. cbn.
    pose proof (arc_len_range c Hok ((i - j) mod server_num c)).
    unfold float_vector. destruct (Z.ltb_spec (arc_len c ((i - j) mod server_num c)) 0); [lia|]. cbn.
    f_equal. unfold zero_backups. replace (j + 1 - 1) with ((j - 1) + 1) by lia.
    rewrite seqZ_app, fmap_app, app_assoc by lia.
    replace (1 + (j - 1)) with j by lia. done.
  - f_equal. by replace (backup_size_ s + 1 - 1) with (backup_size_ s) by lia.
Qed.

Lemma init_turn_other c k x s found :
  server_id c !! Z.to_nat k = Some x → 0 ≤ k → x ≠ local_id_ s →
  init_server_id c k (s, found) =
    Ok (s <| server_ids_ ::= λ l, l ++ [x] |> <| servers_ ::= map_insert_new x k |>, found).
Proof.
  intros Hx Hk Hne. unfold init_server_id.
  rewrite (proto_get_Ok (server_id c) k x) by done. cbn [mbind res_bind].
  cbn. by destruct (Z.eqb_spec x (local_id_ s)).
Qed.

Lemma init_turn_local c i s found :
  config_ok c → 0 ≤ i < server_num c → server_id c !! Z.to_nat i = Some (local_id_ s) →
  server_num_ s = server_num c → key_range_ s = key_range c → backup_size_ s = backup_size c →
  init_server_id c i (s, found) =
    Ok (set_local c i (s <| server_ids_ ::= λ l, l ++ [local_id_ s] |>
                         <| servers_ ::= map_insert_new (local_id_ s) i |>), true).
Proof.
  intros Hok Hi Hx Hn Hr Hb. unfold init_server_id.
  rewrite (proto_get_Ok (server_id c) i (local_id_ s)) by (done || lia). cbn [mbind res_bind].
  set (s1 := s <| server_ids_ ::= _ |> <| servers_ ::= _ |>).
  change (local_id_ s1) with (local_id_ s). rewrite Z.eqb_refl.
  rewrite (point_get c Hok i Hi). cbn [mbind res_bind].
  change (server_num_ s1) with (server_num_ s). rewrite Hn, (next_index_Ok c Hok i Hi).
  cbn [mbind res_bind]. rewrite (point_get c Hok _ (next_range c Hok i)). cbn [mbind res_bind].
  change (key_range_ s1) with (key_range_ s). rewrite Hr, (arc_ring_sub c Hok i Hi).
  cbn [mbind res_bind]. cbv zeta.
  by rewrite (backup_loop_Ok c i) by done.
Qed.

(** Both loops over the servers (of [Initialize] and [Reconfigure]): a turn
    for another server records it, the local one also moves [s] to [s']. *)
Definition recording (l : list Z) (sv : gmap Z Z) s : Server C :=
  s <| server_ids_ := l |> <| servers_ := sv |>.

Lemma server_turns_Ok c i s s' (turn : Z → Server C * bool → res (Server C * bool)) :
  config_ok c → 0 ≤ i < server_num c → server_id c !! Z.to_nat i = Some (local_id_ s) →
  server_ids_ s = [] → servers_ s = ∅ →
  (∀ k x l sv t found, server_id c !! Z.to_nat k = Some x → 0 ≤ k → x ≠ local_id_ s → t ∈ [s; s'] →
     turn k (recording l sv t, found) = Ok (recording (l ++ [x]) (map_insert_new x k sv) t, found)) →
  (∀ l sv, turn i (recording l sv s, false) =
     Ok (recording (l ++ [local_id_ s]) (map_insert_new (local_id_ s) i sv) s', true)) →
  for_ 0 (server_num c) turn (s, false) ⇓ λ st, ∃ sv,
    st = (recording (server_id c) sv s', true) ∧ records c (server_num c) sv.
Proof.
  intros Hok Hi Hid Hids Hsv Hother Hlocal. pose proof (cf_server_ids c Hok) as Hlen.
  pose proof (cf_nodup c Hok) as Hnd.
  set (P := λ (k : Z) (st : Server C * bool), ∃ sv,
    st = (recording (take (Z.to_nat k) (server_id c)) sv (if bool_decide (i < k) then s' else s),
          bool_decide (i < k)) ∧ records c k sv).
  apply (returns_mono _ (P (server_num c))); last first.
  { intros st (sv & -> & Hrec). exists sv. by rewrite bool_decide_eq_true_2, take_ge by lia. }
  apply (for_inv P); [lia| |].
  { exists ∅. rewrite bool_decide_eq_false_2 by lia. split.
    - unfold recording. destruct s; cbn in *. by rewrite Hids, Hsv.
    - intros id j. rewrite lookup_empty. split; [done|lia]. }
  intros k st Hk (sv & -> & Hrec). unfold P.
  destruct (lookup_lt_is_Some_2 (server_id c) (Z.to_nat k)) as [x Hx]; [lia|].
  pose proof (records_insert c k sv x Hnd ltac:(lia) Hx Hrec) as Hrec'.
  replace (Z.to_nat (k + 1)) with (S (Z.to_nat k)) by lia. rewrite (take_S_r _ _ x) by done.
  destruct (decide (x = local_id_ s)) as [->|Hne].
  - assert (k = i) as -> by (pose proof (NoDup_lookup _ _ _ _ Hnd Hid Hx); lia).
    rewrite (bool_decide_eq_false_2 (i < i)), (bool_decide_eq_true_2 (i < i + 1)) by lia.
    rewrite Hlocal. by exists (map_insert_new (local_id_ s) i sv).
  - assert (bool_decide (i < k + 1) = bool_decide (i < k)) as ->.
    { apply bool_decide_ext. split; [|lia]. intros. assert (k ≠ i) by congruence. lia. }
    rewrite (Hother k x) by (first [done|lia|by case_bool_decide; set_solver]).
    by exists (map_insert_new x k sv).
Qed.

Lemma server_loop_Ok c i s :
  config_ok c → 0 ≤ i < server_num c → server_id c !! Z.to_nat i = Some (local_id_ s) →
  server_num_ s = server_num c → key_range_ s = key_range c → backup_size_ s = backup_size c →
  server_ids_ s = [] → servers_ s = ∅ →
  for_ 0 (server_num c) (init_server_id c) (s, false) ⇓ λ st, ∃ sv,
    st = (recording (server_id c) sv (set_local c i s), true) ∧ records c (server_num c) sv.
Proof.
  intros Hok Hi Hid Hn Hr Hb Hids Hsv. apply (server_turns_Ok c i); try done.
  - intros k x l sv t found Hx Hk Hne Ht. apply init_turn_other; try done.
    by repeat (apply elem_of_cons in Ht as [->|Ht]); [..|apply elem_of_nil in Ht].
  - intros l sv. by apply (init_turn_local c i).
Qed.

(** ** The other loops *)

Lemma address_loop_Ok c s :
  for_ 1 (zlen (node_ip_port c)) (λ i s,
    a ← proto_get (node_ip_port c) i;
    mret (s <| sender_ ::= λ ch, (AddIdAddr i a ch).2 |>)) s ⇓ λ s', ∃ ch,
    s' = s <| sender_ := ch |> ∧ outbox ch = outbox (sender_ s).
Proof.
  destruct (Z.le_gt_cases 1 (zlen (node_ip_port c))) as [Hle|Hlt]; last first.
  { rewrite for_empty by lia. exists (sender_ s). by destruct s. }
  apply (for_inv (λ _ s', ∃ ch, s' = s <| sender_ := ch |> ∧ outbox ch = outbox (sender_ s)));
    [done|exists (sender_ s); by destruct s|].
  intros i s' Hi (ch & -> & Hout).
  destruct (lookup_lt_is_Some_2 (node_ip_port c) (Z.to_nat i)) as [a Ha]; [lia|].
  rewrite (proto_get_Ok _ i a) by (done || lia). cbn.
  eexists. split; [done|]. by rewrite AddIdAddr_outbox.
Qed.

Lemma agent_loop_Ok c s :
  for_ 0 (zlen (worker_id c)) (λ i s,
    w ← proto_get (worker_id c) i; mret (s <| agent_ids_ ::= λ a, {[ w ]} ∪ a |>)) s
  = Ok (s <| agent_ids_ ::= λ a, list_to_set (worker_id c) ∪ a |>).
Proof.
  destruct (proj1 (returns_elim (for_ 0 (zlen (worker_id c)) (λ i s,
    w ← proto_get (worker_id c) i; mret (s <| agent_ids_ ::= λ a, {[ w ]} ∪ a |>)) s)
    (λ s', s' = s <| agent_ids_ := list_to_set (take (Z.to_nat (zlen (worker_id c))) (worker_id c)) ∪ agent_ids_ s |>)))
    as (s' & -> & ->); [|by rewrite take_ge by lia].
  apply (for_inv (λ i s', s' = s <| agent_ids_ := list_to_set (take (Z.to_nat i) (worker_id c)) ∪ agent_ids_ s |>));
    [lia| |].
  { cbn. destruct s. cbn. f_equal. set_solver. }
  intros i s' Hi ->.
  destruct (lookup_lt_is_Some_2 (worker_id c) (Z.to_nat i)) as [w Hw]; [lia|].
  rewrite (proto_get_Ok _ i w) by (done || lia). cbn.
  replace (Z.to_nat (i + 1)) with (S (Z.to_nat i)) by lia. rewrite (take_S_r _ _ w) by done.
  rewrite list_to_set_app_L. f_equal. set_solver.
Qed.

Lemma master_loop_Ok c s :
  for_ 0 (zlen (master_id c)) (λ i s,
    m ← proto_get (master_id c) i; mret (s <| master_ids_ ::= λ l, l ++ [m] |>)) s
  = Ok (s <| master_ids_ ::= λ l, l ++ master_id c |>).
Proof.
  destruct (proj1 (returns_elim (for_ 0 (zlen (master_id c)) (λ i s,
    m ← proto_get (master_id c) i; mret (s <| master_ids_ ::= λ l, l ++ [m] |>)) s)
    (λ s', s' = s <| master_ids_ := master_ids_ s ++ take (Z.to_nat (zlen (master_id c))) (master_id c) |>)))
    as (s' & -> & ->); [|by rewrite take_ge by lia].
  apply (for_inv (λ i s', s' = s <| master_ids_ := master_ids_ s ++ take (Z.to_nat i) (master_id c) |>));
    [lia|cbn; rewrite app_nil_r; by destruct s|].
  intros i s' Hi ->.
  destruct (lookup_lt_is_Some_2 (master_id c) (Z.to_nat i)) as [w Hw]; [lia|].
  rewrite (proto_get_Ok _ i w) by (done || lia). cbn.
  replace (Z.to_nat (i + 1)) with (S (Z.to_nat i)) by lia. by rewrite (take_S_r _ _ w), app_assoc.
Qed.

(** The index of every agent is its position in the configuration. *)
Definition indexes (c : ConfigMessage) (k : Z) (m : gmap Z Z) : Prop :=
  (∀ id i, m !! id = Some i → 0 ≤ i < k ∧ worker_id c !! Z.to_nat i = Some id) ∧
  (∀ i id, 0 ≤ i < k → worker_id c !! Z.to_nat i = Some id → is_Some (m !! id)).

Lemma index_loop_Ok c s n :
  0 ≤ n ≤ zlen (worker_id c) → id_to_index_ s = ∅ →
  for_ 0 n (λ i s,
    w ← proto_get (worker_id c) i; mret (s <| id_to_index_ ::= <[ w := i ]> |>)) s ⇓ λ s', ∃ m,
    s' = s <| id_to_index_ := m |> ∧ indexes c n m.
Proof.
  intros Hn Hm0. apply (for_inv (λ i s', ∃ m, s' = s <| id_to_index_ := m |> ∧ indexes c i m)); [lia| |].
  { exists ∅. split; [rewrite <- Hm0; by destruct s|]. split; [by intros ?? []%lookup_empty_Some|lia]. }
  intros i s' Hi (m & -> & Hm1 & Hm2).
  destruct (lookup_lt_is_Some_2 (worker_id c) (Z.to_nat i)) as [w Hw]; [lia|].
  rewrite (proto_get_Ok _ i w) by (done || lia). cbn. eexists. split; [done|]. split.
  - intros id j. rewrite lookup_insert. case_decide; [intros [= <-]; subst; split; [lia|done]|].
    intros Hj. specialize (Hm1 id j Hj). split; [lia|tauto].
  - intros j id Hj Hid. rewrite lookup_insert. case_decide as Hc; [done|].
    apply (Hm2 j); [|done]. destruct (decide (j = i)) as [->|]; [congruence|lia].
Qed.

(** ** [configure] *)

(** What the configuration [c] makes of the server listed at index [i]. *)
Record configured (c : ConfigMessage) (i : Z) s : Prop := mkconfigured {
  cd_local : local_index_ s = i;
  cd_start : start_key_ s = point c i;
  cd_length : parameter_length_ s = arc_len c i;
  cd_range : key_range_ s = key_range c;
  cd_bound : consistency_bound_ s = bound c;
  cd_servers : records c (server_num c) (servers_ s);
  cd_agents : agent_ids_ s = list_to_set (worker_id c);
  cd_index : indexes c (worker_num c) (id_to_index_ s);
  cd_params : parameters_ s = replicate (Z.to_nat (arc_len c i)) f0;
  cd_backups : backup_parameters_ s = zero_backups c i (backup_size c);
  cd_version : bottom_version_ s = 0;
  cd_clocks : abs s = replicate (Z.to_nat (worker_num c)) 0;
  cd_id : server_id c !! Z.to_nat i = Some (local_id_ s);
}.

Definition final c i (s0 : Server C) (ch : C) sv ix : Server C :=
  mkServer ch (local_address_ s0) i (local_id_ s0) (point c i) (arc_len c i) (bound c) 0
    (worker_num c) (server_num c) (key_range c) (backup_size c) (master_id c) (server_id c) sv
    (list_to_set (worker_id c)) (replicate (Z.to_nat (arc_len c i)) f0)
    (zero_backups c i (backup_size c)) (replicate (Z.to_nat (worker_num c)) [])
    (replicate (Z.to_nat (bound c)) 0) [] ix.

Lemma final_inv c i s0 ch sv ix :
  config_ok c → 0 ≤ i < server_num c → indexes c (worker_num c) ix → inv (final c i s0 ch sv ix).
Proof.
  intros Hok Hi [Hix1 Hix2]. pose proof (arc_len_range c Hok i). pose proof (point_range c Hok i Hi).
  destruct Hok. split; [constructor|].
  - constructor; cbn; [done|done|rewrite length_replicate; lia| |].
    + apply list_eq_same_length with (Z.to_nat (bound c)); rewrite ?length_fmap, ?length_seq, ?length_replicate; [done|done|].
      intros k x y Hk. rewrite lookup_replicate_2 by done. rewrite list_lookup_fmap, lookup_seq_lt by done.
      cbn. intros [= <-] [= <-]. rewrite ahead_zero; [done|]. apply Forall_replicate. cbn. lia.
    + apply Forall_replicate. cbn. lia.
  - constructor; cbn; [lia|lia|unfold kInt32Max; lia|rewrite length_replicate; lia| |constructor].
    by apply Forall_replicate.
  - by constructor.
  - constructor; cbn.
    + intros id Hid%elem_of_list_to_set%list_elem_of_lookup. destruct Hid as [j Hj].
      apply (Hix2 (Z.of_nat j)); [|by rewrite Nat2Z.id]. apply lookup_lt_Some in Hj. lia.
    + intros id j Hj. by apply (Hix1 id j).
  - done.
  - cbn. apply elem_of_replicate. split; [done|lia].
Qed.

(** The state at the head of the first loop of [configure]. *)
Definition start_state c (m : Message) (ch : C) (addr : string) : Server C :=
  mkServer ch addr 0 (recv_id m) 0 0 (bound c) 0 (worker_num c) (server_num c) 0 0
    [] [] ∅ ∅ [] [] [] [] [] ∅.

Lemma configure_Ok c m i (ch : C) (addr : string) :
  config_ok c → config_msg m = c → 0 ≤ i → server_id c !! Z.to_nat i = Some (recv_id m) →
  ∃ s, configure m ((new_server ch) <| local_address_ := addr |>) = Ok (s, true) ∧
    configured c i s ∧ inv s ∧ outbox (sender_ s) = outbox ch.
Proof.
  intros Hok Hc Hi0 Hid. pose proof (cf_server_ids c Hok). pose proof (lookup_lt_Some _ _ _ Hid).
  pose proof (cf_backup c Hok). pose proof (cf_worker_ids c Hok). pose proof (cf_workers c Hok).
  assert (0 ≤ i < server_num c) as Hi by lia.
  set (sI := (new_server ch) <| local_address_ := addr |>).
  enough (configure m sI ⇓ λ '(s, ok), ok = true ∧ configured c i s ∧ inv s ∧
    outbox (sender_ s) = outbox ch) as Hok'.
  { apply returns_elim in Hok' as ([s ok] & Hs & -> & ?). by exists s. }
  unfold configure. rewrite Hc. cbv zeta.
  match goal with |- context [for_ 1 (zlen _) _ ?s] => assert (s = start_state c m ch addr) as -> by done end.
  apply returns_bind. eapply returns_mono; [apply (address_loop_Ok c)|].
  intros s1 (ch1 & -> & Hout). cbn in Hout |- *.
  destruct (Z.ltb_spec (backup_size c) 0), (Z.leb_spec (server_num c) (backup_size c)); try lia.
  cbn [orb]. apply returns_bind. eapply returns_mono.
  { by apply (server_loop_Ok c i). }
  intros st (sv & -> & Hrec). cbn [negb]. 
  eapply returns_bind_Ok; [apply agent_loop_Ok|]. eapply returns_bind_Ok; [apply master_loop_Ok|].
  apply returns_bind. eapply returns_mono.
  { apply (index_loop_Ok c); [cbn; lia|done]. }
  intros s4 (ix & -> & Hix). split; [done|].
  match goal with |- configured _ _ ?s ∧ _ => assert (s = final c i (start_state c m ch addr) ch1 sv ix) as Hfin end.
  { cbn. rewrite (union_empty_r_L (list_to_set (worker_id c))). done. }
  rewrite Hfin. split_and!; [|by apply final_inv|done].
  constructor; cbn; try done. unfold abs. cbn. by rewrite fmap_replicate.
Qed.
End init.
