(* ===== verification/TaskConfigProps.v ===== *)
(** * Properties of the task configuration *)

From S2P Require Import Prelude CppStd Decimal Float32 Messages Communicator Partition Channel.
From S2P Require Import KeyValueList Ssp Server ServerMerge ServerInv ServerInit Agent AgentSort Slices AgentPush AgentPull.
From S2P Require Import AgentProps AgentConfig TaskConfig.
From stdpp Require Import options.

Import TaskConfig.

(** ** [ToMessage] *)

Lemma map_size_range (m : gmap Z string) n :
  0 ≤ n → (∀ id, is_Some (m !! id) ↔ 0 ≤ id < n) → Z.of_nat (size m) = n.
Proof.
  intros Hn Hm. assert (dom m = list_to_set (C := gset Z) (seqZ 0 n)) as Hdom.
  { apply set_eq. intros id. rewrite elem_of_dom, Hm, elem_of_list_to_set, elem_of_seqZ. lia. }
  rewrite <- size_dom, Hdom, size_list_to_set by apply NoDup_seqZ. rewrite length_seqZ. lia.
Qed.

Lemma set_loop_Ok (pairs : list (Z * string)) (l : list string) :
  NoDup pairs.*1 → Forall (λ p, 0 ≤ p.1 < zlen l) pairs →
  foldM (λ '(id, addr) l, proto_set l id addr) pairs l ⇓ λ l',
    length l' = length l ∧ Forall (λ p, l' !! Z.to_nat p.1 = Some p.2) pairs.
Proof.
  intros Hnd Hr. apply (foldM_inv (λ done l', length l' = length l ∧
    Forall (λ p, l' !! Z.to_nat p.1 = Some p.2) done)); [by split|].
  intros l1 [id addr] l2 l' -> [Hl Hdone].
  rewrite Forall_app, Forall_cons in Hr. destruct Hr as (Hr1 & Hid & _). cbn in Hid.
  rewrite fmap_app, fmap_cons in Hnd. cbn in Hnd.
  unfold proto_set. destruct (Z.ltb_spec id 0), (Z.leb_spec (zlen l') id); try lia. cbn.
  rewrite length_insert. split; [done|]. apply Forall_app. split.
  - apply Forall_forall. intros [id' addr'] Hin. cbn.
    rewrite Forall_forall in Hdone. pose proof (Hdone _ Hin) as Hd. cbn in Hd.
    destruct (decide (Z.to_nat id = Z.to_nat id')) as [Heq|Hne]; [|by rewrite list_lookup_insert_ne].
    exfalso. apply NoDup_app in Hnd as (_ & Hdisj & _). apply (Hdisj id'); [|].
    + apply list_elem_of_fmap. by exists (id', addr').
    + rewrite elem_of_cons. left.
      rewrite Forall_forall in Hr1. pose proof (Hr1 _ Hin) as Hid'. cbn in Hid'. lia.
  - constructor; [|done]. cbn. apply list_lookup_insert_eq. lia.
Qed.

(** Every node's address is where the receivers look it up: at its id. *)
Lemma ToMessage_Ok c :
  wf c → ∃ addrs, ToMessage c = Ok (mkConfig (worker_num_ c) (server_num_ c) (key_range_ c) addrs
      (partition_ c) (backup_size_ c) (server_id_ c) (agent_id_ c) (master_id_ c) (bound_ c)) ∧
    zlen addrs = node_id_ c ∧
    ∀ id, 0 ≤ id < node_id_ c → addrs !! Z.to_nat id = id_to_addr_ c !! id.
Proof.
  intros [Hn Ha _ _]. unfold ToMessage.
  assert (zlen (merge_sort by_id (map_to_list (id_to_addr_ c))).*2 = node_id_ c) as Hlen.
  { rewrite length_fmap, (merge_sort_Permutation by_id), length_map_to_list.
    by apply map_size_range. }
  pose proof (set_loop_Ok (map_to_list (id_to_addr_ c)) (merge_sort by_id (map_to_list (id_to_addr_ c))).*2) as Hl.
  apply returns_elim in Hl as (addrs & Hl & Hal & Hset).
  - rewrite Hl. cbn [mbind res_bind]. exists addrs. split_and!; [done|lia|].
    intros id Hid. destruct (proj2 (Ha id) Hid) as [a Hida]. rewrite Hida.
    rewrite Forall_forall in Hset. apply (Hset (id, a)). by apply elem_of_map_to_list.
  - apply NoDup_fst_map_to_list.
  - apply Forall_forall. intros [id a] Hin%elem_of_map_to_list. cbn. rewrite Hlen.
    apply Ha. eauto.
Qed.

(** ** [GeneratePartition] *)

Section draws.
Context (draw : Z * Z → nat → Z).
(** What [std::uniform_int_distribution] promises. *)
Context (Hdraw : ∀ a b n, a ≤ b → a ≤ draw (a, b) n ≤ b).

Lemma GeneratePartition_Ok c :
  0 ≤ server_num_ c → (distribution_ c).1 ≤ (distribution_ c).2 →
  ∃ points g, GeneratePartition draw c =
      Ok (c <| partition_ := std_sort (partition_ c ++ points) |> <| generator_ := g |>) ∧
    zlen points = server_num_ c ∧
    Forall (λ x, (distribution_ c).1 ≤ x ≤ (distribution_ c).2) points.
Proof using Hdraw.
  intros Hn Hd. unfold GeneratePartition.
  assert (for_ 0 (server_num_ c) (λ _ c,
    mret (c <| partition_ ::= λ l, l ++ [draw (distribution_ c) (generator_ c)] |>
            <| generator_ ::= S |>)) c ⇓ λ c', ∃ points g,
    c' = c <| partition_ := partition_ c ++ points |> <| generator_ := g |> ∧ zlen points = server_num_ c ∧
    Forall (λ x, (distribution_ c).1 ≤ x ≤ (distribution_ c).2) points) as Hl.
  { apply (for_inv (λ i c', ∃ points g,
      c' = c <| partition_ := partition_ c ++ points |> <| generator_ := g |> ∧ zlen points = i ∧
      Forall (λ x, (distribution_ c).1 ≤ x ≤ (distribution_ c).2) points)); [done| |].
    - exists [], (generator_ c). rewrite app_nil_r. split_and!; [by destruct c|done|constructor].
    - intros i c' Hi (points & g & -> & Hlen & Hall). cbn.
      exists (points ++ [draw (distribution_ c) g]), (S g). rewrite <- app_assoc, length_app. cbn.
      split_and!; [done|lia|]. apply Forall_app. split; [done|]. constructor; [|done].
      destruct (distribution_ c) as [a b]. by apply Hdraw. }
  apply returns_elim in Hl as (c' & -> & points & g & -> & Hlen & Hall). cbn.
  exists points, g. done.
Qed.

(** The command-line values of a cluster that can work. *)
Record flags_ok c : Prop := mkfok {
  fo_servers : 0 < server_num_ c < 2 ^ 30;
  fo_workers : 0 < worker_num_ c ≤ kInt32Max;
  fo_range : 3 ≤ key_range_ c ≤ 2 ^ 30;
  fo_bound : 0 < bound_ c ≤ kInt32Max;
  fo_backup : 0 ≤ backup_size_ c < server_num_ c;
  fo_draws : distribution_ c = (1, key_range_ c - 2);
}.

Lemma Ready_spec c :
  0 ≤ server_num_ c ≤ kInt32Max → 0 ≤ worker_num_ c ≤ kInt32Max →
  Ready c = true ↔ zlen (server_id_ c) = server_num_ c ∧ zlen (agent_id_ c) = worker_num_ c.
Proof using Type.
  intros. unfold Ready. rewrite andb_true_iff, !Z.eqb_eq, !to_size_t_nonneg by done. done.
Qed.

(** The configuration drawn for a complete cluster. *)
Lemma cluster_config c :
  wf c → Ready c = true → flags_ok c → partition_ c = [] →
  ∃ c' m, GeneratePartition draw c = Ok c' ∧ wf c' ∧ ToMessage c' = Ok m ∧ config_ok m ∧ routable m ∧
    id_to_addr_ c' = id_to_addr_ c ∧ node_id_ c' = node_id_ c ∧
    Forall (λ x, 1 ≤ x ≤ key_range_ c - 2) (partition m) ∧
    (∀ id, 0 ≤ id < node_id_ c → node_ip_port m !! Z.to_nat id = id_to_addr_ c !! id).
Proof using Hdraw.
  intros Hwf Hready [Hs Hw Hr Hb Hk Hd] Hp.
  apply Ready_spec in Hready as [Hns Hna]; [|unfold kInt32Max; lia|lia].
  destruct (GeneratePartition_Ok c) as (points & g & Hgen & Hlen & Hall); [lia|rewrite Hd; cbn; lia|].
  rewrite Hp in Hgen. rewrite Hd in Hall. cbn in Hall.
  set (c' := c <| partition_ := std_sort ([] ++ points) |> <| generator_ := g |>) in *.
  assert (wf c') as Hwf' by (destruct Hwf; by constructor).
  destruct (ToMessage_Ok c' Hwf') as (addrs & Hto & Haddr & Hids).
  assert (Forall (λ x, 1 ≤ x ≤ key_range_ c - 2) (std_sort points)) as Hall' by by rewrite std_sort_perm.
  assert (Forall (λ x, 0 ≤ x < key_range_ c) (std_sort points)) as Hall0
    by (eapply Forall_impl; [exact Hall'|]; cbn; lia).
  assert (zlen (std_sort points) = server_num_ c) as Hps by (rewrite std_sort_length; lia).
  destruct Hwf as [Hn _ Hnd Hrange]. rewrite Forall_app in Hrange. destruct Hrange as [Hrs Hra].
  eexists c', _. split_and!; [done|done|exact Hto| | |done|done|done|exact Hids].
  - constructor; cbn; [done|done| |done|lia|done|done|done|done|done].
    by apply NoDup_app in Hnd as [? _].
  - constructor; cbn -[std_sort].
    + unfold kInt32Max. lia.
    + done.
    + rewrite Haddr. done.
    + lia.
    + rewrite take_ge by lia. apply std_sort_sorted.
    + by rewrite take_ge by lia.
Qed.
End draws.
