(* ===== verification/MasterConfig.v ===== *)
(** * The delivery of the configuration

    What the master does when the last node registers: addresses, messages,
    threads. *)

From S2P Require Import Prelude CppStd Decimal Float32 Messages Communicator Partition.
From S2P Require Import Server ServerInit Agent AgentConfig TaskConfig TaskConfigProps Master.
From Stdlib Require String.
From Stdlib Require Import Ascii.
From stdpp Require Import options.

Import TaskConfig Master.

(** ** Addresses *)

Lemma list_ascii_app (a b : string) :
  String.list_ascii_of_string (a +:+ b) = String.list_ascii_of_string a ++ String.list_ascii_of_string b.
Proof. induction a as [|c a IH]; [done|]. simpl. f_equal. exact IH. Qed.

Lemma split_app sep l rest : sep ∉ l → split sep (l ++ sep :: rest) = (l, Some rest).
Proof.
  induction l as [|c l IH]; intros Hl; cbn; [by rewrite decide_True|].
  apply not_elem_of_cons in Hl as [Hc Hl]. rewrite decide_False by done. by rewrite IH.
Qed.

Lemma split_none sep l : sep ∉ l → split sep l = (l, None).
Proof.
  induction l as [|c l IH]; intros Hl; cbn; [done|].
  apply not_elem_of_cons in Hl as [Hc Hl]. rewrite decide_False by done. by rewrite IH.
Qed.

(** An address as the program writes it: no colon in the host, and a port
    whose successor is an [int32] too. *)
Definition address_ok (a : string) : Prop :=
  ∃ ip port, a = address ip port ∧ ":"%char ∉ String.list_ascii_of_string ip ∧
    kInt32Min ≤ port < kInt32Max.

(** The heartbeat address of a node: the next port. *)
Definition next_port (a : string) : string :=
  let '(ip, port) := ip_port a in
  String.string_of_list_ascii (ip ++ ":"%char :: to_string (default 0 (read_number port) + 1)).

Lemma ip_port_address ip port :
  ":"%char ∉ String.list_ascii_of_string ip →
  ip_port (address ip port) = (String.list_ascii_of_string ip, to_string port).
Proof.
  intros Hip. unfold ip_port, address. rewrite !list_ascii_app.
  rewrite String.list_ascii_of_string_of_list_ascii. cbn -[to_string].
  rewrite split_app by done. rewrite split_none; [done|]. by apply to_string_no_sep.
Qed.

Section deliver.
Set Default Proof Using "Type*".
Context {C : Type} `{CommunicatorLaws C}.
Context (FLAGS_max_cluster_node : Z) (Hmax : 0 < FLAGS_max_cluster_node ≤ 2 ^ 30).
Implicit Types m : Master C.

(** The address book after the nodes of [done] were added. *)
Definition book_of (done : list (Z * string)) (b : gmap Z string) : Prop :=
  ∀ k v, b !! k = Some v ↔
    (0 ≤ k < FLAGS_max_cluster_node ∧ (k, v) ∈ done) ∨
    (∃ a, (k - FLAGS_max_cluster_node, a) ∈ done ∧ v = next_port a).

Lemma book_of_add done b id a :
  book_of done b → NoDup (done ++ [(id, a)]).*1 →
  Forall (λ p, 0 ≤ p.1 < FLAGS_max_cluster_node) (done ++ [(id, a)]) →
  book_of (done ++ [(id, a)])
    (map_insert_new (id + FLAGS_max_cluster_node) (next_port a) (map_insert_new id a b)).
Proof.
  intros Hb Hnd Hr. rewrite fmap_app in Hnd. cbn in Hnd. apply NoDup_app in Hnd as (_ & Hdisj & _).
  rewrite Forall_app, Forall_singleton in Hr. destruct Hr as [Hr Hid]. cbn in Hid.
  rewrite Forall_forall in Hr.
  assert (∀ v, (id, v) ∉ done) as Hfresh.
  { intros v Hin. apply (Hdisj id); [|by left]. apply list_elem_of_fmap. by exists (id, v). }
  assert (b !! id = None) as H1.
  { apply eq_None_not_Some. intros [v Hv]. apply Hb in Hv as [[_ Hin]|(a' & Hin & _)]; [by apply (Hfresh v)|].
    specialize (Hr _ Hin). cbn in Hr. lia. }
  assert (b !! (id + FLAGS_max_cluster_node) = None) as H2.
  { apply eq_None_not_Some. intros [v Hv]. apply Hb in Hv as [[? _]|(a' & Hin & _)]; [lia|].
    rewrite Z.add_simpl_r in Hin. by apply (Hfresh a'). }
  unfold map_insert_new at 2. rewrite H1. unfold map_insert_new.
  rewrite lookup_insert_ne, H2 by lia. intros k v. rewrite !lookup_insert.
  setoid_rewrite elem_of_app. setoid_rewrite list_elem_of_singleton.
  repeat case_decide; subst.
  - split; [intros [= <-]; right; exists a; split; [right; f_equal; lia|done]|].
    intros [[? _]|(a' & [Hin|[= _ ->]] & ->)]; [lia| |done].
    rewrite Z.add_simpl_r in Hin. by destruct (Hfresh a').
  - split; [intros [= <-]; left; split; [lia|by right]|].
    intros [[_ [Hin|[= ->]]]|(a' & [Hin|[= ? ->]] & ->)]; [by destruct (Hfresh v)|done| |lia].
    specialize (Hr _ Hin). cbn in Hr. lia.
  - rewrite (Hb k v). split.
    + intros [[? ?]|(a' & ? & ->)]; [left; tauto|right; eauto].
    + intros [[? [?|[= -> ->]]]|(a' & [?|[= ? ->]] & ->)]; [left; tauto|done|right; eauto|lia].
Qed.

Lemma add_addresses_Ok id a m :
  0 ≤ id < FLAGS_max_cluster_node → address_ok a →
  ∃ ch, add_addresses FLAGS_max_cluster_node (id, a) m = Ok (m <| sender_ := ch |>) ∧
    outbox ch = outbox (sender_ m) ∧
    book ch = map_insert_new (id + FLAGS_max_cluster_node) (next_port a)
      (map_insert_new id a (book (sender_ m))).
Proof.
  intros Hid (ip & port & -> & Hip & Hport). unfold kInt32Min, kInt32Max in *.
  unfold add_addresses, next_port. cbn [fst snd]. rewrite ip_port_address by done.
  assert (int32_ok port) as Hp32 by (unfold kInt32Min, kInt32Max; lia).
  unfold add32. rewrite (i32_Ok (id + _)) by (unfold kInt32Min, kInt32Max; lia). cbn [mbind res_bind].
  assert (stoi (to_string port) = Ok port) as ->
    by (rewrite <- (app_nil_r (to_string port)); by apply stoi_to_string). cbn [mbind res_bind].
  rewrite i32_Ok by (unfold kInt32Min, kInt32Max; lia). cbn [mbind res_bind].
  assert (read_number (to_string port) = Some port) as ->
    by (rewrite <- (app_nil_r (to_string port)); by apply read_number_to_string).
  eexists. split; [done|]. cbn. by rewrite !AddIdAddr_outbox, !AddIdAddr_book.
Qed.

Lemma addresses_loop_Ok m (pairs : list (Z * string)) :
  NoDup pairs.*1 → Forall (λ p, 0 ≤ p.1 < FLAGS_max_cluster_node ∧ address_ok p.2) pairs →
  book (sender_ m) = ∅ →
  ∃ ch, foldM (add_addresses FLAGS_max_cluster_node) pairs m = Ok (m <| sender_ := ch |>) ∧
    outbox ch = outbox (sender_ m) ∧ book_of pairs (book ch).
Proof.
  intros Hnd Hr Hb0.
  assert (foldM (add_addresses FLAGS_max_cluster_node) pairs m ⇓ λ m', ∃ ch, m' = m <| sender_ := ch |> ∧
    outbox ch = outbox (sender_ m) ∧ book_of pairs (book ch)) as Hl.
  { apply (foldM_inv (λ done m', ∃ ch, m' = m <| sender_ := ch |> ∧
      outbox ch = outbox (sender_ m) ∧ book_of done (book ch))).
    - exists (sender_ m). split_and!; [by destruct m|done|]. intros k v. rewrite Hb0, lookup_empty.
      split; [done|]. intros [[_ ?%elem_of_nil]|(a & ?%elem_of_nil & _)]; done.
    - intros l1 [id a] l2 m' -> (ch & -> & Hout & Hb). rewrite Forall_app, Forall_cons in Hr.
      destruct Hr as (Hr1 & [Hid Ha] & _). cbn in Hid, Ha.
      destruct (add_addresses_Ok id a (m <| sender_ := ch |>) Hid Ha) as (ch' & -> & Hout' & Hb').
      cbn. exists ch'. split_and!; [done|by rewrite Hout'|]. rewrite Hb'. apply book_of_add; [done| |].
      + rewrite cons_middle, app_assoc, fmap_app in Hnd. by apply NoDup_app in Hnd as [? _].
      + apply Forall_app. split; [|by constructor]. eapply Forall_impl; [exact Hr1|]. cbn. tauto. }
  apply returns_elim in Hl as (m' & -> & ch & -> & Hout & Hb). by exists ch.
Qed.

(** ** Messages *)

Lemma node_count c : wf c → zlen (get_node_ip c) = node_id_ c.
Proof.
  intros [Hn Ha _ _]. unfold get_node_ip. rewrite length_fmap, length_map_to_list.
  by apply map_size_range.
Qed.

(** A loop that sends one message per element. *)
Lemma send_loop {A} (msg : A → Z * Message) (f : A → Master C → res (Master C)) (l : list A) m :
  (∀ x m, x ∈ l → f x m = Ok (Master.send (msg x).1 (msg x).2 m)) →
  ∃ ch, foldM f l m = Ok (m <| sender_ := ch |>) ∧ sends (sender_ m) ch (msg <$> l).
Proof.
  intros Hf. assert (foldM f l m ⇓ λ m', ∃ ch, m' = m <| sender_ := ch |> ∧ sends (sender_ m) ch (msg <$> l)) as Hl.
  { apply (foldM_inv (λ done m', ∃ ch, m' = m <| sender_ := ch |> ∧ sends (sender_ m) ch (msg <$> done))).
    - exists (sender_ m). split; [by destruct m|apply sends_nil].
    - intros l1 x l2 m' Hl (ch & -> & Hs). rewrite Hf by (rewrite Hl; apply elem_of_app; right; by left).
      cbn. eexists. split; [done|]. rewrite fmap_app. eapply sends_app; [exact Hs|].
      cbn. destruct (msg x) as [d y]. apply sends_one. }
  apply returns_elim in Hl as (m' & -> & ch & -> & Hs). by exists ch.
Qed.

(** The configuration messages, one per node, the master itself included. *)
Definition deliveries (c : ConfigMessage) (n : Z) : list (Z * Message) :=
  (λ i, (i, Master.config_message i c)) <$> seqZ 0 n.

Lemma DeliverConfig_Ok m c :
  wf (config_ m) → ToMessage (config_ m) = Ok c →
  ∃ ch, DeliverConfig m = Ok (m <| sender_ := ch |>) ∧
    sends (sender_ m) ch (deliveries c (node_id_ (config_ m))).
Proof.
  intros Hwf Hto. unfold DeliverConfig. rewrite Hto, node_count by done. cbn [mbind res_bind].
  unfold for_, deliveries. rewrite Z.sub_0_r. by apply send_loop.
Qed.

(** ** The last registration *)

Context (draw : Z * Z → nat → Z) (Hdraw : ∀ a b n, a ≤ b → a ≤ draw (a, b) n ≤ b).

(** A complete cluster, not yet configured. *)
Record complete m : Prop := mkcomplete {
  cm_wf : wf (config_ m);
  cm_ready : Ready (config_ m) = true;
  cm_flags : flags_ok (config_ m);
  cm_fresh : partition_ (config_ m) = [];
  cm_nodes : node_id_ (config_ m) ≤ FLAGS_max_cluster_node;
  cm_addrs : map_Forall (λ _ a, address_ok a) (id_to_addr_ (config_ m));
  cm_book : book (sender_ m) = ∅;
}.

(** What [cluster_ready] has done when it comes to starting the threads. *)
Lemma cluster_ready_Ok cur_time m :
  complete m →
  ∃ cfg c ch, GeneratePartition draw (config_ m) = Ok cfg ∧ ToMessage cfg = Ok c ∧
    config_ok c ∧ routable c ∧ Forall (λ x, 1 ≤ x ≤ key_range_ (config_ m) - 2) (partition c) ∧
    (∀ id, 0 ≤ id < node_id_ cfg → node_ip_port c !! Z.to_nat id = id_to_addr_ (config_ m) !! id) ∧
    node_id_ cfg = node_id_ (config_ m) ∧ id_to_addr_ cfg = id_to_addr_ (config_ m) ∧
    outbox ch = outbox (sender_ m) ++ deliveries c (node_id_ cfg) ∧
    book_of (map_to_list (id_to_addr_ cfg)) (book ch) ∧
    cluster_ready draw FLAGS_max_cluster_node cur_time m =
      (let m := m <| config_ := cfg |> <| sender_ := ch |> in
       if heartbeat_ m then Fault Aborted
       else
         let m := m <| heartbeat_ := true |> in
         m ← for_ 0 (node_id_ cfg) (λ i m, mret (m <| alive_node_ ::= <[ i := cur_time ]> |>)) m;
         if detect_dead_node_ m then Fault Aborted
         else mret (m <| detect_dead_node_ := true |>)).
Proof.
  intros [Hwf Hready Hflags Hp Hn Haddrs Hbook].
  destruct (cluster_config draw Hdraw (config_ m) Hwf Hready Hflags Hp)
    as (cfg & c & Hgen & Hwf' & Hto & Hok & Hro & Hia & Hni & Hpts & Hids).
  destruct (addresses_loop_Ok (m <| config_ := cfg |>) (map_to_list (id_to_addr_ cfg)))
    as (ch1 & Hadd & Hout1 & Hb1).
  { apply NoDup_fst_map_to_list. }
  { apply Forall_forall. intros [id a] Hin%elem_of_map_to_list. cbn. rewrite Hia in Hin. split.
    - assert (0 ≤ id < node_id_ (config_ m)); [apply (wf_addr _ Hwf); eauto|lia].
    - by apply (Haddrs id). }
  { done. }
  destruct (DeliverConfig_Ok (m <| config_ := cfg |> <| sender_ := ch1 |>) c)
    as (ch & Hdel & Hout & Hbk); [exact Hwf'|exact Hto|]. cbn in Hout, Hbk, Hout1.
  exists cfg, c, ch. rewrite Hni in *.
  split_and!; [done..|by rewrite Hout, Hout1|by rewrite Hbk|].
  unfold cluster_ready. rewrite Hgen. cbn [mbind res_bind]. cbv zeta.
  change (id_to_addr_ (config_ (m <| config_ := cfg |>))) with (id_to_addr_ cfg).
  rewrite Hadd. cbn [mbind res_bind]. rewrite Hdel. cbn [mbind res_bind].
  match goal with |- context [get_node_ip (config_ ?x)] => change (config_ x) with cfg end.
  by rewrite node_count, Hni by done.
Qed.
End deliver.

(** ** Registration *)

Section register.
Context {C : Type} `{Communicator C}.
Implicit Types m : Master C.

Lemma ProcessRegisterMsg_Ok msg m :
  wf (config_ m) → node_id_ (config_ m) < kInt32Max →
  let r := register_msg msg in
  let n := node_id_ (config_ m) in
  ∃ cfg, ProcessRegisterMsg msg m = Ok (m <| config_ := cfg |>) ∧ wf cfg ∧ node_id_ cfg = n + 1 ∧
    id_to_addr_ cfg = <[ n := address (ip r) (port r) ]> (id_to_addr_ (config_ m)) ∧
    server_id_ cfg = (if is_server r then server_id_ (config_ m) ++ [n] else server_id_ (config_ m)) ∧
    agent_id_ cfg = (if is_server r then agent_id_ (config_ m) else agent_id_ (config_ m) ++ [n]).
Proof.
  intros Hwf Hn r n. unfold ProcessRegisterMsg. fold r. destruct (is_server r).
  - destruct (AppendServer_Ok (ip r) (port r) (config_ m) Hwf Hn) as (cfg & -> & Hwf' & ? & ? & _ & ? & ?).
    by exists cfg.
  - destruct (AppendAgent_Ok (ip r) (port r) (config_ m) Hwf Hn) as (cfg & -> & Hwf' & ? & ? & _ & ? & ?).
    by exists cfg.
Qed.

(** A sequence of registrations. *)
Lemma registrations_Ok msgs m :
  wf (config_ m) → node_id_ (config_ m) + zlen msgs ≤ kInt32Max →
  foldM ProcessRegisterMsg msgs m ⇓ λ m', wf (config_ m') ∧
    node_id_ (config_ m') = node_id_ (config_ m) + zlen msgs ∧
    (∀ id, id_to_addr_ (config_ m') !! id =
       match (if decide (node_id_ (config_ m) ≤ id) then msgs !! Z.to_nat (id - node_id_ (config_ m)) else None) with
       | Some msg => Some (address (ip (register_msg msg)) (port (register_msg msg)))
       | None => id_to_addr_ (config_ m) !! id
       end).
Proof.
  intros Hwf Hn. set (n0 := node_id_ (config_ m)) in *.
  apply (foldM_inv (λ done m', wf (config_ m') ∧ node_id_ (config_ m') = n0 + zlen done ∧
    (∀ id, id_to_addr_ (config_ m') !! id =
       match (if decide (n0 ≤ id) then done !! Z.to_nat (id - n0) else None) with
       | Some msg => Some (address (ip (register_msg msg)) (port (register_msg msg)))
       | None => id_to_addr_ (config_ m) !! id
       end))).
  - split_and!; [done|cbn; lia|]. intros id. by case_decide.
  - intros l1 msg l2 m' -> (Hwf' & Hn' & Ha). rewrite length_app in Hn. cbn in Hn.
    destruct (ProcessRegisterMsg_Ok msg m' Hwf') as (cfg & -> & Hwf2 & Hn2 & Ha2 & _); [lia|].
    cbn. split_and!; [done|rewrite length_app; cbn; lia|]. intros id. rewrite Ha2, lookup_insert, Ha, Hn'.
    case_decide as Hid.
    + rewrite decide_True by lia. replace (Z.to_nat (id - n0)) with (length l1) by lia.
      by rewrite lookup_app_r, Nat.sub_diag by lia.
    + case_decide as Hd; [|done]. destruct (decide (Z.to_nat (id - n0) < length l1)%nat).
      * by rewrite lookup_app_l by lia.
      * by rewrite (lookup_ge_None_2 l1), lookup_ge_None_2 by (rewrite ?length_app; cbn; lia).
Qed.
End register.
