(* ===== verification/MasterProps.v ===== *)
(** * Properties of the master

    The configuration it delivers, and what the removal of dead nodes does. *)

From S2P Require Import Prelude CppStd Decimal Float32 Messages Communicator Partition.
From S2P Require Import Server ServerInit Agent AgentConfig TaskConfig TaskConfigProps Master MasterConfig.
From Stdlib Require String.
From Stdlib Require Import Ascii.
From stdpp Require Import options.

Import TaskConfig Master.

(** ** Removing dead nodes *)

Lemma filter_all (P : Z → Prop) `{!∀ x, Decision (P x)} (l : list Z) :
  (∀ x, x ∈ l → P x) → filter P l = l.
Proof.
  induction l as [|y l IH]; intros Hall; [done|].
  rewrite filter_cons_True by (apply Hall; by left). rewrite IH; [done|]. intros. apply Hall. by right.
Qed.

Lemma delete_filter (l : list Z) i x :
  NoDup l → l !! i = Some x → delete i l = filter (λ y, y ≠ x) l.
Proof.
  revert i. induction l as [|y l IH]; intros i Hnd Hi; [done|].
  inversion_clear Hnd as [|? ? Hy Hnd']. rewrite filter_cons. destruct i as [|i]; simplify_eq/=.
  - rewrite decide_False by tauto. symmetry. apply filter_all. by intros z Hz ->.
  - rewrite decide_True; [by rewrite (IH i)|]. intros ->. apply Hy. by eapply list_elem_of_lookup_2.
Qed.

Lemma filter_absent (l : list Z) x : x ∉ l → filter (λ y, y ≠ x) l = l.
Proof. intros Hx. apply filter_all. by intros y Hy ->. Qed.

Lemma filter_twice (l dead : list Z) x :
  filter (λ y, y ≠ x) (filter (λ y, y ∉ dead) l) = filter (λ y, y ∉ dead ++ [x]) l.
Proof.
  rewrite list_filter_filter. apply list_filter_iff. intros y.
  rewrite not_elem_of_app, list_elem_of_singleton. tauto.
Qed.

(** What [FixConfig] makes of the tables. *)
Record fixed (c : TaskConfig) (dead : list Z) (c' : TaskConfig) : Prop := mkfixed {
  fx_agents : agent_id_ c' = filter (λ y, y ∉ dead) (agent_id_ c);
  fx_servers : server_id_ c' = filter (λ y, y ∉ dead) (server_id_ c);
  fx_partition : length (partition_ c') = length (server_id_ c');
  fx_sublist : partition_ c' `sublist_of` partition_ c;
  fx_counts : worker_num_ c' = worker_num_ c ∧ server_num_ c' = server_num_ c;
  fx_masters : master_id_ c' = master_id_ c ∧ node_id_ c' = node_id_ c;
  fx_addr : id_to_addr_ c' = id_to_addr_ c;
  fx_changed : config_changed_ c' = true;
}.

Lemma fix_node_Ok c dead id c' :
  NoDup (agent_id_ c) → NoDup (server_id_ c) → (∀ x, x ∈ agent_id_ c → x ∉ server_id_ c) →
  fixed c dead c' → fix_node id c' ⇓ fixed c (dead ++ [id]).
Proof.
  intros Hna Hns Hdisj [Ha Hs Hp Hsub [Hw Hn] [Hm Hi0] Haddr Hch]. unfold fix_node.
  pose proof (list_find_self (agent_id_ c') id) as Hfa.
  destruct (list_find (id =.) (agent_id_ c')) as [[i y]|].
  { destruct Hfa as [-> Hi]. cbn. constructor; cbn; try done.
    - rewrite (delete_filter _ _ id) by first [done|rewrite Ha; by apply NoDup_filter].
      by rewrite Ha, filter_twice.
    - rewrite Hs, <- filter_twice. symmetry. apply filter_absent.
      intros [_ Hin]%list_elem_of_filter. apply list_elem_of_lookup_2 in Hi. rewrite Ha in Hi.
      apply list_elem_of_filter in Hi as [_ Hi]. by apply (Hdisj id). }
  pose proof (list_find_self (server_id_ c') id) as Hfs.
  destruct (list_find (id =.) (server_id_ c')) as [[i y]|]; last first.
  { cbn. constructor; try done.
    - rewrite Ha, <- filter_twice. symmetry. apply filter_absent. by rewrite <- Ha.
    - rewrite Hs, <- filter_twice. symmetry. apply filter_absent. by rewrite <- Hs. }
  destruct Hfs as [-> Hi]. pose proof (lookup_lt_Some _ _ _ Hi).
  unfold erase_at. cbn. rewrite decide_True by lia. cbn. constructor; cbn; try done.
  - rewrite Ha, <- filter_twice. symmetry. apply filter_absent. by rewrite <- Ha.
  - rewrite (delete_filter _ _ id) by first [done|rewrite Hs; by apply NoDup_filter].
    by rewrite Hs, filter_twice.
  - assert (is_Some (partition_ c' !! i)) as [q Hq] by (apply lookup_lt_is_Some_2; lia).
    rewrite !length_delete by eauto. lia.
  - etransitivity; [apply sublist_delete|done].
Qed.

Lemma wf_split c :
  wf c → NoDup (server_id_ c) ∧ NoDup (agent_id_ c) ∧ (∀ x, x ∈ agent_id_ c → x ∉ server_id_ c).
Proof.
  intros [_ _ Hnd _]. apply NoDup_app in Hnd as (Hs & Hd & Ham). apply NoDup_app in Ham as (Ha & _ & _).
  split_and!; [done|done|]. intros x Hx Hxs. apply (Hd x Hxs). apply elem_of_app. by left.
Qed.

Lemma FixConfig_Ok c dead :
  wf c → length (partition_ c) = length (server_id_ c) → dead ≠ [] →
  ∃ c', FixConfig dead c = Ok c' ∧ fixed c dead c'.
Proof.
  intros Hwf Hp Hd. destruct (wf_split c Hwf) as (Hs & Ha & Hdisj).
  unfold FixConfig. destruct (Z.eqb_spec (zlen dead) 0) as [E|_]; [by destruct dead|].
  apply returns_elim. apply (foldM_inv (fixed c)).
  - constructor; cbn; try done.
    + symmetry. apply filter_all. intros x _. apply not_elem_of_nil.
    + symmetry. apply filter_all. intros x _. apply not_elem_of_nil.
  - intros l1 id l2 c' _ Hf. by apply fix_node_Ok.
Qed.


(** The tables stay well-formed. *)
Lemma fixed_wf c dead c' : wf c → fixed c dead c' → wf c'.
Proof.
  intros [Hn Ha Hnd Hr] [Hfa Hfs _ _ _ [Hm Hi] Haddr _].
  assert (server_id_ c' ++ agent_id_ c' ++ master_id_ c' `sublist_of`
    server_id_ c ++ agent_id_ c ++ master_id_ c) as Hsub.
  { rewrite Hfs, Hfa, Hm. by repeat apply sublist_app; try apply sublist_filter. }
  constructor; rewrite ?Hi, ?Haddr; [done|done|by eapply sublist_NoDup|].
  rewrite Forall_forall in *. intros x Hx. apply Hr. apply (elem_of_submseteq _ _ x Hx). by apply sublist_submseteq.
Qed.

(** An agent that is given more servers than ids faults. *)
Lemma too_few_ids {C} `{Communicator C} (conf : ConfigMessage) (m : Message) (a : Agent.Agent C) :
  config_msg m = conf → zlen (server_id conf) < server_num conf →
  Agent.Reconfigurate m a = Fault ProtoIndex.
Proof.
  intros Hm Hlt. unfold Agent.Reconfigurate. rewrite Hm. cbv zeta.
  match goal with |- context [for_ 0 (Agent.server_num_ ?x)] => set (a0 := x) end.
  change (Agent.server_num_ a0) with (server_num conf).
  rewrite (for_fault (λ _ _, True) _ _ _ ProtoIndex (zlen (server_id conf))); [done|lia|done| |].
  - intros j s Hj _. right. destruct (lookup_lt_is_Some_2 (server_id conf) (Z.to_nat j)) as [x Hx]; [lia|].
    rewrite (proto_get_Ok _ j x) by (done || lia). eexists. split; [done|done].
  - intros s _. unfold proto_get. destruct (Z.ltb_spec (zlen (server_id conf)) 0); [done|].
    by rewrite lookup_ge_None_2 by lia.
Qed.

(** What removing dead nodes does. [FixConfig] on any list of node ids
    keeps exactly the agents and servers that are not in it, in order, and one
    starting point per remaining server; the addresses stay, and so do the
    numbers of agents and servers the configuration message will announce. *)
Theorem FixConfig_spec (c : TaskConfig) (dead : list Z)
    (Hwf : wf c) (Hp : length (partition_ c) = length (server_id_ c)) (Hd : dead ≠ []) :
  ∃ c', FixConfig dead c = Ok c' ∧ fixed c dead c'.
Proof. by apply FixConfig_Ok. Qed.

(** The configuration sent after a server died cannot be read. When a
    complete cluster loses servers, the fixed configuration still announces
    the old number of servers with fewer ids, so that every agent that applies
    it reads past the end of the list of ids. *)
Theorem FixConfig_stale {C} `{Communicator C} (c : TaskConfig) (dead : list Z) (x : Z)
    (m : Message) (a : Agent.Agent C)
    (Hwf : wf c) (Hp : length (partition_ c) = length (server_id_ c))
    (Hn : zlen (server_id_ c) = server_num_ c) (Hx : x ∈ dead) (Hxs : x ∈ server_id_ c) :
  ∃ c' conf, FixConfig dead c = Ok c' ∧ ToMessage c' = Ok conf ∧
    zlen (server_id conf) < server_num conf ∧
    (config_msg m = conf → Agent.Reconfigurate m a = Fault ProtoIndex).
Proof.
  destruct (FixConfig_Ok c dead Hwf Hp) as (c' & Hfix & Hf); [intros ->; by apply elem_of_nil in Hx|].
  destruct (ToMessage_Ok c' (fixed_wf c dead c' Hwf Hf)) as (addrs & Hto & _ & _).
  assert (zlen (server_id_ c') < server_num_ c') as Hlt.
  { destruct Hf as [_ Hs _ _ [_ Hsn] _ _ _]. rewrite Hs, Hsn, <- Hn.
    pose proof (length_filter_lt (λ y, y ∉ dead) (server_id_ c) x Hxs (λ Hnx, Hnx Hx)). lia. }
  eexists c', _. split_and!; [done|exact Hto|done|]. intros Hm. by eapply too_few_ids.
Qed.

(** ** The arc of a dead server *)

Lemma delete_lookup_lt (l : list Z) i j : (j < i)%nat → delete i l !! j = l !! j.
Proof. intros. by apply list_lookup_delete_lt. Qed.

Lemma delete_lookup_ge (l : list Z) i j : (i ≤ j)%nat → delete i l !! j = l !! S j.
Proof. intros. by apply list_lookup_delete_ge. Qed.

Lemma StronglySorted_delete (R : relation Z) (l : list Z) i :
  StronglySorted R l → StronglySorted R (delete i l).
Proof.
  intros Hs. revert i. induction Hs as [|x l Hs IH Hall]; intros i; [constructor|].
  destruct i as [|i]; [done|]. constructor; [apply IH|by apply Forall_delete].
Qed.

Lemma in_arc_pred (kr n : Z) (points : list Z) (i key : Z) :
  Partition.wf (Partition.mkPartition kr n points) → 1 < n → 0 ≤ i < n →
  Partition.in_arc (Partition.mkPartition kr n points) i key →
  Partition.in_arc (Partition.mkPartition kr (n - 1) (delete (Z.to_nat i) points)) ((i - 1) mod (n - 1)) key.
Proof.
  intros Hwf Hn Hi [_ Harc]. pose proof Hwf as [_ Hlen Hs _]. cbn in *.
  assert (∀ j, 0 ≤ j < n → is_Some (points !! Z.to_nat j)) as Hget by (intros; apply lookup_lt_is_Some_2; lia).
  split; [apply Z.mod_pos_bound; cbn; lia|]. cbn.
  destruct (Hget 0) as [p0 Hp0]; [lia|]. change (Z.to_nat 0) with 0%nat in Hp0.
  destruct (decide (i = 0)) as [->|Hi0].
  - (* the last server takes over, on the low side of the new first point *)
    left. replace ((0 - 1) mod (n - 1)) with (n - 1 - 1)
      by (rewrite <- (Z_mod_plus_full _ 1), Z.mod_small; lia). split; [done|].
    destruct (Hget 1) as [p1 Hp1]; [lia|]. exists p1. split; [rewrite delete_lookup_ge by lia; exact Hp1|].
    destruct Harc as [(? & _)|(lo & _ & _ & Hhi)]; [lia|by apply Hhi].
  - rewrite (Z.mod_small (i - 1)) by lia.
    destruct (Hget (i - 1)) as [q Hq]; [lia|]. destruct (Hget i) as [r Hr]; [lia|].
    pose proof (StronglySorted_lookup Z.le points (Z.to_nat (i - 1)) (Z.to_nat i) q r Hs ltac:(lia) Hq Hr).
    destruct Harc as [(-> & p & Hp & Hlow)|(lo & Hlo & Hle & Hhi)].
    + left. split; [lia|]. exists p. split; [|done]. rewrite delete_lookup_lt by lia. done.
    + right. exists q. rewrite delete_lookup_lt by lia. split; [done|]. simplify_eq. split; [lia|].
      intros hi. rewrite delete_lookup_ge by lia. replace (S (Z.to_nat (i - 1 + 1))) with (Z.to_nat (i + 1)) by lia.
      apply Hhi.
Qed.

(** The arc of a dead server goes to its predecessor. [FixConfig] erases
    the starting point of the dead server itself: the keys of the server at
    index [i] are afterwards routed to the server that preceded it on the ring
    (index [i - 1]; for [i = 0] the last one), while the copies of its
    parameters are with its successor. *)
Theorem FixConfig_arc_to_predecessor (kr n : Z) (points : list Z) (i key : Z)
    (Hwf : Partition.wf (Partition.mkPartition kr n points)) (Hn : 1 < n) (Hi : 0 ≤ i < n) (Hkey : 0 ≤ key < kr)
    (Howner : Partition.in_arc (Partition.mkPartition kr n points) i key) :
  ∃ points', erase_at points (Z.to_nat i) = Ok points' ∧
    Partition.GetServerByKey (Partition.mkPartition kr (n - 1) points') key = Ok ((i - 1) mod (n - 1)).
Proof.
  pose proof Hwf as [_ Hlen Hs Hr]. cbn in *.
  exists (delete (Z.to_nat i) points). unfold erase_at. rewrite decide_True by lia. split; [done|].
  set (p' := Partition.mkPartition kr (n - 1) (delete (Z.to_nat i) points)).
  assert (is_Some (points !! Z.to_nat i)) as [pi Hpi] by (apply lookup_lt_is_Some_2; lia).
  assert (Partition.wf p') as Hwf'.
  { constructor; cbn.
    - destruct Hwf as [[? ?] _ _ _]. cbn in *. lia.
    - rewrite length_delete by eauto. lia.
    - by apply StronglySorted_delete.
    - apply Forall_delete. done. }
  destruct (Partition.GetServerByKey_Ok p' key Hwf') as (j & -> & Harc); [done|].
  f_equal. eapply Partition.in_arc_unique; [exact Hwf'|exact Harc|]. by apply in_arc_pred.
Qed.

(** ** Delivery *)

Section deliver_props.
Set Default Proof Using "Type*".
Context {C : Type} `{CommunicatorLaws C}.
Context (FLAGS_max_cluster_node : Z) (Hmax : 0 < FLAGS_max_cluster_node ≤ 2 ^ 30).
Context (draw : Z * Z → nat → Z) (Hdraw : ∀ a b n, a ≤ b → a ≤ draw (a, b) n ≤ b).
Implicit Types m : Master C.

(** What the master has done, its configuration included, when a registration
    has completed the cluster. *)
Lemma completes_Ok m m1 cur_time msg
    (Htype : message_type msg = mt_register) (Hreg : ProcessRegisterMsg msg m = Ok m1)
    (Hm1 : complete FLAGS_max_cluster_node m1)
    (Hthreads : heartbeat_ m1 = false ∧ detect_dead_node_ m1 = false) :
  ∃ m' cfg c, MainLoop_step draw FLAGS_max_cluster_node cur_time msg m = Ok (m', false) ∧
    GeneratePartition draw (config_ m1) = Ok cfg ∧ config_ m' = cfg ∧ ToMessage cfg = Ok c ∧
    config_ok c ∧ routable c ∧ Forall (λ x, 1 ≤ x) (partition c) ∧
    outbox (sender_ m') = outbox (sender_ m1) ++ deliveries c (node_id_ (config_ m1)) ∧
    book_of FLAGS_max_cluster_node (map_to_list (id_to_addr_ (config_ m1))) (book (sender_ m')) ∧
    (∀ id, 0 ≤ id < node_id_ (config_ m1) →
       node_ip_port c !! Z.to_nat id = id_to_addr_ (config_ m1) !! id ∧ alive_node_ m' !! id = Some cur_time) ∧
    heartbeat_ m' = true ∧ detect_dead_node_ m' = true ∧ terminated_node_ m' = terminated_node_ m1 ∧
    (∀ id t, alive_node_ m' !! id = Some t →
       alive_node_ m1 !! id = Some t ∨ (t = cur_time ∧ 0 ≤ id < node_id_ (config_ m1))).
Proof.
  destruct (cluster_ready_Ok FLAGS_max_cluster_node Hmax draw Hdraw cur_time m1 Hm1)
    as (cfg & c & ch & Hgen & Hto & Hok & Hro & Hpts & Hids & Hni & Hia & Hout & Hbook & Hrun).
  destruct Hthreads as [Hh Hd]. unfold MainLoop_step. rewrite Htype, Hreg. cbn [mbind res_bind].
  rewrite (cm_ready _ _ Hm1), Hrun. cbv zeta.
  set (m2 := m1 <| config_ := cfg |> <| sender_ := ch |>).
  change (heartbeat_ m2) with (heartbeat_ m1). rewrite Hh.
  set (m3 := m2 <| heartbeat_ := true |>).
  assert (for_ 0 (node_id_ cfg) (λ i m, mret (m <| alive_node_ ::= <[ i := cur_time ]> |>)) m3 ⇓ λ m',
    ∃ al, m' = m3 <| alive_node_ := al |> ∧ (∀ id, 0 ≤ id < node_id_ cfg → al !! id = Some cur_time) ∧
      ∀ id t, al !! id = Some t → alive_node_ m1 !! id = Some t ∨ (t = cur_time ∧ 0 ≤ id < node_id_ cfg)) as Hl.
  { pose proof (wf_next _ (cm_wf _ _ Hm1)).
    apply (for_inv (λ i m', ∃ al, m' = m3 <| alive_node_ := al |> ∧ (∀ id, 0 ≤ id < i → al !! id = Some cur_time) ∧
      ∀ id t, al !! id = Some t → alive_node_ m1 !! id = Some t ∨ (t = cur_time ∧ 0 ≤ id < node_id_ cfg))).
    - lia.
    - exists (alive_node_ m3). split_and!; [by destruct m1|lia|]. intros id t Ht. by left.
    - intros i m' Hi (al & -> & Hal & Hold). cbn. eexists. split_and!; [done| |].
      + intros id Hid. rewrite lookup_insert. case_decide; [done|]. apply Hal. lia.
      + intros id t. rewrite lookup_insert. case_decide; [intros [= <-]; right; split; lia|apply Hold]. }
  apply returns_elim in Hl as (m4 & -> & al & -> & Hal & Hold). cbn [mbind res_bind].
  change (detect_dead_node_ (m3 <| alive_node_ := al |>)) with (detect_dead_node_ m1). rewrite Hd.
  cbn [mbind res_bind mret res_ret]. rewrite Hni, Hia in *.
  eexists _, cfg, c. split_and!; [done|done|done|done|done|done| |done|done| |done|done|done|exact Hold].
  - eapply Forall_impl; [exact Hpts|]. cbn. lia.
  - intros id Hid. split; [by apply Hids|by apply Hal].
Qed.

(** The last registration configures the cluster. When a registration
    makes the cluster complete, the master draws the partition, learns the
    address of every node (and its heartbeat address, the next port), and
    sends every node, in the order of the ids, one and the same configuration,
    which satisfies what the servers and the agents need to start; then both
    background threads run and every node counts as alive. No starting point
    is 0, so key 0 always belongs to the arc that wraps. *)
Theorem MainLoop_completes_cluster m m1 cur_time msg
    (Htype : message_type msg = mt_register) (Hreg : ProcessRegisterMsg msg m = Ok m1)
    (Hm1 : complete FLAGS_max_cluster_node m1)
    (Hthreads : heartbeat_ m1 = false ∧ detect_dead_node_ m1 = false) :
  ∃ m' c, MainLoop_step draw FLAGS_max_cluster_node cur_time msg m = Ok (m', false) ∧
    config_ok c ∧ routable c ∧ Forall (λ x, 1 ≤ x) (partition c) ∧
    outbox (sender_ m') = outbox (sender_ m1) ++ deliveries c (node_id_ (config_ m1)) ∧
    book_of FLAGS_max_cluster_node (map_to_list (id_to_addr_ (config_ m1))) (book (sender_ m')) ∧
    (∀ id, 0 ≤ id < node_id_ (config_ m1) →
       node_ip_port c !! Z.to_nat id = id_to_addr_ (config_ m1) !! id ∧ alive_node_ m' !! id = Some cur_time) ∧
    heartbeat_ m' = true ∧ detect_dead_node_ m' = true.
Proof.
  destruct (completes_Ok m m1 cur_time msg Htype Hreg Hm1 Hthreads)
    as (m' & cfg & c & Hstep & _ & _ & _ & Hok & Hro & Hpts & Hout & Hbook & Hids & Hh & Hd & _). by exists m', c.
Qed.

(** The messages of one heartbeat. *)
Definition heartbeats (c : option ConfigMessage) (cfg : TaskConfig) : list (Z * Message) :=
  ((λ id, (id + FLAGS_max_cluster_node, heartbeat_message id c)) <$> agent_id_ cfg) ++
  ((λ id, (id, heartbeat_message id c)) <$> server_id_ cfg).

(** Where heartbeats go. Every agent gets the heartbeat under the shifted
    id, which is the address of its heartbeat thread; every server gets it
    under its plain id, which is the address of its request loop. The
    heartbeat carries the configuration exactly when it changed since the
    last one, and the change is then taken as announced. *)
Theorem DeliverHeartbeat_spec m
    (Hwf : wf (config_ m)) (Hids : node_id_ (config_ m) ≤ FLAGS_max_cluster_node) :
  ∃ m' c, DeliverHeartbeat FLAGS_max_cluster_node m = Ok m' ∧
    (config_changed_ (config_ m) = true → ∃ conf, c = Some conf ∧ ToMessage (config_ m) = Ok conf) ∧
    (config_changed_ (config_ m) = false → c = None) ∧
    outbox (sender_ m') = outbox (sender_ m) ++ heartbeats c (config_ m) ∧
    config_changed_ (config_ m') = false.
Proof.
  assert (∃ c m1, (if config_changed_ (config_ m) then
      c ← ToMessage (config_ m); mret (Some c, m <| config_ ::= set_config_changed false |>)
    else mret (None, m)) = Ok (c, m1) ∧ sender_ m1 = sender_ m ∧
    agent_id_ (config_ m1) = agent_id_ (config_ m) ∧ server_id_ (config_ m1) = server_id_ (config_ m) ∧
    config_changed_ (config_ m1) = false ∧
    (config_changed_ (config_ m) = true → ∃ conf, c = Some conf ∧ ToMessage (config_ m) = Ok conf) ∧
    (config_changed_ (config_ m) = false → c = None)) as (c & m1 & Hc & Hs1 & Ha1 & Hse1 & Hch & Ht & Hf).
  { destruct (config_changed_ (config_ m)) eqn:E.
    - destruct (ToMessage_Ok (config_ m) Hwf) as (addrs & Hto & _). rewrite Hto.
      eexists _, _. split_and!; [done|done|done|done|done| |done]. eauto.
    - exists None, m. done. }
  unfold DeliverHeartbeat. rewrite Hc. cbn [mbind res_bind]. rewrite Ha1.
  pose proof Hwf as [_ _ _ Hr]. rewrite !Forall_app in Hr. destruct Hr as (_ & Hra & _).
  edestruct (send_loop (λ id, (id + FLAGS_max_cluster_node, heartbeat_message id c))) as (ch1 & -> & Hs2).
  { intros id m0 Hid. rewrite Forall_forall in Hra. specialize (Hra id Hid).
    unfold add32. rewrite i32_Ok by (unfold kInt32Min, kInt32Max; lia). done. }
  cbn [mbind res_bind].
  change (server_id_ (config_ (m1 <| sender_ := ch1 |>))) with (server_id_ (config_ m1)). rewrite Hse1.
  edestruct (send_loop (λ id, (id, heartbeat_message id c))) as (ch2 & -> & Hs3); [done|].
  cbn in Hs3.
  eexists _, c. split_and!; [done|done|done| |done].
  destruct (sends_app _ _ _ _ _ Hs2 Hs3) as [Hout _]. cbn. by rewrite Hout, Hs1.
Qed.
End deliver_props.

(** C20: ids are given out without gaps. Any sequence of registrations is
    processed, keeps the table of nodes well-formed (every id below the next
    one has an address, and no id has two roles), gives the nodes consecutive
    ids in the order of the messages and records the address each announced. *)
Theorem registrations_spec {C} `{Communicator C} (msgs : list Message) (m : Master C)
    (Hwf : wf (config_ m)) (Hroom : node_id_ (config_ m) + zlen msgs ≤ kInt32Max) :
  foldM ProcessRegisterMsg msgs m ⇓ λ m', wf (config_ m') ∧
    node_id_ (config_ m') = node_id_ (config_ m) + zlen msgs ∧
    (∀ id, id_to_addr_ (config_ m') !! id =
       match (if decide (node_id_ (config_ m) ≤ id) then msgs !! Z.to_nat (id - node_id_ (config_ m)) else None) with
       | Some msg => Some (address (ip (register_msg msg)) (port (register_msg msg)))
       | None => id_to_addr_ (config_ m) !! id
       end).
Proof. by apply registrations_Ok. Qed.

(** ** Witnesses

    A master, two servers and two agents; the random engine counts up. *)

Definition count_draw (r : Z * Z) (n : nat) : Z := r.1 + Z.of_nat n `mod` (r.2 - r.1 + 1).

Lemma count_draw_ok a b n : a ≤ b → a ≤ count_draw (a, b) n ≤ b.
Proof. intros. unfold count_draw. cbn. pose proof (Z.mod_pos_bound (Z.of_nat n) (b - a + 1) ltac:(lia)). lia. Qed.

Definition test_flags : flags := mkFlags 2 2 10 1 1.

Definition register_msg_of (server : bool) (ip : string) (port : Z) : Message :=
  mkMessage (-1) 0 mt_register None None None (Some (mkRegister ip port server)).

Definition registrations : list Message :=
  [register_msg_of true "10.0.0.1" 5000; register_msg_of false "10.0.0.2" 5555; register_msg_of true "10.0.0.3" 5000].
Definition last_registration : Message := register_msg_of false "10.0.0.4" 5555.

Definition master0 : Master Trace :=
  match (m ← new_master test_flags new_trace; Master.Initialize "127.0.0.1:16666" m) with
  | Ok (m, _) => m
  | Fault _ => mkMaster new_config new_trace ∅ ∅ true false false
  end.

Lemma master0_wf : wf (config_ master0).
Proof.
  assert (config_ master0 = new_config <| worker_num_ := 2 |> <| server_num_ := 2 |> <| key_range_ := 10 |>
    <| bound_ := 1 |> <| backup_size_ := 1 |> <| distribution_ := (1, 8) |> <| master_id_ := [0] |>
    <| id_to_addr_ := {[ 0 := "127.0.0.1:16666" ]} |> <| node_id_ := 1 |>) as -> by by vm_compute.
  constructor; cbn -[lookup]; [done| |by apply NoDup_singleton|by repeat constructor].
  intros id. rewrite lookup_singleton. case_decide; [subst; split; [lia|done]|].
  split; [by intros []|lia].
Qed.

Definition master_before : Master Trace :=
  match foldM ProcessRegisterMsg registrations master0 with Ok m => m | Fault _ => master0 end.
Definition master_complete : Master Trace :=
  match ProcessRegisterMsg last_registration master_before with Ok m => m | Fault _ => master0 end.

Lemma master_complete_wf : wf (config_ master_complete).
Proof.
  pose proof (registrations_Ok (registrations ++ [last_registration]) master0 master0_wf ltac:(by vm_compute)) as Hl.
  apply returns_elim in Hl as (m & Hm & Hwf & _).
  replace master_complete with m; [done|]. rewrite foldM_app in Hm.
  unfold master_complete, master_before. destruct (foldM _ registrations master0) as [m'|]; [|done].
  cbn [mbind res_bind foldM] in Hm. by destruct (ProcessRegisterMsg last_registration m') as [?|]; simplify_eq/=.
Qed.

Ltac check_address i p :=
  exists i, p; split; [by vm_compute|split; [apply (bool_decide_unpack _); by vm_compute|by vm_compute]].

Lemma master_complete_ok : complete 10000 master_complete.
Proof.
  constructor; [apply master_complete_wf|by vm_compute| |by vm_compute|by vm_compute| |by vm_compute].
  - constructor; by vm_compute.
  - apply map_Forall_to_list.
    match goal with |- Forall _ ?l => let v := eval vm_compute in l in replace l with v by (by vm_compute) end.
    repeat (apply Forall_cons; split); [..|by apply Forall_nil];
      first [check_address "127.0.0.1" 16666|check_address "10.0.0.1" 5000|check_address "10.0.0.2" 5555
            |check_address "10.0.0.3" 5000|check_address "10.0.0.4" 5555].
Qed.

Lemma Hmax_test : 0 < 10000 ≤ 2 ^ 30.
Proof. lia. Qed.

Lemma last_registration_Ok : ProcessRegisterMsg last_registration master_before = Ok master_complete.
Proof.
  unfold master_complete. destruct (ProcessRegisterMsg last_registration master_before) eqn:E; [done|].
  exfalso. assert (ProcessRegisterMsg last_registration master_before ⇓ λ _, True) as Hok by by vm_compute.
  by rewrite E in Hok.
Qed.

Lemma threads_test : heartbeat_ master_complete = false ∧ detect_dead_node_ master_complete = false.
Proof. split; by vm_compute. Qed.

Example MainLoop_completes_cluster_witness :
  ∃ m' c, MainLoop_step count_draw 10000 77 last_registration master_before = Ok (m', false) ∧
    config_ok c ∧ routable c ∧ Forall (λ x, 1 ≤ x) (partition c) ∧
    outbox (sender_ m') = outbox (sender_ master_complete) ++ deliveries c (node_id_ (config_ master_complete)) ∧
    book_of 10000 (map_to_list (id_to_addr_ (config_ master_complete))) (book (sender_ m')) ∧
    (∀ id, 0 ≤ id < node_id_ (config_ master_complete) →
       node_ip_port c !! Z.to_nat id = id_to_addr_ (config_ master_complete) !! id ∧
       alive_node_ m' !! id = Some 77) ∧
    heartbeat_ m' = true ∧ detect_dead_node_ m' = true.
Proof.
  refine (MainLoop_completes_cluster 10000 Hmax_test count_draw count_draw_ok
    master_before master_complete 77 last_registration eq_refl last_registration_Ok master_complete_ok threads_test).
Defined.

Example registrations_spec_witness :
  foldM ProcessRegisterMsg registrations master0 ⇓ λ m', wf (config_ m') ∧
    node_id_ (config_ m') = node_id_ (config_ master0) + zlen registrations ∧
    (∀ id, id_to_addr_ (config_ m') !! id =
       match (if decide (node_id_ (config_ master0) ≤ id)
              then registrations !! Z.to_nat (id - node_id_ (config_ master0)) else None) with
       | Some msg => Some (address (ip (register_msg msg)) (port (register_msg msg)))
       | None => id_to_addr_ (config_ master0) !! id
       end).
Proof. apply (registrations_spec registrations master0 master0_wf). by vm_compute. Defined.

Example DeliverHeartbeat_spec_witness :
  ∃ m' c, DeliverHeartbeat 10000 master_complete = Ok m' ∧
    (config_changed_ (config_ master_complete) = true →
       ∃ conf, c = Some conf ∧ ToMessage (config_ master_complete) = Ok conf) ∧
    (config_changed_ (config_ master_complete) = false → c = None) ∧
    outbox (sender_ m') = outbox (sender_ master_complete) ++ heartbeats 10000 c (config_ master_complete) ∧
    config_changed_ (config_ m') = false.
Proof.
  apply (DeliverHeartbeat_spec 10000 Hmax_test master_complete master_complete_wf). by vm_compute.
Defined.

(** The cluster's table once the partition is drawn: servers 1 and 3. *)
Definition drawn : TaskConfig := (config_ master_complete) <| partition_ := [2; 6] |>.

Lemma set_partition_wf c l : wf c → wf (c <| partition_ := l |>).
Proof. by intros []; destruct c; constructor. Qed.

Lemma drawn_wf : wf drawn.
Proof. exact (set_partition_wf _ [2; 6] master_complete_wf). Qed.

Example FixConfig_spec_witness : ∃ c', FixConfig [0; 3] drawn = Ok c' ∧ fixed drawn [0; 3] c'.
Proof. apply (FixConfig_spec drawn [0; 3] drawn_wf); [by vm_compute|discriminate]. Defined.

(** The heartbeat that announces the death of server 3. *)
Definition fixed_message : Message :=
  heartbeat_message 2 match (c ← FixConfig [3] drawn; ToMessage c) with Ok conf => Some conf | Fault _ => None end.

Example FixConfig_stale_witness :
  ∃ c' conf, FixConfig [3] drawn = Ok c' ∧ ToMessage c' = Ok conf ∧
    zlen (server_id conf) < server_num conf ∧
    (config_msg fixed_message = conf → Agent.Reconfigurate fixed_message test_agent = Fault ProtoIndex).
Proof.
  apply (FixConfig_stale drawn [3] 3 fixed_message test_agent drawn_wf); [by vm_compute|by vm_compute|by left|].
  apply (bool_decide_unpack _). by vm_compute.
Defined.

Example FixConfig_arc_to_predecessor_witness :
  ∃ points', erase_at [2; 6; 8] (Z.to_nat 1) = Ok points' ∧
    Partition.GetServerByKey (Partition.mkPartition 10 (3 - 1) points') 7 = Ok ((1 - 1) mod (3 - 1)).
Proof.
  apply (FixConfig_arc_to_predecessor 10 3 [2; 6; 8] 1 7); [|done|done|done|].
  - apply Partition.mkPartition_wf; [by vm_compute|done|Partition.check_sorted|repeat constructor; by vm_compute].
  - split; [by vm_compute|]. right. exists 6. split; [done|]. split; [done|]. by intros hi [= <-].
Defined.
