(* ===== verification/MasterLoop.v ===== *)
(** * The master's main loop, its list of masters and its dead nodes

    When the main loop ends, what [Initialize] makes of the list of masters,
    and how a pass of the dead-node thread ends. *)

From S2P Require Import Prelude CppStd Decimal Logging Float32 Messages Communicator.
From S2P Require Import TaskConfig TaskConfigProps Master MasterConfig MasterProps.
From Stdlib Require String.
From Stdlib Require Import Ascii.
From stdpp Require Import options.

Import TaskConfig Master.

(** ** Dead nodes *)

Lemma GetIp_known id c : is_Some (id_to_addr_ c !! id) → (GetIp id c).2 = c.
Proof. intros [a Ha]. unfold GetIp. rewrite (map_at_Some _ _ _ a) by done. by destruct c. Qed.

(** Using the logger of [DetectDeadNode] with something to write. *)
Lemma logger_dangles now p texts w :
  texts ≠ [] → Logging.run (Logging.LOG_reference (fresh (dom (Logging.objects w))) now p texts) w = Fault Dangling.
Proof.
  intros Hne. rewrite Logging.logger_outlives_stream by (apply not_elem_of_dom; apply is_fresh). by destruct texts.
Qed.

Section dead.
Context {C : Type} `{Communicator C} (timeout : Z) (localtime : Z → Logging.tm).
Implicit Types m : Master C.
Set Default Proof Using "Type*".

Lemma GetDeadNode_spec now m id :
  id ∈ GetDeadNode timeout now m ↔ ∃ t, alive_node_ m !! id = Some t ∧ t + timeout < now.
Proof.
  unfold GetDeadNode. rewrite list_elem_of_fmap. split.
  - intros ([id' t] & -> & [Ht Hin]%list_elem_of_filter). exists t. by apply elem_of_map_to_list in Hin.
  - intros (t & Hl & Ht). exists (id, t). split; [done|]. apply list_elem_of_filter.
    split; [done|]. by apply elem_of_map_to_list.
Qed.

Lemma GetDeadNode_none now m :
  GetDeadNode timeout now m = [] ↔ ∀ id t, alive_node_ m !! id = Some t → now ≤ t + timeout.
Proof.
  split.
  - intros Hnil id t Hl. destruct (decide (now ≤ t + timeout)) as [|Hlt]; [done|].
    assert (id ∈ GetDeadNode timeout now m) as Hin by (apply GetDeadNode_spec; exists t; split; [done|lia]).
    rewrite Hnil in Hin. by apply elem_of_nil in Hin.
  - intros Hall. destruct (GetDeadNode timeout now m) as [|id l] eqn:E; [done|].
    assert (id ∈ GetDeadNode timeout now m) as (t & Hl & Ht)%GetDeadNode_spec by (rewrite E; by left).
    specialize (Hall id t Hl). lia.
Qed.

Lemma dead_node_texts_some dead m : dead ≠ [] → (dead_node_texts dead m).1 ≠ [].
Proof.
  destruct dead as [|node dead]; [done|]. intros _. cbn [dead_node_texts].
  destruct (GetIp node (config_ m)) as [ip config]. by destruct (dead_node_texts dead _).
Qed.

(** A pass that finds a dead node is undefined. [DetectDeadNode] does nothing
    as long as every node watched was heard of within the timeout; a pass that
    finds a dead node writes its name to a stream that has ended, before
    [FixConfig] removes anything. *)
Theorem DetectDeadNode_undefined now m w :
  DetectDeadNode timeout localtime now m w =
    match GetDeadNode timeout now m with [] => Ok (m, w) | _ => Fault Dangling end.
Proof.
  unfold DetectDeadNode. cbv zeta. destruct (GetDeadNode timeout now m) as [|id dead] eqn:Hd; [done|].
  replace (0 <? zlen (id :: dead)) with true by by (symmetry; apply Z.ltb_lt).
  pose proof (dead_node_texts_some (id :: dead) m ltac:(done)) as Hne.
  destruct (dead_node_texts (id :: dead) m) as [texts m']. cbn [fst] in Hne. by rewrite logger_dangles.
Qed.
End dead.

(** ** The main loop *)

Section loop.
Context {C : Type} `{Communicator C}.
Context (draw : Z * Z → nat → Z) (max_cluster_node : Z).
Implicit Types m : Master C.
Set Default Proof Using "Type*".

(** The messages of a running cluster: no registration, and heartbeats as the
    nodes send them. *)
Definition running_msg (msg : Message) : Prop :=
  match message_type msg with
  | mt_register => False
  | mt_heartbeat => has_heartbeat_msg msg = true ∧ is_live (heartbeat_msg msg) = true
  | _ => True
  end.

(** The nodes that report their termination. *)
Definition terminators (msgs : list (Z * Message)) : gset Z :=
  list_to_set (send_id ∘ snd <$> filter (λ tm, message_type tm.2 = mt_terminate) msgs).

Lemma terminators_cons now msg msgs :
  terminators ((now, msg) :: msgs) =
    (if decide (message_type msg = mt_terminate) then {[ send_id msg ]} else ∅) ∪ terminators msgs.
Proof.
  unfold terminators. rewrite filter_cons. cbn [snd]. destruct (decide _); [done|]. set_solver.
Qed.

(** What one message of a running cluster does to the loop. *)
Lemma running_step now msg m :
  running_msg msg → 0 ≤ worker_num_ (config_ m) ≤ kInt32Max →
  ∃ m', MainLoop_step draw max_cluster_node now msg m = Ok (m',
      bool_decide (message_type msg = mt_terminate) &&
      (Z.of_nat (size (terminated_node_ m')) =? worker_num_ (config_ m))) ∧
    terminated_node_ m' =
      (if decide (message_type msg = mt_terminate) then {[ send_id msg ]} else ∅) ∪ terminated_node_ m ∧
    worker_num_ (config_ m') = worker_num_ (config_ m).
Proof.
  unfold running_msg, MainLoop_step. intros Hmsg Hw.
  destruct (message_type msg) eqn:Ht; try done.
  - exists m. rewrite bool_decide_eq_false_2, decide_False by done. split_and!; [done|set_solver|done].
  - exists m. rewrite bool_decide_eq_false_2, decide_False by done. split_and!; [done|set_solver|done].
  - destruct Hmsg as [Hh Hl]. unfold ProcessHeartbeatMsg. rewrite Hh, Hl. cbn.
    rewrite bool_decide_eq_false_2, decide_False by done. eexists. split; [done|].
    cbn. unfold GetIp. destruct (map_at _ _ _) as [x l]. cbn. split; [set_solver|done].
  - rewrite bool_decide_eq_true_2, decide_True by done. exists (m <| terminated_node_ ::= λ s, {[ send_id msg ]} ∪ s |>).
    split; [cbn; by rewrite to_size_t_nonneg by lia|done].
  - exists m. rewrite bool_decide_eq_false_2, decide_False by done. split_and!; [done|set_solver|done].
Qed.

(** It does not stop a thread either. *)
Lemma running_threads now msg m :
  running_msg msg → ensures (MainLoop_step draw max_cluster_node now msg m) (λ r, heartbeat_ r.1 = heartbeat_ m).
Proof.
  unfold running_msg, MainLoop_step. intros Hmsg. destruct (message_type msg); try done.
  destruct Hmsg as [Hh Hl]. unfold ProcessHeartbeatMsg. by rewrite Hh, Hl.
Qed.

Lemma main_loop_Ok msgs m
    (Hw : 0 < worker_num_ (config_ m) ≤ kInt32Max)
    (Hlt : Z.of_nat (size (terminated_node_ m)) < worker_num_ (config_ m))
    (Hmsgs : Forall (λ tm, running_msg tm.2) msgs) :
  ∃ m', main_loop draw max_cluster_node msgs m = Ok (m',
    bool_decide (worker_num_ (config_ m) ≤ Z.of_nat (size (terminators msgs ∪ terminated_node_ m)))) ∧
    heartbeat_ m' = heartbeat_ m.
Proof.
  revert m Hw Hlt. induction Hmsgs as [|[now msg] msgs Hmsg _ IH]; intros m Hw Hlt; cbn [main_loop].
  { exists m. split; [|done]. rewrite bool_decide_eq_false_2; [done|]. unfold terminators. cbn.
    rewrite union_empty_l_L. lia. }
  destruct (running_step now msg m Hmsg ltac:(lia)) as (m' & Hstep & Hset & Hnum).
  pose proof (running_threads now msg m Hmsg) as Hhb. rewrite Hstep in Hhb |- *. cbn in Hhb. cbn [mbind res_bind].
  rewrite terminators_cons. case_decide as Ht.
  - rewrite bool_decide_eq_true_2 by done. cbn [andb].
    assert (size (terminated_node_ m') ≤ S (size (terminated_node_ m)))%nat as Hgrow
      by (rewrite Hset, size_union_alt, size_singleton; pose proof (subseteq_size (terminated_node_ m ∖ {[ send_id msg ]})
        (terminated_node_ m) ltac:(set_solver)); lia).
    destruct (Z.eqb_spec (Z.of_nat (size (terminated_node_ m'))) (worker_num_ (config_ m))) as [Heq|Hne].
    + exists m'. split; [|done]. rewrite bool_decide_eq_true_2; [done|].
      pose proof (subseteq_size (terminated_node_ m') ({[ send_id msg ]} ∪ terminators msgs ∪ terminated_node_ m)
        ltac:(rewrite Hset; set_solver)). lia.
    + destruct (IH m') as (m'' & -> & Hhb'); [lia|lia|]. exists m''. split; [|congruence]. rewrite Hnum, Hset.
      by rewrite (comm_L (∪) {[ send_id msg ]} (terminators msgs)), <- (assoc_L (∪)).
  - rewrite bool_decide_eq_false_2 by done. cbn [andb].
    rewrite union_empty_l_L in Hset |- *. destruct (IH m') as (m'' & -> & Hhb'); [lia|rewrite Hset; lia|].
    exists m''. split; [|congruence]. by rewrite Hnum, Hset.
Qed.

(** C21: the main loop ends when every worker has reported. On the messages of
    a running cluster the loop never faults, and it ends exactly when as many
    different nodes have reported their termination as there are workers. *)
Theorem main_loop_terminates msgs m
    (Hw : 0 < worker_num_ (config_ m) ≤ kInt32Max)
    (Hlt : Z.of_nat (size (terminated_node_ m)) < worker_num_ (config_ m))
    (Hmsgs : Forall (λ tm, running_msg tm.2) msgs) :
  ∃ m', main_loop draw max_cluster_node msgs m = Ok (m',
    bool_decide (worker_num_ (config_ m) ≤ Z.of_nat (size (terminators msgs ∪ terminated_node_ m)))).
Proof. destruct (main_loop_Ok msgs m Hw Hlt Hmsgs) as (m' & Hrun & _). by exists m'. Qed.
End loop.

(** ** The list of masters *)

(** The comma-separated list of the command line. *)
Fixpoint join (l : list bytes) : bytes :=
  match l with
  | [] => []
  | [a] => a
  | a :: l => a ++ ","%char :: join l
  end.

Definition master_addr_ok (a : string) : Prop :=
  a ≠ EmptyString ∧ ","%char ∉ String.list_ascii_of_string a.

Section masters.
Context {C : Type} `{Communicator C}.
Implicit Types m : Master C.
Set Default Proof Using "Type*".

(** [c'] is [c] after the masters [addrs] were appended. *)
Record with_masters (c : TaskConfig) (addrs : list string) (c' : TaskConfig) : Prop := {
  wm_wf : wf c';
  wm_ids : master_id_ c' = master_id_ c ++ seqZ (node_id_ c) (zlen addrs);
  wm_next : node_id_ c' = node_id_ c + zlen addrs;
  wm_addrs : ∀ k a, addrs !! k = Some a → id_to_addr_ c' !! (node_id_ c + Z.of_nat k) = Some a;
  wm_old : ∀ id, id < node_id_ c → id_to_addr_ c' !! id = id_to_addr_ c !! id;
}.

Lemma with_masters_nil c : wf c → with_masters c [] c.
Proof. intros Hwf. constructor; cbn; [done|by rewrite app_nil_r|lia|done|done]. Qed.

Lemma with_masters_cons c c1 a addrs c' :
  AppendMaster a c = Ok c1 → wf c → node_id_ c < kInt32Max →
  with_masters c1 addrs c' → with_masters c (a :: addrs) c'.
Proof.
  intros Ha Hwf Hn [Hw Hi Hx Hl Ho]. destruct (AppendMaster_Ok a c Hwf Hn) as (c1' & Ha' & _ & Hm & Hnx & Had).
  rewrite Ha in Ha'. injection Ha' as <-. constructor.
  - done.
  - rewrite Hi, Hm, Hnx, <- app_assoc. cbn [app length]. rewrite (seqZ_cons (node_id_ c)) by lia.
    do 2 f_equal. f_equal; lia.
  - rewrite Hx, Hnx. cbn [length]. lia.
  - intros [|k] b Hb; cbn in Hb.
    + injection Hb as <-. rewrite Z.add_0_r, Ho, Had by lia. by rewrite lookup_insert_eq.
    + rewrite <- (Hl k b Hb), Hnx. f_equal. lia.
  - intros id Hid. rewrite Ho, Had by lia. by rewrite lookup_insert_ne by lia.
Qed.

Lemma append_masters_Ok addrs fuel count m :
  wf (config_ m) → Forall master_addr_ok addrs → node_id_ (config_ m) + zlen addrs ≤ kInt32Max →
  0 ≤ count → count + zlen addrs ≤ kInt32Max →
  (length (join (String.list_ascii_of_string <$> addrs)) < fuel)%nat →
  ∃ c', append_masters fuel (join (String.list_ascii_of_string <$> addrs)) count m =
      Ok (m <| config_ := c' |>, count + zlen addrs) ∧ with_masters (config_ m) addrs c'.
Proof.
  revert fuel count m. induction addrs as [|a addrs IH]; intros fuel count m Hwf Hall Hroom Hc Hcm Hf.
  { destruct fuel as [|fuel]; [cbn in Hf; lia|]. exists (config_ m). split; [|by apply with_masters_nil].
    cbn. rewrite Z.add_0_r. by destruct m. }
  inversion_clear Hall as [|? ? [Hne Hcomma] Hall']. cbn [length] in Hroom, Hcm.
  destruct fuel as [|fuel]; [lia|]. cbn [append_masters].
  destruct (AppendMaster_Ok a (config_ m) Hwf ltac:(lia)) as (c1 & Ha & Hwf1 & _ & Hnx & _).
  assert (0 <? zlen (String.list_ascii_of_string a) = true) as Hlen by (apply Z.ltb_lt; destruct a; [done|cbn; lia]).
  assert (add32 count 1 = Ok (count + 1)) as Hadd by (apply i32_Ok; unfold kInt32Min; lia).
  destruct addrs as [|b addrs].
  - cbn [fmap list_fmap join]. rewrite split_none, Hlen by done.
    rewrite String.string_of_list_ascii_of_string, Ha. cbn [mbind res_bind]. rewrite Hadd. cbn.
    exists c1. split; [done|]. eapply with_masters_cons; [exact Ha|done|lia|]. by apply with_masters_nil.
  - change (join (String.list_ascii_of_string <$> a :: b :: addrs)) with
      (String.list_ascii_of_string a ++ ","%char :: join (String.list_ascii_of_string <$> b :: addrs)) in Hf |- *.
    rewrite split_app, Hlen by done.
    rewrite String.string_of_list_ascii_of_string, Ha. cbn [mbind res_bind]. rewrite Hadd.
    cbn [mbind res_bind mret res_ret]. set (m1 := m <| config_ := c1 |>).
    destruct (IH fuel (count + 1) m1) as (c' & Hrun & Hwm); [done|done|cbn in *; lia|lia|cbn in *; lia| |].
    { rewrite length_app, length_cons in Hf. lia. }
    rewrite Hrun. exists c'. split.
    + f_equal. f_equal. cbn [length]. lia.
    + eapply with_masters_cons; [exact Ha|done|lia|done].
Qed.

(** The list of masters is read back. On the comma-separated text of any
    list of addresses (none empty, none with a comma) [Initialize] returns
    their number and registers every one of them, in order, under consecutive
    ids, with the address as written. *)
Theorem Initialize_masters addrs m
    (Hwf : wf (config_ m)) (Haddrs : Forall master_addr_ok addrs)
    (Hroom : node_id_ (config_ m) + zlen addrs ≤ kInt32Max) :
  ∃ c', Master.Initialize (String.string_of_list_ascii (join (String.list_ascii_of_string <$> addrs))) m =
      Ok (m <| config_ := c' |>, zlen addrs) ∧ with_masters (config_ m) addrs c'.
Proof.
  pose proof (wf_next _ Hwf). unfold Master.Initialize. cbv zeta. rewrite String.list_ascii_of_string_of_list_ascii.
  by apply append_masters_Ok; [done|done|done|lia|lia|lia].
Qed.
End masters.

(** ** Witnesses *)

(** The complete cluster at time 1000: nodes 0 to 4 were last heard at 77, but
    servers 1 and agent 2 answered at 990. *)
Definition silent_master : Master Trace :=
  master_complete <| config_ := drawn |>
    <| alive_node_ := <[ 1 := 990 ]> (<[ 2 := 990 ]> (<[ 3 := 77 ]> (<[ 4 := 77 ]> ∅))) |>.

Example silent_pass : DetectDeadNode 60 (λ _, Logging.noon) 1000 silent_master Logging.silent = Fault Dangling.
Proof. by vm_compute. Qed.

Definition report (id : Z) : Message := mkMessage id 0 mt_terminate None None None None.

Example main_loop_terminates_witness :
  ∃ m', main_loop count_draw 10000 [(80, report 2); (81, report 2); (82, report 4)] master_complete = Ok (m',
    bool_decide (worker_num_ (config_ master_complete) ≤
      Z.of_nat (size (terminators [(80, report 2); (81, report 2); (82, report 4)] ∪ terminated_node_ master_complete)))).
Proof.
  apply (main_loop_terminates count_draw 10000).
  - by vm_compute.
  - by vm_compute.
  - by repeat constructor.
Defined.

Example Initialize_masters_witness :
  ∃ c', Master.Initialize (String.string_of_list_ascii
      (join (String.list_ascii_of_string <$> ["10.0.0.9:16666"; "10.0.0.8:16666"]%string))) master0 =
      Ok (master0 <| config_ := c' |>, zlen ["10.0.0.9:16666"; "10.0.0.8:16666"]%string) ∧
    with_masters (config_ master0) ["10.0.0.9:16666"; "10.0.0.8:16666"]%string c'.
Proof.
  apply (Initialize_masters _ master0 master0_wf).
  - repeat constructor; try done; apply (bool_decide_unpack _); by vm_compute.
  - by vm_compute.
Defined.
