(* ===== verification/ServerReconf.v ===== *)
(** * Reconfiguration of a server

    [Reconfigure]: the new place on the ring, the refreshed address book, the
    take-over of the backed-up parameters ([ExtendParameter]), and the removal
    of agents. *)

From S2P Require Import Prelude CppStd Float32 Messages Communicator KeyValueList Ssp Server.
From S2P Require Import ServerMerge ServerInv ServerRound ServerInit.
From stdpp Require Import options.

Import Server.

Section reconf.
Set Default Proof Using "Type*".
Context {C : Type} `{CommunicatorLaws C}.
Implicit Types s : Server C.

(** ** [ExtendParameter] *)

(** The parameters after taking over [n] predecessors, the nearest last. *)
Definition taken_over (bs : list (list float32)) (n : nat) (params : list float32) : list float32 :=
  concat (reverse (take n bs)) ++ params.

Lemma taken_over_S bs n b params :
  bs !! n = Some b → taken_over bs (S n) params = b ++ taken_over bs n params.
Proof.
  intros Hb. unfold taken_over. rewrite (take_S_r _ _ b), reverse_app by done. cbn.
  by rewrite app_assoc.
Qed.

(** The loop stops as soon as the length fits. *)
Lemma extend_loop_Ok s (n : nat) (k : nat) (params : list float32) :
  (k ≤ n)%nat → Z.of_nat n ≤ backup_size_ s → (n ≤ length (backup_parameters_ s))%nat →
  to_size_t (parameter_length_ s) = zlen (taken_over (backup_parameters_ s) n params) →
  (∀ j, (j < n)%nat → zlen (taken_over (backup_parameters_ s) j params) ≠ to_size_t (parameter_length_ s)) →
  extend_loop (seqZ (Z.of_nat k) (backup_size_ s - Z.of_nat k))
    (s <| parameters_ := taken_over (backup_parameters_ s) k params |>)
  = Ok (s <| parameters_ := taken_over (backup_parameters_ s) n params |>).
Proof.
  intros Hk Hn Hlen Hfit Hshort.
  remember (n - k)%nat as d eqn:Hd. revert k Hk Hd. induction d as [|d IH]; intros k Hk Hd.
  { assert (k = n) as -> by lia. destruct (decide (backup_size_ s - Z.of_nat n = 0)) as [->|].
    { done. }
    rewrite seqZ_cons by lia. cbn [extend_loop]. cbn -[extend_loop]. by rewrite Hfit, Z.eqb_refl. }
  rewrite seqZ_cons by lia. cbn [extend_loop]. cbn -[extend_loop].
  destruct (Z.eqb_spec (zlen (taken_over (backup_parameters_ s) k params)) (to_size_t (parameter_length_ s)))
    as [E|_]; [by apply Hshort in E; [|lia]|].
  destruct (vec_get_lt (backup_parameters_ s) (Z.of_nat k)) as (b & -> & Hb); [lia|].
  rewrite Nat2Z.id in Hb. cbn -[extend_loop].
  replace (Z.succ (Z.of_nat k)) with (Z.of_nat (S k)) by lia.
  replace (Z.pred (backup_size_ s - Z.of_nat k)) with (backup_size_ s - Z.of_nat (S k)) by lia.
  etransitivity; [|apply (IH (S k)); lia]. by rewrite (taken_over_S _ _ b).
Qed.

Lemma ExtendParameter_Ok s (n : nat) :
  Z.of_nat n ≤ backup_size_ s → (n ≤ length (backup_parameters_ s))%nat →
  to_size_t (parameter_length_ s) = zlen (taken_over (backup_parameters_ s) n (parameters_ s)) →
  (∀ j, (j < n)%nat → zlen (taken_over (backup_parameters_ s) j (parameters_ s)) ≠ to_size_t (parameter_length_ s)) →
  ExtendParameter s = Ok (s <| parameters_ := taken_over (backup_parameters_ s) n (parameters_ s) |>).
Proof.
  intros. unfold ExtendParameter. rewrite <- (extend_loop_Ok s n 0 (parameters_ s)) by (done || lia).
  rewrite Z.sub_0_r. unfold taken_over. cbn. by destruct s.
Qed.

(** ** The loop over the servers *)

Lemma reconf_turn_other c k x s found :
  server_id c !! Z.to_nat k = Some x → 0 ≤ k → x ≠ local_id_ s →
  reconfigure_server_id c k (s, found) =
    Ok (s <| server_ids_ ::= λ l, l ++ [x] |> <| servers_ ::= map_insert_new x k |>, found).
Proof.
  intros Hx Hk Hne. unfold reconfigure_server_id.
  rewrite (proto_get_Ok (server_id c) k x) by done. cbn. by destruct (Z.eqb_spec x (local_id_ s)).
Qed.

(** The fields that the turn for the local server sets. *)
Definition move_local (c : ConfigMessage) (i : Z) s : Server C :=
  s <| local_index_ := i |> <| start_key_ := point c i |> <| parameter_length_ := arc_len c i |>.

Lemma reconf_turn_local c i s found :
  config_ok c → 0 ≤ i < server_num c → server_id c !! Z.to_nat i = Some (local_id_ s) →
  server_num_ s = server_num c → key_range_ s = key_range c →
  reconfigure_server_id c i (s, found) =
    Ok (move_local c i (s <| server_ids_ ::= λ l, l ++ [local_id_ s] |>
                         <| servers_ ::= map_insert_new (local_id_ s) i |>), true).
Proof.
  intros Hok Hi Hx Hn Hr. unfold reconfigure_server_id.
  rewrite (proto_get_Ok (server_id c) i (local_id_ s)) by (done || lia). cbn. rewrite Z.eqb_refl.
  rewrite (point_get c Hok i Hi). cbn. rewrite Hn, (next_index_Ok c Hok i Hi). cbn.
  rewrite (point_get c Hok _ (next_range c Hok i)). cbn.
  rewrite Hr, (arc_ring_sub c Hok i Hi). done.
Qed.

Lemma reconf_loop_Ok c i s :
  config_ok c → 0 ≤ i < server_num c → server_id c !! Z.to_nat i = Some (local_id_ s) →
  server_num_ s = server_num c → key_range_ s = key_range c →
  server_ids_ s = [] → servers_ s = ∅ →
  for_ 0 (server_num c) (reconfigure_server_id c) (s, false) ⇓ λ st, ∃ sv,
    st = (recording (server_id c) sv (move_local c i s), true) ∧ records c (server_num c) sv.
Proof.
  intros Hok Hi Hid Hn Hr Hids Hsv. apply (server_turns_Ok c i); try done.
  - intros k x l sv t found Hx Hk Hne Ht. apply reconf_turn_other; try done.
    by repeat (apply elem_of_cons in Ht as [->|Ht]); [..|apply elem_of_nil in Ht].
  - intros l sv. by apply (reconf_turn_local c i).
Qed.

(** ** The other loops *)

Lemma map_insert_new_lookup {V} (m : gmap Z V) k v : m !! k = None → map_insert_new k v m = <[k := v]> m.
Proof. intros E. unfold map_insert_new. by rewrite E. Qed.

(** The address book agrees with the new configuration below [k]. *)
Definition refreshed (c : ConfigMessage) (k : Z) (b : gmap Z string) : Prop :=
  ∀ j, 0 ≤ j < k → b !! j = node_ip_port c !! Z.to_nat j.

Lemma refresh_loop_Ok c s :
  for_ 0 (zlen (node_ip_port c)) (λ i s,
    a ← proto_get (node_ip_port c) i;
    mret (if CheckIdAddr i a (sender_ s) then s
          else s <| sender_ ::= λ ch, (AddIdAddr i a (DeleteId i ch).2).2 |>)) s ⇓ λ s', ∃ ch,
    s' = s <| sender_ := ch |> ∧ outbox ch = outbox (sender_ s) ∧
    refreshed c (zlen (node_ip_port c)) (book ch).
Proof.
  apply (for_inv (λ i s', ∃ ch, s' = s <| sender_ := ch |> ∧ outbox ch = outbox (sender_ s) ∧
    refreshed c i (book ch))); [lia|exists (sender_ s); split_and!; [by destruct s|done|intros j; lia]|].
  intros i s' Hi (ch & -> & Hout & Href).
  destruct (lookup_lt_is_Some_2 (node_ip_port c) (Z.to_nat i)) as [a Ha]; [lia|].
  rewrite (proto_get_Ok _ i a) by (done || lia). cbn [mbind res_bind returns mret res_ret].
  cbn [sender_ upd_field]. rewrite CheckIdAddr_book. case_bool_decide as Hc.
  - exists ch. split_and!; [done|done|]. intros j Hj.
    destruct (decide (j = i)) as [->|]; [congruence|apply Href; lia].
  - eexists. split_and!; [done|by rewrite AddIdAddr_outbox, DeleteId_outbox|].
    rewrite AddIdAddr_book, DeleteId_book, map_insert_new_lookup by apply lookup_delete_eq.
    intros j Hj. destruct (decide (j = i)) as [->|]; [by rewrite lookup_insert_eq|].
    rewrite lookup_insert_ne, lookup_delete_ne by done. apply Href. lia.
Qed.

(** No agent left. *)
Lemma keep_loop_Ok c s :
  agent_ids_ s ⊆ list_to_set (worker_id c) →
  foldM (λ id s, if bool_decide (id ∈ worker_id c) then mret s else remove_agent id s)
    (elements (agent_ids_ s)) s = Ok s.
Proof.
  intros Hsub.
  assert (∀ id, id ∈ elements (agent_ids_ s) → id ∈ worker_id c) as Hall by set_solver.
  induction (elements (agent_ids_ s)) as [|id l IH]; [done|]. simpl.
  rewrite bool_decide_eq_true_2 by (apply Hall; by constructor). simpl.
  apply IH. intros. apply Hall. by constructor.
Qed.

(** No agent is new. *)
Lemma known_loop_Ok c s n :
  0 ≤ n ≤ zlen (worker_id c) → (∀ w, w ∈ worker_id c → is_Some (id_to_index_ s !! w)) →
  for_ 0 n (λ i s,
    w ← proto_get (worker_id c) i;
    mret (match id_to_index_ s !! w with
          | Some _ => s
          | None => s <| id_to_index_ ::= <[ w := wrap32 (zlen (version_buffer_ s)) ]> |>
                      <| version_buffer_ ::= λ l, l ++ [[]] |>
          end)) s ⇓ λ s', s' = s.
Proof.
  intros Hn Hknown. apply (for_inv (λ _ s', s' = s)); [lia|done|]. intros i s' Hi ->.
  destruct (lookup_lt_is_Some_2 (worker_id c) (Z.to_nat i)) as [w Hw]; [lia|].
  rewrite (proto_get_Ok _ i w) by (done || lia). cbn.
  by destruct (Hknown w) as [? ->]; [by eapply list_elem_of_lookup_2|].
Qed.

(** Fewer agents than before: the loop still asks for the old number of ids. *)
Lemma missing_loop_fault c s n :
  zlen (worker_id c) < n → (∀ w, w ∈ worker_id c → is_Some (id_to_index_ s !! w)) →
  for_ 0 n (λ i s,
    w ← proto_get (worker_id c) i;
    mret (match id_to_index_ s !! w with
          | Some _ => s
          | None => s <| id_to_index_ ::= <[ w := wrap32 (zlen (version_buffer_ s)) ]> |>
                      <| version_buffer_ ::= λ l, l ++ [[]] |>
          end)) s = Fault ProtoIndex.
Proof.
  intros Hn Hknown.
  apply (for_fault (λ _ s', s' = s) _ _ _ _ (zlen (worker_id c))); [lia|done| |].
  - intros i s' Hi ->. right. exists s. split; [|done].
    destruct (lookup_lt_is_Some_2 (worker_id c) (Z.to_nat i)) as [w Hw]; [lia|].
    rewrite (proto_get_Ok _ i w) by (done || lia). cbn.
    by destruct (Hknown w) as [? ->]; [by eapply list_elem_of_lookup_2|].
  - intros s' _. unfold proto_get.
    destruct (Z.ltb_spec (zlen (worker_id c)) 0); [done|]. by rewrite lookup_ge_None_2 by lia.
Qed.

(** ** Agents that left *)

Lemma ahead_clear k (vb : buffers) i b :
  vb !! i = Some b →
  ahead k (<[ i := [] ]> vb) = ahead k vb - (if decide (k < length b)%nat then 1 else 0).
Proof.
  revert i. induction vb as [|b' vb IH]; intros i Hi; [done|].
  destruct i as [|i]; simplify_eq/=; rewrite !ahead_cons; simpl.
  - repeat case_decide; lia.
  - rewrite IH by done. lia.
Qed.

(** The counters after taking one from each of the first [j]. *)
Definition lowered (bound : Z) (vb : buffers) (j : Z) : list Z :=
  (λ k, ahead k vb - (if decide (Z.of_nat k < j) then 1 else 0)) <$> seq 0 (Z.to_nat bound).

Lemma lowered_S bound vb j :
  0 ≤ j < bound →
  <[ Z.to_nat j := ahead (Z.to_nat j) vb - 1 ]> (lowered bound vb j) = lowered bound vb (j + 1).
Proof.
  intros Hj. apply list_eq_same_length with (Z.to_nat bound);
    [by unfold lowered; rewrite length_fmap, length_seq
    |by rewrite length_insert; unfold lowered; rewrite length_fmap, length_seq|].
  intros k x y Hk. unfold lowered.
  destruct (decide (k = Z.to_nat j)) as [->|Hne].
  - rewrite list_lookup_insert_eq by (rewrite length_fmap, length_seq; lia).
    rewrite list_lookup_fmap, lookup_seq_lt by done. cbn. intros [= <-] [= <-].
    case_decide; lia.
  - rewrite list_lookup_insert_ne, !list_lookup_fmap, !lookup_seq_lt by done.
    cbn. intros [= <-] [= <-]. repeat case_decide; lia.
Qed.

Lemma lower_loop_Ok bound agents fc vb i b :
  counts_inv bound agents fc vb → vb !! i = Some b →
  for_ 0 (zlen b) (λ i fc, c ← vec_get fc i; c' ← sub32 c 1; vec_set fc i c') fc
  = Ok (lowered bound vb (zlen b)).
Proof.
  intros Hc Hb. pose proof Hc as [Hbound Ha Hvb -> Hfull].
  assert (zlen b ≤ bound) as Hlen by (rewrite Forall_lookup in Hfull; by eapply Hfull).
  destruct (proj1 (returns_elim (for_ 0 (zlen b) (λ i fc, c ← vec_get fc i; c' ← sub32 c 1; vec_set fc i c')
    ((λ k, ahead k vb) <$> seq 0 (Z.to_nat bound))) (λ fc, fc = lowered bound vb (zlen b)))) as (? & -> & ->); [|done].
  apply (for_inv (λ j fc, fc = lowered bound vb j)); [lia| |].
  { apply list_fmap_ext. intros k x _. case_decide; lia. }
  intros j fc Hj ->. pose proof (ahead_le (Z.to_nat j) vb).
  rewrite (vec_get_Ok _ j (ahead (Z.to_nat j) vb)); [|lia|]; last first.
  { unfold lowered. rewrite list_lookup_fmap, lookup_seq_lt by lia. cbn. f_equal. case_decide; lia. }
  simpl. unfold sub32. rewrite i32_Ok by (unfold kInt32Min, kInt32Max in *; lia). simpl.
  rewrite vec_set_Ok by (unfold lowered; rewrite length_fmap, length_seq; lia).
  simpl. apply lowered_S. lia.
Qed.

Lemma counts_remove bound agents fc vb i b :
  counts_inv bound agents fc vb → vb !! i = Some b →
  counts_inv bound agents (lowered bound vb (zlen b)) (<[ i := [] ]> vb).
Proof.
  intros [Hb Ha Hvb -> Hfull] Hi. constructor; [done|done|by rewrite length_insert| |].
  - apply list_fmap_ext. intros k x _. rewrite (ahead_clear _ _ _ b) by done.
    repeat case_decide; lia.
  - apply Forall_insert; [done|]. simpl. lia.
Qed.

(** What the removal of agents keeps. *)
Definition counts_ok s : Prop :=
  counts_inv (consistency_bound_ s) (agent_num_ s) (finish_count_ s) (version_buffer_ s) ∧
  ∀ id i, id_to_index_ s !! id = Some i → 0 ≤ i < agent_num_ s.

(** An agent's departure clears its buffer and takes its updates out of the
    counters, which stay exact. *)
Lemma remove_agent_Ok id s :
  counts_ok s → is_Some (id_to_index_ s !! id) →
  ∃ s', remove_agent id s = Ok s' ∧ counts_ok s' ∧ agent_num_ s' = agent_num_ s ∧
    id_to_index_ s' = delete id (id_to_index_ s).
Proof.
  intros [Hc Hr] [z Hz]. pose proof (Hr _ _ Hz) as Hzr. pose proof (ci_buffers _ _ _ _ Hc).
  destruct (lookup_lt_is_Some_2 (version_buffer_ s) (Z.to_nat z)) as [b Hb]; [lia|].
  unfold remove_agent. rewrite (map_at_Some _ _ _ z) by done. cbn.
  rewrite (vec_get_Ok _ z b) by (done || lia). cbn.
  rewrite (lower_loop_Ok _ _ _ _ _ b Hc Hb). cbn. rewrite vec_set_Ok by lia. cbn.
  eexists. split_and!; [done| |done|done]. split; cbn; [exact (counts_remove _ _ _ _ _ _ Hc Hb)|].
  intros id' i [_ Hi]%lookup_delete_Some. by eapply Hr.
Qed.

Lemma remove_loop_Ok (ws l : list Z) s :
  counts_ok s → NoDup l → (∀ id, id ∈ l → is_Some (id_to_index_ s !! id)) →
  foldM (λ id s, if bool_decide (id ∈ ws) then mret s else remove_agent id s) l s ⇓ λ s',
    agent_num_ s' = agent_num_ s ∧ ∀ w, w ∈ ws → id_to_index_ s' !! w = id_to_index_ s !! w.
Proof.
  revert s. induction l as [|id l IH]; intros s Hc Hnd Hall; [by cbn|].
  inversion_clear Hnd as [|? ? Hid Hnd']. simpl. case_bool_decide as Hin.
  { simpl. apply IH; [done|done|]. intros. apply Hall. by constructor. }
  destruct (remove_agent_Ok id s Hc) as (s' & -> & Hc' & Hn & Hix); [apply Hall; by constructor|].
  simpl. eapply returns_mono; [apply IH; [done|done|]|].
  - intros id' Hid'. rewrite Hix, lookup_delete_ne by (by intros ->). apply Hall. by constructor.
  - intros t [-> Ht]. split; [done|]. intros w Hw. rewrite Ht, Hix by done.
    by rewrite lookup_delete_ne by (by intros ->).
Qed.
End reconf.
