(* ===== verification/Cluster.v ===== *)
(** * Concrete clusters

    Small configurations and the servers they boot, on which the hypotheses of
    the server's theorems are checked. *)

From S2P Require Import Prelude CppStd Float32 Messages Communicator KeyValueList Ssp Server.
From S2P Require Import ServerMerge ServerInv ServerRound ServerPush ServerInit.
From stdpp Require Import options.

Import Server.

(** ** Two servers and two agents

    Servers 1 and 2, agents 3 and 4, ten keys split at 2 and 6: server 1 owns
    keys 2 to 5, server 2 the keys from 6 that wrap around to 1. *)

Definition test_config : ConfigMessage :=
  mkConfig 2 2 10 ["m:1"; "a:1"; "b:1"; "c:1"; "d:1"] [2; 6] 1 [1; 2] [3; 4] [0] 2.

Definition config_message (id : Z) (c : ConfigMessage) : Message :=
  mkMessage 0 id mt_config (Some c) None None None.

(** The server with the given id, just configured. *)
Definition boot (id : Z) (c : ConfigMessage) : Server Trace :=
  match configure (config_message id c) ((new_server new_trace) <| local_address_ := EmptyString |>) with
  | Ok (s, _) => s
  | Fault _ => new_server new_trace
  end.

Ltac check_config :=
  constructor; first [by vm_compute | apply (bool_decide_unpack _); by vm_compute
    | repeat constructor; by vm_compute].

Lemma test_config_ok : config_ok test_config.
Proof. check_config. Qed.

Lemma boot_inv c id i :
  config_ok c → 0 ≤ i → server_id c !! Z.to_nat i = Some id → inv (boot id c).
Proof.
  intros Hok Hi Hid.
  destruct (configure_Ok c (config_message id c) i new_trace EmptyString)
    as (s & Hs & _ & Hinv & _); [done|done|done|done|].
  unfold boot. by rewrite Hs.
Qed.

Definition s1 : Server Trace := boot 1 test_config.
Definition s2 : Server Trace := boot 2 test_config.

Lemma s1_inv : inv s1.
Proof. apply (boot_inv _ _ 0 test_config_ok); [done|by vm_compute]. Qed.

Lemma s2_inv : inv s2.
Proof. apply (boot_inv _ _ 1 test_config_ok); [done|by vm_compute]. Qed.

(** ** Three servers, the first of which fails

    Server 2 owns 5 to 7 and backs up server 1, which owns 2 to 4. *)

Definition trio_config : ConfigMessage :=
  mkConfig 2 3 12 ["m:1"; "a:1"; "b:1"; "c:1"; "d:1"; "e:1"] [2; 5; 8] 1 [1; 2; 3] [4; 5] [0] 1.

(** Server 1 is gone and server 2 starts where it did. *)
Definition failover_config : ConfigMessage :=
  mkConfig 2 2 12 ["m:1"; "a:1"; "b:2"; "c:1"; "d:1"; "e:1"] [2; 8] 1 [2; 3] [4; 5] [0] 1.

(** Agent 5 is gone. *)
Definition one_agent_config : ConfigMessage :=
  mkConfig 1 3 12 ["m:1"; "a:1"; "b:1"; "c:1"; "d:1"; "e:1"] [2; 5; 8] 1 [1; 2; 3] [4] [0] 1.

Lemma trio_config_ok : config_ok trio_config.
Proof. check_config. Qed.
Lemma failover_config_ok : config_ok failover_config.
Proof. check_config. Qed.
Lemma one_agent_config_ok : config_ok one_agent_config.
Proof. check_config. Qed.

Definition t2 : Server Trace := boot 2 trio_config.

Lemma t2_inv : inv t2.
Proof. apply (boot_inv _ _ 1 trio_config_ok); [done|by vm_compute]. Qed.

(** ** Requests *)

(** A push of the value 1 for the given keys. *)
Definition test_push (ks : list Z) : RequestMessage :=
  mkRequest rt_key_value ks ((λ _, f_of_int 1) <$> ks).

Lemma test_push_ok ks :
  zlen ks ≤ kInt32Max → Forall (in_segment 2 4) ks → push_ok 2 4 (test_push ks).
Proof. intros. constructor; cbn; [by rewrite length_fmap|done|done]. Qed.
