(* ===== verification/ServerFaults.v ===== *)
(** * Where the server's index arithmetic leaves its arrays

    [UpdateParameter] and [RespondToAll] subtract [start_key_] from a key and
    use the result as an index; only [ServePull] adds [key_range_] to a
    negative one. The length of an arc is computed modulo the key range, so
    that a full circle has length 0. And a configuration without servers leaves
    a server that divides by their number. *)

From S2P Require Import Prelude CppStd Float32 Messages Communicator KeyValueList Ssp Server.
From S2P Require Import ServerMerge ServerInv ServerRound ServerPush ServerPull ServerInit Cluster.
From stdpp Require Import options.

Import Server.

(** ** An update with a key outside the segment *)

Lemma merge_update_out start len u acc k :
  KeyValueList.wf u → zlen acc = len → k ∈ (KeyValueList.pairs u).*1 → ¬ in_segment start len k →
  Forall (λ kv, int32_ok (kv.1 - start)) (KeyValueList.pairs u) →
  merge_update start u acc = Fault OutOfBounds.
Proof.
  intros Hwf Hlen Hk Hout Hint. pose proof (KeyValueList.pairs_length u Hwf) as Hpl.
  apply list_elem_of_lookup in Hk as [i Hi]. rewrite list_lookup_fmap in Hi.
  apply fmap_Some in Hi as ([k' v] & Hi & ->). cbn in Hout.
  pose proof (lookup_lt_Some _ _ _ Hi).
  set (turn := λ (j : Z) (a : list float32), k ← KeyValueList.Key u j; v ← KeyValueList.Value u j;
    index ← sub32 k start; old ← vec_get a index; vec_set a index (fadd old v)).
  assert (∀ j a kv, 0 ≤ j → KeyValueList.pairs u !! Z.to_nat j = Some kv → zlen a = len →
    if decide (in_segment start len kv.1) then ∃ a', turn j a = Ok a' ∧ zlen a' = len
    else turn j a = Fault OutOfBounds) as Hturn.
  { intros j a [q w] Hj Hq Ha. unfold turn.
    destruct (KeyValueList.Key_Value_pairs u j q w Hwf) as [-> ->]; [done|done|]. simpl.
    rewrite Forall_lookup in Hint. specialize (Hint _ _ Hq). cbn in Hint.
    unfold sub32. rewrite i32_Ok by done. simpl. unfold in_segment. case_decide.
    - destruct (vec_get_lt a (q - start)) as (old & -> & Hold); [lia|]. simpl.
      rewrite vec_set_Ok by lia. eexists. split; [done|]. by rewrite length_insert.
    - unfold vec_get. destruct (Z.ltb_spec (q - start) 0); [done|].
      by rewrite lookup_ge_None_2 by lia. }
  change (for_ 0 (KeyValueList.Length u) turn acc = Fault OutOfBounds).
  apply (for_fault (λ _ a, zlen a = len) _ _ _ _ (Z.of_nat i)); [lia|done| |].
  - intros j a Hj Ha. destruct (lookup_lt_is_Some_2 (KeyValueList.pairs u) (Z.to_nat j)) as [kv Hkv]; [lia|].
    specialize (Hturn j a kv ltac:(lia) Hkv Ha). case_decide; [by right|by left].
  - intros a Ha. specialize (Hturn (Z.of_nat i) a (k', v) ltac:(lia)). rewrite Nat2Z.id in Hturn.
    specialize (Hturn Hi Ha). by rewrite decide_False in Hturn.
Qed.

Section faults.
Set Default Proof Using "Type*".
Context {C : Type} `{CommunicatorLaws C}.
Implicit Types s : Server C.

Lemma merge_agents_out s i u b' k :
  0 ≤ parameter_length_ s ≤ kInt32Max → (Z.of_nat i < agent_num_ s ≤ zlen (version_buffer_ s)) →
  version_buffer_ s !! i = Some (u :: b') →
  (∀ j b, (j < i)%nat → version_buffer_ s !! j = Some b →
     ∃ w b', b = w :: b' ∧ update_ok (start_key_ s) (parameter_length_ s) w) →
  KeyValueList.wf u → k ∈ (KeyValueList.pairs u).*1 →
  ¬ in_segment (start_key_ s) (parameter_length_ s) k →
  Forall (λ kv, int32_ok (kv.1 - start_key_ s)) (KeyValueList.pairs u) →
  merge_agents s = Fault OutOfBounds.
Proof.
  intros Hlen Hn Hi Hbefore Hwf Hk Hout Hint. unfold merge_agents, float_vector.
  destruct (Z.ltb_spec (parameter_length_ s) 0); [lia|]. cbn [mbind res_bind].
  set (P := λ (j : Z) (st : Server C * list float32),
    st.1 = s <| version_buffer_ := pop_front (Z.to_nat j) (version_buffer_ s) |> ∧
    zlen st.2 = parameter_length_ s).
  apply (for_fault P _ _ _ _ (Z.of_nat i)); [lia| | |].
  - split; [by destruct s|]. cbn. rewrite length_replicate. lia.
  - intros j [s' update] Hj [Hs' Hu]. cbn in Hs', Hu. subst s'. right. cbn.
    destruct (lookup_lt_is_Some_2 (version_buffer_ s) (Z.to_nat j)) as [b Hb]; [lia|].
    rewrite (vec_get_Ok _ j b) by (rewrite ?pop_front_lookup; first [lia|done]). cbn.
    destruct (Hbefore (Z.to_nat j) b ltac:(lia) Hb) as (w & b1 & -> & Hw).
    rewrite vec_set_Ok by (unfold pop_front; rewrite length_app, length_fmap, length_take, length_drop; lia).
    cbn. pose proof (merge_update_Ok _ _ w update Hw Hu ltac:(unfold kInt32Min; lia)) as Hm.
    apply returns_elim in Hm as (update' & -> & [Hl _]). cbn. eexists. split; [done|].
    split; cbn; [|lia]. replace (Z.to_nat (j + 1)) with (S (Z.to_nat j)) by lia.
    by rewrite <- (pop_front_step _ _ (w :: b1)).
  - intros [s' update] [Hs' Hu]. cbn in Hs', Hu. subst s'. cbn. rewrite Nat2Z.id.
    rewrite (vec_get_Ok _ _ (u :: b')) by (rewrite ?Nat2Z.id, ?pop_front_lookup; first [lia|done]). cbn.
    rewrite vec_set_Ok by (unfold pop_front; rewrite length_app, length_fmap, length_take, length_drop; lia).
    cbn. by rewrite (merge_update_out _ (parameter_length_ s) u update k).
Qed.

(** A request whose keys are any 32-bit integers becomes an update. *)
Lemma worker_update_any r :
  zlen (keys r) ≤ zlen (values r) → zlen (keys r) ≤ kInt32Max →
  Forall (λ k, int32_ok k) (keys r) →
  ∃ u, worker_update r = Ok u ∧ KeyValueList.wf u ∧ KeyValueList.pairs u = zip (keys r) (values r).
Proof.
  intros Hv Hc Hk. destruct (worker_update_Ok kInt32Min (2 ^ 32) r) as (u & Hu & [Hwf _] & Hp).
  - constructor; [done|done|]. eapply Forall_impl; [exact Hk|].
    unfold in_segment, kInt32Min, kInt32Max. cbn. lia.
  - by exists u.
Qed.

(** The push of the only agent with nothing pending makes the count full. *)
Lemma last_push_count s i (u : KeyValueList.t) :
  counts_inv (consistency_bound_ s) (agent_num_ s) (finish_count_ s) (version_buffer_ s) →
  version_buffer_ s !! i = Some [] → (∀ j b, j ≠ i → version_buffer_ s !! j = Some b → b ≠ []) →
  ahead 0 (version_buffer_ s) + 1 = agent_num_ s.
Proof.
  intros [_ _ Hvb _ _] Hown Hothers.
  assert (Forall (λ b, b ≠ []) (<[i := [u]]> (version_buffer_ s))) as Hready.
  { apply Forall_lookup. intros j b. destruct (decide (j = i)) as [->|Hne].
    - rewrite list_lookup_insert_eq by (by eapply lookup_lt_Some). by intros [= <-].
    - rewrite list_lookup_insert_ne by done. by apply Hothers. }
  pose proof (ahead_push 0 _ _ [] u Hown) as Hp. rewrite decide_True in Hp by done. cbn [app] in Hp.
  rewrite (proj2 (ahead_all _) Hready), length_insert in Hp. lia.
Qed.

Lemma push_out_of_segment s id i r k
    (Hinv : inv s) (Hid : id ∈ agent_ids_ s) (Hi : id_to_index_ s !! id = Some (Z.of_nat i))
    (Hvals : zlen (keys r) ≤ zlen (values r)) (Hcount : zlen (keys r) ≤ kInt32Max)
    (Hkeys : Forall (λ k, 0 ≤ k ≤ kInt32Max) (keys r))
    (Hk : k ∈ keys r) (Hout : ¬ in_segment (start_key_ s) (parameter_length_ s) k)
    (Hown : version_buffer_ s !! i = Some [])
    (Hothers : ∀ j b, j ≠ i → version_buffer_ s !! j = Some b → b ≠ []) :
  ServePush id r s = Fault OutOfBounds.
Proof.
  pose proof Hinv as [Hcore _]. pose proof (co_counts s Hcore) as Hc.
  pose proof Hc as [Hb Ha Hvb _ Hfull]. pose proof (co_segment s Hcore) as [Hs0 Hl0 He0 _ Hup _].
  pose proof (xi_range s (co_index s Hcore) id _ Hi) as Hir.
  destruct (worker_update_any r) as (u & Hu & Hwf & Hpairs); [done|done| |].
  { eapply Forall_impl; [exact Hkeys|]. unfold kInt32Min, kInt32Max. cbn. lia. }
  assert ((KeyValueList.pairs u).*1 = keys r) as Hfst by (rewrite Hpairs; apply fst_zip; lia).
  rewrite (ServePush_accepts s id i [] r u) by (done || (cbn; lia)). unfold finish_round.
  rewrite (vec_get_Ok _ 0 (agent_num_ s)); [|lia|]; last first.
  { cbn. rewrite <- (last_push_count s i u Hc Hown Hothers). apply list_lookup_insert_eq. pose proof (counts_length _ _ _ _ Hc). lia. }
  cbn [mbind res_bind]. rewrite Z.eqb_refl. unfold UpdateParameter.
  rewrite (merge_agents_out _ i u [] k); [done|..]; cbn; try done.
  - lia.
  - rewrite length_insert. lia.
  - by rewrite list_lookup_insert_eq by lia.
  - intros j b Hj Hjb. rewrite list_lookup_insert_ne in Hjb by lia.
    pose proof (Hothers j b ltac:(lia) Hjb). destruct b as [|w b]; [done|].
    exists w, b. split; [done|]. rewrite Forall_lookup in Hup. specialize (Hup _ _ Hjb). by inversion_clear Hup.
  - by rewrite Hfst.
  - apply (Forall_fmap fst (λ k, int32_ok (k - start_key_ s))). rewrite Hfst.
    eapply Forall_impl; [exact Hkeys|]. unfold kInt32Min, kInt32Max in *. cbn. lia.
Qed.

(** C37: a wrapped key brings the server down. When the push that completes a
    round carries a key outside the plain interval [start_key_, start_key_ +
    parameter_length_) (for instance one of the keys of the server's own arc
    that lie past the wrap, which agents do route to it and [ServePull] does
    serve), [UpdateParameter] indexes its vector out of bounds. *)
Theorem ServePush_wrapped_key s id i r k
    (Hinv : inv s) (Hid : id ∈ agent_ids_ s) (Hi : id_to_index_ s !! id = Some (Z.of_nat i))
    (Hvals : zlen (keys r) ≤ zlen (values r)) (Hcount : zlen (keys r) ≤ kInt32Max)
    (Hkeys : Forall (λ k, 0 ≤ k ≤ kInt32Max) (keys r))
    (Hk : k ∈ keys r) (Hout : ¬ in_segment (start_key_ s) (parameter_length_ s) k)
    (Hown : version_buffer_ s !! i = Some [])
    (Hothers : ∀ j b, j ≠ i → version_buffer_ s !! j = Some b → b ≠ []) :
  ServePush id r s = Fault OutOfBounds.
Proof. by eapply push_out_of_segment. Qed.

(** [RequestBackup] divides by the number of servers. *)
Lemma RequestBackup_no_servers s :
  0 ≤ local_index_ s ≤ kInt32Max → server_num_ s = 0 → 0 < backup_size_ s → RequestBackup s = Fault DivByZero.
Proof.
  intros Hl Hn Hb. unfold RequestBackup. apply (for_fault (λ _ s', s' = s) _ _ _ _ 1); [lia|done|lia|].
  intros s' ->. unfold ring_sub, sub32, add32, kInt32Max in *. rewrite i32_Ok by (unfold kInt32Min, kInt32Max; lia).
  cbn [mbind res_bind]. rewrite i32_Ok by (unfold kInt32Min, kInt32Max; lia). cbn [mbind res_bind]. by rewrite Hn.
Qed.

(** The default configuration has no servers. *)
Lemma Reconfigure_default s :
  segment_inv s →
  ∃ c, Reconfigure default_config s = Ok (s <| sender_ := c |> <| pull_request_ := [] |> <| server_num_ := 0 |>
      <| key_range_ := 0 |> <| server_ids_ := [] |> <| servers_ := ∅ |>) ∧
    sends (sender_ s) c (pull_reply s <$> pull_request_ s).
Proof.
  intros Hseg. destruct (RespondToAll_Ok s Hseg) as (c & Hr & Hs). exists c. split; [|done].
  unfold Reconfigure. by rewrite Hr.
Qed.

(** The push that completes a round of a server without servers. *)
Lemma round_no_servers s id i r :
  counts_inv (consistency_bound_ s) (agent_num_ s) (finish_count_ s) (version_buffer_ s) → segment_inv s →
  0 ≤ bottom_version_ s < kInt32Max → 0 ≤ local_index_ s ≤ kInt32Max → server_num_ s = 0 → 0 < backup_size_ s →
  id ∈ agent_ids_ s → id_to_index_ s !! id = Some (Z.of_nat i) → push_ok (start_key_ s) (parameter_length_ s) r →
  version_buffer_ s !! i = Some [] → (∀ j b, j ≠ i → version_buffer_ s !! j = Some b → b ≠ []) →
  ServePush id r s = Fault DivByZero.
Proof.
  intros Hc Hseg Hver Hl Hn Hb Hid Hi Hr Hown Hothers. pose proof (ci_bound _ _ _ _ Hc) as Hbound.
  destruct (worker_update_Ok _ _ r Hr) as (u & Hu & Huok & _). pose proof (lookup_lt_Some _ _ _ Hown) as Hlen.
  rewrite (ServePush_accepts s id i [] r u) by (done || (cbn; lia)). set (s1 := accept s i [] u).
  destruct (finish_round_applied s1) as (params & c & _ & -> & _); [apply (counts_accept _ _ _ _ i [] u Hc Hown); cbn; lia| | |done|].
  - destruct Hseg as [? ? ? ? Hup ?]. constructor; cbn; [done..| |done]. apply Forall_insert; [done|].
    by apply Forall_singleton.
  - apply Forall_lookup. intros j b. cbn. destruct (decide (j = i)) as [->|Hne].
    + rewrite list_lookup_insert_eq by done. by intros [= <-].
    + rewrite list_lookup_insert_ne by done. by apply Hothers.
  - by apply RequestBackup_no_servers.
Qed.

(** C36: an empty message stops a server. [Start] looks neither at the length of
    what it receives nor at the result of [ParseFromString]; no bytes at all are
    a message, whose type is [config], the first of the enumeration, and whose
    configuration is all zero. The server takes it for a reconfiguration: it
    answers all blocked pulls with the parameters of the old version and forgets
    the other servers, their number and the key range; and if it is to keep
    backups, the push that completes the round divides by the number of
    servers. *)
Theorem empty_message_stops_server s m id i r
    (Hinv : inv s) (Hm : message_type m = mt_config ∧ config_msg_ m = None) (Hsrc : servers_ s !! send_id m = None)
    (Hbackup : 0 < backup_size_ s) (Hver : bottom_version_ s < kInt32Max)
    (Hid : id ∈ agent_ids_ s) (Hi : id_to_index_ s !! id = Some (Z.of_nat i))
    (Hr : push_ok (start_key_ s) (parameter_length_ s) r)
    (Hown : version_buffer_ s !! i = Some [])
    (Hothers : ∀ j b, j ≠ i → version_buffer_ s !! j = Some b → b ≠ []) :
  ∃ s', handle m s = Ok s' ∧ server_num_ s' = 0 ∧ key_range_ s' = 0 ∧ servers_ s' = ∅ ∧
    parameters_ s' = parameters_ s ∧ pull_request_ s' = [] ∧
    outbox (sender_ s') = outbox (sender_ s) ++ (pull_reply s <$> pull_request_ s) ∧
    ServePush id r s' = Fault DivByZero.
Proof.
  destruct Hm as [Hty Hcf]. pose proof Hinv as [[Hc Hseg Hring _ Hv0] _].
  destruct (Reconfigure_default s Hseg) as (c & Hrec & Hsent & _). eexists. split.
  { unfold handle. rewrite Hsrc, Hty, bool_decide_eq_false_2 by (by apply is_Some_None).
    rewrite bool_decide_eq_false_2, bool_decide_eq_true_2 by done. unfold config_msg. rewrite Hcf. exact Hrec. }
  split_and!; [done..|].
  assert (kInt32Max = 2147483647) by done. destruct Hring.
  apply (round_no_servers _ id i r); cbn; try done; [|lia..]. destruct Hseg. by constructor; cbn.
Qed.

(** With a single server, the set-up of the project's README, the server
    owns every key and is configured with no parameter at all: the length of
    the full circle is computed modulo the key range. *)
Theorem configure_single_server (c : ConfigMessage) (m : Message) (ch : C) (addr : string)
    (Hok : config_ok c) (Hm : config_msg m = c) (Hone : server_num c = 1)
    (Hid : server_id c = [recv_id m]) :
  ∃ s, configure m ((new_server ch) <| local_address_ := addr |>) = Ok (s, true) ∧
    parameter_length_ s = 0 ∧ parameters_ s = [].
Proof.
  destruct (configure_Ok c m 0 ch addr) as (s & Hs & Hconf & _); [done|done|done|by rewrite Hid|].
  exists s. split; [done|]. rewrite (cd_length _ _ _ Hconf), (cd_params _ _ _ Hconf).
  unfold arc_len. rewrite Hone. change ((0 + 1) mod 1) with 0. by rewrite Z.sub_diag, Z.mod_0_l by (pose proof (cf_range c Hok); lia).
Qed.
End faults.

(** ** Witnesses *)

(** Server 2, whose arc wraps, after agent 3 pushed key 7. *)
Definition s2_waiting : Server Trace :=
  match ServePush 3 (test_push [7]) s2 with Ok s => s | Fault _ => s2 end.

Lemma s2_waiting_inv : inv s2_waiting.
Proof.
  destruct (ServePush_Ok s2 3 (test_push [7]) s2_inv) as (i & b & u & s' & _ & Hb & _ & Hu & _ & Hs & Hout).
  - apply (bool_decide_unpack _). by vm_compute.
  - constructor; [by vm_compute..|]. repeat constructor; by vm_compute.
  - by vm_compute.
  - unfold s2_waiting. rewrite Hs. by destruct (push_outcome_inv _ _ _ _ _ s2_inv Hb Hu Hout).
Qed.

(** Key 1 belongs to server 2: it lies past the wrap. *)
Example ServePush_wrapped_key_witness :
  on_arc s2_waiting 1 ∧ ServePush 4 (test_push [8; 1]) s2_waiting = Fault OutOfBounds.
Proof.
  split; [by vm_compute|].
  apply (ServePush_wrapped_key s2_waiting 4 1 (test_push [8; 1]) 1 s2_waiting_inv).
  - apply (bool_decide_unpack _). by vm_compute.
  - by vm_compute.
  - by vm_compute.
  - by vm_compute.
  - repeat constructor; by vm_compute.
  - by right; left.
  - intros [Hle _]. by vm_compute in Hle.
  - by vm_compute.
  - intros [|[|j]] b Hj Hb; [|done|done]. vm_compute in Hb. by injection Hb as <-.
Defined.

(** Server 2 of the trio keeps a backup and waits for agent 5. *)
Definition t2_waiting : Server Trace :=
  match ServePush 4 (test_push [5; 6]) t2 with Ok s => s | Fault _ => t2 end.

Lemma t2_waiting_inv : inv t2_waiting.
Proof.
  destruct (ServePush_Ok t2 4 (test_push [5; 6]) t2_inv) as (i & b & u & s' & _ & Hb & _ & Hu & _ & Hs & Hout).
  - apply (bool_decide_unpack _). by vm_compute.
  - constructor; [by vm_compute..|]. repeat constructor; by vm_compute.
  - by vm_compute.
  - unfold t2_waiting. rewrite Hs. by destruct (push_outcome_inv _ _ _ _ _ t2_inv Hb Hu Hout).
Qed.

Example empty_message_stops_server_witness :
  ∃ s', handle empty_message t2_waiting = Ok s' ∧ server_num_ s' = 0 ∧ key_range_ s' = 0 ∧ servers_ s' = ∅ ∧
    parameters_ s' = parameters_ t2_waiting ∧ pull_request_ s' = [] ∧
    outbox (sender_ s') = outbox (sender_ t2_waiting) ++ (pull_reply t2_waiting <$> pull_request_ t2_waiting) ∧
    ServePush 5 (test_push [7]) s' = Fault DivByZero.
Proof.
  apply (empty_message_stops_server t2_waiting empty_message 5 1 (test_push [7]) t2_waiting_inv); try by vm_compute.
  - constructor; [by vm_compute..|]. repeat constructor; by vm_compute.
  - intros [|[|j]] b Hj Hb; [|done|done]. vm_compute in Hb. by injection Hb as <-.
Defined.

Definition single_config : ConfigMessage :=
  mkConfig 1 1 10 ["m:1"; "a:1"; "c:1"] [4] 0 [1] [2] [0] 1.

Lemma single_config_ok : config_ok single_config.
Proof. check_config. Qed.

Example configure_single_server_witness :
  ∃ s, configure (config_message 1 single_config) ((new_server new_trace) <| local_address_ := EmptyString |>) = Ok (s, true) ∧
    parameter_length_ s = 0 ∧ parameters_ s = [].
Proof.
  by apply (configure_single_server single_config (config_message 1 single_config) new_trace EmptyString single_config_ok).
Defined.
