(* ===== verification/System.v ===== *)
(** * Agents and servers together

    The agent routes by the partition vector, the server answers for an arc of
    the key circle it computed from the same vector: here the two are shown to
    mean the same keys, and a pull to come back with what was asked. *)

From S2P Require Import Prelude CppStd Partition Float32 Messages Communicator KeyValueList Ssp.
From S2P Require Import Channel Agent Slices AgentPush AgentPull AgentConfig.
From S2P Require Import Master Server ServerMerge ServerInv ServerPush ServerPull ServerInit ServerFaults Cluster.
From stdpp Require Import options.

Import Server.

(** ** Routing *)

Section routing.
Context (c : ConfigMessage) (Hok : config_ok c) (Hro : routable c).
Set Default Proof Using "Type*".

Lemma config_points i : 0 ≤ i < server_num c →
  Partition.part_vec_ (config_partition c) !! Z.to_nat i = Some (point c i).
Proof.
  intros Hi. pose proof (point_get c Hok i Hi) as [_ Hp]%proto_get_inv.
  cbn. by rewrite lookup_take_lt by lia.
Qed.

Context (Hn : 2 ≤ server_num c) (Hs : sorted_lt (partition c)).

Lemma points_increase i j : 0 ≤ i < j → j < server_num c → point c i < point c j.
Proof.
  intros Hi Hj. pose proof (point_get c Hok i ltac:(lia)) as [_ H1]%proto_get_inv.
  pose proof (point_get c Hok j ltac:(lia)) as [_ H2]%proto_get_inv.
  by apply (StronglySorted_lookup_lt Z.lt (partition c) (Z.to_nat i) (Z.to_nat j)); [|lia|..].
Qed.

(** The position of a key on the circle, counted from [p]. *)
Lemma circle_pos kr p k : 0 ≤ p < kr → 0 ≤ k < kr →
  (k - p) mod kr = if k <? p then k - p + kr else k - p.
Proof.
  intros Hp Hk. destruct (Z.ltb_spec k p).
  - rewrite <- (Z_mod_plus_full _ 1), Z.mod_small; lia.
  - by rewrite Z.mod_small by lia.
Qed.

Lemma in_arc_pos i k : 0 ≤ i < server_num c → 0 ≤ k < key_range c →
  Partition.in_arc (config_partition c) i k ↔ (k - point c i) mod key_range c < arc_len c i.
Proof.
  intros Hi Hk. pose proof (point_range c Hok i Hi) as Hpi. rewrite circle_pos by done.
  pose proof (config_points 0 ltac:(lia)) as Hp0. change (Z.to_nat 0) with 0%nat in Hp0.
  pose proof (config_points i Hi) as Hpt. unfold Partition.in_arc. cbn [Partition.server_num_ config_partition].
  unfold arc_len. destruct (decide (i = server_num c - 1)) as [->|Hlast].
  - replace ((server_num c - 1 + 1) mod server_num c) with 0 by (rewrite Z.sub_add, Z_mod_same_full; done).
    pose proof (points_increase 0 (server_num c - 1) ltac:(lia) ltac:(lia)).
    pose proof (point_range c Hok 0 ltac:(lia)).
    rewrite (circle_pos (key_range c) (point c (server_num c - 1)) (point c 0)) by done.
    rewrite (proj2 (Z.ltb_lt (point c 0) _)) by lia. split.
    + intros [_ [(_ & p & Hp & Hlt)|(lo & Hlo & Hle & _)]]; simplify_eq; destruct (Z.ltb_spec k (point c (server_num c - 1))); lia.
    + intros Hlt. split; [done|]. destruct (Z.ltb_spec k (point c (server_num c - 1))).
      * left. split; [done|]. exists (point c 0). split; [done|]. lia.
      * right. exists (point c (server_num c - 1)). split_and!; [done|lia|]. intros hi Hhi.
        apply lookup_lt_Some in Hhi. cbn in Hhi. rewrite length_take in Hhi. lia.
  - rewrite (Z.mod_small (i + 1)) by lia. pose proof (points_increase i (i + 1) ltac:(lia) ltac:(lia)).
    pose proof (point_range c Hok (i + 1) ltac:(lia)). pose proof (config_points (i + 1) ltac:(lia)) as Hnx.
    rewrite (circle_pos (key_range c) (point c i) (point c (i + 1))) by done.
    rewrite (proj2 (Z.ltb_ge (point c (i + 1)) _)) by lia. split.
    + intros [_ [(? & _)|(lo & Hlo & Hle & Hhi)]]; [lia|]. simplify_eq. specialize (Hhi _ Hnx).
      destruct (Z.ltb_spec k (point c i)); lia.
    + intros Hlt. split; [done|]. right. exists (point c i). destruct (Z.ltb_spec k (point c i)); [lia|].
      split_and!; [done|done|]. intros hi Hhi. rewrite Hnx in Hhi. injection Hhi as <-. lia.
Qed.
End routing.

(** ** Agents and servers *)

Section system.
Context {C D : Type} `{CommunicatorLaws C} `{CommunicatorLaws D}.
Implicit Types (s : Server C) (a : Agent.Agent D).
Set Default Proof Using "Type*".

(** The server answers for the arc that the configuration gives to index [i]. *)
Record serves (c : ConfigMessage) (i : Z) s : Prop := mkserves {
  sv_start : start_key_ s = point c i;
  sv_length : parameter_length_ s = arc_len c i;
  sv_range : key_range_ s = key_range c;
}.

Lemma configured_serves c i s : configured c i s → serves c i s.
Proof. by intros []. Qed.

Lemma serves_setup c i s s' : same_setup s s' → serves c i s → serves c i s'.
Proof. intros [] []. constructor; congruence. Qed.

Lemma owner_on_arc c i k s
    (Hok : config_ok c) (Hro : routable c) (Hn : 2 ≤ server_num c) (Hs : sorted_lt (partition c))
    (Hi : 0 ≤ i < server_num c) (Hk : 0 ≤ k < key_range c) (Hserves : serves c i s) :
  Partition.GetServerByKey (config_partition c) k = Ok i ↔ on_arc s k.
Proof.
  destruct Hserves as [Hst Hl Hr]. unfold on_arc, arc_pos. rewrite Hst, Hl, Hr.
  rewrite <- (in_arc_pos c Hok Hro Hn Hs i k Hi Hk).
  pose proof (config_partition_wf c Hro) as Hwf.
  destruct (Partition.GetServerByKey_Ok (config_partition c) k Hwf Hk) as (j & -> & Harc). split.
  - intros [= ->]. by split.
  - intros [_ Harc']. f_equal. by eapply Partition.in_arc_unique.
Qed.

(** C10: agents and servers agree on who owns a key. An agent and the server
    at index [i] each configure themselves from their own copy of one
    configuration, with at least two servers and distinct starting points. Both
    accept it, and afterwards the agent sends a key to index [i], which stands
    for the id of this server, exactly when the arc the server computed
    contains the key, wrapped keys included. *)
Theorem routing_agrees c i ms ma (ch : C) (addr : string) a
    (Hok : config_ok c) (Hro : routable c) (Hn : 2 ≤ server_num c) (Hs : sorted_lt (partition c))
    (Hms : config_msg ms = c) (Hi : 0 ≤ i) (Hid : server_id c !! Z.to_nat i = Some (recv_id ms))
    (Hma : config_msg ma = c) :
  ∃ s a', Server.configure ms ((new_server ch) <| local_address_ := addr |>) = Ok (s, true) ∧
    Agent.configure ma a = Ok a' ∧
    Agent.server_ids_ a' !! Z.to_nat i = Some (local_id_ s) ∧
    ∀ k, 0 ≤ k < key_range c → Partition.GetServerByKey (Agent.partition_ a') k = Ok i ↔ on_arc s k.
Proof.
  destruct (configure_Ok c ms i ch addr Hok Hms Hi Hid) as (s & Hcs & Hcf & _).
  pose proof (configure_state c ma a Hma Hro) as Hca. apply returns_elim in Hca as (a' & Hca & ch' & _ & _ & Ha').
  exists s, a'. split_and!; [done|done| |].
  - subst a'. exact (cd_id c i s Hcf).
  - intros k Hk. replace (Agent.partition_ a') with (config_partition c) by by subst a'.
    assert (0 ≤ i < server_num c) as Hir.
    { pose proof (cf_server_ids c Hok). pose proof (lookup_lt_Some _ _ _ Hid). lia. }
    by apply owner_on_arc, configured_serves.
Qed.

(** A pull comes back. When the server at the index of a slice handles the
    request the agent sent for it, and the consistency contract allows the
    agent, the server sends exactly one message: to the agent, one the agent's
    receive loop accepts as that server's, with exactly the keys of the slice
    and the server's current value of each. *)
Theorem pull_comes_back c a s sl n
    (Hok : config_ok c) (Hro : routable c) (Hn : 2 ≤ server_num c) (Hs : sorted_lt (partition c))
    (Ha : Agent.partition_ a = config_partition c)
    (Hinv : inv s) (Hserves : serves c (s_index sl) s) (Hid : local_id_ s = dest a sl)
    (Hagent : servers_ s !! Agent.local_id_ a = None)
    (Hindex : id_to_index_ s !! Agent.local_id_ a = Some (Z.of_nat n))
    (Hallowed : Ssp.allowed (consistency_bound_ s) (abs s) n = true)
    (Hkeys : ∀ k, k ∈ part (Shm.keys (Agent.parameters_ a)) sl →
       0 ≤ k < key_range c ∧ Partition.in_arc (Agent.partition_ a) (s_index sl) k)
    (Hi : 0 ≤ s_index sl < server_num c) (Hlen : zlen (part (Shm.keys (Agent.parameters_ a)) sl) ≤ kInt32Max) :
  ∃ s' reply, handle (pull_message a sl).2 s = Ok s' ∧
    outbox (sender_ s') = outbox (sender_ s) ++ [(Agent.local_id_ a, reply)] ∧
    (∀ S, dest a sl ∈ S → Agent.wanted (Agent.local_id_ a) S reply = true) ∧
    keys (request_msg reply) = part (Shm.keys (Agent.parameters_ a)) sl ∧
    values (request_msg reply) = arc_param s <$> part (Shm.keys (Agent.parameters_ a)) sl.
Proof.
  pose proof Hinv as [Hcore _]. pose proof (co_counts s Hcore) as [Hb Hag Hvb _ _].
  pose proof (xi_range s (co_index s Hcore) _ _ Hindex).
  destruct (lookup_lt_is_Some_2 (version_buffer_ s) n) as [b Hbi]; [lia|].
  unfold Ssp.allowed in Hallowed. rewrite floor_abs in Hallowed by done. unfold abs in Hallowed.
  rewrite list_lookup_fmap, Hbi in Hallowed. cbn in Hallowed. apply Z.ltb_lt in Hallowed.
  pose proof Hserves as [Hst Hl Hr]. pose proof (cf_range c Hok). pose proof (point_range c Hok _ Hi).
  set (ks := part (Shm.keys (Agent.parameters_ a)) sl) in *.
  assert (Forall (on_arc s) ks) as Harc.
  { apply Forall_forall. intros k Hk. destruct (Hkeys k Hk) as [Hkr Hin]. unfold on_arc, arc_pos.
    rewrite Hst, Hl, Hr. split; [done|]. apply (in_arc_pos c Hok Hro Hn Hs _ k Hi Hkr). by rewrite <- Ha. }
  eexists _, (pull_answer s (Agent.local_id_ a) ks). split_and!.
  - unfold handle. cbn [send_id pull_message Agent.request_message snd]. rewrite Hagent.
    rewrite bool_decide_eq_false_2 by (by intros [? [=]]). cbn.
    apply (ServePull_answered s _ n b); cbn; rewrite ?Hst, ?Hr; try done.
    all: first [lia|unfold kInt32Max; lia|apply (si_params s (co_segment s Hcore))].
  - cbn. by rewrite Send_outbox.
  - intros S HS. apply wanted_spec. cbn. rewrite Hid. by split.
  - done.
  - done.
Qed.

(** Pushing key 0 brings the last server down. Under every configuration
    the master can generate (all starting points are at least 1) every agent
    sends key 0 to the last server, and when the push that completes a round
    there carries it, the server writes outside its vector. *)
Theorem key_zero_fatal c s id n r
    (Hok : config_ok c) (Hro : routable c) (Hpts : Forall (λ x, 1 ≤ x) (partition c))
    (Hinv : inv s) (Hserves : serves c (server_num c - 1) s)
    (Hid : id ∈ agent_ids_ s) (Hi : id_to_index_ s !! id = Some (Z.of_nat n))
    (Hvals : zlen (keys r) ≤ zlen (values r)) (Hcount : zlen (keys r) ≤ kInt32Max)
    (Hkeys : Forall (λ k, 0 ≤ k ≤ kInt32Max) (keys r)) (Hzero : 0 ∈ keys r)
    (Hown : version_buffer_ s !! n = Some [])
    (Hothers : ∀ j b, j ≠ n → version_buffer_ s !! j = Some b → b ≠ []) :
  Partition.GetServerByKey (config_partition c) 0 = Ok (server_num c - 1) ∧
  ServePush id r s = Fault OutOfBounds.
Proof.
  pose proof (cf_servers c Hok). pose proof (cf_range c Hok).
  assert (∀ i, 0 ≤ i < server_num c → 1 ≤ point c i) as Hpt.
  { intros i Hi'. pose proof (point_get c Hok i Hi') as [_ Hp]%proto_get_inv.
    rewrite Forall_lookup in Hpts. by eapply Hpts. }
  split.
  - pose proof (config_partition_wf c Hro) as Hwf.
    destruct (Partition.GetServerByKey_Ok (config_partition c) 0 Hwf) as (j & -> & Harc); [cbn; lia|].
    f_equal. eapply Partition.in_arc_unique; [exact Hwf|exact Harc|]. split; [cbn; lia|]. left. split; [done|].
    pose proof (config_points c Hok Hro 0 ltac:(lia)) as Hp. exists (point c 0). split; [exact Hp|].
    pose proof (Hpt 0 ltac:(lia)). lia.
  - apply (push_out_of_segment s id n r 0); try done. destruct Hserves as [Hst _ _].
    unfold in_segment. rewrite Hst. pose proof (Hpt (server_num c - 1) ltac:(lia)). lia.
Qed.
End system.

(** ** Witnesses

    The cluster of Cluster.v and the agent of AgentConfig.v, which asks server
    1 for keys 3 and 4. *)

Lemma test_config_increasing : sorted_lt (partition test_config).
Proof. repeat constructor. Qed.

Lemma test_config_routable : routable test_config.
Proof. exact agent_config_routable. Qed.

Lemma s2_serves : serves test_config 1 s2.
Proof. constructor; by vm_compute. Qed.

Lemma s1_serves : serves test_config 0 s1.
Proof. constructor; by vm_compute. Qed.

(** Agent 3 and server 2, whose arc wraps, each with its own copy. *)
Example routing_agrees_witness :
  ∃ s a', Server.configure (Master.config_message 2 test_config)
      ((new_server new_trace) <| local_address_ := "10.0.0.2"%string |>) = Ok (s, true) ∧
    Agent.configure (Master.config_message 3 test_config) blank_agent = Ok a' ∧
    Agent.server_ids_ a' !! 1%nat = Some (local_id_ s) ∧
    ∀ k, 0 ≤ k < key_range test_config → Partition.GetServerByKey (Agent.partition_ a') k = Ok 1 ↔ on_arc s k.
Proof.
  apply (routing_agrees test_config 1 (Master.config_message 2 test_config) (Master.config_message 3 test_config)
    new_trace "10.0.0.2" blank_agent test_config_ok test_config_routable);
    [discriminate|apply test_config_increasing|done|done|by vm_compute|done].
Defined.

Definition middle : slice := mkSlice 1 3 0.

Example pull_comes_back_witness :
  ∃ s' reply, handle (pull_message asked_agent middle).2 s1 = Ok s' ∧
    outbox (sender_ s') = outbox (sender_ s1) ++ [(Agent.local_id_ asked_agent, reply)] ∧
    (∀ S, dest asked_agent middle ∈ S → Agent.wanted (Agent.local_id_ asked_agent) S reply = true) ∧
    keys (request_msg reply) = part (Shm.keys (Agent.parameters_ asked_agent)) middle ∧
    values (request_msg reply) = arc_param s1 <$> part (Shm.keys (Agent.parameters_ asked_agent)) middle.
Proof.
  apply (pull_comes_back test_config asked_agent s1 middle 0 test_config_ok test_config_routable).
  - discriminate.
  - apply test_config_increasing.
  - by vm_compute.
  - apply s1_inv.
  - apply s1_serves.
  - by vm_compute.
  - by vm_compute.
  - by vm_compute.
  - by vm_compute.
  - intros k Hk. assert (k = 3 ∨ k = 4) as Hcases.
    { assert (part (Shm.keys (Agent.parameters_ asked_agent)) middle = [3; 4]) as E by by vm_compute.
      rewrite E in Hk. apply elem_of_cons in Hk as [->|Hk]; [by left|].
      apply list_elem_of_singleton in Hk. by right. }
    assert (Agent.partition_ asked_agent = config_partition test_config) as -> by by vm_compute.
    split; [destruct Hcases; subst; by split|]. split; [by vm_compute|]. right. exists 2.
    split; [done|]. split; [lia|]. intros hi Hhi. cbn in Hhi. injection Hhi as <-. lia.
  - by vm_compute.
  - by vm_compute.
Defined.

(** Agent 3 has pushed; agent 4 completes the round with keys 8 and 0. *)
Example key_zero_fatal_witness :
  Partition.GetServerByKey (config_partition test_config) 0 = Ok (server_num test_config - 1) ∧
  ServePush 4 (test_push [8; 0]) s2_waiting = Fault OutOfBounds.
Proof.
  apply (key_zero_fatal test_config s2_waiting 4 1 (test_push [8; 0]) test_config_ok test_config_routable).
  - repeat constructor; discriminate.
  - apply s2_waiting_inv.
  - constructor; by vm_compute.
  - apply (bool_decide_unpack _). by vm_compute.
  - by vm_compute.
  - by vm_compute.
  - by vm_compute.
  - repeat constructor; by vm_compute.
  - by right; left.
  - by vm_compute.
  - intros [|[|j]] b Hj Hb; [|done|done]. vm_compute in Hb. by injection Hb as <-.
Defined.
