(* ===== verification/ServerTraining.v ===== *)
(** * One training round of a server

    Every agent pushes once, and the pushes arrive in any order: the round
    ends with the last of them, and what it does to the parameters depends on
    the pushes only, not on their order. *)

From S2P Require Import Prelude CppStd Float32 Messages Communicator KeyValueList Ssp Server.
From S2P Require Import ServerMerge ServerInv ServerRound ServerPush ServerPull.
From stdpp Require Import options.

Import Server.

#[export] Instance RequestMessage_inhabited : Inhabited RequestMessage :=
  populate (mkRequest rt_key_value [] []).

(** The pairs of a request. *)
Definition request_pairs (r : RequestMessage) : list (Z * float32) := zip (keys r) (values r).

(** The update [ServePush] stores for a request. *)
Definition update_of (r : RequestMessage) : KeyValueList.t :=
  match worker_update r with Ok u => u | Fault _ => KeyValueList.init end.

Lemma heads_singletons (us : list KeyValueList.t) : heads ((λ u, [u]) <$> us) = us.
Proof. unfold heads. induction us as [|u us IH]; [done|]. cbn. by rewrite <- IH at 2. Qed.

Lemma tail_singletons (us : list KeyValueList.t) :
  tail <$> ((λ u, [u]) <$> us) = replicate (length us) [].
Proof. induction us as [|u us IH]; [done|]. cbn. by f_equal. Qed.

Lemma all_pairs_requests (rs : list RequestMessage) :
  Forall (λ r, KeyValueList.pairs (update_of r) = request_pairs r) rs →
  all_pairs (update_of <$> rs) = rs ≫= request_pairs.
Proof. unfold all_pairs. induction 1 as [|r rs Hr _ IH]; [done|]. cbn. by rewrite Hr, IH. Qed.

(** The order of arrival as a sequence of indices. *)
Lemma arrival_order {A} (ms msgs : list A) :
  msgs ≡ₚ ms → ∃ order, Forall2 (λ m j, ms !! j = Some m) msgs order ∧ order ≡ₚ seq 0 (length ms).
Proof.
  intros Hp. set (zl := zip ms (seq 0 (length ms))).
  assert (zl.*1 = ms) as H1 by (unfold zl; apply fst_zip; rewrite length_seq; lia).
  assert (zl.*2 = seq 0 (length ms)) as H2 by (unfold zl; apply snd_zip; rewrite length_seq; lia).
  rewrite <- H1 in Hp. apply Permutation_map_inv in Hp as (l & -> & Hp).
  exists l.*2. split; [|by rewrite <- Hp, H2].
  assert (Forall (λ x, ms !! x.2 = Some x.1) l) as Hall; [|by clear -Hall; induction Hall; constructor].
  rewrite <- Hp. apply Forall_lookup. intros i x (m & j & -> & Hm & Hj)%lookup_zip_with_Some.
  apply lookup_seq in Hj as [-> _]. done.
Qed.

Section pending.
Context (ids : list Z) (rs : list RequestMessage).

(** The buffers when the agents of [pushed] have pushed. *)
Definition pending (pushed : list nat) : buffers :=
  (λ j, if decide (j ∈ pushed) then [update_of (rs !!! j)] else []) <$> seq 0 (length ids).

Lemma pending_lookup pushed j :
  (j < length ids)%nat →
  pending pushed !! j = Some (if decide (j ∈ pushed) then [update_of (rs !!! j)] else []).
Proof. intros Hj. unfold pending. by rewrite list_lookup_fmap, lookup_seq_lt. Qed.

Lemma pending_push pushed j :
  (j < length ids)%nat → <[j := [update_of (rs !!! j)]]> (pending pushed) = pending (j :: pushed).
Proof.
  intros Hj. apply list_eq. intros i. destruct (decide (i < length ids)%nat) as [Hi|Hi]; last first.
  { rewrite !lookup_ge_None_2; [done|..]; rewrite ?length_insert; unfold pending; rewrite length_fmap, length_seq; lia. }
  rewrite (pending_lookup (j :: pushed)) by done. destruct (decide (i = j)) as [->|Hne].
  - rewrite list_lookup_insert_eq by (unfold pending; rewrite length_fmap, length_seq; lia).
    by rewrite decide_True by left.
  - rewrite list_lookup_insert_ne, pending_lookup by done. f_equal. apply decide_ext. set_solver.
Qed.

Lemma pending_all pushed :
  length rs = length ids → (∀ j, (j < length ids)%nat → j ∈ pushed) →
  pending pushed = (λ u, [u]) <$> (update_of <$> rs).
Proof.
  intros Hl Hall. apply list_eq. intros i. destruct (decide (i < length ids)%nat) as [Hi|Hi]; last first.
  { rewrite !lookup_ge_None_2; [done|..]; unfold pending; rewrite ?length_fmap, ?length_seq; lia. }
  destruct (lookup_lt_is_Some_2 rs i) as [r Hr]; [lia|].
  rewrite pending_lookup, decide_True by auto. rewrite !list_lookup_fmap, Hr. cbn.
  by erewrite list_lookup_total_correct.
Qed.

End pending.

Section training.
Set Default Proof Using "Type*".
Context {C : Type} `{CommunicatorLaws C}.
Implicit Types s : Server C.

(** The agents of a server in the order of their indices, and a message of
    each. *)
Context (ids : list Z) (ms : list Message).
#[local] Abbreviation rs := (request_msg <$> ms).

Record pushers s : Prop := mkpushers {
  pu_count : agent_num_ s = zlen ids;
  pu_messages : length ms = length ids;
  pu_known : Forall (λ id, id ∈ agent_ids_ s ∧ servers_ s !! id = None) ids;
  pu_index : ∀ j id, ids !! j = Some id → id_to_index_ s !! id = Some (Z.of_nat j);
  pu_send : send_id <$> ms = ids;
  pu_type : Forall (λ m, message_type m = mt_request ∧ request_type (request_msg m) = rt_key_value) ms;
  pu_ok : Forall (λ m, push_ok (start_key_ s) (parameter_length_ s) (request_msg m)) ms;
}.

(** Inside the round that started from [s]. *)
Record underway s (pushed : list nat) s' : Prop := mkunderway {
  uw_inv : inv s';
  uw_setup : same_setup s s';
  uw_params : parameters_ s' = parameters_ s;
  uw_version : bottom_version_ s' = bottom_version_ s;
  uw_buffers : version_buffer_ s' = pending ids rs pushed;
}.

(** After the round: every parameter got the average of what was pushed for
    its key, in the order of the agents, and no push is pending. *)
Record trained s s' : Prop := mktrained {
  tr_inv : inv s';
  tr_setup : same_setup s s';
  tr_version : bottom_version_ s' = bottom_version_ s + 1;
  tr_buffers : version_buffer_ s' = replicate (length ids) [];
  tr_length : length (parameters_ s') = length (parameters_ s);
  tr_params : ∀ j p, parameters_ s !! j = Some p →
    parameters_ s' !! j = Some (fadd p (fdiv
      (fsum f0 (vals (start_key_ s + Z.of_nat j) (rs ≫= request_pairs))) (f_of_int (zlen ids))));
}.

Lemma pushers_setup s s' : same_setup s s' → pushers s → pushers s'.
Proof.
  intros Hset []. constructor; rewrite ?(ss_count _ _ Hset), ?(ss_agents _ _ Hset), ?(ss_index _ _ Hset),
    ?(ss_start _ _ Hset), ?(ss_len _ _ Hset), ?(ss_servers _ _ Hset); done.
Qed.

(** The message of a pusher is served as its push. *)
Lemma handle_push s j m id :
  pushers s → ms !! j = Some m → ids !! j = Some id → handle m s = ServePush id (request_msg m) s.
Proof.
  intros [_ _ Hk _ Hsend Ht _] Hm Hid. rewrite Forall_lookup in Hk. rewrite Forall_lookup in Ht.
  destruct (Hk _ _ Hid) as [_ Hs], (Ht _ _ Hm) as [Hty Hrt].
  assert (send_id m = id) as Hsm by (rewrite <- Hsend, list_lookup_fmap, Hm in Hid; by injection Hid).
  unfold handle. rewrite Hsm, Hs, bool_decide_eq_false_2, bool_decide_eq_true_2 by (by apply is_Some_None || done).
  by rewrite Hrt.
Qed.

(** One push of an agent that has not pushed yet. *)
Lemma push_turn_Ok s pushed s' j m :
  pushers s → bottom_version_ s < kInt32Max → underway s pushed s' →
  ms !! j = Some m → j ∉ pushed →
  ∃ s'', handle m s' = Ok s'' ∧
    ((∃ i, (i < length ids)%nat ∧ i ∉ j :: pushed) → underway s (j :: pushed) s'') ∧
    ((∀ i, (i < length ids)%nat → i ∈ j :: pushed) → trained s s'').
Proof.
  intros Hpu Hver [Hinv Hset Hpar Hbv Hvb] Hm Hnew.
  pose proof (pushers_setup _ _ Hset Hpu) as Hpu'. pose proof Hpu' as [Hn Hl Hk Hx _ _ Hok].
  pose proof (lookup_lt_Some _ _ _ Hm) as Hj. rewrite Hl in Hj.
  destruct (lookup_lt_is_Some_2 ids j Hj) as [id Hid].
  assert (rs !! j = Some (request_msg m)) as Hr by by rewrite list_lookup_fmap, Hm.
  assert (length rs = length ids) as Hlr by by rewrite length_fmap.
  rewrite (handle_push s' j m id) by done. rewrite Forall_lookup in Hk. rewrite Forall_lookup in Hok.
  destruct (ServePush_Ok s' id (request_msg m) Hinv (proj1 (Hk _ _ Hid)) (Hok _ _ Hm) ltac:(lia))
    as (i & b & u & s'' & Hi & Hb & Hu & Huok & Hpairs & Hs & Hout).
  assert (i = j) as -> by (rewrite (Hx _ _ Hid) in Hi; injection Hi; lia).
  rewrite Hvb, pending_lookup, decide_False in Hb by done. injection Hb as <-.
  assert (u = update_of (rs !!! j)) as ->.
  { rewrite (list_lookup_total_correct _ _ _ Hr). unfold update_of. by rewrite Hu. }
  pose proof (push_outcome_setup _ _ _ _ _ Hout) as Hset'.
  assert (version_buffer_ s' !! j = Some []) as Hbj by by rewrite Hvb, pending_lookup, decide_False.
  destruct (push_outcome_inv _ _ _ _ _ Hinv Hbj Huok Hout) as [Hinv' _].
  assert (version_buffer_ (accept s' j [] (update_of (rs !!! j))) = pending ids rs (j :: pushed)) as Hacc.
  { cbn. by rewrite Hvb, pending_push. }
  exists s''. split; [done|]. pose proof (co_counts _ (proj1 Hinv)) as [Hbnd _ _ _ _].
  destruct Hout as [Hfull|_ Hempty|params c _ Hall Hav _]; [cbn in Hfull; lia|..]; rewrite Hacc in *; split.
  - intros _. constructor; [done|by eapply same_setup_trans|done..].
  - intros Hdone. rewrite pending_all in Hempty by done.
    by apply list_elem_of_fmap in Hempty as (? & ? & _).
  - intros (i & Hi' & Hni). exfalso. rewrite Forall_lookup in Hall. apply (Hall i []); [|done].
    by rewrite pending_lookup, decide_False.
  - intros Hdone. destruct Hav as [Hlen Hav]. rewrite Hacc, pending_all in Hav by done.
    constructor; [done|by eapply same_setup_trans|cbn; lia| |cbn in *; congruence|].
    + unfold next_round. cbn. rewrite Hvb, pending_push, pending_all by done.
      by rewrite tail_singletons, length_fmap, Hlr.
    + intros k p Hkp. rewrite <- Hpar in Hkp. specialize (Hav k p Hkp). cbn in Hav |- *.
      rewrite Hav, Hn, (ss_start _ _ Hset), take_ge, heads_singletons, all_pairs_requests; [done|..].
      * apply Forall_fmap, Forall_lookup. intros q x Hq. cbn.
        destruct (worker_update_Ok _ _ (request_msg x) (Hok _ _ Hq)) as (v & Hv & _ & Hp).
        unfold update_of. by rewrite Hv.
      * rewrite !length_fmap. lia.
Qed.

(** The messages of the agents that have not pushed, in any order. *)
Lemma push_turns_Ok s pushed msgs order s' :
  pushers s → bottom_version_ s < kInt32Max → underway s pushed s' →
  Forall2 (λ m j, ms !! j = Some m) msgs order → msgs ≠ [] → order ++ pushed ≡ₚ seq 0 (length ids) →
  ∃ s'', Start msgs s' = Ok s'' ∧ trained s s''.
Proof.
  intros Hpu Hver Huw Hms. revert pushed s' Huw.
  induction Hms as [|m j msgs order Hm Hms IH]; intros pushed s' Huw Hne Hp; [done|].
  pose proof (NoDup_seq 0 (length ids)) as Hnd. rewrite <- Hp in Hnd. cbn in Hnd. apply NoDup_cons in Hnd as [Hj Hnd].
  assert (∀ i, (i < length ids)%nat ↔ i ∈ j :: order ++ pushed) as Hin.
  { intros i. change (j :: order ++ pushed) with ((j :: order) ++ pushed). rewrite Hp, elem_of_seq. lia. }
  destruct (push_turn_Ok s pushed s' j m Hpu Hver Huw Hm) as (s1 & Hs1 & Hmid & Hend).
  { intros Hin'. apply Hj, elem_of_app. by right. }
  unfold Start in *. cbn [foldM]. rewrite Hs1. cbn [mbind res_bind]. destruct Hms as [|m' i msgs order Hm' Hms].
  - exists s1. split; [done|]. apply Hend. intros k Hk. by apply Hin.
  - apply (IH (j :: pushed)); [|done|by rewrite <- Permutation_middle].
    apply Hmid. exists i. split; [apply Hin; right; by left|].
    apply NoDup_app in Hnd as (_ & Hd & _). specialize (Hd i ltac:(left)).
    intros [->|Hi]%elem_of_cons; [|done]. apply Hj. by left.
Qed.

(** One message of every agent, in whatever order they arrive. *)
Lemma training_round_Ok s msgs :
  inv s → pushers s → bottom_version_ s < kInt32Max → version_buffer_ s = replicate (length ids) [] →
  msgs ≡ₚ ms → ∃ s', Start msgs s = Ok s' ∧ trained s s'.
Proof.
  intros Hinv Hpu Hver Hvb Hp. destruct (arrival_order ms msgs Hp) as (order & Hms & Ho).
  rewrite (pu_messages _ Hpu) in Ho.
  apply (push_turns_Ok s [] msgs order); [done|done| |done| |by rewrite app_nil_r].
  - constructor; [done|by constructor|done|done|]. rewrite Hvb. apply list_eq. intros i.
    destruct (decide (i < length ids)%nat) as [Hi|Hi].
    + rewrite pending_lookup, decide_False by (done || apply not_elem_of_nil). by apply lookup_replicate_2.
    + rewrite !lookup_ge_None_2; [done|..]; unfold pending; rewrite ?length_fmap, ?length_seq, ?length_replicate; lia.
  - intros ->. pose proof (co_counts _ (proj1 Hinv)) as [_ Ha _ _ _]. rewrite (pu_count _ Hpu) in Ha.
    apply Permutation_length in Hp. rewrite (pu_messages _ Hpu) in Hp. cbn in Hp. lia.
Qed.
End training.
