(* ===== verification/Training.v ===== *)
(** * One training round of the cluster

    Every agent pushes its gradients, the messages arrive in any order, and
    every server has averaged the values of all agents for every key it owns. *)

From S2P Require Import Prelude CppStd Partition Float32 Messages Communicator KeyValueList Ssp.
From S2P Require Import Channel Agent AgentSort Slices AgentPush AgentProps AgentConfig.
From S2P Require Import Server ServerMerge ServerInv ServerRound ServerPush ServerPull ServerInit ServerTraining.
From S2P Require Import Cluster System.
From stdpp Require Import options.

Import Server.

(** ** The values of one key *)

Lemma vals_none k (ps : list (Z * float32)) : Forall (λ kv, kv.1 ≠ k) ps → vals k ps = [].
Proof.
  induction 1 as [|kv ps Hne _ IH]; [done|]. unfold vals in *. by rewrite filter_cons_False.
Qed.

Lemma vals_bind {A} k (f : A → list (Z * float32)) l : vals k (l ≫= f) = l ≫= (λ x, vals k (f x)).
Proof. induction l as [|x l IH]; [done|]. change ((x :: l) ≫= f) with (f x ++ (l ≫= f)). rewrite vals_app, IH. done. Qed.

Lemma vals_length k (ps : list (Z * float32)) : NoDup ps.*1 → (length (vals k ps) ≤ 1)%nat.
Proof.
  induction ps as [|[k' v] ps IH]; [cbn; lia|]. rewrite fmap_cons. intros [Hnin Hnd]%NoDup_cons.
  change ((k', v) :: ps) with ([(k', v)] ++ ps). rewrite vals_app, length_app.
  destruct (decide (k' = k)) as [->|Hne].
  - rewrite vals_single_eq, vals_none; [cbn; lia|]. apply Forall_forall. intros kv Hin <-.
    apply Hnin. exact (list_elem_of_fmap_2 fst _ _ Hin).
  - rewrite vals_single_ne by done. by apply IH.
Qed.

Lemma vals_perm k (ps qs : list (Z * float32)) : ps ≡ₚ qs → NoDup qs.*1 → vals k ps = vals k qs.
Proof.
  intros Hp Hnd. pose proof (vals_length k qs Hnd) as Hlen.
  assert (vals k ps ≡ₚ vals k qs) as Hv by (unfold vals; by rewrite Hp).
  destruct (vals k qs) as [|v [|]]; [by apply Permutation_nil_r in Hv|by apply Permutation_singleton_r in Hv|cbn in Hlen; lia].
Qed.

(** ** The slice of a server *)

Lemma zip_part {A B} (xs : list A) (ys : list B) s : zip (part xs s) (part ys s) = part (zip xs ys) s.
Proof. unfold part. by rewrite zip_with_drop, zip_with_take. Qed.

Section slice.
Context (p : Partition.Partition) (ks : list Z) (vs : list float32) (l : list slice) (p0 : Z).
Context (Hwf : Partition.wf p) (Hlen : zlen ks ≤ kInt32Max) (Hrange : Forall (λ k, 0 ≤ k < Partition.key_range_ p) ks).
Context (Hsorted : sorted_le ks) (Hp0 : Partition.part_vec_ p !! 0%nat = Some p0) (Hlow : Forall (λ k, p0 ≤ k) ks).
Context (Hcuts : cuts p ks 0 l) (Hvs : length vs = length ks).

(** A server that owns one of the keys gets exactly one slice. *)
Lemma slice_exists i k :
  k ∈ ks → Partition.in_arc p i k →
  ∃ l1 s l2, l = l1 ++ s :: l2 ∧ s_index s = i ∧ Forall (λ s, s_index s ≠ i) (l1 ++ l2).
Proof using Hwf Hlen Hrange Hsorted Hp0 Hlow Hcuts.
  intros Hk Harc. pose proof (cuts_concat p ks ks 0 l eq_refl Hcuts) as Hcat.
  change (drop (Z.to_nat 0) ks) with ks in Hcat. rewrite <- Hcat in Hk.
  apply elem_of_concat in Hk as (xs & Hin & Hxs). apply list_elem_of_fmap in Hxs as (s & -> & Hs).
  pose proof (cuts_owner p ks Hwf Hlen Hrange 0 l Hsorted Hcuts) as Hown. rewrite Forall_forall in Hown.
  pose proof (Partition.in_arc_unique p _ _ k Hwf (Hown s Hs k Hin) Harc) as Hi.
  pose proof (cuts_once p ks Hwf Hlen Hrange 0 l p0 Hsorted Hp0 Hlow Hcuts) as Hnd.
  apply list_elem_of_split in Hs as (l1 & l2 & ->). exists l1, s, l2. split_and!; [done|done|].
  rewrite <- Permutation_middle, fmap_cons in Hnd. apply NoDup_cons in Hnd as [Hnin _].
  apply Forall_forall. intros s' Hs' Heq. apply Hnin. rewrite Hi, <- Heq. by apply list_elem_of_fmap_2.
Qed.

(** It carries every value of a key of the server. *)
Lemma slice_vals l1 s l2 k :
  l = l1 ++ s :: l2 → Forall (λ s', s_index s' ≠ s_index s) (l1 ++ l2) → Partition.in_arc p (s_index s) k →
  vals k (zip (part ks s) (part vs s)) = vals k (zip ks vs).
Proof using All.
  intros Hl Hothers Harc. rewrite zip_part.
  assert (length (zip ks vs) = length ks) as Hz by (rewrite length_zip_with; lia).
  pose proof (cuts_concat p ks (zip ks vs) 0 l Hz Hcuts) as Hcat.
  change (drop (Z.to_nat 0) (zip ks vs)) with (zip ks vs) in Hcat.
  pose proof (cuts_owner p ks Hwf Hlen Hrange 0 l Hsorted Hcuts) as Hown.
  assert (∀ l', Forall (λ s', s_index s' ≠ s_index s) l' → (∀ s', s' ∈ l' → s' ∈ l) →
    vals k (concat (part (zip ks vs) <$> l')) = []) as Hnone.
  { intros l' Hl' Hsub. apply vals_none, Forall_forall. intros [k' v] (xs & Hin & Hxs)%elem_of_concat Hk'.
    cbn in Hk'. subst k'. apply list_elem_of_fmap in Hxs as (s' & -> & Hs'). 
    rewrite Forall_forall in Hl'. rewrite Forall_forall in Hown.
    apply (Hl' s' Hs'). apply (Partition.in_arc_unique p _ _ k Hwf); [|done].
    apply (Hown s' (Hsub s' Hs')). rewrite <- zip_part in Hin.
    by apply elem_of_zip_l in Hin. }
  apply Forall_app in Hothers as [H1 H2].
  transitivity (vals k (concat (part (zip ks vs) <$> l))); [|by rewrite Hcat].
  rewrite Hl, fmap_app, concat_app, fmap_cons. cbn.
  rewrite !vals_app, (Hnone l1), (Hnone l2); [by rewrite app_nil_r|done| |done|];
    intros s' Hs'; rewrite Hl; set_solver.
Qed.
End slice.

(** ** The mail of a node *)

(** The messages for one node, in order of arrival. *)
Definition mail (id : Z) (msgs : list (Z * Message)) : list Message :=
  (filter (λ dm, dm.1 = id) msgs).*2.

Lemma mail_app id ms1 ms2 : mail id (ms1 ++ ms2) = mail id ms1 ++ mail id ms2.
Proof. unfold mail. by rewrite filter_app, fmap_app. Qed.

Lemma mail_concat id (outs : list (list (Z * Message))) : mail id (concat outs) = concat (mail id <$> outs).
Proof. induction outs as [|out outs IH]; [done|]. cbn [concat fmap list_fmap]. by rewrite mail_app, IH. Qed.

#[export] Instance mail_proper id : Proper ((≡ₚ) ==> (≡ₚ)) (mail id).
Proof. intros l1 l2 Hl. unfold mail. by rewrite Hl. Qed.

(** ** The servers of a cluster *)

Section servers.
Context {C : Type} `{Communicator C}.
Context (ids : list Z).

(** A message reaches the server with the id it is sent to. *)
Definition deliver (dm : Z * Message) (ss : list (Server C)) : res (list (Server C)) :=
  match list_find (dm.1 =.) ids with
  | None => mret ss
  | Some (i, _) =>
      match ss !! i with
      | None => mret ss
      | Some s => s ← handle dm.2 s; mret (<[ i := s ]> ss)
      end
  end.

Lemma deliver_found i dst m ss s :
  NoDup ids → ids !! i = Some dst → ss !! i = Some s →
  deliver (dst, m) ss = s' ← handle m s; mret (<[ i := s' ]> ss).
Proof.
  intros Hnd Hi Hs. unfold deliver. cbn [fst snd]. pose proof (list_find_self ids dst) as Hf.
  destruct (list_find (dst =.) ids) as [[j x]|]; [|by apply list_elem_of_lookup_2 in Hi].
  destruct Hf as [_ Hj]. pose proof (NoDup_lookup _ _ _ _ Hnd Hi Hj) as <-. by rewrite Hs.
Qed.

Lemma deliver_lost dst m ss : dst ∉ ids → deliver (dst, m) ss = Ok ss.
Proof.
  intros Hni. unfold deliver. cbn [fst snd]. pose proof (list_find_self ids dst) as Hf.
  destruct (list_find (dst =.) ids) as [[j x]|]; [|done]. destruct Hf as [_ Hj%list_elem_of_lookup_2]. done.
Qed.

(** Deliveries to one server do not concern the others. *)
Lemma deliver_all (Q : nat → Server C → Prop) msgs ss :
  NoDup ids → length ss = length ids →
  (∀ i id s, ids !! i = Some id → ss !! i = Some s → ∃ s', Start (mail id msgs) s = Ok s' ∧ Q i s') →
  ∃ ss', foldM deliver msgs ss = Ok ss' ∧ length ss' = length ss ∧ ∀ i s', ss' !! i = Some s' → Q i s'.
Proof.
  intros Hnd. revert ss. induction msgs as [|[dst m] msgs IH]; intros ss Hlen Hall.
  { exists ss. split_and!; [done|done|]. intros i s Hi.
    destruct (lookup_lt_is_Some_2 ids i) as [id Hid]; [apply lookup_lt_Some in Hi; lia|].
    by destruct (Hall i id s Hid Hi) as (s' & [= <-] & HQ). }
  assert (∀ id, mail id ((dst, m) :: msgs) = (if decide (dst = id) then [m] else []) ++ mail id msgs) as Hmail.
  { intros id. unfold mail. rewrite filter_cons. cbn [fst]. by destruct (decide (dst = id)). }
  cbn [foldM]. destruct (decide (dst ∈ ids)) as [[i Hi]%list_elem_of_lookup|Hni].
  - destruct (lookup_lt_is_Some_2 ss i) as [s Hs]; [apply lookup_lt_Some in Hi; lia|].
    rewrite (deliver_found i dst m ss s) by done.
    destruct (Hall i dst s Hi Hs) as (s' & Hrun & HQ). rewrite Hmail, decide_True in Hrun by done.
    unfold Start in Hrun. cbn [app foldM] in Hrun. destruct (handle m s) as [s1|]; [|done]. cbn [mbind res_bind mret res_ret] in *.
    destruct (IH (<[i := s1]> ss)) as (ss' & Hrun' & Hl' & HQ'); [by rewrite length_insert| |].
    + intros j id s2 Hid Hs2. destruct (decide (j = i)) as [->|Hne].
      * rewrite list_lookup_insert_eq in Hs2 by (by eapply lookup_lt_Some). simplify_eq. by exists s'.
      * rewrite list_lookup_insert_ne in Hs2 by done. destruct (Hall j id s2 Hid Hs2) as (s3 & Hs3 & HQ3).
        rewrite Hmail, decide_False in Hs3; [by exists s3|]. intros ->. by pose proof (NoDup_lookup _ _ _ _ Hnd Hid Hi).
    + exists ss'. split_and!; [done|by rewrite Hl', length_insert|done].
  - rewrite deliver_lost by done. destruct (IH ss Hlen) as (ss' & Hrun & Hrest); [|by exists ss'].
    intros j id s Hid Hs. destruct (Hall j id s Hid Hs) as (s' & Hs' & HQ). rewrite Hmail, decide_False in Hs'; [by exists s'|].
    intros ->. apply Hni. by eapply list_elem_of_lookup_2.
Qed.
End servers.

(** ** The round *)

(** The gradients of an agent, as the worker left them. *)
Definition gradient {D} (a : Agent.Agent D) : list (Z * float32) :=
  let g := Agent.gradients_ a in
  let n := Z.to_nat (Shm.size g) in
  zip (take n (Shm.keys g)) (take n (Shm.values g)).

Section round.
Context (c : ConfigMessage) (Hok : config_ok c) (Hro : routable c).
Context (Hn : 2 ≤ server_num c) (Hs : sorted_lt (partition c)).
Set Default Proof Using "Type*".

(** An agent that has the configuration, and distinct keys, at least one of
    them for every server; no key wraps. *)
Record agent_ready {D} (a : Agent.Agent D) : Prop := mkagent_ready {
  ar_partition : Agent.partition_ a = config_partition c;
  ar_ids : Agent.server_ids_ a = server_id c;
  ar_gradients : gradients_ok a;
  ar_distinct : NoDup (gradient a).*1;
  ar_plain : ∀ k, k ∈ (gradient a).*1 → point c 0 ≤ k;
  ar_every : ∀ i, 0 ≤ i < server_num c → ∃ k, k ∈ (gradient a).*1 ∧
    Partition.GetServerByKey (config_partition c) k = Ok i;
}.

Lemma gradient_keys {D} (a : Agent.Agent D) :
  gradients_ok a → (gradient a).*1 = take (Z.to_nat (Shm.size (Agent.gradients_ a))) (Shm.keys (Agent.gradients_ a)).
Proof using Type. intros [[Hv Hk] Hsz _]. unfold gradient. apply fst_zip. rewrite !length_take. lia. Qed.

Lemma plain_segment i k :
  Partition.in_arc (config_partition c) i k → point c 0 ≤ k < key_range c →
  in_segment (point c i) (arc_len c i) k.
Proof.
  intros Harc Hk. pose proof Harc as [Hi _]. cbn in Hi. pose proof (point_range c Hok 0 ltac:(lia)).
  pose proof (proj1 (in_arc_pos c Hok Hro Hn Hs i k Hi ltac:(lia)) Harc) as Hpos.
  pose proof (config_points c Hok Hro 0 ltac:(lia)) as Hp0.
  destruct (Partition.in_arc_upper _ _ _ _ Harc Hp0 ltac:(lia)) as (lo & Hlo & Hle & _).
  rewrite (config_points c Hok Hro i Hi) in Hlo. injection Hlo as <-.
  rewrite (circle_pos (key_range c) (point c i) k) in Hpos by (first [apply (point_range c Hok i Hi)|lia]).
  destruct (Z.ltb_spec k (point c i)); [lia|]. unfold in_segment. lia.
Qed.

(** The push of an agent for the server at index [i]. *)
Record push_for {D} (i : Z) (a : Agent.Agent D) (m : Message) : Prop := mkpush_for {
  pf_send : send_id m = Agent.local_id_ a;
  pf_type : message_type m = mt_request ∧ request_type (request_msg m) = rt_key_value;
  pf_ok : push_ok (point c i) (arc_len c i) (request_msg m);
  pf_vals : ∀ k, Partition.in_arc (config_partition c) i k →
    vals k (request_pairs (request_msg m)) = vals k (gradient a);
}.

(** What messages addressed by server index leave in the mail of one server. *)
Lemma mail_by_index {X} (f : X → Z * Message) (index : X → Z) l i id :
  Forall (λ x, 0 ≤ index x ∧ server_id c !! Z.to_nat (index x) = Some (f x).1) l →
  0 ≤ i → server_id c !! Z.to_nat i = Some id →
  mail id (f <$> l) = (λ x, (f x).2) <$> filter (λ x, index x = i) l.
Proof.
  intros Hl Hi Hid. induction Hl as [|x l [Hx Hfx] _ IH]; [done|]. rewrite fmap_cons, filter_cons.
  unfold mail in *. rewrite filter_cons. destruct (decide (index x = i)) as [Heq|Hne].
  - rewrite decide_True by (subst i; congruence). by rewrite !fmap_cons, IH.
  - rewrite decide_False; [done|]. intros Heq. rewrite Heq in Hfx.
    pose proof (NoDup_lookup _ _ _ _ (cf_nodup c Hok) Hfx Hid). lia.
Qed.

Lemma slice_dest {D} (a : Agent.Agent D) sl :
  Agent.server_ids_ a = server_id c → 0 ≤ s_index sl < server_num c →
  server_id c !! Z.to_nat (s_index sl) = Some (dest a sl).
Proof.
  intros Hids Hi. pose proof (cf_server_ids c Hok) as Hlen. unfold dest. rewrite Hids.
  apply list_lookup_lookup_total_lt. lia.
Qed.

Lemma mail_of_pushes {D} (a : Agent.Agent D) l i id :
  Agent.server_ids_ a = server_id c → 0 ≤ i → server_id c !! Z.to_nat i = Some id →
  Forall (λ s, 0 ≤ s_index s < server_num c) l →
  mail id (push_message a <$> l) = (λ s, (push_message a s).2) <$> filter (λ s, s_index s = i) l.
Proof.
  intros Hids Hi Hid Hidx. apply mail_by_index; [|done|done]. eapply Forall_impl; [exact Hidx|].
  intros sl Hsl. split; [apply Hsl|by apply slice_dest].
Qed.

Lemma filter_index_once l1 s l2 :
  Forall (λ s', s_index s' ≠ s_index s) (l1 ++ l2) → filter (λ s', s_index s' = s_index s) (l1 ++ s :: l2) = [s].
Proof using Type.
  intros [H1 H2]%Forall_app. rewrite filter_app, filter_cons, decide_True by done. by rewrite !filter_none.
Qed.

Lemma agent_push {D} `{CommunicatorLaws D} (a : Agent.Agent D) :
  agent_ready a →
  ∃ out, (∃ a', Agent.Push a = Ok (a', true) ∧
      outbox (Agent.sender_ a') = outbox (Agent.sender_ a) ++ out) ∧
    ∀ i id, 0 ≤ i → server_id c !! Z.to_nat i = Some id → ∃ m, mail id out = [m] ∧ push_for i a m.
Proof.
  intros [Hp Hids Hg Hnd Hplain Hevery]. pose proof (gradient_keys a Hg) as Hgk.
  pose proof (config_partition_wf c Hro) as Hwf. pose proof (config_points c Hok Hro 0 ltac:(lia)) as Hp0.
  assert (ready a) as Hr.
  { split; rewrite Hp; [done|]. rewrite Hids. apply Hro. }
  destruct (Push_cuts a Hr Hg ltac:(by rewrite <- Hgk))
    as (ks & vs & l & a' & Hpush & Hout & Hloc & Hids' & Hsort & Hvl & Hcap & Hrange & Hperm & Hcuts & Hparts).
  rewrite Hp in Hrange, Hcuts. change (zip _ _) with (gradient a) in Hperm at 2.
  assert (zlen ks ≤ kInt32Max) as Hmax by (unfold Shm.capacity, kInt32Max in *; lia).
  assert (ks ≡ₚ (gradient a).*1) as Hks by (rewrite <- Hperm, fst_zip; [done|lia]).
  assert (Forall (λ k, point c 0 ≤ k) ks) as Hlow by (apply Forall_forall; intros k; rewrite Hks; apply Hplain).
  pose proof (sorted_lt_le ks Hsort) as Hle.
  pose proof (cuts_index _ ks Hwf Hmax Hrange 0 l Hcuts) as Hidx.
  pose proof (cuts_owner _ ks Hwf Hmax Hrange 0 l Hle Hcuts) as Hown.
  exists (push_message a' <$> l). split; [by exists a'|]. intros i id Hi Hid.
  assert (0 ≤ i < server_num c) as Hin.
  { apply lookup_lt_Some in Hid. pose proof (cf_server_ids c Hok). lia. }
  destruct (Hevery i Hin) as (k & Hk & Howner). rewrite <- Hks in Hk.
  assert (Partition.in_arc (config_partition c) i k) as Harc.
  { rewrite Forall_forall in Hrange.
    destruct (Partition.GetServerByKey_Ok _ k Hwf (Hrange k Hk)) as (j & Hj & Harc). congruence. }
  destruct (slice_exists _ ks l _ Hwf Hmax Hrange Hle Hp0 Hlow Hcuts i k Hk Harc) as (l1 & s & l2 & Hl & <- & Hothers).
  exists (push_message a' s).2. split.
  - rewrite (mail_of_pushes a' l (s_index s) id) by (done || by rewrite Hids'). by rewrite Hl, filter_index_once.
  - assert (s ∈ l) as Hsl by (rewrite Hl; apply elem_of_app; right; by left).
    rewrite Forall_forall in Hparts. destruct (Hparts s Hsl) as [Hpk Hpv].
    rewrite Forall_forall in Hown. constructor; cbn; rewrite ?Hpk, ?Hpv; [done|done| |].
    + constructor; cbn; rewrite ?Hpk, ?Hpv.
      * unfold part. rewrite !length_take, !length_drop. lia.
      * unfold part. rewrite length_take, length_drop. lia.
      * apply Forall_forall. intros x Hx. apply plain_segment; [by apply Hown|].
        assert (x ∈ ks) as Hxk.
        { rewrite Forall_forall in Hrange. unfold part in Hx. apply elem_of_take in Hx as (q & Hq & _).
          rewrite lookup_drop in Hq. by apply list_elem_of_lookup_2 in Hq. }
        rewrite Forall_forall in Hlow. rewrite Forall_forall in Hrange.
        split; [by apply Hlow|by apply Hrange].
    + intros x Hx. change (vals x (zip (part ks s) (part vs s)) = vals x (gradient a)).
      rewrite (slice_vals _ ks vs l _ Hwf Hmax Hrange Hle Hp0 Hlow Hcuts Hvl l1 s l2 x Hl Hothers Hx).
      by apply vals_perm.
Qed.

Context {C D : Type} `{CommunicatorLaws C} `{CommunicatorLaws D}.
Context (agents : list (Agent.Agent D)).
Implicit Types s : Server C.

(** A server between two rounds: it serves its arc to the agents, and no push
    is pending. *)
Record server_ready (i : Z) s : Prop := mkserver_ready {
  sr_inv : inv s;
  sr_serves : serves c i s;
  sr_count : agent_num_ s = zlen agents;
  sr_known : Forall (λ a, Agent.local_id_ a ∈ agent_ids_ s ∧ servers_ s !! Agent.local_id_ a = None) agents;
  sr_index : ∀ j a, agents !! j = Some a → id_to_index_ s !! Agent.local_id_ a = Some (Z.of_nat j);
  sr_idle : version_buffer_ s = replicate (length agents) [];
  sr_id : server_id c !! Z.to_nat i = Some (local_id_ s);
}.

(** What a round did to the server at index [i]: it is ready for the next one,
    one version further, and every parameter got the average, over the
    agents, of the values in their gradients. *)
Record round_done (i : Z) s s' : Prop := mkround_done {
  rd_ready : server_ready i s';
  rd_version : bottom_version_ s' = bottom_version_ s + 1;
  rd_params : ∀ k, point c 0 ≤ k < key_range c →
    Partition.GetServerByKey (config_partition c) k = Ok i →
    param_of s' k = fadd (param_of s k)
      (fdiv (fsum f0 (vals k (agents ≫= gradient))) (f_of_int (zlen agents)));
}.

Lemma pushers_of i s ms :
  server_ready i s → Forall2 (push_for i) agents ms → pushers (Agent.local_id_ <$> agents) ms s.
Proof.
  intros [Hinv [Hst Hl Hr] Hc Hk Hx Hv _] Hms. constructor.
  - by rewrite length_fmap.
  - rewrite length_fmap. symmetry. by eapply Forall2_length.
  - by apply Forall_fmap.
  - intros j id Hj. rewrite list_lookup_fmap in Hj. destruct (agents !! j) as [a|] eqn:Ha; [|done].
    injection Hj as <-. by apply Hx.
  - clear -Hms. induction Hms as [|a m as' ms Hm _ IH]; [done|]. cbn. by rewrite (pf_send _ _ _ Hm), IH.
  - eapply Forall2_Forall_r; [exact Hms|]. apply Forall_forall. intros a _ m Hm. apply (pf_type _ _ _ Hm).
  - rewrite Hst, Hl. eapply Forall2_Forall_r; [exact Hms|]. apply Forall_forall. intros a _ m Hm. apply (pf_ok _ _ _ Hm).
Qed.

Lemma round_vals i ms k :
  Partition.in_arc (config_partition c) i k → Forall2 (push_for i) agents ms →
  vals k ((request_msg <$> ms) ≫= request_pairs) = vals k (agents ≫= gradient).
Proof.
  intros Harc Hms. rewrite !vals_bind. clear -Harc Hms.
  induction Hms as [|a m as' ms Hm _ IH]; [done|]. cbn [fmap list_fmap mbind list_bind].
  f_equal; [by apply (pf_vals _ _ _ Hm)|done].
Qed.

(** The round of one server. *)
Lemma server_round i s ms msgs :
  0 ≤ i < server_num c → server_ready i s → bottom_version_ s < kInt32Max →
  Forall2 (push_for i) agents ms → msgs ≡ₚ ms →
  ∃ s', Start msgs s = Ok s' ∧ round_done i s s'.
Proof.
  intros Hi Hrdy Hver Hms Hp. pose proof (pushers_of i s ms Hrdy Hms) as Hpu.
  pose proof Hrdy as [Hinv [Hst Hl Hr] Hc Hk Hx Hv Hid].
  destruct (training_round_Ok (Agent.local_id_ <$> agents) ms s msgs Hinv Hpu Hver) as (s' & Hs' & Ht);
    [by rewrite length_fmap|done|].
  destruct Ht as [Hinv' Hset Hver' Hbuf Hlen Hpar]. rewrite length_fmap in Hbuf, Hpar.
  exists s'. split; [done|]. constructor; [|done|].
  - constructor; [done|by eapply serves_setup|..];
      rewrite ?(ss_count _ _ Hset), ?(ss_agents _ _ Hset), ?(ss_servers _ _ Hset), ?(ss_index _ _ Hset), ?(ss_id _ _ Hset); done.
  - intros k Hkr Hown. pose proof (config_partition_wf c Hro) as Hwf. pose proof (point_range c Hok 0 ltac:(lia)).
    destruct (Partition.GetServerByKey_Ok _ k Hwf) as (j & Hj & Harc); [cbn; lia|].
    assert (j = i) as -> by congruence.
    pose proof (plain_segment i k Harc Hkr) as Hseg. unfold in_segment in Hseg.
    pose proof (si_params s (co_segment s (proj1 Hinv))) as Hpl.
    destruct (lookup_lt_is_Some_2 (parameters_ s) (Z.to_nat (k - start_key_ s))) as [p Hp']; [lia|].
    unfold param_of. rewrite (ss_start _ _ Hset), (Hpar _ _ Hp'), Hp'. cbn [default].
    replace (start_key_ s + Z.of_nat (Z.to_nat (k - start_key_ s))) with k by lia.
    by rewrite (round_vals i ms k Harc Hms).
Qed.

(** A training round. When every agent of the cluster pushes gradients
    with distinct keys, at least one of them for every server and none below
    the first starting point, then in whatever order the messages of all
    agents reach the servers no server faults, each of them finishes exactly
    one round and is ready for the next, and every parameter of the cluster
    grows by the average over the agents of the gradients pushed for its key,
    added up in the order of the agents' indices: the result does not depend
    on the order of arrival. *)
Theorem training_round (ss : list (Server C))
    (Hagents : ∀ a, a ∈ agents → agent_ready a) (Hlen : zlen ss = server_num c)
    (Hservers : ∀ i s, ss !! Z.to_nat i = Some s → 0 ≤ i → server_ready i s ∧ bottom_version_ s < kInt32Max) :
  ∃ outs, Forall2 (λ a out, ∃ a', Agent.Push a = Ok (a', true) ∧
      outbox (Agent.sender_ a') = outbox (Agent.sender_ a) ++ out) agents outs ∧
    ∀ msgs, msgs ≡ₚ concat outs →
      ∃ ss', foldM (deliver (server_id c)) msgs ss = Ok ss' ∧ length ss' = length ss ∧
        ∀ i s s', 0 ≤ i → ss !! Z.to_nat i = Some s → ss' !! Z.to_nat i = Some s' → round_done i s s'.
Proof.
  destruct (Forall_choice _ agents (proj2 (Forall_forall _ agents) (λ a Ha, agent_push a (Hagents a Ha))))
    as (outs & Houts).
  exists outs. split; [eapply Forall2_impl; [exact Houts|]; by intros a out [? _]|]. intros msgs Hmsgs.
  destruct (deliver_all (server_id c) (λ i s', ∀ s, ss !! i = Some s → round_done (Z.of_nat i) s s') msgs ss)
    as (ss' & Hrun & Hl & HQ).
  - apply (cf_nodup c Hok).
  - pose proof (cf_server_ids c Hok). lia.
  - intros i id s Hid Hs'. rewrite <- (Nat2Z.id i) in Hs', Hid.
    destruct (Hservers (Z.of_nat i) s Hs' ltac:(lia)) as [Hrdy Hver].
    assert (∃ ms, Forall2 (push_for (Z.of_nat i)) agents ms ∧ mail id (concat outs) = ms) as (ms & Hms & Hmail).
    { rewrite mail_concat. exists (concat (mail id <$> outs)). split; [|done]. clear -Houts Hid.
      induction Houts as [|a out as' outs [_ Ha] _ IH]; [constructor|].
      destruct (Ha (Z.of_nat i) id ltac:(lia) Hid) as (m & Hm & Hpf). cbn. rewrite Hm. by constructor. }
    destruct (server_round (Z.of_nat i) s ms (mail id msgs)) as (s' & Hrun & Hdone); [|done..| |].
    + apply lookup_lt_Some in Hs'. lia.
    + by rewrite Hmsgs, Hmail.
    + exists s'. split; [done|]. intros s2 Hs2. rewrite Nat2Z.id in Hs'. by simplify_eq.
  - exists ss'. split_and!; [done|done|]. intros i s s' Hi Hss Hss'. rewrite <- (Z2Nat.id i) by done. by apply HQ.
Qed.
End round.

(** ** Witness

    Agents 3 and 4 of the test cluster. *)

Definition trainers : list (Agent.Agent Trace) := [trainer 3 [(8, 1); (3, 2)]; trainer 4 [(4, 5); (3, 1); (9, 7)]].

Lemma trainer_ready id l :
  Agent.partition_ (trainer id l) = config_partition test_config →
  Agent.server_ids_ (trainer id l) = [1; 2] →
  gradients_ok (trainer id l) → NoDup l.*1 → (gradient (trainer id l)).*1 = l.*1 →
  Forall (λ k, 2 ≤ k < 10) l.*1 → Exists (λ k, k < 6) l.*1 → Exists (λ k, 6 ≤ k) l.*1 →
  agent_ready test_config (trainer id l).
Proof.
  intros Hp Hi Hg Hnd Hk Hr Hlow Hhigh. constructor; rewrite ?Hk; [done|done|done|done| |].
  - rewrite Forall_forall in Hr. intros k Hin. change (point test_config 0) with 2. by apply Hr.
  - rewrite Forall_forall in Hr. intros i Hin. cbn in Hin. assert (i = 0 ∨ i = 1) as [->| ->] by lia.
    + apply Exists_exists in Hlow as (k & Hin' & Hlt). exists k. split; [done|]. specialize (Hr k Hin').
      assert (k = 2 ∨ k = 3 ∨ k = 4 ∨ k = 5) as Hcases by lia. by destruct Hcases as [->|[->|[->| ->]]].
    + apply Exists_exists in Hhigh as (k & Hin' & Hlt). exists k. split; [done|]. specialize (Hr k Hin').
      assert (k = 6 ∨ k = 7 ∨ k = 8 ∨ k = 9) as Hcases by lia. by destruct Hcases as [->|[->|[->| ->]]].
Qed.

Ltac check_trainer :=
  apply trainer_ready;
  [by vm_compute|by vm_compute
  |constructor; [constructor; by vm_compute|by vm_compute|apply (bool_decide_unpack _); by vm_compute]
  |apply (bool_decide_unpack _); by vm_compute|by vm_compute
  |apply (bool_decide_unpack _); by vm_compute..].

Lemma trainers_ready a : a ∈ trainers → agent_ready test_config a.
Proof. intros [->|[->|[]%elem_of_nil]%elem_of_cons]%elem_of_cons; check_trainer. Qed.

Lemma boot_ready i s : [s1; s2] !! Z.to_nat i = Some s → 0 ≤ i → server_ready test_config trainers i s.
Proof.
  intros Hs Hi. destruct (Z.to_nat i) as [|[|]] eqn:Hn; [| |done].
  - assert (i = 0) as -> by lia. apply (inj Some) in Hs as <-.
    constructor; [apply s1_inv|apply s1_serves|by vm_compute|apply (bool_decide_unpack _); by vm_compute| |by vm_compute|by vm_compute].
    intros [|[|j]] a Ha; [..|done]; apply (inj Some) in Ha as <-; by vm_compute.
  - assert (i = 1) as -> by lia. apply (inj Some) in Hs as <-.
    constructor; [apply s2_inv|apply s2_serves|by vm_compute|apply (bool_decide_unpack _); by vm_compute| |by vm_compute|by vm_compute].
    intros [|[|j]] a Ha; [..|done]; apply (inj Some) in Ha as <-; by vm_compute.
Qed.

Example training_round_witness :
  ∃ outs, Forall2 (λ a out, ∃ a', Agent.Push a = Ok (a', true) ∧
      outbox (Agent.sender_ a') = outbox (Agent.sender_ a) ++ out) trainers outs ∧
    ∀ msgs, msgs ≡ₚ concat outs →
      ∃ ss', foldM (deliver [1; 2]) msgs [s1; s2] = Ok ss' ∧ length ss' = 2%nat ∧
        ∀ i s s', 0 ≤ i → [s1; s2] !! Z.to_nat i = Some s → ss' !! Z.to_nat i = Some s' →
          round_done test_config trainers i s s'.
Proof.
  apply (training_round test_config test_config_ok test_config_routable ltac:(done) test_config_increasing
    trainers [s1; s2] trainers_ready eq_refl).
  intros i s Hs Hi. split; [by apply boot_ready|].
  destruct (Z.to_nat i) as [|[|]]; [apply (inj Some) in Hs as <-..|done]; by vm_compute.
Defined.
