(* ===== verification/TrainingPull.v ===== *)
(** * The pulls after a training round

    An agent asks the servers of a cluster for parameters: every server that
    is between two rounds answers at once, and whatever the order in which the
    requests and the answers arrive, the worker finds the cluster's current
    value of every key it asked for. *)

From S2P Require Import Prelude CppStd Partition Float32 Messages Communicator KeyValueList Ssp.
From S2P Require Import Channel Fifo Agent AgentSort Slices AgentPush AgentPull AgentProps AgentConfig AgentWork.
From S2P Require Import Server ServerMerge ServerInv ServerRound ServerPush ServerPull ServerInit ServerTraining.
From S2P Require Import Cluster System Training.
From stdpp Require Import options.

Import Server.
#[local] Existing Instance Agent.Agent_eta.

(** ** Sorting into buckets *)

Lemma concat_bucket {A} (x : A) j (F G : nat → list A) js :
  (∀ i, F i = (if decide (j = i) then [x] else []) ++ G i) → NoDup js → j ∈ js →
  concat (F <$> js) ≡ₚ x :: concat (G <$> js).
Proof.
  intros HF. assert (∀ l : list nat, j ∉ l → F <$> l = G <$> l) as Hout.
  { intros l Hl. apply list_fmap_ext. intros k y Hy. rewrite HF, decide_False; [done|].
    intros ->. apply Hl. by eapply list_elem_of_lookup_2. }
  induction js as [|i js IH]; [by intros _ ?%elem_of_nil|]. intros [Hi Hnd]%NoDup_cons Hj. cbn.
  apply elem_of_cons in Hj as [->|Hj].
  - rewrite HF, decide_True by done. fold (F <$> js) (G <$> js). by rewrite Hout.
  - rewrite HF, decide_False by (intros ->; done). cbn. fold (F <$> js) (G <$> js). rewrite IH by done.
    by rewrite Permutation_middle.
Qed.

Lemma buckets {A} (f : A → nat) n l :
  Forall (λ x, f x < n)%nat l → concat ((λ i, filter (λ x, f x = i) l) <$> seq 0 n) ≡ₚ l.
Proof.
  induction 1 as [|x l Hx _ IH].
  { induction (seq 0 n) as [|i js IH]; [done|]. exact IH. }
  transitivity (x :: concat ((λ i, filter (λ x, f x = i) l) <$> seq 0 n)); [|by rewrite IH].
  apply (concat_bucket x (f x)); [|apply NoDup_seq|apply elem_of_seq; lia].
  intros i. rewrite filter_cons. by destruct (decide (f x = i)).
Qed.

Lemma filter_ext_Forall {A} (P Q : A → Prop) `{!∀ x, Decision (P x), !∀ x, Decision (Q x)} l :
  Forall (λ x, P x ↔ Q x) l → filter P l = filter Q l.
Proof.
  induction 1 as [|x l Hx _ IH]; [done|]. rewrite !filter_cons, IH.
  by destruct (decide (P x)), (decide (Q x)); try tauto.
Qed.

Lemma concat_perm {A} (xs ys : list (list A)) : Forall2 (≡ₚ) xs ys → concat xs ≡ₚ concat ys.
Proof. induction 1 as [|x y xs ys Hxy _ IH]; [done|]. cbn. by rewrite Hxy, IH. Qed.

(** ** Replies that all come *)

(** When every message is an acceptable one from a server of its own, the
    receive loop takes them all. *)
Lemma accepted_everything msgs local S :
  Forall (acceptable local) (omap id msgs) → NoDup (send_id <$> omap id msgs) →
  (∀ m, m ∈ omap id msgs → send_id m ∈ S) → accepted msgs local S = omap id msgs.
Proof.
  revert S. induction msgs as [|[m|] msgs IH]; intros S Hacc Hnd Hin; [done| |by apply IH].
  change (omap id (Some m :: msgs)) with (m :: omap id msgs) in *. cbn [accepted].
  apply Forall_cons in Hacc as [Hm Hacc]. rewrite fmap_cons in Hnd. apply NoDup_cons in Hnd as [Hnin Hnd].
  rewrite (proj2 (wanted_spec local S m)) by (split; [done|apply Hin; by left]).
  f_equal. apply IH; [done|done|]. intros m' Hm'. apply elem_of_difference. split; [apply Hin; by right|].
  rewrite elem_of_singleton. intros Heq. apply Hnin. rewrite <- Heq. by apply list_elem_of_fmap_2.
Qed.

(** The pairs of replies that carry one value per key. *)
Definition reply_pairs (ms : list Message) : list (Z * float32) :=
  ms ≫= λ m, zip (keys (request_msg m)) (values (request_msg m)).

Lemma zip_replies ms :
  Forall (λ m, length (keys (request_msg m)) = length (values (request_msg m))) ms →
  zip (reply_keys ms) (reply_values ms) = reply_pairs ms.
Proof.
  induction 1 as [|m ms Hm _ IH]; [done|]. unfold reply_keys, reply_values, reply_pairs in *. cbn.
  rewrite take_ge by lia. by rewrite zip_with_app, IH by done.
Qed.

Lemma mail_all {A} id (f : A → Message) l : mail id ((λ x, (id, f x)) <$> l) = f <$> l.
Proof.
  unfold mail. induction l as [|x l IH]; [done|]. rewrite fmap_cons, filter_cons, decide_True by done.
  by rewrite !fmap_cons, IH.
Qed.

(** ** The servers' side *)

(** The messages a server handed over between two states. *)
Definition handed {C} `{Communicator C} (s s' : Server C) : list (Z * Message) :=
  drop (length (outbox (sender_ s))) (outbox (sender_ s')).

(** The value of a key in the cluster: what its owner has for it. *)
Definition cluster_param {C} (c : ConfigMessage) (ss : list (Server C)) (k : Z) : float32 :=
  match Partition.GetServerByKey (config_partition c) k with
  | Ok i => match ss !! Z.to_nat i with Some s => param_of s k | None => f0 end
  | Fault _ => f0
  end.

Section pull.
Context (c : ConfigMessage) (Hok : config_ok c) (Hro : routable c).
Context (Hn : 2 ≤ server_num c) (Hs : sorted_lt (partition c)).
Context {C D : Type} `{CommunicatorLaws C} `{CommunicatorLaws D}.
Context (agents : list (Agent.Agent D)).
Set Default Proof Using "Type*".
Implicit Types (s : Server C) (a : Agent.Agent D).

(** A key the server at index [i] owns, and that does not wrap. *)
Definition owned (i k : Z) : Prop :=
  Partition.in_arc (config_partition c) i k ∧ point c 0 ≤ k < key_range c.

Lemma owned_param i k (ss : list (Server C)) s :
  owned i k → ss !! Z.to_nat i = Some s → cluster_param c ss k = param_of s k.
Proof.
  intros [Harc Hk] Hss. pose proof (config_partition_wf c Hro) as Hwf. pose proof (point_range c Hok 0 ltac:(lia)).
  destruct (Partition.GetServerByKey_Ok _ k Hwf) as (j & Hj & Harc'); [cbn; lia|].
  assert (j = i) as -> by (by eapply Partition.in_arc_unique).
  unfold cluster_param. by rewrite Hj, Hss.
Qed.

Lemma owned_arc_param i s k : serves c i s → owned i k → arc_param s k = param_of s k.
Proof.
  intros [Hst Hl Hr] [Harc Hk]. pose proof (plain_segment c Hok Hro Hn Hs i k Harc Hk) as Hseg.
  pose proof Harc as [Hi _]. cbn in Hi. pose proof (point_range c Hok i Hi). unfold in_segment in Hseg.
  unfold arc_param, arc_pos, param_of. rewrite Hst, Hr, Z.mod_small by lia. done.
Qed.

(** An agent of the cluster, in whatever state. *)
Definition known a : Prop := Agent.local_id_ a ∈ Agent.local_id_ <$> agents.

(** A pull of keys a server owns. *)
Definition pull_of (i : Z) a (m : Message) (ks : list Z) : Prop :=
  send_id m = Agent.local_id_ a ∧ message_type m = mt_request ∧ request_msg m = mkRequest rt_key ks [] ∧
  Forall (owned i) ks.

(** The answer of the server at index [i], and its part of the pairs. *)
Definition answer_of s a (ks : list Z) : Message := pull_answer s (Agent.local_id_ a) ks.

Lemma pull_handled i s a m ks :
  known a → 0 ≤ i < server_num c → server_ready c agents i s → pull_of i a m ks →
  handle m s = Ok (send (Agent.local_id_ a) (answer_of s a ks) s).
Proof.
  intros Ha Hi [Hinv Hsv Hc Hk Hx Hv Hid] (Hsend & Hty & Hreq & Hown). pose proof Hinv as [Hcore _].
  pose proof (co_counts s Hcore) as [Hb _ _ _ _]. pose proof Hsv as [Hst Hl Hr].
  apply list_elem_of_fmap in Ha as (a0 & Heq & Ha). unfold answer_of. rewrite Heq in *.
  rewrite Forall_forall in Hk. destruct (Hk a0 Ha) as [_ Hns]. apply list_elem_of_lookup in Ha as [n Han].
  specialize (Hx n a0 Han). pose proof (cf_range c Hok). pose proof (point_range c Hok i Hi).
  assert (version_buffer_ s !! n = Some []) as Hbuf by (rewrite Hv; apply lookup_replicate_2; by eapply lookup_lt_Some).
  assert (Forall (on_arc s) ks) as Harc.
  { eapply Forall_impl; [exact Hown|]. intros k [Hin Hkr]. unfold on_arc, arc_pos. rewrite Hst, Hl, Hr.
    pose proof (point_range c Hok 0 ltac:(lia)). split; [lia|]. apply (in_arc_pos c Hok Hro Hn Hs i k Hi); [lia|done]. }
  unfold handle. rewrite Hsend, Hns, bool_decide_eq_false_2 by (by apply is_Some_None || by intros [? ?]).
  rewrite bool_decide_eq_true_2, Hreq by done. cbn.
  apply (ServePull_answered s _ n []); cbn; rewrite ?Hst, ?Hr; try done.
  all: first [lia|unfold kInt32Max in *; lia|apply (si_params s (co_segment s Hcore))].
Qed.

Lemma inv_sender s ch : inv s → inv (s <| sender_ := ch |>).
Proof using Type.
  intros [Hcore Hempty]. split; [|done]. destruct Hcore as [? [] [] [] ?]. constructor; first [done|by constructor].
Qed.

Lemma ready_sender i s ch : server_ready c agents i s → server_ready c agents i (s <| sender_ := ch |>).
Proof using Type. intros [Hinv [] ? ? ? ? ?]. constructor; [by apply inv_sender|by constructor|done..]. Qed.

(** A server between two rounds answers every pull of every agent at once, and
    only hands over messages. *)
Lemma pulls_handled i s ms (qs : list (Agent.Agent D * list Z)) :
  0 ≤ i < server_num c → server_ready c agents i s →
  Forall2 (λ m q, known q.1 ∧ pull_of i q.1 m q.2) ms qs →
  ∃ ch, Start ms s = Ok (s <| sender_ := ch |>) ∧
    outbox ch = outbox (sender_ s) ++ ((λ q, (Agent.local_id_ q.1, answer_of s q.1 q.2)) <$> qs).
Proof.
  intros Hi Hrdy Hms. revert s Hrdy. unfold Start.
  induction Hms as [|m [a ks] ms qs [Ha Hm] _ IH]; intros s Hrdy.
  { exists (sender_ s). split; [by destruct s|by rewrite app_nil_r]. }
  cbn [foldM]. rewrite (pull_handled i s a m ks) by done. cbn [mbind res_bind].
  set (ch := (Send (Agent.local_id_ a) (answer_of s a ks) (sender_ s)).2).
  destruct (IH (s <| sender_ := ch |>)) as (ch' & Hrun & Hout); [by apply ready_sender|].
  exists ch'. split; [exact Hrun|]. rewrite Hout. cbn. unfold ch. by rewrite Send_outbox, <- app_assoc.
Qed.

(** ** The agent's side *)

(** The keys the worker asks for, as the agent sends them. *)
Definition asked_keys (mem : Shm.shmstruct) : list Z := std_sort (take (Z.to_nat (Shm.size mem)) (Shm.keys mem)).

(** An agent of the cluster, and a worker's keys none of which wraps. *)
Record pull_ready a (mem : Shm.shmstruct) : Prop := mkpull_ready {
  pr_agent : known a;
  pr_partition : Agent.partition_ a = config_partition c;
  pr_ids : Agent.server_ids_ a = server_id c;
  pr_memory : memory_ok a mem;
  pr_plain : ∀ k, k ∈ asked_keys mem → point c 0 ≤ k;
}.

(** A slice of the keys an agent asks for, and the message for it. *)
Record ask := mkAsk { ask_agent : Agent.Agent D; ask_memory : Shm.shmstruct; ask_slice : slice }.

Definition ask_index (q : ask) : Z := s_index (ask_slice q).
Definition ask_keys (q : ask) : list Z := part (asked_keys (ask_memory q)) (ask_slice q).
Definition ask_pull (q : ask) : Z * Message :=
  let a := ask_agent q in let d := dest a (ask_slice q) in
  (d, Agent.request_message (Agent.local_id_ a) d (mkRequest rt_key (ask_keys q) [])).

Record ask_ok (q : ask) : Prop := mkask_ok {
  ak_known : known (ask_agent q);
  ak_index : 0 ≤ ask_index q < server_num c;
  ak_dest : server_id c !! Z.to_nat (ask_index q) = Some (dest (ask_agent q) (ask_slice q));
  ak_owned : Forall (owned (ask_index q)) (ask_keys q);
}.

(** All an agent asks for its worker. *)
Record pull_slices a mem (l : list slice) : Prop := mkpull_slices {
  ps_ok : Forall ask_ok (mkAsk a mem <$> l);
  ps_once : NoDup (s_index <$> l);
  ps_all : concat (part (asked_keys mem) <$> l) = asked_keys mem;
}.

Lemma pull_cut a mem :
  pull_ready a mem → ∃ l a1, pull_slices a mem l ∧
    Agent.pull_requests (a <| Agent.parameters_ := mem |>) = Ok (list_to_set (dest a <$> l), a1) ∧
    outbox (Agent.sender_ a1) = outbox (Agent.sender_ a) ++ (ask_pull <$> (mkAsk a mem <$> l)).
Proof.
  intros [Ha Hp Hids [[Hv Hk] Hsz Hrange] Hplain]. pose proof (config_partition_wf c Hro) as Hwf.
  assert (Agent.server_ids_ a = server_id c ∧ zlen (server_id c) = server_num c) as [_ Hlen] by (split; [done|apply Hro]).
  assert (ready (a <| Agent.parameters_ := mem |>)) as Hr.
  { split; cbn; rewrite Hp; [done|]. by rewrite Hids. }
  unfold Shm.capacity in *.
  destruct (pull_requests_Ok (a <| Agent.parameters_ := mem |>) Hr) as (l & ch & Hreq & [Hout _] & Hcuts & Hcat);
    [cbn; lia|cbn; unfold kInt32Max; lia|done|]. cbn in Hreq, Hout, Hcuts, Hcat.
  fold (asked_keys mem) in Hreq, Hout, Hcuts, Hcat. rewrite Hp in Hcuts, Hrange.
  assert (zlen (asked_keys mem) = Shm.size mem) as Hal by (unfold asked_keys; rewrite std_sort_length, length_take; lia).
  assert (zlen (asked_keys mem) ≤ kInt32Max) as Hmax by (unfold kInt32Max; lia).
  assert (Forall (λ k, 0 ≤ k < Partition.key_range_ (config_partition c)) (asked_keys mem)) as Hrange'
    by (unfold asked_keys; by rewrite std_sort_perm).
  pose proof (cuts_index _ _ Hwf Hmax Hrange' 0 l Hcuts) as Hidx.
  assert (sorted_le (asked_keys mem)) as Hsort by apply std_sort_sorted.
  pose proof (cuts_owner _ _ Hwf Hmax Hrange' 0 l Hsort Hcuts) as Hown.
  exists l. eexists. split_and!; [|exact Hreq|].
  - constructor.
    + apply Forall_fmap, Forall_forall. intros sl Hin. rewrite Forall_forall in Hidx. rewrite Forall_forall in Hown.
      specialize (Hidx sl Hin). specialize (Hown sl Hin). cbn in Hidx, Hown.
      constructor; cbn; [done|exact Hidx|by apply (slice_dest c Hok Hro Hn Hs)|].
      apply Forall_forall. intros k Hk'. split; [by apply Hown|].
      assert (k ∈ asked_keys mem) as Hka by (unfold ask_keys, part in Hk'; cbn in Hk'; apply elem_of_take in Hk' as (q & Hq & _);
        rewrite lookup_drop in Hq; by apply list_elem_of_lookup_2 in Hq).
      split; [by apply Hplain|]. rewrite Forall_forall in Hrange'. by apply Hrange'.
    + eapply (cuts_once _ _ Hwf Hmax Hrange' 0 l _ Hsort (config_points c Hok Hro 0 ltac:(lia))); [|exact Hcuts].
      by apply Forall_forall.
    + rewrite (cuts_concat (config_partition c) (asked_keys mem) (asked_keys mem) 0 l) by done. done.
  - cbn. rewrite Hout, <- list_fmap_compose. f_equal. apply list_fmap_ext. intros j sl Hj.
    pose proof (cuts_within _ _ _ _ Hcuts) as Hw. rewrite Forall_lookup in Hw. destruct (Hw _ _ Hj) as [Hb He].
    unfold pull_message, ask_pull, ask_keys. cbn. do 3 f_equal. rewrite <- (part_take (zlen (asked_keys mem))) by lia.
    by rewrite take_app_length' by lia.
Qed.

(** ** The answers *)

Section answers.
Context (ss : list (Server C)).

(** The answer for a slice, from the server it is sent to. *)
Definition ask_answer (q : ask) : Message :=
  match ss !! Z.to_nat (ask_index q) with
  | Some s => answer_of s (ask_agent q) (ask_keys q)
  | None => (ask_pull q).2
  end.

Definition ask_reply (q : ask) : Z * Message := (Agent.local_id_ (ask_agent q), ask_answer q).

(** What the server at position [j] hands over for what it is asked. *)
Definition answers_of (j : nat) (qs : list ask) : list (Z * Message) :=
  ask_reply <$> filter (λ q, Z.to_nat (ask_index q) = j) qs.

Context (Hlen : zlen ss = server_num c).
Context (Hservers : ∀ i s, 0 ≤ i → ss !! Z.to_nat i = Some s → server_ready c agents i s).

(** The requests of any number of agents, whatever their order, are all
    answered. *)
Lemma pulls_delivered qs reqs :
  Forall ask_ok qs → reqs ≡ₚ ask_pull <$> qs →
  ∃ ss', foldM (deliver (server_id c)) reqs ss = Ok ss' ∧ length ss' = length ss ∧
    ∀ j s s', ss !! j = Some s → ss' !! j = Some s' →
      (∃ ch, s' = s <| sender_ := ch |>) ∧ handed s s' ≡ₚ answers_of j qs.
Proof.
  intros Hqs Hreqs. pose proof (cf_server_ids c Hok) as Hsl.
  destruct (deliver_all (server_id c) (λ j s', ∀ s, ss !! j = Some s →
    (∃ ch, s' = s <| sender_ := ch |>) ∧ handed s s' ≡ₚ answers_of j qs) reqs ss)
    as (ss' & Hrun & Hl & HQ); [apply (cf_nodup c Hok)|lia| |].
  2: { exists ss'. split_and!; [done|done|]. intros j s s' Hj Hj'. by apply (HQ j s'). }
  intros j id s Hid Hj. set (i := Z.of_nat j). assert (0 ≤ i < server_num c) as Hi.
  { apply lookup_lt_Some in Hj. lia. }
  assert (Z.to_nat i = j) as Hij by lia.
  pose proof (Hservers i s ltac:(lia) ltac:(by rewrite Hij)) as Hrdy.
  assert (mail id reqs ≡ₚ (λ q, (ask_pull q).2) <$> filter (λ q, ask_index q = i) qs) as Hmail.
  { rewrite Hreqs. rewrite (mail_by_index c Hok Hro Hn Hs ask_pull ask_index qs i id); [done| |lia|by rewrite Hij].
    eapply Forall_impl; [exact Hqs|]. intros q [_ Hq Hd _]. split; [apply Hq|done]. }
  apply Permutation_map_inv in Hmail as (l & Hmail & Hl).
  assert (∀ q, q ∈ l → ask_index q = i ∧ ask_ok q) as Hin.
  { intros q Hq. rewrite <- Hl in Hq. apply list_elem_of_filter in Hq as [Hx Hq]. rewrite Forall_forall in Hqs.
    split; [done|by apply Hqs]. }
  destruct (pulls_handled i s (mail id reqs) ((λ q, (ask_agent q, ask_keys q)) <$> l) Hi Hrdy) as (ch & Hstart & Hout).
  { rewrite Hmail. apply Forall2_fmap_2, Forall_Forall2_diag, Forall_forall. intros q Hq.
    destruct (Hin q Hq) as [Hx [Hk _ _ Hown]]. rewrite Hx in Hown. by split_and!. }
  exists (s <| sender_ := ch |>). split; [done|]. intros s2 Hs2. assert (s2 = s) as -> by congruence.
  split; [by exists ch|]. unfold handed. cbn. rewrite Hout, drop_app_length, <- list_fmap_compose.
  unfold answers_of. rewrite (filter_ext_Forall (λ q, Z.to_nat (ask_index q) = j) (λ q, ask_index q = i) qs).
  2: { eapply Forall_impl; [exact Hqs|]. intros q [_ Hq _ _]. cbn. lia. }
  rewrite Hl. apply reflexive_eq, list_fmap_ext. intros n q Hq. apply list_elem_of_lookup_2 in Hq.
  destruct (Hin q Hq) as [Hx _]. unfold ask_reply, ask_answer. cbn. by rewrite Hx, Hij, Hj.
Qed.

(** Together the servers hand over the answers to everything asked. *)
Lemma answers_collected qs ss' :
  length ss' = length ss → Forall ask_ok qs →
  (∀ j s s', ss !! j = Some s → ss' !! j = Some s' → handed s s' ≡ₚ answers_of j qs) →
  concat (zip_with handed ss ss') ≡ₚ ask_reply <$> qs.
Proof.
  intros Hlen' Hqs Hhand. transitivity (concat ((λ j, answers_of j qs) <$> seq 0 (length ss))).
  - apply concat_perm, Forall2_same_length_lookup_2; [rewrite length_zip_with, length_fmap, length_seq; lia|].
    intros j x y (s & s' & -> & Hj & Hj')%lookup_zip_with_Some Hy. rewrite list_lookup_fmap in Hy.
    rewrite lookup_seq_lt in Hy by (by eapply lookup_lt_Some). apply (inj Some) in Hy as <-. by apply Hhand.
  - unfold answers_of. transitivity (ask_reply <$> concat ((λ j, filter (λ q, Z.to_nat (ask_index q) = j) qs) <$> seq 0 (length ss))).
    + generalize (seq 0 (length ss)). intros js. induction js as [|j js IH]; [done|]. cbn.
      rewrite fmap_app. by apply Permutation_app_head.
    + rewrite (buckets (λ q, Z.to_nat (ask_index q))); [done|]. eapply Forall_impl; [exact Hqs|].
      intros q [_ Hq _ _]. lia.
Qed.

(** What an answer holds. *)
Lemma ask_answer_spec q :
  ask_ok q →
  let a := ask_agent q in
  acceptable (Agent.local_id_ a) (ask_answer q) ∧ send_id (ask_answer q) = dest a (ask_slice q) ∧
  keys (request_msg (ask_answer q)) = ask_keys q ∧
  values (request_msg (ask_answer q)) = cluster_param c ss <$> ask_keys q.
Proof.
  intros [_ Hidx Hd Hown] a.
  destruct (lookup_lt_is_Some_2 ss (Z.to_nat (ask_index q))) as [s Hss]; [lia|].
  pose proof (Hservers (ask_index q) s ltac:(lia) Hss) as [_ Hsv _ _ _ _ Hid].
  unfold ask_answer, acceptable. rewrite Hss. split_and!; [done|by eexists|done|done| |done|].
  - cbn. rewrite Hid in Hd. by injection Hd.
  - cbn. apply list_fmap_ext. intros n k Hk. rewrite Forall_lookup in Hown. specialize (Hown n k Hk).
    by rewrite (owned_arc_param (ask_index q) s k Hsv Hown), (owned_param (ask_index q) k ss s Hown Hss).
Qed.

Section agent.
Context a mem l (Hpull : pull_ready a mem) (Hl : pull_slices a mem l).

(** The answers the agent waits for. *)
Definition slice_answer (sl : slice) : Message := ask_answer (mkAsk a mem sl).

Lemma slice_answer_spec sl :
  sl ∈ l →
  acceptable (Agent.local_id_ a) (slice_answer sl) ∧ send_id (slice_answer sl) = dest a sl ∧
  keys (request_msg (slice_answer sl)) = part (asked_keys mem) sl ∧
  values (request_msg (slice_answer sl)) = cluster_param c ss <$> part (asked_keys mem) sl.
Proof.
  intros Hin. apply (ask_answer_spec (mkAsk a mem sl)). pose proof (ps_ok _ _ _ Hl) as Hok'.
  rewrite Forall_fmap, Forall_forall in Hok'. by apply Hok'.
Qed.

(** The agent sends one request to each server it asks. *)
Lemma dests_once : NoDup (dest a <$> l).
Proof.
  destruct Hl as [Hok' Hnd _]. rewrite Forall_fmap, Forall_forall in Hok'.
  assert (∀ sl, sl ∈ l → server_id c !! Z.to_nat (s_index sl) = Some (dest a sl)) as Hd
    by (intros sl Hsl; apply (ak_dest _ (Hok' sl Hsl))).
  assert (dest a <$> l = (λ i, server_id c !!! Z.to_nat i) <$> (s_index <$> l)) as ->.
  { rewrite <- list_fmap_compose. apply list_fmap_ext. intros j sl Hj. cbn.
    by rewrite (list_lookup_total_correct _ _ _ (Hd sl (list_elem_of_lookup_2 _ _ _ Hj))). }
  apply NoDup_fmap_2_strong; [|done]. intros i j Hi Hj Heq.
  apply list_elem_of_fmap in Hi as (x & -> & Hx). apply list_elem_of_fmap in Hj as (y & -> & Hy).
  pose proof (Hd x Hx) as Hu. pose proof (Hd y Hy) as Hv.
  pose proof (ak_index _ (Hok' x Hx)). pose proof (ak_index _ (Hok' y Hy)). unfold ask_index in *. cbn in *.
  rewrite (list_lookup_total_correct _ _ _ Hu), (list_lookup_total_correct _ _ _ Hv) in Heq. rewrite <- Heq in Hv.
  pose proof (NoDup_lookup _ _ _ _ (cf_nodup c Hok) Hu Hv). lia.
Qed.

(** The receive loop takes all answers, in any order. *)
Lemma answers_accepted msgs :
  omap id msgs ≡ₚ slice_answer <$> l →
  accepted msgs (Agent.local_id_ a) (list_to_set (dest a <$> l)) = omap id msgs.
Proof.
  intros Hmsgs.
  assert (∀ m, m ∈ omap id msgs → ∃ sl, sl ∈ l ∧ m = slice_answer sl) as Hfrom.
  { intros m Hm. rewrite Hmsgs in Hm. apply list_elem_of_fmap in Hm as (sl & -> & Hsl). by exists sl. }
  apply accepted_everything.
  - apply Forall_forall. intros m Hm. destruct (Hfrom m Hm) as (sl & Hsl & ->). by apply slice_answer_spec.
  - rewrite Hmsgs, <- list_fmap_compose. replace ((send_id ∘ slice_answer) <$> l) with (dest a <$> l); [apply dests_once|].
    apply list_fmap_ext. intros j sl Hj. cbn. symmetry.
    apply (slice_answer_spec sl). by eapply list_elem_of_lookup_2.
  - intros m Hm. destruct (Hfrom m Hm) as (sl & Hsl & ->). apply elem_of_list_to_set.
    destruct (slice_answer_spec sl Hsl) as (_ & -> & _). by apply list_elem_of_fmap_2.
Qed.

(** Their pairs are those of the keys asked for. *)
Lemma answers_pairs : reply_pairs (slice_answer <$> l) = (λ k, (k, cluster_param c ss k)) <$> asked_keys mem.
Proof.
  rewrite <- (ps_all _ _ _ Hl). unfold reply_pairs.
  assert (∀ l', (∀ sl, sl ∈ l' → sl ∈ l) → (slice_answer <$> l') ≫= (λ m, zip (keys (request_msg m)) (values (request_msg m))) =
    (λ k, (k, cluster_param c ss k)) <$> concat (part (asked_keys mem) <$> l')) as Hall; [|by apply Hall].
  induction l' as [|sl l' IH]; intros Hsub; [done|]. cbn. rewrite fmap_app. f_equal.
  - destruct (slice_answer_spec sl) as (_ & _ & -> & ->); [apply Hsub; by left|].
    generalize (part (asked_keys mem) sl). intros ks. induction ks as [|k ks IHk]; [done|]. cbn. by rewrite IHk.
  - apply IH. intros x Hx. apply Hsub. by right.
Qed.

(** With these answers, in any order and with failures of [Receive] among them,
    the pull completes, and the worker finds the cluster's value of every key. *)
Lemma pull_answered a1 msgs :
  Agent.pull_requests (a <| Agent.parameters_ := mem |>) = Ok (list_to_set (dest a <$> l), a1) →
  omap id msgs ≡ₚ slice_answer <$> l →
  ∃ p ch rest, Agent.Pull msgs (a <| Agent.parameters_ := mem |>) =
      Ok (a <| Agent.parameters_ := p |> <| Agent.sender_ := ch |>, true, rest) ∧ Shm.wf p ∧
    zip (take (Z.to_nat (Shm.size p)) (Shm.keys p)) (take (Z.to_nat (Shm.size p)) (Shm.values p)) ≡ₚ
      (λ k, (k, cluster_param c ss k)) <$> asked_keys mem.
Proof.
  intros Hreq Hmsgs. pose proof Hpull as [Ha Hp Hids Hmem Hplain].
  assert (asked a mem = list_to_set (dest a <$> l)) as Hasked by (unfold asked; by rewrite Hreq).
  pose proof (answers_accepted msgs Hmsgs) as Hacc. rewrite <- Hasked in Hacc.
  assert (Forall (λ m, length (keys (request_msg m)) = length (values (request_msg m))) (omap id msgs)) as Hlens.
  { rewrite Hmsgs. apply Forall_fmap, Forall_forall. intros sl Hsl. cbn.
    destruct (slice_answer_spec sl Hsl) as (_ & _ & -> & ->). by rewrite length_fmap. }
  assert (Forall reply_ok (omap id msgs)) as Hrok
    by (eapply Forall_impl; [exact Hlens|]; intros m Hm; cbn in Hm; unfold reply_ok; lia).
  assert (zip (reply_keys (omap id msgs)) (reply_values (omap id msgs)) ≡ₚ (λ k, (k, cluster_param c ss k)) <$> asked_keys mem) as Hpairs.
  { rewrite zip_replies by done. unfold reply_pairs. rewrite Hmsgs. by rewrite <- answers_pairs. }
  destruct (Pull_complete a mem msgs) as (p & ch & out & rest & Hrunp & Hwfp & Hsz & Hpk & Hpv & _).
  - split; rewrite Hp; [by apply config_partition_wf|rewrite Hids; apply Hro].
  - done.
  - by rewrite Hacc.
  - rewrite Hacc. apply Permutation_length in Hpairs. rewrite length_fmap, length_zip_with in Hpairs.
    rewrite reply_lengths in Hpairs by done.
    unfold asked_keys in Hpairs. rewrite std_sort_length, length_take in Hpairs. destruct Hmem as [_ Hsize _]. lia.
  - rewrite Hasked. intros x Hx. apply elem_of_list_to_set, list_elem_of_fmap in Hx as (sl & -> & Hsl).
    destruct (slice_answer_spec sl Hsl) as (Hac & Hsend & _).
    exists (slice_answer sl). split_and!; [|done|done].
    assert (slice_answer sl ∈ omap id msgs) as Hin by (rewrite Hmsgs; by apply list_elem_of_fmap_2).
    by apply list_elem_of_omap in Hin as (y & Hy & [= ->]).
  - rewrite Hacc in *. exists p, ch, rest. split_and!; [exact Hrunp|done|]. by rewrite Hsz, Nat2Z.id, Hpk, Hpv.
Qed.
End agent.
End answers.

(** The agent's pull, from its requests to the worker's arrays: in whatever
    order its requests arrive, no server faults; in whatever order the answers
    arrive, with failures of [Receive] among them, the pull completes, and the
    worker finds every key it asked for with the value [value]. *)
Definition pull_gives a mem (ss : list (Server C)) (value : Z → float32) : Prop :=
  ∃ servers a1 out, Agent.pull_requests (a <| Agent.parameters_ := mem |>) = Ok (servers, a1) ∧
    outbox (Agent.sender_ a1) = outbox (Agent.sender_ a) ++ out ∧
    ∀ reqs, reqs ≡ₚ out → ∃ ss', foldM (deliver (server_id c)) reqs ss = Ok ss' ∧ length ss' = length ss ∧
      ∀ msgs, omap id msgs ≡ₚ mail (Agent.local_id_ a) (concat (zip_with handed ss ss')) →
        ∃ a2 rest, Agent.Pull msgs (a <| Agent.parameters_ := mem |>) = Ok (a2, true, rest) ∧
          let p := Agent.parameters_ a2 in let n := Z.to_nat (Shm.size p) in
          zip (take n (Shm.keys p)) (take n (Shm.values p)) ≡ₚ (λ k, (k, value k)) <$> asked_keys mem.

(** The value is what the owner of the key has for it. *)
Lemma cluster_pull a mem ss :
  zlen ss = server_num c → (∀ i s, 0 ≤ i → ss !! Z.to_nat i = Some s → server_ready c agents i s) →
  pull_ready a mem → pull_gives a mem ss (cluster_param c ss).
Proof.
  intros Hlen Hservers Hpull. destruct (pull_cut a mem Hpull) as (l & a1 & Hl & Hreq & Hout).
  pose proof (ps_ok _ _ _ Hl) as Hqs.
  eexists _, a1, _. split_and!; [exact Hreq|exact Hout|]. intros reqs Hreqs.
  destruct (pulls_delivered ss Hlen Hservers _ reqs Hqs Hreqs) as (ss' & Hrun & Hl' & Hhand).
  exists ss'. split_and!; [done|done|]. intros msgs Hmsgs.
  rewrite (answers_collected ss Hlen Hservers _ ss' Hl' Hqs) in Hmsgs by (intros j s s' Hj Hj'; by apply (Hhand j s s')).
  rewrite <- list_fmap_compose in Hmsgs.
  change (ask_reply ss ∘ mkAsk a mem <$> l) with ((λ sl, (Agent.local_id_ a, slice_answer ss a mem sl)) <$> l) in Hmsgs.
  rewrite (mail_all (Agent.local_id_ a) (slice_answer ss a mem) l) in Hmsgs.
  destruct (pull_answered ss Hlen Hservers a mem l Hpull Hl a1 msgs Hreq Hmsgs) as (p & ch & rest & Hrunp & _ & Hpairs).
  by eexists _, rest.
Qed.
End pull.

(** ** An iteration: a round and the pulls after it *)

Section iteration.
Context (c : ConfigMessage) (Hok : config_ok c) (Hro : routable c).
Context (Hn : 2 ≤ server_num c) (Hs : sorted_lt (partition c)).
Context {C D : Type} `{CommunicatorLaws C} `{CommunicatorLaws D}.
Context (agents : list (Agent.Agent D)).
Set Default Proof Using "Type*".

(** What a round makes of a parameter. *)
Definition trained_param (ss : list (Server C)) (k : Z) : float32 :=
  fadd (cluster_param c ss k) (fdiv (fsum f0 (vals k (agents ≫= gradient))) (f_of_int (zlen agents))).

Lemma round_param (ss ss' : list (Server C)) k :
  length ss' = length ss → zlen ss = server_num c → point c 0 ≤ k < key_range c →
  (∀ i s s', 0 ≤ i → ss !! Z.to_nat i = Some s → ss' !! Z.to_nat i = Some s' → round_done c agents i s s') →
  cluster_param c ss' k = trained_param ss k.
Proof.
  intros Hl Hlen Hk Hdone. pose proof (config_partition_wf c Hro) as Hwf. pose proof (point_range c Hok 0 ltac:(lia)).
  destruct (Partition.GetServerByKey_Ok _ k Hwf) as (i & Hi & [Hir _]); [cbn; lia|]. cbn in Hir.
  destruct (lookup_lt_is_Some_2 ss (Z.to_nat i)) as [s Hss]; [lia|].
  destruct (lookup_lt_is_Some_2 ss' (Z.to_nat i)) as [s' Hss']; [lia|].
  unfold trained_param, cluster_param. rewrite Hi, Hss, Hss'.
  by apply (rd_params _ _ _ _ _ (Hdone i s s' ltac:(lia) Hss Hss')).
Qed.

(** C4: an iteration of training. Every agent of the cluster pushes gradients
    with distinct keys, at least one for every server and none below the
    first starting point. In whatever order the messages of all agents reach
    the servers, no server faults and each finishes exactly one round. Then an
    agent pulls keys for its worker: in whatever order its requests and the
    answers arrive, the pull completes, and the worker finds for every key the
    cluster's value before the round plus the average over the agents of the
    gradients pushed for the key. *)
Theorem training_iteration (ss : list (Server C))
    (Hagents : ∀ a, a ∈ agents → agent_ready c a) (Hlen : zlen ss = server_num c)
    (Hservers : ∀ i s, ss !! Z.to_nat i = Some s → 0 ≤ i →
       server_ready c agents i s ∧ bottom_version_ s < kInt32Max) :
  ∃ outs, Forall2 (λ a out, ∃ a', Agent.Push a = Ok (a', true) ∧
      outbox (Agent.sender_ a') = outbox (Agent.sender_ a) ++ out) agents outs ∧
    ∀ msgs, msgs ≡ₚ concat outs →
      ∃ ss', foldM (deliver (server_id c)) msgs ss = Ok ss' ∧ length ss' = length ss ∧
        (∀ i s s', 0 ≤ i → ss !! Z.to_nat i = Some s → ss' !! Z.to_nat i = Some s' → round_done c agents i s s') ∧
        ∀ a mem, pull_ready c agents a mem → pull_gives c a mem ss' (trained_param ss).
Proof.
  destruct (training_round c Hok Hro Hn Hs agents ss Hagents Hlen Hservers) as (outs & Hpush & Hround).
  exists outs. split; [done|]. intros msgs Hmsgs.
  destruct (Hround msgs Hmsgs) as (ss' & Hrun & Hl & Hdone). exists ss'. split_and!; [done|done|done|].
  intros a mem Hpull.
  destruct (cluster_pull c Hok Hro Hn Hs agents a mem ss') as (servers & a1 & out & Hreq & Hout & Hall); [lia| |done|].
  { intros i s' Hi Hs'. destruct (lookup_lt_is_Some_2 ss (Z.to_nat i)) as [s Hss]; [apply lookup_lt_Some in Hs'; lia|].
    apply (rd_ready _ _ _ _ _ (Hdone i s s' Hi Hss Hs')). }
  exists servers, a1, out. split_and!; [done|done|]. intros reqs Hreqs.
  destruct (Hall reqs Hreqs) as (ss2 & Hrun2 & Hl2 & Hpulls). exists ss2. split_and!; [done|done|].
  intros replies Hreplies. destruct (Hpulls replies Hreplies) as (a2 & rest & Ha2 & Hpairs). exists a2, rest.
  split; [done|]. cbv zeta in *. rewrite Hpairs. apply reflexive_eq, list_fmap_ext. intros j k Hj. f_equal.
  apply (round_param ss ss' k); [done|done| |done]. apply list_elem_of_lookup_2 in Hj.
  split; [by apply (pr_plain _ _ _ _ Hpull)|]. destruct Hpull as [_ Hp _ [_ _ Hrange] _]. rewrite Hp in Hrange.
  rewrite Forall_forall in Hrange. unfold asked_keys in Hj. rewrite std_sort_perm in Hj. apply (Hrange k Hj).
Qed.
End iteration.

(** ** Witness

    Agent 3 of the test cluster asks for keys 9, 4 and 3. *)

Definition trainer_3 : Agent.Agent Trace := trainer 3 [(8, 1); (3, 2)].
Definition wanted_3 : Shm.shmstruct := shm_of [9; 4; 3] [].

Lemma pull_ready_3 : pull_ready test_config trainers trainer_3 wanted_3.
Proof.
  constructor; [unfold known; apply (bool_decide_unpack _); by vm_compute|by vm_compute|by vm_compute| |].
  - constructor; [by constructor|by vm_compute|apply (bool_decide_unpack _); by vm_compute].
  - assert (asked_keys wanted_3 = [3; 4; 9]) as -> by (by vm_compute). change (point test_config 0) with 2.
    apply Forall_forall, (bool_decide_unpack _). by vm_compute.
Qed.

Example training_iteration_witness :
  ∃ outs, Forall2 (λ a out, ∃ a', Agent.Push a = Ok (a', true) ∧
      outbox (Agent.sender_ a') = outbox (Agent.sender_ a) ++ out) trainers outs ∧
    ∀ msgs, msgs ≡ₚ concat outs →
      ∃ ss', foldM (deliver [1; 2]) msgs [s1; s2] = Ok ss' ∧ length ss' = 2%nat ∧
        (∀ i s s', 0 ≤ i → [s1; s2] !! Z.to_nat i = Some s → ss' !! Z.to_nat i = Some s' →
           round_done test_config trainers i s s') ∧
        pull_gives test_config trainer_3 wanted_3 ss' (trained_param test_config trainers [s1; s2]).
Proof.
  destruct (training_iteration test_config test_config_ok test_config_routable ltac:(done) test_config_increasing
    trainers [s1; s2]) as (outs & Hpush & Hall).
  - apply trainers_ready.
  - done.
  - intros i s Hs Hi. split; [by apply boot_ready|]. destruct (Z.to_nat i) as [|[|]]; [| |done];
      apply (inj Some) in Hs as <-; by vm_compute.
  - exists outs. split; [done|]. intros msgs Hmsgs. destruct (Hall msgs Hmsgs) as (ss' & Hrun & Hl & Hdone & Hpull).
    exists ss'. split_and!; [done|done|done|]. apply Hpull, pull_ready_3.
Defined.
