(* ===== verification/Starvation.v ===== *)
(** * Agents without keys for a server

    A server finishes a round when every agent has pushed to it, but an agent
    pushes only to the servers that own some of its keys. *)

From S2P Require Import Prelude CppStd Partition Float32 Messages Communicator KeyValueList Ssp.
From S2P Require Import Channel Agent AgentSort Slices AgentPush AgentProps AgentConfig.
From S2P Require Import Server ServerInv ServerPush ServerPull ServerInit Cluster System Training.
From stdpp Require Import options.

Import Server.

(** ** The clock of an agent that does not push *)

Section stalled.
Context {C : Type} `{CommunicatorLaws C}.
Implicit Types s : Server C.
Set Default Proof Using "Type*".

Lemma spec_run_other s c ms j :
  Forall (λ m, push_of s m ≠ Some j) ms → foldl (spec_step s) c ms !! j = c !! j.
Proof.
  intros Hms. revert c. induction Hms as [|m ms Hm _ IH]; intros c; [done|]. cbn. rewrite IH.
  unfold spec_step. destruct (push_of s m) as [i|]; [|done]. apply Ssp.push_other. congruence.
Qed.

(** While one agent is awaited, no round ends, and the others stop [bound]
    versions further. *)
Lemma stalled s ms j :
  inv s → on_circle s → Forall (expected s) ms → bottom_version_ s + zlen ms ≤ kInt32Max →
  version_buffer_ s !! j = Some [] → Forall (λ m, push_of s m ≠ Some j) ms →
  ∃ s', Start ms s = Ok s' ∧ bottom_version_ s' = bottom_version_ s ∧
    Forall (λ clock, clock ≤ bottom_version_ s + consistency_bound_ s) (abs s').
Proof.
  intros Hinv Hcircle Hms Hver Hj Hno.
  destruct (Start_Ok s ms Hinv Hcircle Hms Hver) as (s' & Hrun & Hinv' & Hset & Habs & Hle).
  assert (abs s' !! j = Some (bottom_version_ s)) as Hclock.
  { rewrite Habs, spec_run_other by done. unfold abs. rewrite list_lookup_fmap, Hj. cbn. f_equal. lia. }
  pose proof (Ssp.floor_le _ _ (list_elem_of_lookup_2 _ _ _ Hclock)) as Hfloor. rewrite floor_abs in Hfloor by done.
  exists s'. split_and!; [done|lia|]. destruct Hinv' as [Hcore _].
  pose proof (ci_full _ _ _ _ (co_counts s' Hcore)) as Hfull. unfold abs. apply Forall_fmap.
  eapply Forall_impl; [exact Hfull|]. intros b Hb. cbn. rewrite (ss_bound _ _ Hset) in Hb. lia.
Qed.
End stalled.

(** ** The agent and the server *)

Section starvation.
Context (c : ConfigMessage) (Hok : config_ok c) (Hro : routable c).
Context (Hn : 2 ≤ server_num c) (Hs : sorted_lt (partition c)).
Context {C D : Type} `{CommunicatorLaws C} `{CommunicatorLaws D}.
Set Default Proof Using "Type*".

(** An agent sends nothing to a server that owns none of its keys. *)
Lemma no_mail (a : Agent.Agent D) i id :
  Agent.partition_ a = config_partition c → Agent.server_ids_ a = server_id c → gradients_ok a →
  NoDup (gradient a).*1 → 0 ≤ i → server_id c !! Z.to_nat i = Some id →
  (∀ k, k ∈ (gradient a).*1 → Partition.GetServerByKey (config_partition c) k ≠ Ok i) →
  ∃ a' out, Agent.Push a = Ok (a', true) ∧ outbox (Agent.sender_ a') = outbox (Agent.sender_ a) ++ out ∧ mail id out = [].
Proof.
  intros Hp Hids Hg Hnd Hi Hid Hnone. pose proof (gradient_keys a Hg) as Hgk.
  pose proof (config_partition_wf c Hro) as Hwf.
  assert (ready a) as Hr by (split; rewrite Hp; [done|rewrite Hids; apply Hro]).
  destruct (Push_cuts a Hr Hg ltac:(by rewrite <- Hgk))
    as (ks & vs & l & a' & Hpush & Hout & _ & Hids' & Hsort & Hvl & Hcap & Hrange & Hperm & Hcuts & _).
  rewrite Hp in Hrange, Hcuts. change (zip _ _) with (gradient a) in Hperm at 2.
  assert (zlen ks ≤ kInt32Max) as Hmax by (unfold Shm.capacity, kInt32Max in *; lia).
  assert (ks ≡ₚ (gradient a).*1) as Hks by (rewrite <- Hperm, fst_zip; [done|lia]).
  pose proof (cuts_index _ ks Hwf Hmax Hrange 0 l Hcuts) as Hidx.
  pose proof (cuts_owner _ ks Hwf Hmax Hrange 0 l (sorted_lt_le ks Hsort) Hcuts) as Hown.
  pose proof (cuts_within _ _ _ _ Hcuts) as Hw.
  exists a', (push_message a' <$> l). split_and!; [done|done|].
  rewrite (mail_of_pushes c Hok Hro Hn Hs a' l i id) by (done || by rewrite Hids').
  rewrite filter_none; [done|]. apply Forall_forall. intros sl Hin Hx.
  rewrite Forall_forall in Hown. rewrite Forall_forall in Hw. destruct (Hw sl Hin) as [Hb He].
  destruct (lookup_lt_is_Some_2 ks (Z.to_nat (s_start sl))) as [k Hk]; [lia|].
  assert (k ∈ part ks sl) as Hpart.
  { apply (list_elem_of_lookup_2 _ 0). unfold part. rewrite lookup_take_lt, lookup_drop, Nat.add_0_r by lia. done. }
  specialize (Hown sl Hin k Hpart). rewrite Hx in Hown. apply list_elem_of_lookup_2 in Hk. rewrite Hks in Hk.
  rewrite Hks in Hrange. rewrite Forall_forall in Hrange.
  destruct (Partition.GetServerByKey_Ok _ k Hwf (Hrange k Hk)) as (j & Hj & Harc).
  apply (Hnone k Hk). by rewrite Hj, (Partition.in_arc_unique _ _ _ _ Hwf Harc Hown).
Qed.

(** C38: an agent without keys for a server stalls it. Such an agent sends the
    server nothing when it pushes; and as long as no push of it arrives,
    whatever else the server is meant to receive, no round ends there, and no
    agent gets more than [consistency_bound_] versions past the current one. *)
Theorem idle_agent_stalls (a : Agent.Agent D) (s : Server C) i id j ms
    (Hagent : Agent.partition_ a = config_partition c ∧ Agent.server_ids_ a = server_id c)
    (Hg : gradients_ok a) (Hnd : NoDup (gradient a).*1)
    (Hid : 0 ≤ i ∧ server_id c !! Z.to_nat i = Some id)
    (Hnone : ∀ k, k ∈ (gradient a).*1 → Partition.GetServerByKey (config_partition c) k ≠ Ok i)
    (Hinv : inv s) (Hcircle : on_circle s) (Hj : id_to_index_ s !! Agent.local_id_ a = Some (Z.of_nat j))
    (Hwaits : version_buffer_ s !! j = Some [])
    (Hms : Forall (expected s) ms) (Hver : bottom_version_ s + zlen ms ≤ kInt32Max)
    (Hsilent : Forall (λ m, push_of s m ≠ Some j) ms) :
  (∃ a' out, Agent.Push a = Ok (a', true) ∧
     outbox (Agent.sender_ a') = outbox (Agent.sender_ a) ++ out ∧ mail id out = []) ∧
  ∃ s', Start ms s = Ok s' ∧ bottom_version_ s' = bottom_version_ s ∧
    Forall (λ clock, clock ≤ bottom_version_ s + consistency_bound_ s) (abs s').
Proof.
  destruct Hagent as [Hp Hids], Hid as [Hi Hid]. split; [by apply (no_mail a i id)|]. by apply (stalled s ms j).
Qed.
End starvation.

(** ** Witness

    Agent 3 of the test cluster has a gradient for key 8 only; server 1, which
    owns keys 2 to 5, hears of agent 4 alone. *)

Definition idle_3 : Agent.Agent Trace := trainer 3 [(8, 1)].
Definition busy_4 : Message := mkMessage 4 1 mt_request None (Some (mkRequest rt_key_value [3] [f_of_int 5])) None None.

Lemma busy_4_expected : expected s1 busy_4.
Proof. apply ex_push; [by vm_compute..|]. constructor; [by vm_compute|by vm_compute|]. repeat constructor; by vm_compute. Qed.

Example idle_agent_stalls_witness :
  (∃ a' out, Agent.Push idle_3 = Ok (a', true) ∧
     outbox (Agent.sender_ a') = outbox (Agent.sender_ idle_3) ++ out ∧ mail 1 out = []) ∧
  ∃ s', Start [busy_4; busy_4; busy_4] s1 = Ok s' ∧ bottom_version_ s' = bottom_version_ s1 ∧
    Forall (λ clock, clock ≤ bottom_version_ s1 + consistency_bound_ s1) (abs s').
Proof.
  apply (idle_agent_stalls test_config test_config_ok test_config_routable ltac:(done) test_config_increasing
    idle_3 s1 0 1 0 [busy_4; busy_4; busy_4]).
  - split; by vm_compute.
  - constructor; [constructor; by vm_compute|by vm_compute|apply (bool_decide_unpack _); by vm_compute].
  - apply (bool_decide_unpack _). by vm_compute.
  - split; by vm_compute.
  - assert ((gradient idle_3).*1 = [8]) as -> by (by vm_compute).
    intros k ->%list_elem_of_singleton. by vm_compute.
  - apply s1_inv.
  - split_and!; by vm_compute.
  - by vm_compute.
  - by vm_compute.
  - do 3 (constructor; [apply busy_4_expected|]). constructor.
  - by vm_compute.
  - repeat constructor; by vm_compute.
Defined.
