(* ===== verification/ServerReconfProps.v ===== *)
(** * Properties of [Reconfigure]

    The fail-over a server is meant to perform, and what happens when the new
    configuration has fewer agents. *)

From S2P Require Import Prelude CppStd Float32 Messages Communicator KeyValueList Ssp Server.
From S2P Require Import ServerMerge ServerInv ServerRound ServerInit ServerReconf Cluster.
From stdpp Require Import options.

Import Server.

Section reconf_props.
Set Default Proof Using "Type*".
Context {C : Type} `{CommunicatorLaws C}.
Implicit Types s : Server C.

Lemma agents_known s ws :
  inv s → list_to_set ws ⊆ agent_ids_ s → ∀ w, w ∈ ws → is_Some (id_to_index_ s !! w).
Proof. intros [Hcore _] Hsub w Hw. apply (xi_known s (co_index s Hcore)). set_solver. Qed.

(** The state in which [Reconfigure] turns to the agents: the blocked pulls are
    answered, the server has moved, the address book is refreshed. *)
Definition moved c i s (ch : C) sv : Server C :=
  mkServer ch (local_address_ s) i (local_id_ s) (point c i) (arc_len c i) (consistency_bound_ s)
    (bottom_version_ s) (agent_num_ s) (server_num c) (key_range c) (backup_size_ s) (master_id c)
    (server_id c) sv (agent_ids_ s) (parameters_ s) (backup_parameters_ s) (version_buffer_ s)
    (finish_count_ s) [] (id_to_index_ s).

Lemma Reconfigure_moves s c i :
  inv s → config_ok c → 0 ≤ i → server_id c !! Z.to_nat i = Some (local_id_ s) →
  ∃ ch sv, outbox ch = outbox (sender_ s) ++ (pull_reply s <$> pull_request_ s) ∧
    refreshed c (zlen (node_ip_port c)) (book ch) ∧ records c (server_num c) sv ∧
    Reconfigure c s = refresh_agents c (moved c i s ch sv).
Proof.
  intros [Hcore _] Hok Hi0 Hid. pose proof (cf_server_ids c Hok).
  pose proof (lookup_lt_Some _ _ _ Hid).
  destruct (RespondToAll_Ok s (co_segment s Hcore)) as (c1 & Hresp & Hout & Hbook).
  unfold Reconfigure. rewrite Hresp. cbn [mbind res_bind]. cbv zeta.
  match goal with |- context [for_ 0 (server_num_ ?st)] => set (s0 := st) end.
  pose proof (reconf_loop_Ok c i s0 Hok ltac:(lia) Hid eq_refl eq_refl eq_refl eq_refl) as Hl.
  apply returns_elim in Hl as (st & Hst & sv & -> & Hrec).
  replace (server_num_ s0) with (server_num c) by done. rewrite Hst. cbn [mbind res_bind negb].
  pose proof (refresh_loop_Ok c (recording (server_id c) sv (move_local c i s0))) as Hl.
  apply returns_elim in Hl as (s2 & Hs2 & ch & -> & Hout2 & Href).
  rewrite Hs2. cbn [mbind res_bind].
  exists ch, sv. by rewrite Hout2.
Qed.

Lemma refresh_agents_keep c s n :
  list_to_set (worker_id c) = agent_ids_ s → (∀ w, w ∈ worker_id c → is_Some (id_to_index_ s !! w)) →
  zlen (worker_id c) = worker_num c → worker_num c = agent_num_ s →
  Z.of_nat n ≤ backup_size_ s → (n ≤ length (backup_parameters_ s))%nat →
  0 ≤ parameter_length_ s ≤ kInt32Max →
  parameter_length_ s = zlen (taken_over (backup_parameters_ s) n (parameters_ s)) →
  (∀ j, (j < n)%nat → zlen (taken_over (backup_parameters_ s) j (parameters_ s)) ≠ parameter_length_ s) →
  refresh_agents c s = Ok (s <| parameters_ := taken_over (backup_parameters_ s) n (parameters_ s) |>).
Proof.
  intros Hagents Hknown Hlen Hnum Hn Hn' Hp Hfit Hshort. unfold refresh_agents.
  rewrite keep_loop_Ok by set_solver. cbn [mbind res_bind]. cbv zeta. rewrite Hagents.
  replace (s <| agent_ids_ := agent_ids_ s |>) with s by by destruct s.
  pose proof (known_loop_Ok c s (agent_num_ s) ltac:(lia) Hknown) as Hl.
  apply returns_elim in Hl as (? & Hl & ->). rewrite Hl. cbn [mbind res_bind].
  rewrite (ExtendParameter_Ok s n) by (rewrite ?to_size_t_nonneg by lia; done).
  cbn. rewrite Hnum. done.
Qed.

(** The server in its new place, with the parameters it took over. *)
Lemma taken_over_inv s c i ch sv params :
  inv s → config_ok c → 0 ≤ i < server_num c → backup_size_ s < server_num c →
  zlen params = arc_len c i → (point c i + arc_len c i = start_key_ s + parameter_length_ s) →
  parameter_length_ s ≤ arc_len c i →
  inv ((moved c i s ch sv) <| parameters_ := params |>).
Proof.
  intros [[Hc Hs Hr Hx Hv] Hempty] Hok Hi Hb Hlen Hend Hgrow.
  pose proof (point_range c Hok i Hi). pose proof (cf_servers c Hok).
  pose proof (cf_server_ids c Hok). destruct Hs as [? ? ? ? Hup _]. destruct Hr.
  split; [constructor|done].
  - done.
  - constructor; cbn; [lia|lia|lia|done| |constructor].
    eapply Forall_impl; [exact Hup|]. intros b Hb'. eapply Forall_impl; [exact Hb'|].
    intros u [Hwf Hk]. split; [done|]. eapply Forall_impl; [exact Hk|].
    unfold in_segment. intros kv; lia.
  - constructor; cbn; lia.
  - by destruct Hx.
  - done.
Qed.

Lemma taken_over_length bs n params : zlen params ≤ zlen (taken_over bs n params).
Proof. unfold taken_over. rewrite length_app. lia. Qed.

(** C30: the fail-over. When the new configuration gives a server, besides its
    own keys, the arcs of the [n] preceding servers on the ring, and keeps the
    agents, [Reconfigure] puts the backups of those servers, in ring order, in
    front of the parameters; every key the server had keeps its parameter, the
    clocks of the agents are unchanged, the blocked pulls are answered, the
    address book follows the new configuration, and the invariant of the
    message loop holds again. *)
Theorem Reconfigure_failover s c i (n : nat)
    (Hinv : inv s) (Hok : config_ok c) (Hi : 0 ≤ i)
    (Hid : server_id c !! Z.to_nat i = Some (local_id_ s))
    (Hnum : worker_num c = agent_num_ s) (Hagents : list_to_set (worker_id c) = agent_ids_ s)
    (Hbackup : backup_size_ s < server_num c)
    (Hn : Z.of_nat n ≤ backup_size_ s) (Hn' : (n ≤ length (backup_parameters_ s))%nat)
    (Hfit : zlen (taken_over (backup_parameters_ s) n (parameters_ s)) = arc_len c i)
    (Hshort : ∀ j, (j < n)%nat → zlen (taken_over (backup_parameters_ s) j (parameters_ s)) ≠ arc_len c i)
    (Hend : point c i + arc_len c i = start_key_ s + parameter_length_ s) :
  ∃ s', Reconfigure c s = Ok s' ∧ inv s' ∧ abs s' = abs s ∧ start_key_ s' = point c i ∧
    parameters_ s' = taken_over (backup_parameters_ s) n (parameters_ s) ∧
    (∀ k, in_segment (start_key_ s) (parameter_length_ s) k → param_of s' k = param_of s k) ∧
    pull_request_ s' = [] ∧
    outbox (sender_ s') = outbox (sender_ s) ++ (pull_reply s <$> pull_request_ s) ∧
    refreshed c (zlen (node_ip_port c)) (book (sender_ s')) ∧ records c (server_num c) (servers_ s').
Proof.
  destruct (Reconfigure_moves s c i Hinv Hok Hi Hid) as (ch & sv & Hout & Href & Hrec & ->).
  pose proof (cf_server_ids c Hok). pose proof (lookup_lt_Some _ _ _ Hid).
  pose proof (arc_len_range c Hok i) as Harc. pose proof (cf_range c Hok).
  pose proof (si_params s (co_segment s (proj1 Hinv))) as Hlen.
  rewrite (refresh_agents_keep c (moved c i s ch sv) n); try done; cbn.
  - eexists. split; [done|]. pose proof (taken_over_length (backup_parameters_ s) n (parameters_ s)).
    split_and!; [|done|done|done| |done|done|done|done].
    + apply (taken_over_inv s c i ch sv); (done || lia).
    + intros k Hk. unfold in_segment in Hk. unfold param_of. cbn. f_equal. unfold taken_over in *.
      rewrite length_app in *. rewrite lookup_app_r by lia. f_equal. lia.
  - apply agents_known; [done|set_solver].
  - apply (cf_worker_ids c Hok).
  - unfold kInt32Max. lia.
Qed.

(** C35: agents cannot be removed. A configuration with fewer agents than the
    server knows makes [Reconfigure] read past the end of the list of agents:
    the index loop runs over the old number of agents. *)
Theorem Reconfigure_fewer_agents s c i
    (Hinv : inv s) (Hok : config_ok c) (Hi : 0 ≤ i)
    (Hid : server_id c !! Z.to_nat i = Some (local_id_ s))
    (Hagents : list_to_set (worker_id c) ⊆ agent_ids_ s) (Hfewer : worker_num c < agent_num_ s) :
  Reconfigure c s = Fault ProtoIndex.
Proof.
  destruct (Reconfigure_moves s c i Hinv Hok Hi Hid) as (ch & sv & _ & _ & _ & ->).
  pose proof (agents_known s (worker_id c) Hinv Hagents) as Hknown.
  pose proof Hinv as [Hcore _]. unfold refresh_agents.
  pose proof (remove_loop_Ok (worker_id c) (elements (agent_ids_ s)) (moved c i s ch sv)) as Hl.
  apply returns_elim in Hl as (s1 & Hs1 & Hn1 & Hix1).
  - change (elements (agent_ids_ (moved c i s ch sv))) with (elements (agent_ids_ s)).
    rewrite Hs1. cbn [mbind res_bind]. cbv zeta.
    rewrite missing_loop_fault; [done| |].
    + cbn. rewrite Hn1. cbn. rewrite (cf_worker_ids c Hok). lia.
    + intros w Hw. cbn. rewrite Hix1 by done. by apply Hknown.
  - split; [apply (co_counts s Hcore)|apply (xi_range s (co_index s Hcore))].
  - apply NoDup_elements.
  - intros id Hin%elem_of_elements. by apply (xi_known s (co_index s Hcore)).
Qed.
End reconf_props.

(** ** Witnesses *)

Example Reconfigure_failover_witness :
  ∃ s', Reconfigure failover_config t2 = Ok s' ∧ inv s' ∧ abs s' = abs t2 ∧ start_key_ s' = 2 ∧
    parameters_ s' = taken_over (backup_parameters_ t2) 1 (parameters_ t2) ∧
    (∀ k, in_segment (start_key_ t2) (parameter_length_ t2) k → param_of s' k = param_of t2 k) ∧
    pull_request_ s' = [] ∧
    outbox (sender_ s') = outbox (sender_ t2) ++ (pull_reply t2 <$> pull_request_ t2) ∧
    refreshed failover_config (zlen (node_ip_port failover_config)) (book (sender_ s')) ∧
    records failover_config (server_num failover_config) (servers_ s').
Proof.
  apply (Reconfigure_failover t2 failover_config 0 1 t2_inv failover_config_ok); try by vm_compute.
  intros [|j] Hj; [by vm_compute|lia].
Defined.

Example Reconfigure_fewer_agents_witness : Reconfigure one_agent_config t2 = Fault ProtoIndex.
Proof.
  apply (Reconfigure_fewer_agents t2 one_agent_config 1 t2_inv one_agent_config_ok); try by vm_compute.
  apply (bool_decide_unpack _). by vm_compute.
Defined.
