(* ===== verification/ServerProps.v ===== *)
(** * Properties of the server

    The theorems about Server.v between two reconfigurations, each with a
    witness on the clusters of Cluster.v. *)

From S2P Require Import Prelude CppStd Float32 Messages Communicator KeyValueList Ssp Server.
From S2P Require Import ServerMerge ServerInv ServerRound ServerPush ServerPull ServerInit Cluster.
From stdpp Require Import options.

Import Server.

Section props.
Set Default Proof Using "Type*".
Context {C : Type} `{CommunicatorLaws C}.
Implicit Types s t : Server C.

(** A push refines the consistency contract. From a state that satisfies
    the invariant, the push of a known agent is defined and keeps the
    invariant; the clocks of the agents change exactly as the specification
    says (the pusher's clock advances unless it is already [bound] ahead), and
    the version the server has applied is the clock of the slowest agent. *)
Theorem ServePush_refines_ssp s id r
    (Hinv : inv s) (Hid : id ∈ agent_ids_ s)
    (Hr : push_ok (start_key_ s) (parameter_length_ s) r) (Hver : bottom_version_ s < kInt32Max) :
  ∃ i s', id_to_index_ s !! id = Some (Z.of_nat i) ∧ ServePush id r s = Ok s' ∧ inv s' ∧
    abs s' = Ssp.push (consistency_bound_ s) i (abs s) ∧
    bottom_version_ s' = Ssp.floor (abs s') ∧ Ssp.within (consistency_bound_ s) (abs s').
Proof.
  destruct (ServePush_Ok s id r Hinv Hid Hr Hver) as (i & b & u & s' & Hi & Hb & _ & Hu & _ & Hs & Hout).
  destruct (push_outcome_inv s i b u s' Hinv Hb Hu Hout) as [Hinv' Habs].
  exists i, s'. split_and!; [done..|by rewrite floor_abs|].
  rewrite <- (ss_bound _ _ (push_outcome_setup _ _ _ _ _ Hout)). by apply abs_within.
Qed.

(** What the push that completes a round does. When the pusher is the only
    agent with nothing pending, every parameter gets the average (over the
    number of agents) of the values pushed for its key in the oldest pending
    updates, in agent order; the version advances by one, every agent loses
    its oldest update, and the messages handed over are first the replies to
    the blocked pulls, in the order they arrived and with the new parameters,
    then the backup requests to the preceding servers. *)
Theorem ServePush_completes_round s id i r
    (Hinv : inv s) (Hid : id ∈ agent_ids_ s) (Hi : id_to_index_ s !! id = Some (Z.of_nat i))
    (Hr : push_ok (start_key_ s) (parameter_length_ s) r) (Hver : bottom_version_ s < kInt32Max)
    (Hown : version_buffer_ s !! i = Some [])
    (Hothers : ∀ j b, j ≠ i → version_buffer_ s !! j = Some b → b ≠ []) :
  ∃ u s', worker_update r = Ok u ∧ KeyValueList.pairs u = zip (keys r) (values r) ∧
    ServePush id r s = Ok s' ∧ bottom_version_ s' = bottom_version_ s + 1 ∧
    let oldest := heads (<[ i := [u] ]> (version_buffer_ s)) in
    (∀ j p, parameters_ s !! j = Some p → parameters_ s' !! j = Some (fadd p (fdiv
       (fsum f0 (vals (start_key_ s + Z.of_nat j) (all_pairs oldest))) (f_of_int (agent_num_ s))))) ∧
    length (parameters_ s') = length (parameters_ s) ∧
    version_buffer_ s' = tail <$> <[ i := [u] ]> (version_buffer_ s) ∧ pull_request_ s' = [] ∧
    outbox (sender_ s') = outbox (sender_ s) ++
      (pull_reply s' <$> pull_request_ s) ++ (backup_request s <$> backup_targets s).
Proof.
  destruct (ServePush_Ok s id r Hinv Hid Hr Hver)
    as (i' & b & u & s' & Hi' & Hb & Hu & _ & Hp & Hs & Hout).
  simplify_eq. exists u, s'.
  pose proof Hinv as [Hcore _]. pose proof (co_counts s Hcore) as [Hbound Ha Hvb _ _].
  destruct Hout as [Hfull|Hfull Hempty|params c Hfull Hall [Hlen Hav] [Hsent _]].
  - cbn in Hfull. lia.
  - exfalso. apply list_elem_of_lookup in Hempty as [j Hj]. cbn in Hj.
    destruct (decide (i = j)) as [->|Hne].
    + by rewrite list_lookup_insert_eq in Hj by (by eapply lookup_lt_Some).
    + rewrite list_lookup_insert_ne in Hj by done. by apply (Hothers j []).
  - split_and!; [done..|]. intros oldest. split_and!; try done. intros j p Hj. cbn. rewrite (Hav j p Hj). cbn.
    rewrite take_ge by (rewrite length_insert; lia). done.
Qed.

(** C9: a pull is answered exactly when the contract allows it. On keys of the
    server's arc of the key circle (those that wrapped past the end of the key
    range included) the request of an agent that is less than [bound] ahead is
    answered at once with the current value of every key, in the order asked;
    the request of an agent that is [bound] ahead is queued behind the others. *)
Theorem ServePull_spec s id i r
    (Hinv : inv s) (Hi : id_to_index_ s !! id = Some (Z.of_nat i))
    (Hstart : 0 ≤ start_key_ s < key_range_ s) (Hr : key_range_ s ≤ kInt32Max)
    (Hlen : zlen (keys r) ≤ kInt32Max) (Hkeys : Forall (on_arc s) (keys r)) :
  ServePull id r s = Ok (
    if Ssp.allowed (consistency_bound_ s) (abs s) i
    then s <| sender_ ::= λ c, (Send id (pull_answer s id (keys r)) c).2 |>
    else s <| pull_request_ ::= λ l, l ++ [PullInfo.mk (zlen (keys r)) id (keys r)] |>).
Proof.
  pose proof Hinv as [Hcore _]. pose proof (co_counts s Hcore) as [Hb Ha Hvb _ _].
  pose proof (xi_range s (co_index s Hcore) id _ Hi).
  destruct (lookup_lt_is_Some_2 (version_buffer_ s) i) as [b Hbi]; [lia|].
  unfold Ssp.allowed. rewrite floor_abs by done. unfold abs. rewrite list_lookup_fmap, Hbi.
  cbn [fmap option_fmap option_map].
  destruct (Z.ltb_spec (bottom_version_ s + zlen b - bottom_version_ s) (consistency_bound_ s)).
  - apply (ServePull_answered s id i b); try done; [lia|]. apply (si_params s (co_segment s Hcore)).
  - apply (ServePull_blocked s id i b); (done || lia).
Qed.

(** C8: the main loop implements the consistency contract. Along any sequence
    of the messages the server is meant to receive, in any order and from any
    senders, no handler faults, the invariant holds at the end, and the clocks
    of the agents are those the specification computes from the pushes among
    the messages, never more than [bound] ahead of the version applied, which
    is the clock of the slowest agent; as long as the version counter has room
    for as many rounds as there are messages. *)
Theorem Start_refines_ssp s ms
    (Hinv : inv s) (Hcircle : on_circle s) (Hms : Forall (expected s) ms)
    (Hver : bottom_version_ s + zlen ms ≤ kInt32Max) :
  ∃ s', Start ms s = Ok s' ∧ inv s' ∧ same_setup s s' ∧
    abs s' = foldl (spec_step s) (abs s) ms ∧
    bottom_version_ s ≤ bottom_version_ s' ∧ bottom_version_ s' = Ssp.floor (abs s') ∧
    Ssp.within (consistency_bound_ s) (abs s').
Proof.
  destruct (Start_Ok s ms Hinv Hcircle Hms Hver) as (s' & Hs & Hinv' & Hset & Habs & Hv).
  exists s'. split_and!; [done..|by rewrite floor_abs|]. rewrite <- (ss_bound _ _ Hset). by apply abs_within.
Qed.

(** C33: initialisation establishes the invariant. A server that receives the
    configuration of a cluster it belongs to accepts it: it owns the arc from
    its own point to the next server's, all its parameters are zero and as
    many as the arc has keys, it keeps one zero vector of the right length for
    each preceding server it backs up, knows the index of every agent and
    server, starts every agent at version 0, and satisfies the invariant of
    the message loop. Nothing is sent. *)
Theorem configure_establishes_inv (c : ConfigMessage) (m : Message) (i : Z) (ch : C) (addr : string)
    (Hok : config_ok c) (Hm : config_msg m = c) (Hi : 0 ≤ i)
    (Hid : server_id c !! Z.to_nat i = Some (recv_id m)) :
  ∃ s, configure m ((new_server ch) <| local_address_ := addr |>) = Ok (s, true) ∧
    configured c i s ∧ inv s ∧ outbox (sender_ s) = outbox ch.
Proof. by apply configure_Ok. Qed.

(** C31: a backup holds what the owner had. When a server answers a backup
    request, the message it hands over makes the requester store exactly the
    owner's parameters, in the slot of the owner's place on the ring, and
    change no other backup. *)
Theorem Backup_of_RespondBackup s t id i
    (Hs : inv s) (Ht : inv t) (Hi : servers_ t !! local_id_ s = Some i)
    (Hir : 0 ≤ i < server_num_ t) (Hslot : backup_slot t i < zlen (backup_parameters_ t)) :
  ∃ s' m t', RespondBackup id s = Ok s' ∧ outbox (sender_ s') = outbox (sender_ s) ++ [(id, m)] ∧
    Backup m t = Ok t' ∧
    backup_parameters_ t' !! Z.to_nat (backup_slot t i) = Some (parameters_ s) ∧
    (∀ j, j ≠ Z.to_nat (backup_slot t i) → backup_parameters_ t' !! j = backup_parameters_ t !! j).
Proof.
  destruct Hs as [Hs _], Ht as [Ht _]. pose proof (ri_num t (co_ring t Ht)).
  assert (0 ≤ backup_slot t i) by (apply Z.mod_pos_bound; lia).
  eexists _, _, _. split_and!; [apply RespondBackup_Ok, Hs|apply Send_outbox|apply (Backup_Ok t _ i); [apply Ht|done..]| |].
  - cbn. rewrite list_lookup_insert_eq by lia. done.
  - intros j Hj. cbn. by rewrite list_lookup_insert_ne.
Qed.
End props.

(** ** Witnesses *)

(** Server 1 after agent 3 pushed once. *)
Definition s1_waiting : Server Trace :=
  match ServePush 3 (test_push [2; 3]) s1 with Ok s => s | Fault _ => s1 end.

Lemma s1_waiting_inv : inv s1_waiting.
Proof.
  destruct (ServePush_Ok s1 3 (test_push [2; 3]) s1_inv) as (i & b & u & s' & _ & Hb & _ & Hu & _ & Hs & Hout).
  - apply (bool_decide_unpack _). by vm_compute.
  - apply test_push_ok; [by vm_compute|]. repeat constructor; by vm_compute.
  - by vm_compute.
  - unfold s1_waiting. rewrite Hs. by destruct (push_outcome_inv _ _ _ _ _ s1_inv Hb Hu Hout).
Qed.

(** The push of agent 4 stays one version short of a round. *)
Example ServePush_refines_ssp_witness :
  ∃ i s', id_to_index_ s1 !! 4 = Some (Z.of_nat i) ∧ ServePush 4 (test_push [2; 5]) s1 = Ok s' ∧ inv s' ∧
    abs s' = Ssp.push (consistency_bound_ s1) i (abs s1) ∧
    bottom_version_ s' = Ssp.floor (abs s') ∧ Ssp.within (consistency_bound_ s1) (abs s').
Proof.
  apply (ServePush_refines_ssp s1 4 (test_push [2; 5]) s1_inv).
  - apply (bool_decide_unpack _). by vm_compute.
  - apply test_push_ok; [by vm_compute|]. repeat constructor; by vm_compute.
  - by vm_compute.
Defined.

(** After agent 3, the push of agent 4 completes the round. *)
Example ServePush_completes_round_witness :
  ∃ u s', worker_update (test_push [3; 4]) = Ok u ∧ KeyValueList.pairs u = zip [3; 4] [f_of_int 1; f_of_int 1] ∧
    ServePush 4 (test_push [3; 4]) s1_waiting = Ok s' ∧ bottom_version_ s' = bottom_version_ s1_waiting + 1 ∧
    let oldest := heads (<[ 1%nat := [u] ]> (version_buffer_ s1_waiting)) in
    (∀ j p, parameters_ s1_waiting !! j = Some p → parameters_ s' !! j = Some (fadd p (fdiv
       (fsum f0 (vals (start_key_ s1_waiting + Z.of_nat j) (all_pairs oldest))) (f_of_int (agent_num_ s1_waiting))))) ∧
    length (parameters_ s') = length (parameters_ s1_waiting) ∧
    version_buffer_ s' = tail <$> <[ 1%nat := [u] ]> (version_buffer_ s1_waiting) ∧ pull_request_ s' = [] ∧
    outbox (sender_ s') = outbox (sender_ s1_waiting) ++
      (pull_reply s' <$> pull_request_ s1_waiting) ++ (backup_request s1_waiting <$> backup_targets s1_waiting).
Proof.
  apply (ServePush_completes_round s1_waiting 4 1 (test_push [3; 4]) s1_waiting_inv).
  - apply (bool_decide_unpack _). by vm_compute.
  - by vm_compute.
  - apply test_push_ok; [by vm_compute|]. repeat constructor; by vm_compute.
  - by vm_compute.
  - by vm_compute.
  - intros [|[|j]] b Hj Hb; [|done|done]. vm_compute in Hb. by injection Hb as <-.
Defined.

(** Server 2 owns 6 to 9 and, past the wrap, 0 and 1. *)
Example ServePull_spec_witness :
  ServePull 3 (mkRequest rt_key [7; 1] []) s2 = Ok (
    if Ssp.allowed (consistency_bound_ s2) (abs s2) 0
    then s2 <| sender_ ::= λ c, (Send 3 (pull_answer s2 3 [7; 1]) c).2 |>
    else s2 <| pull_request_ ::= λ l, l ++ [PullInfo.mk 2 3 [7; 1]] |>).
Proof.
  apply (ServePull_spec s2 3 0 (mkRequest rt_key [7; 1] []) s2_inv); try by vm_compute.
  repeat constructor; by vm_compute.
Defined.

(** A run: two pushes and a pull of one agent, then a push of the other. *)
Definition request_from (id : Z) (r : RequestMessage) : Message :=
  mkMessage id 1 mt_request None (Some r) None None.
Definition run : list Message :=
  [request_from 3 (test_push [2; 3]); request_from 3 (test_push [4]);
   request_from 3 (mkRequest rt_key [2; 4] []); request_from 4 (test_push [3; 5]);
   mkMessage 2 1 mt_request None None None None].

Example Start_refines_ssp_witness :
  ∃ s', Start run s1 = Ok s' ∧ inv s' ∧ same_setup s1 s' ∧
    abs s' = foldl (spec_step s1) (abs s1) run ∧
    bottom_version_ s1 ≤ bottom_version_ s' ∧ bottom_version_ s' = Ssp.floor (abs s') ∧
    Ssp.within (consistency_bound_ s1) (abs s').
Proof.
  apply (Start_refines_ssp s1 run s1_inv).
  - by vm_compute.
  - repeat apply Forall_cons_2; [apply ex_push|apply ex_push|apply ex_pull|apply ex_push|apply (ex_backup_request _ _ 1)|constructor];
      try by vm_compute.
    all: first [apply test_push_ok; [by vm_compute|]|idtac]; repeat constructor; by vm_compute.
  - by vm_compute.
Defined.

Example configure_establishes_inv_witness :
  ∃ s, configure (config_message 2 test_config) ((new_server new_trace) <| local_address_ := EmptyString |>) = Ok (s, true) ∧
    configured test_config 1 s ∧ inv s ∧ outbox (sender_ s) = outbox new_trace.
Proof.
  apply (configure_establishes_inv test_config (config_message 2 test_config) 1 new_trace EmptyString test_config_ok);
    by vm_compute.
Defined.

Example Backup_of_RespondBackup_witness :
  ∃ s' m t', RespondBackup 2 s1 = Ok s' ∧ outbox (sender_ s') = outbox (sender_ s1) ++ [(2, m)] ∧
    Backup m s2 = Ok t' ∧
    backup_parameters_ t' !! Z.to_nat (backup_slot s2 0) = Some (parameters_ s1) ∧
    (∀ j, j ≠ Z.to_nat (backup_slot s2 0) → backup_parameters_ t' !! j = backup_parameters_ s2 !! j).
Proof. apply (Backup_of_RespondBackup s1 s2 2 0 s1_inv s2_inv); by vm_compute. Defined.
