(* ===== verification/ServerHistory.v ===== *)
(** * The pushes a server has taken

    Agents push at their own pace, up to [bound] versions ahead of the slowest.
    This file says what a server computes from pushes in any interleaving: the
    specification keeps, for every agent, the list of its pushes that were taken,
    and applies round [r] from the [r]-th push of every agent. *)

From S2P Require Import Prelude CppStd Float32 Messages Communicator KeyValueList Ssp Server.
From S2P Require Import ServerMerge ServerInv ServerRound ServerPush ServerPull ServerTraining ServerProps Cluster.
From stdpp Require Import options.

Import Server.

(** ** The specification *)

(** The pushes taken from every agent, oldest first. *)
Abbreviation history := (list (list RequestMessage)).

Definition clocks (H : history) : list Z := (λ h, zlen h) <$> H.

Definition take_push (bound : Z) (i : nat) (r : RequestMessage) (H : history) : history :=
  if Ssp.allowed bound (clocks H) i then alter (λ h, h ++ [r]) i H else H.

(** The pushes of round [r], in the order of the agents. *)
Definition round_pushes (H : history) (r : nat) : list RequestMessage := omap (λ h : list RequestMessage, h !! r) H.

(** What round [r] makes of a parameter, and what the first [n] rounds do. *)
Definition apply_round (H : history) (k : Z) (p : float32) (r : nat) : float32 :=
  fadd p (fdiv (fsum f0 (vals k (round_pushes H r ≫= request_pairs))) (f_of_int (zlen H))).
Definition apply_rounds (H : history) (n : nat) (k : Z) (p : float32) : float32 :=
  foldl (apply_round H k) p (seq 0 n).

(** The clocks of Ssp.v are the numbers of pushes taken. *)
Lemma clocks_push bound i r H : clocks (take_push bound i r H) = Ssp.push bound i (clocks H).
Proof.
  unfold take_push, Ssp.push. destruct (Ssp.allowed bound (clocks H) i); [|done].
  unfold clocks. apply list_eq. intros j. rewrite list_lookup_fmap. destruct (decide (i = j)) as [<-|Hne].
  - rewrite !list_lookup_alter_eq, list_lookup_fmap. destruct (H !! i); [|done]. cbn. rewrite length_app. cbn. f_equal. lia.
  - by rewrite !list_lookup_alter_ne, list_lookup_fmap by done.
Qed.

(** A push that is taken does not change the rounds before it. *)
Lemma round_pushes_old (H : history) i r n h :
  H !! i = Some h → (n < length h)%nat → round_pushes (alter (λ h, h ++ [r]) i H) n = round_pushes H n.
Proof.
  unfold round_pushes. revert i. induction H as [|h' H IH]; intros i Hi Hn; [done|].
  destruct i as [|i]; simplify_eq/=; [by rewrite lookup_app_l by done|]. by rewrite (IH i).
Qed.

Lemma apply_rounds_ext H H' n k p :
  length H' = length H → (∀ r, (r < n)%nat → round_pushes H' r = round_pushes H r) →
  apply_rounds H' n k p = apply_rounds H n k p.
Proof.
  intros Hl Hr. unfold apply_rounds. revert p. induction n as [|n IH]; intros p; [done|].
  rewrite seq_S, !foldl_app, IH by (intros r Hn; apply Hr; lia). cbn. unfold apply_round. by rewrite Hl, Hr by lia.
Qed.

Lemma apply_rounds_S H n k p : apply_rounds H (S n) k p = apply_round H k (apply_rounds H n k p) n.
Proof. unfold apply_rounds. by rewrite seq_S, foldl_app. Qed.

(** ** The server *)

Section history.
Set Default Proof Using "Type*".
Context {C : Type} `{Hcomm : Communicator C} `{Hlaws : !CommunicatorLaws C}.
Implicit Types s : Server C.

(** What a message adds to the history. *)
Definition history_step s (H : history) (m : Message) : history :=
  match push_of s m with Some i => take_push (consistency_bound_ s) i (request_msg m) H | None => H end.

(** The server [s] has taken the pushes [H] since [s0] and applied [n] rounds. *)
Record recorded s0 (H : history) (n : nat) s : Prop := mkrecorded {
  rc_inv : inv s;
  rc_setup : same_setup s0 s;
  rc_version : bottom_version_ s = bottom_version_ s0 + Z.of_nat n;
  rc_agents : zlen H = agent_num_ s0;
  rc_enough : Forall (λ h, n ≤ length h)%nat H;
  rc_pending : version_buffer_ s = (λ h, update_of <$> drop n h) <$> H;
  rc_pairs : Forall (Forall (λ r, KeyValueList.pairs (update_of r) = request_pairs r)) H;
  rc_length : length (parameters_ s) = length (parameters_ s0);
  rc_params : ∀ j p, parameters_ s0 !! j = Some p →
    parameters_ s !! j = Some (apply_rounds H n (start_key_ s0 + Z.of_nat j) p);
}.

(** The number of rounds is the clock of the slowest agent. *)
Lemma recorded_floor s0 H n s : recorded s0 H n s → Ssp.floor (clocks H) = Z.of_nat n.
Proof.
  intros [[_ Hempty] _ _ _ Hn Hvb _ _ _]. apply Ssp.floor_unique.
  - intros x (h & -> & Hh)%list_elem_of_fmap. rewrite Forall_forall in Hn. specialize (Hn h Hh). lia.
  - rewrite Hvb in Hempty. apply list_elem_of_fmap in Hempty as (h & Heq & Hh). apply list_elem_of_fmap. exists h.
    split; [|done]. rewrite Forall_forall in Hn. specialize (Hn h Hh). apply (f_equal length) in Heq.
    rewrite length_fmap, length_drop in Heq. cbn in Heq. lia.
Qed.

Lemma recorded_allowed s0 H n s i h :
  recorded s0 H n s → H !! i = Some h →
  Ssp.allowed (consistency_bound_ s0) (clocks H) i = (zlen (update_of <$> drop n h) <? consistency_bound_ s).
Proof.
  intros Hr Hi. unfold Ssp.allowed. rewrite (recorded_floor s0 H n s Hr). unfold clocks. rewrite list_lookup_fmap, Hi. cbn.
  rewrite (ss_bound _ _ (rc_setup _ _ _ _ Hr)), length_fmap, length_drop.
  pose proof (rc_enough _ _ _ _ Hr) as Hn. rewrite Forall_lookup in Hn. specialize (Hn i h Hi). f_equal. lia.
Qed.

(** The buffers after a push is stored. *)
Lemma pending_take (H : history) n i h r :
  H !! i = Some h → (n ≤ length h)%nat →
  <[i := (update_of <$> drop n h) ++ [update_of r]]> ((λ h, update_of <$> drop n h) <$> H) =
    (λ h, update_of <$> drop n h) <$> alter (λ h, h ++ [r]) i H.
Proof.
  intros Hi Hn. apply list_eq. intros j. rewrite list_lookup_fmap. destruct (decide (i = j)) as [<-|Hne].
  - rewrite list_lookup_insert_eq by (rewrite length_fmap; by eapply lookup_lt_Some).
    rewrite list_lookup_alter_eq, Hi. cbn. rewrite drop_app_le by done. by rewrite fmap_app.
  - by rewrite list_lookup_insert_ne, list_lookup_fmap, list_lookup_alter_ne by done.
Qed.

Lemma heads_pending (H : history) n :
  heads ((λ h, update_of <$> drop n h) <$> H) = update_of <$> round_pushes H n.
Proof.
  unfold heads, round_pushes. induction H as [|h H IH]; [done|]. cbn. rewrite IH.
  rewrite (head_lookup (update_of <$> drop n h)), list_lookup_fmap, lookup_drop, Nat.add_0_r. by destruct (h !! n).
Qed.

Lemma pending_tail (H : history) n :
  tail <$> ((λ h, update_of <$> drop n h) <$> H) = (λ h, update_of <$> drop (S n) h) <$> H.
Proof.
  rewrite <- list_fmap_compose. apply list_fmap_ext. intros i h _. cbn.
  replace (S n) with (n + 1)%nat by lia. rewrite <- drop_drop. by destruct (drop n h).
Qed.
(** What a push that is taken keeps. *)
Lemma recorded_take s0 H n s i h r :
  recorded s0 H n s → H !! i = Some h → KeyValueList.pairs (update_of r) = request_pairs r →
  let H' := alter (λ h, h ++ [r]) i H in
  zlen H' = agent_num_ s0 ∧ Forall (λ h, n ≤ length h)%nat H' ∧
  Forall (Forall (λ r, KeyValueList.pairs (update_of r) = request_pairs r)) H' ∧
  ∀ k p, apply_rounds H' n k p = apply_rounds H n k p.
Proof.
  intros [_ _ _ Ha Hn _ Hp _ _] Hi Hr H'. rewrite Forall_lookup in Hn. pose proof (Hn i h Hi) as Hh. split_and!.
  - unfold H'. by rewrite length_alter.
  - apply Forall_lookup. intros j h' Hj. unfold H' in Hj. destruct (decide (i = j)) as [<-|Hne].
    + rewrite list_lookup_alter_eq, Hi in Hj. injection Hj as <-. rewrite length_app. lia.
    + rewrite list_lookup_alter_ne in Hj by done. by apply (Hn j).
  - apply Forall_lookup. intros j h' Hj. unfold H' in Hj. rewrite Forall_lookup in Hp. destruct (decide (i = j)) as [<-|Hne].
    + rewrite list_lookup_alter_eq, Hi in Hj. injection Hj as <-. apply Forall_app. split; [by apply (Hp i)|by constructor].
    + rewrite list_lookup_alter_ne in Hj by done. by apply (Hp j).
  - intros k p. apply apply_rounds_ext; [apply length_alter|]. intros q Hq. apply (round_pushes_old H i r q h Hi). lia.
Qed.

Lemma recorded_stored s0 H n s i h r :
  recorded s0 H n s → H !! i = Some h → KeyValueList.pairs (update_of r) = request_pairs r →
  let b := update_of <$> drop n h in
  inv (accept s i b (update_of r)) → recorded s0 (alter (λ h, h ++ [r]) i H) n (accept s i b (update_of r)).
Proof.
  intros Hrec Hi Hr b Hinv. destruct (recorded_take s0 H n s i h r Hrec Hi Hr) as (Ha & Hn' & Hp' & Hap).
  destruct Hrec as [_ Hset Hv _ Hn Hvb _ Hl Hpar]. rewrite Forall_lookup in Hn.
  constructor; [done|eapply same_setup_trans; [exact Hset|by constructor]|done..| |done|done|].
  - cbn. rewrite Hvb. by apply pending_take; [|apply (Hn i)].
  - intros j p Hj. rewrite Hap. by apply Hpar.
Qed.

Lemma recorded_round s0 H n s i h r params c :
  recorded s0 H n s → H !! i = Some h → KeyValueList.pairs (update_of r) = request_pairs r →
  let s1 := accept s i (update_of <$> drop n h) (update_of r) in
  Forall (λ b, b ≠ []) (version_buffer_ s1) → averaged s1 params → inv (next_round s1 params c) →
  recorded s0 (alter (λ h, h ++ [r]) i H) (S n) (next_round s1 params c).
Proof.
  intros Hrec Hi Hr s1 Hall [Hlen Hav] Hinv. destruct (recorded_take s0 H n s i h r Hrec Hi Hr) as (Ha & Hn' & Hp' & Hap).
  destruct Hrec as [_ Hset Hv _ Hn Hvb _ Hl Hpar]. rewrite Forall_lookup in Hn. set (H' := alter (λ h, h ++ [r]) i H) in *.
  assert (version_buffer_ s1 = (λ h, update_of <$> drop n h) <$> H') as Hvb1.
  { unfold s1. cbn. rewrite Hvb. by apply pending_take; [|apply (Hn i)]. }
  constructor; [done|eapply same_setup_trans; [exact Hset|by constructor]|cbn; lia|done| | |done|cbn in *; congruence|].
  - rewrite Hvb1, Forall_fmap in Hall. eapply Forall_impl; [exact Hall|]. intros h' Hh'. cbn in Hh'.
    destruct (drop n h') eqn:Hd; [done|]. apply (f_equal length) in Hd. rewrite length_drop in Hd. cbn in Hd. lia.
  - change (version_buffer_ (next_round s1 params c)) with (tail <$> version_buffer_ s1). rewrite Hvb1. apply pending_tail.
  - intros j p Hj. rewrite apply_rounds_S, Hap. specialize (Hpar j p Hj).
    change (parameters_ (next_round s1 params c)) with params. rewrite (Hav j _ Hpar).
    change (start_key_ s1) with (start_key_ s). change (agent_num_ s1) with (agent_num_ s).
    rewrite (ss_start _ _ Hset), (ss_count _ _ Hset), <- Ha, Hvb1. unfold apply_round.
    rewrite take_ge by (rewrite length_fmap; lia). rewrite heads_pending, all_pairs_requests; [done|].
    apply Forall_forall. intros x Hx. apply list_elem_of_omap in Hx as (h' & Hh' & Hx).
    rewrite Forall_forall in Hp'. specialize (Hp' h' Hh'). rewrite Forall_lookup in Hp'. by apply (Hp' n).
Qed.

Lemma push_of_setup s s' m : same_setup s s' → push_of s' m = push_of s m.
Proof. intros [_ _ _ E3 E4 E5 _ _ _ _ _ _]. unfold push_of. by rewrite E3, E4, E5. Qed.

(** One message. *)
Lemma recorded_step s0 H n s m s' :
  recorded s0 H n s → handled s m s' → ∃ n', recorded s0 (history_step s0 H m) n' s'.
Proof.
  intros Hrec Hh. pose proof (rc_inv _ _ _ _ Hrec) as Hinv. pose proof (rc_setup _ _ _ _ Hrec) as Hset.
  unfold history_step. rewrite <- (push_of_setup s0 s m Hset).
  destruct Hh as [i b u Hp Hb Hok Hw Hu Hout|Hp Hpar Hvb Hv Hinv' Hset']; rewrite Hp.
  - destruct (push_outcome_inv s i b u s' Hinv Hb Hu Hout) as [Hinv' _].
    rewrite (rc_pending _ _ _ _ Hrec), list_lookup_fmap in Hb. destruct (H !! i) as [h|] eqn:Hi; [|done].
    injection Hb as <-. set (r := request_msg m) in *.
    assert (u = update_of r) as -> by (unfold update_of; by rewrite Hw).
    assert (KeyValueList.pairs (update_of r) = request_pairs r) as Hr.
    { destruct (worker_update_Ok _ _ r Hok) as (v & Hv & _ & Hpv). rewrite Hw in Hv. by injection Hv as <-. }
    unfold take_push. rewrite (recorded_allowed s0 H n s i h Hrec Hi).
    destruct Hout as [Hfull|Hlt Hempty|params c Hlt Hall Hav _].
    + exists n. by destruct (Z.ltb_spec (zlen (update_of <$> drop n h)) (consistency_bound_ s)); [lia|].
    + exists n. rewrite (proj2 (Z.ltb_lt _ _) Hlt). by apply (recorded_stored s0 H n s i h r).
    + exists (S n). rewrite (proj2 (Z.ltb_lt _ _) Hlt). by apply (recorded_round s0 H n s i h r).
  - exists n. destruct Hrec as [_ _ Hv0 Ha Hn Hvb0 Hp0 Hl Hpar0].
    constructor; rewrite ?Hpar, ?Hvb, ?Hv; try done. by eapply same_setup_trans.
Qed.

Lemma recorded_run s0 ms H n s :
  on_circle s0 → Forall (expected s0) ms → recorded s0 H n s → bottom_version_ s + zlen ms ≤ kInt32Max →
  ∃ n' s', Start ms s = Ok s' ∧ recorded s0 (foldl (history_step s0) H ms) n' s'.
Proof.
  intros Hcircle Hms. unfold Start. revert H n s.
  induction Hms as [|m ms Hm _ IH]; intros H n s Hrec Hver; [by exists n, s|]. cbn [length] in Hver.
  pose proof (rc_inv _ _ _ _ Hrec) as Hinv. pose proof (rc_setup _ _ _ _ Hrec) as Hset.
  destruct (handle_Ok s m Hinv) as (s1 & Hs1 & Hh); [|lia|by eapply expected_setup|].
  { unfold on_circle in *. by rewrite (ss_start _ _ Hset), (ss_range _ _ Hset). }
  destruct (recorded_step s0 H n s m s1 Hrec Hh) as (n1 & Hrec1).
  destruct (handled_inv s m s1 Hinv Hh) as (_ & _ & Hv1 & _).
  destruct (IH _ n1 s1 Hrec1 ltac:(lia)) as (n' & s' & Hrun & Hrec'). exists n', s'. cbn [foldM]. by rewrite Hs1.
Qed.

(** A server without pending pushes has an empty history. *)
Lemma recorded_start s :
  inv s → version_buffer_ s = replicate (Z.to_nat (agent_num_ s)) [] →
  recorded s (replicate (Z.to_nat (agent_num_ s)) []) 0 s.
Proof.
  intros Hinv Hvb. pose proof (ci_agents _ _ _ _ (co_counts s (proj1 Hinv))) as Ha. constructor; try done.
  - lia.
  - rewrite length_replicate. lia.
  - apply Forall_replicate. cbn. lia.
  - rewrite fmap_replicate. done.
  - by apply Forall_replicate.
Qed.

(** *** An answered pull *)

(** The agent at index [i] is less than [bound] ahead. *)
Definition may_push s (i : nat) : Prop := Ssp.allowed (consistency_bound_ s) (abs s) i = true.

Lemma may_push_buffer s i b : inv s → version_buffer_ s !! i = Some b → zlen b < consistency_bound_ s → may_push s i.
Proof.
  intros Hinv Hb Hlt. unfold may_push, Ssp.allowed. rewrite floor_abs by done. unfold abs. rewrite list_lookup_fmap, Hb. cbn.
  apply Z.ltb_lt. lia.
Qed.

(** [ServePull] answers its sender, if anybody. *)
Lemma ServePull_sends id r s s' :
  ServePull id r s = Ok s' →
  outbox (sender_ s') = outbox (sender_ s) ∨
  ∃ index b m, id_to_index_ s !! id = Some index ∧ vec_get (version_buffer_ s) index = Ok b ∧
    buffer_full b s = false ∧ outbox (sender_ s') = outbox (sender_ s) ++ [(id, m)].
Proof.
  unfold ServePull. destruct (id_to_index_ s !! id) as [index|] eqn:Hi; [|intros [= <-]; by left].
  destruct (vec_get (version_buffer_ s) index) as [b|] eqn:Hb; [|done]. cbn [mbind res_bind].
  destruct (buffer_full b s) eqn:Hf.
  - destruct (blocked_request id r) as [p|]; [|done]. intros [= <-]. by left.
  - destruct (for_ 0 _ _ _) as [[ks vs]|]; [|done]. cbn [mbind res_bind]. intros [= <-]. right.
    exists index, b. eexists. split_and!; [done..|]. apply Send_outbox.
Qed.

(** A message that is no push makes the server send to an agent only if that
    agent pulls and may push. *)
Lemma other_sends s m s' id i dm :
  inv s → expected s m → push_of s m = None → handle m s = Ok s' →
  servers_ s !! id = None → id_to_index_ s !! id = Some (Z.of_nat i) →
  outbox (sender_ s') = outbox (sender_ s) ∨
  (∀ out, outbox (sender_ s') = outbox (sender_ s) ++ out → dm ∈ out → dm.1 = id →
    ∃ b, version_buffer_ s !! i = Some b ∧ zlen b < consistency_bound_ s).
Proof.
  intros Hinv Hm Hp Hs' Hid Hi. pose proof (co_index s (proj1 Hinv)) as Hx. pose proof (co_counts s (proj1 Hinv)) as Hc.
  destruct Hm as [Hs Ht Hrt Hpush|Hs Ht Hrt Hlen Hkeys|Hs Ht1 Ht2|k Hs Hr|k Hs Hr Hk Hslot]; unfold handle in Hs'; rewrite Hs in Hs'.
  - left. rewrite bool_decide_eq_false_2, bool_decide_eq_true_2 in Hs' by (by apply is_Some_None || done).
    rewrite Hrt in Hs'. unfold ServePush in Hs'. case_bool_decide as Hka; [by injection Hs' as <-|].
    destruct (xi_known s Hx _ Hka) as [x Hxa]. pose proof (xi_range s Hx _ _ Hxa).
    by rewrite (push_of_push s m (Z.to_nat x)) in Hp by (rewrite ?Z2Nat.id by lia; done).
  - rewrite bool_decide_eq_false_2, bool_decide_eq_true_2 in Hs' by (by apply is_Some_None || done). rewrite Hrt in Hs'.
    apply ServePull_sends in Hs' as [|(x & b & m' & Hxa & Hb & Hf & Ho)]; [by left|]. right. intros out Hout Hin Hdm.
    rewrite Ho in Hout. apply app_inv_head in Hout as <-. apply list_elem_of_singleton in Hin as ->. cbn in Hdm. subst id.
    rewrite Hi in Hxa. injection Hxa as <-. apply vec_get_inv in Hb as [_ Hb]. rewrite Nat2Z.id in Hb.
    rewrite buffer_full_spec in Hf by apply Hc. apply bool_decide_eq_false in Hf. exists b. split; [done|lia].
  - left. rewrite !bool_decide_eq_false_2 in Hs' by (by apply is_Some_None || done). by injection Hs' as <-.
  - right. rewrite bool_decide_eq_true_2 in Hs' by eauto. unfold has_request_msg in Hs'.
    rewrite Hr, bool_decide_eq_false_2, RespondBackup_Ok in Hs' by (apply Hinv || apply is_Some_None). injection Hs' as <-.
    cbn. rewrite Send_outbox. intros out Hout Hin Hdm. apply app_inv_head in Hout as <-.
    apply list_elem_of_singleton in Hin as ->. cbn in Hdm. congruence.
  - left. rewrite bool_decide_eq_true_2 in Hs' by eauto. unfold has_request_msg in Hs'.
    rewrite bool_decide_eq_true_2, (Backup_Ok s m k) in Hs' by (apply Hinv || done). by injection Hs' as <-.
Qed.

(** After a round every agent may push. *)
Lemma round_lets_push s i params c :
  core s → Forall (λ b, b ≠ []) (version_buffer_ s) → inv (next_round s params c) →
  (i < length (version_buffer_ s))%nat → may_push (next_round s params c) i.
Proof.
  intros Hcore Hall Hinv Hi. destruct (lookup_lt_is_Some_2 _ _ Hi) as [b Hb].
  apply (may_push_buffer _ i (tail b)); [done|cbn; by rewrite list_lookup_fmap, Hb|].
  pose proof (ci_full _ _ _ _ (co_counts s Hcore)) as Hf. rewrite Forall_lookup in Hf, Hall.
  specialize (Hf i b Hb). specialize (Hall i b Hb). destruct b; [done|]. cbn in *. lia.
Qed.

(** When a message makes the server send something to an agent, that agent may
    push. *)
Lemma reply_lets_push s m s' id i out :
  inv s → on_circle s → bottom_version_ s < kInt32Max → expected s m → handle m s = Ok s' →
  servers_ s !! id = None → id_to_index_ s !! id = Some (Z.of_nat i) →
  outbox (sender_ s') = outbox (sender_ s) ++ out → id ∈ out.*1 → may_push s' i.
Proof.
  intros Hinv Hcircle Hver Hm Hs' Hid Hi Hout (dm & Hdm & Hin)%list_elem_of_fmap.
  assert (outbox (sender_ s') ≠ outbox (sender_ s)) as Hsent.
  { intros Heq. rewrite Heq in Hout. rewrite <- (app_nil_r (outbox (sender_ s))) in Hout at 1.
    apply app_inv_head in Hout as <-. by apply elem_of_nil in Hin. }
  destruct (handle_Ok s m Hinv Hcircle Hver Hm) as (s1 & Hs1 & Hh). rewrite Hs' in Hs1. injection Hs1 as <-.
  pose proof (handled_inv s m s' Hinv Hh) as (Hinv' & Hset & _).
  pose proof (xi_range s (co_index s (proj1 Hinv)) id _ Hi) as Hir.
  pose proof (ci_buffers _ _ _ _ (co_counts s (proj1 Hinv))) as Hvl.
  destruct Hh as [j b u Hp Hb _ _ Hu Ho|Hp _ Hvb _ _ _].
  - destruct Ho as [|Hlt _|params c Hlt Hall _ _]; [done|done|].
    apply round_lets_push; [by apply (accept_core s j b u (proj1 Hinv))|done|done|cbn; rewrite length_insert; lia].
  - destruct (other_sends s m s' id i dm Hinv Hm Hp Hs' Hid Hi) as [|Hb]; [done|].
    destruct (Hb out Hout Hin (eq_sym Hdm)) as (b & Hvi & Hlt).
    apply (may_push_buffer s' i b); [done|by rewrite Hvb|]. by rewrite (ss_bound _ _ Hset).
Qed.

(** And nothing but its own pushes changes that. *)
Lemma may_push_kept s ms i :
  inv s → on_circle s → Forall (expected s) ms → bottom_version_ s + zlen ms ≤ kInt32Max →
  Forall (λ m, push_of s m ≠ Some i) ms → may_push s i →
  ∃ s', Start ms s = Ok s' ∧ inv s' ∧ same_setup s s' ∧ bottom_version_ s' ≤ bottom_version_ s + zlen ms ∧ may_push s' i.
Proof.
  intros Hinv Hcircle Hms. revert s Hinv Hcircle Hms. unfold Start.
  induction ms as [|m ms IH]; intros s Hinv Hcircle Hms Hver Hno Hmay.
  { exists s. split_and!; [done|done|by constructor|cbn; lia|done]. }
  apply Forall_cons in Hms as [Hm Hms]. apply Forall_cons in Hno as [Hn Hno]. cbn [length] in Hver.
  destruct (handle_inv s m Hinv Hcircle ltac:(lia) Hm) as (s1 & Hs1 & Hinv1 & Hset & Hv1 & Ha1).
  destruct (IH s1) as (s' & Hrun & Hinv' & Hset' & Hv' & Hmay'); [done| | |lia| | |].
  - unfold on_circle in *. by rewrite (ss_start _ _ Hset), (ss_range _ _ Hset).
  - eapply Forall_impl; [exact Hms|]. intros. by eapply expected_setup.
  - eapply Forall_impl; [exact Hno|]. intros x Hx. by rewrite (push_of_setup s s1).
  - unfold may_push in *. rewrite Ha1, (ss_bound _ _ Hset). unfold spec_step.
    destruct (push_of s m) as [j|]; [|done]. apply Ssp.allowed_push; [congruence|done].
  - exists s'. cbn [foldM length]. rewrite Hs1. split_and!; [done|done|by eapply same_setup_trans|lia|done].
Qed.

(** C6: asynchronous training of a server. Agents push at their own pace, in any
    interleaving with each other's pushes, pulls and backup messages. A push is
    taken exactly when its agent is less than [bound] ahead of the slowest one.
    In the end the server has applied as many rounds as the slowest agent has
    pushes taken; round [r] added to every parameter the average of the [r]-th
    pushes of all agents, in the order of the agents; and what is pending are the
    later pushes of the faster agents, oldest first. The interleaving matters
    only in so far as it decides which pushes are taken. *)
Theorem Start_applies_history s ms
    (Hinv : inv s) (Hidle : version_buffer_ s = replicate (Z.to_nat (agent_num_ s)) [])
    (Hcircle : on_circle s) (Hms : Forall (expected s) ms) (Hver : bottom_version_ s + zlen ms ≤ kInt32Max) :
  let H := foldl (history_step s) (replicate (Z.to_nat (agent_num_ s)) []) ms in
  let n := Z.to_nat (Ssp.floor (clocks H)) in
  ∃ s', Start ms s = Ok s' ∧ inv s' ∧ zlen H = agent_num_ s ∧ bottom_version_ s' = bottom_version_ s + Z.of_nat n ∧
    ((λ b, KeyValueList.pairs <$> b) <$> version_buffer_ s' = (λ h, request_pairs <$> drop n h) <$> H) ∧
    length (parameters_ s') = length (parameters_ s) ∧
    ∀ j p, parameters_ s !! j = Some p →
      parameters_ s' !! j = Some (apply_rounds H n (start_key_ s + Z.of_nat j) p).
Proof.
  intros H n. destruct (recorded_run s ms _ 0 s Hcircle Hms (recorded_start s Hinv Hidle) Hver) as (n' & s' & Hrun & Hrec).
  fold H in Hrec. assert (n = n') as -> by (unfold n; rewrite (recorded_floor _ _ _ _ Hrec); lia).
  exists s'. destruct Hrec as [Hinv' Hset Hv Ha Hn Hvb Hp Hl Hpar]. split_and!; [done..| |done|done].
  rewrite Hvb, <- list_fmap_compose. apply list_fmap_ext. intros i h Hi. cbn. rewrite <- list_fmap_compose.
  apply list_fmap_ext. intros q r Hq. cbn. rewrite lookup_drop in Hq.
  rewrite Forall_lookup in Hp. specialize (Hp i h Hi). rewrite Forall_lookup in Hp. by apply (Hp _ _ Hq).
Qed.

(** C7: an agent that waits for its answer loses no push. When some message
    makes the server send something to an agent (the answer to its pull, at once
    or at the end of a round), then whatever messages come next, as long as this
    agent does not push, its next push is taken: its clock advances, and no other
    does. The server drops silently the pushes of agents that are [bound] ahead,
    so this is what keeps the gradients of a worker that pulls before it pushes. *)
Theorem reply_guards_push s mr ms m id i
    (Hinv : inv s) (Hcircle : on_circle s) (Hms : Forall (expected s) (mr :: ms ++ [m]))
    (Hver : bottom_version_ s + zlen (mr :: ms ++ [m]) ≤ kInt32Max)
    (Hid : servers_ s !! id = None) (Hi : id_to_index_ s !! id = Some (Z.of_nat i))
    (Hreply : ∃ s1 out, handle mr s = Ok s1 ∧ outbox (sender_ s1) = outbox (sender_ s) ++ out ∧ id ∈ out.*1)
    (Hno : Forall (λ m, push_of s m ≠ Some i) ms) (Hpush : push_of s m = Some i) :
  ∃ s2 s', Start (mr :: ms) s = Ok s2 ∧ handle m s2 = Ok s' ∧ is_Some (abs s2 !! i) ∧
    abs s' = alter (λ x, x + 1) i (abs s2).
Proof.
  apply Forall_cons in Hms as [Hmr Hms]. apply Forall_app in Hms as [Hms Hm]. rewrite Forall_singleton in Hm.
  cbn [length] in Hver. rewrite length_app in Hver. cbn [length] in Hver.
  destruct Hreply as (s1 & out & Hs1 & Hout & Hin).
  pose proof (reply_lets_push s mr s1 id i out Hinv Hcircle ltac:(lia) Hmr Hs1 Hid Hi Hout Hin) as Hmay.
  destruct (handle_inv s mr Hinv Hcircle ltac:(lia) Hmr) as (s1' & Hs1' & Hinv1 & Hset & Hv1 & _).
  rewrite Hs1 in Hs1'. injection Hs1' as <-.
  assert (∀ s', same_setup s s' → on_circle s') as Hcirc.
  { intros s' Hs'. unfold on_circle in *. by rewrite (ss_start _ _ Hs'), (ss_range _ _ Hs'). }
  destruct (may_push_kept s1 ms i Hinv1 (Hcirc _ Hset)) as (s2 & Hrun & Hinv2 & Hset2 & Hv2 & Hmay2); [|lia| |done|].
  { eapply Forall_impl; [exact Hms|]. intros. by eapply expected_setup. }
  { eapply Forall_impl; [exact Hno|]. intros x Hx. by rewrite (push_of_setup s s1). }
  pose proof (same_setup_trans _ _ _ Hset Hset2) as Hset'.
  destruct (handle_inv s2 m Hinv2 (Hcirc _ Hset') ltac:(lia) (expected_setup s s2 m Hset' Hm)) as (s' & Hs' & _ & _ & _ & Ha).
  exists s2, s'. unfold Start in *. cbn [foldM]. rewrite Hs1. split_and!; [done|done| |].
  - unfold may_push, Ssp.allowed in Hmay2. by destruct (abs s2 !! i).
  - rewrite Ha. unfold spec_step. rewrite (push_of_setup s s2 m Hset'), Hpush. unfold Ssp.push. by rewrite Hmay2.
Qed.
End history.

(** ** Witnesses

    Server 1 of the test cluster, with a bound of 2: agent 3 pushes three times,
    the last of them in vain, and pulls; then agent 4 pushes twice. *)

Definition ahead_run : list Message :=
  [request_from 3 (test_push [2; 3]); request_from 3 (test_push [4]); request_from 3 (test_push [5]);
   request_from 3 (mkRequest rt_key [2; 4] [])].
Definition catch_up : list Message := [request_from 4 (test_push [3; 5]); request_from 4 (test_push [2])].

Lemma s1_run_expected : Forall (expected s1) (ahead_run ++ catch_up ++ [request_from 3 (test_push [3])]).
Proof.
  repeat apply Forall_cons_2; [apply ex_push|apply ex_push|apply ex_push|apply ex_pull|apply ex_push|apply ex_push|apply ex_push|constructor];
    try by vm_compute.
  all: first [apply test_push_ok; [by vm_compute|]|idtac]; repeat constructor; by vm_compute.
Qed.

Lemma s1_on_circle : on_circle s1.
Proof. by vm_compute. Qed.

Example Start_applies_history_witness :
  let H := foldl (history_step s1) [[]; []] (ahead_run ++ catch_up ++ [request_from 3 (test_push [3])]) in
  let n := Z.to_nat (Ssp.floor (clocks H)) in
  ∃ s', Start (ahead_run ++ catch_up ++ [request_from 3 (test_push [3])]) s1 = Ok s' ∧ inv s' ∧ zlen H = 2 ∧
    bottom_version_ s' = bottom_version_ s1 + Z.of_nat n ∧
    ((λ b, KeyValueList.pairs <$> b) <$> version_buffer_ s' = (λ h, request_pairs <$> drop n h) <$> H) ∧
    length (parameters_ s') = length (parameters_ s1) ∧
    ∀ j p, parameters_ s1 !! j = Some p →
      parameters_ s' !! j = Some (apply_rounds H n (start_key_ s1 + Z.of_nat j) p).
Proof.
  apply (Start_applies_history s1 (ahead_run ++ catch_up ++ [request_from 3 (test_push [3])]) s1_inv);
    [by vm_compute|exact s1_on_circle|exact s1_run_expected|by vm_compute].
Defined.

(** Two rounds, and the third push that was taken of agent 3 is pending. *)
Example ahead_history :
  foldl (history_step s1) [[]; []] (ahead_run ++ catch_up ++ [request_from 3 (test_push [3])]) =
    [[test_push [2; 3]; test_push [4]; test_push [3]]; [test_push [3; 5]; test_push [2]]].
Proof. by vm_compute. Qed.

Definition s1_ahead : Server Trace := match Start ahead_run s1 with Ok s => s | Fault _ => s1 end.

Lemma s1_ahead_Ok : inv s1_ahead ∧ same_setup s1 s1_ahead.
Proof.
  pose proof s1_run_expected as Hms. apply Forall_app in Hms as [Hms _].
  destruct (Start_Ok s1 ahead_run s1_inv s1_on_circle Hms) as (s & Hs & Hinv & Hset & _); [by vm_compute|].
  unfold s1_ahead. by rewrite Hs.
Qed.

(** The push of agent 4 answers the pull of agent 3, whose next push is taken. *)
Example reply_guards_push_witness :
  ∃ s2 s', Start catch_up s1_ahead = Ok s2 ∧ handle (request_from 3 (test_push [3])) s2 = Ok s' ∧
    is_Some (abs s2 !! 0%nat) ∧ abs s' = alter (λ x, x + 1) 0%nat (abs s2).
Proof.
  destruct s1_ahead_Ok as [Hinv Hset].
  apply (reply_guards_push s1_ahead (request_from 4 (test_push [3; 5])) [request_from 4 (test_push [2])]
    (request_from 3 (test_push [3])) 3 0 Hinv); try by vm_compute.
  - pose proof s1_run_expected as Hms. apply Forall_app in Hms as [_ Hms].
    eapply Forall_impl; [exact Hms|]. intros m. by apply expected_setup.
  - eexists _, [(3, _); _]. split_and!; [by vm_compute|by vm_compute|]. by left.
  - apply Forall_singleton. by vm_compute.
Defined.
