(* ===== verification/AsyncTraining.v ===== *)
(** * Training at different paces

    The cluster when its agents do not wait for each other: every agent pushes
    gradient after gradient, and the messages of all agents reach the servers in
    any interleaving, with pulls and backups among them. As long as no server
    drops a push, all servers apply the same rounds, and round [r] is the average
    of the [r]-th gradients of all agents. *)

From S2P Require Import Prelude CppStd Partition Float32 Messages Communicator KeyValueList Ssp.
From S2P Require Import Channel Agent AgentSort Slices AgentPush AgentProps AgentConfig.
From S2P Require Import Server ServerMerge ServerInv ServerRound ServerPush ServerPull ServerInit ServerTraining.
From S2P Require Import Cluster System Training TrainingPull ServerHistory.
From stdpp Require Import options.

Import Server.

(** ** The pushes that are taken are among those that arrive *)

Section taken.
Context {C : Type} `{Hcomm : Communicator C}.
Implicit Types s : Server C.

(** The pushes of the agent at index [j], in order of arrival. *)
Definition pushes_of s (j : nat) (ms : list Message) : list RequestMessage :=
  request_msg <$> filter (λ m, push_of s m = Some j) ms.

Lemma history_step_sublist s H m j h :
  H !! j = Some h → ∃ k, history_step s H m !! j = Some (h ++ k) ∧ k `sublist_of` pushes_of s j [m].
Proof.
  intros Hj. unfold history_step, pushes_of. rewrite filter_cons. destruct (push_of s m) as [i|] eqn:Hp.
  - unfold take_push. destruct (Ssp.allowed _ _ i).
    + destruct (decide (i = j)) as [->|Hne].
      * rewrite decide_True by done. exists [request_msg m]. by rewrite list_lookup_alter_eq, Hj.
      * rewrite list_lookup_alter_ne by done. exists []. rewrite app_nil_r. split; [done|apply sublist_nil_l].
    + exists []. rewrite app_nil_r. split; [done|apply sublist_nil_l].
  - exists []. rewrite app_nil_r. split; [done|apply sublist_nil_l].
Qed.

Lemma history_sublist s H ms j h :
  H !! j = Some h → ∃ k, foldl (history_step s) H ms !! j = Some (h ++ k) ∧ k `sublist_of` pushes_of s j ms.
Proof.
  revert H h. induction ms as [|m ms IH]; intros H h Hj; [exists []; by rewrite app_nil_r|].
  destruct (history_step_sublist s H m j h Hj) as (k1 & Hj1 & Hk1). destruct (IH _ _ Hj1) as (k2 & Hj2 & Hk2).
  exists (k1 ++ k2). cbn [foldl]. rewrite app_assoc. split; [done|]. unfold pushes_of in *.
  change (m :: ms) with ([m] ++ ms). rewrite filter_app, fmap_app. by apply sublist_app.
Qed.

Lemma sublist_full {A} (l1 l2 : list A) : l1 `sublist_of` l2 → (length l2 ≤ length l1)%nat → l1 = l2.
Proof.
  induction 1 as [|x l1 l2 _ IH|x l1 l2 Hsub _]; cbn; intros Hlen; [done| |].
  - f_equal. apply IH. lia.
  - apply sublist_length in Hsub. lia.
Qed.

(** If as many were taken as arrived, it was all of them. *)
Lemma history_all s (N : nat) ms j h :
  foldl (history_step s) (replicate N []) ms !! j = Some h → (j < N)%nat →
  (length (pushes_of s j ms) ≤ length h)%nat → h = pushes_of s j ms.
Proof.
  intros Hh Hj Hlen. destruct (history_sublist s (replicate N []) ms j []) as (k & Hk & Hsub); [by apply lookup_replicate_2|].
  rewrite Hh in Hk. injection Hk as ->. by apply (sublist_full k).
Qed.
End taken.

(** ** The cluster *)

Section async.
Context (c : ConfigMessage) (Hok : config_ok c) (Hro : routable c).
Context (Hn : 2 ≤ server_num c) (Hs : sorted_lt (partition c)).
Context {C D : Type} `{HC : Communicator C} `{HCl : !CommunicatorLaws C} `{HD : Communicator D} `{HDl : !CommunicatorLaws D}.
Context (agents : list (Agent.Agent D)).
Set Default Proof Using "Type*".
Implicit Types (s : Server C) (a b : Agent.Agent D).

(** What an agent sends in a push. *)
Definition push_messages b : list (Z * Message) :=
  match Agent.Push b with
  | Ok (b', _) => drop (length (outbox (Agent.sender_ b))) (outbox (Agent.sender_ b'))
  | Fault _ => []
  end.

(** For every agent, its states at the beginning of its pushes. *)
Context (works : list (list (Agent.Agent D))).
Context (Hworks : Forall2 (λ a W, Forall (agent_ready c) W) agents works).

(** The gradients of round [r], in the order of the agents. *)
Definition row (r : nat) : list (Agent.Agent D) := omap (λ W : list (Agent.Agent D), W !! r) works.

(** The rounds everybody has pushed for. *)
Definition rounds : nat := Z.to_nat (Ssp.floor ((λ W : list (Agent.Agent D), zlen W) <$> works)).

Definition async_param (θ : float32) (k : Z) : float32 :=
  foldl (λ p r, fadd p (fdiv (fsum f0 (vals k (row r ≫= gradient))) (f_of_int (zlen agents)))) θ (seq 0 rounds).

(** What reaches the server [s] with the given id: messages it is meant to
    receive, among them the pushes of every agent, in the order the agent sent
    them, none of which is dropped. *)
Record arrivals s (id : Z) (msgs : list (Z * Message)) : Prop := mkarrivals {
  ar_expected : Forall (expected s) (mail id msgs);
  ar_version : bottom_version_ s + zlen (mail id msgs) ≤ kInt32Max;
  ar_order : ∀ j W, works !! j = Some W →
    pushes_of s j (mail id msgs) = request_msg <$> mail id (W ≫= push_messages);
  ar_taken : clocks (foldl (history_step s) (replicate (length agents) []) (mail id msgs)) =
    (λ W : list (Agent.Agent D), zlen W) <$> works;
}.

(** The slices for one server of the successive pushes of one agent. *)
Lemma pushes_for i id W :
  0 ≤ i → server_id c !! Z.to_nat i = Some id → Forall (agent_ready c) W →
  Forall2 (push_for c i) W (mail id (W ≫= push_messages)).
Proof.
  intros Hi Hid. induction 1 as [|b W Hb _ IH]; [constructor|]. cbn [mbind list_bind].
  destruct (agent_push c Hok Hro Hn Hs b Hb) as (out & (b' & Hpush & Hout) & Hmail).
  destruct (Hmail i id Hi Hid) as (m & Hm & Hpf).
  assert (push_messages b = out) as -> by (unfold push_messages; by rewrite Hpush, Hout, drop_app_length).
  rewrite mail_app, Hm. by constructor.
Qed.

Lemma ready_circle i s : 0 ≤ i < server_num c → server_ready c agents i s → on_circle s.
Proof.
  intros Hi [_ [Hst _ Hr] _ _ _ _ _]. unfold on_circle. rewrite Hst, Hr.
  pose proof (point_range c Hok i Hi). pose proof (cf_range c Hok). unfold kInt32Max. lia.
Qed.

(** The rounds of a server are those of the agents. *)
Lemma round_gradients i (H : history) k r :
  Partition.in_arc (config_partition c) i k →
  Forall2 (λ (W : list (Agent.Agent D)) h, ∃ ms, h = request_msg <$> ms ∧ Forall2 (push_for c i) W ms) works H →
  vals k (round_pushes H r ≫= request_pairs) = vals k (row r ≫= gradient).
Proof using Type.
  intros Harc Hall. rewrite !vals_bind. unfold round_pushes, row. clear Hworks.
  induction Hall as [|W h Ws H (ms & -> & Hms) _ IH]; [done|]. cbn. rewrite list_lookup_fmap.
  destruct (W !! r) as [b|] eqn:Hb.
  - destruct (Forall2_lookup_l _ _ _ _ _ Hms Hb) as (m & -> & Hpf). cbn. f_equal; [|exact IH].
    by apply (pf_vals _ _ _ _ Hpf).
  - pose proof (Forall2_length _ _ _ Hms). apply lookup_ge_None in Hb. by rewrite lookup_ge_None_2 by lia.
Qed.

Lemma taken_gradients i id s msgs :
  0 ≤ i → server_id c !! Z.to_nat i = Some id → arrivals s id msgs →
  Forall2 (λ (W : list (Agent.Agent D)) h, ∃ ms, h = request_msg <$> ms ∧ Forall2 (push_for c i) W ms) works
    (foldl (history_step s) (replicate (length agents) []) (mail id msgs)).
Proof.
  intros Hi Hid [_ _ Hord Htak]. set (H := foldl _ _ _) in *.
  assert (length H = length works) as HlH by (apply (f_equal length) in Htak; unfold clocks in Htak; by rewrite !length_fmap in Htak).
  apply Forall2_same_length_lookup_2; [done|]. intros j W h HW Hh.
  pose proof (f_equal (.!! j) Htak) as Hj. unfold clocks in Hj. rewrite !list_lookup_fmap, Hh, HW in Hj. cbn in Hj. injection Hj as Hj.
  pose proof (pushes_for i id W Hi Hid ltac:(by destruct (Forall2_lookup_r _ _ _ _ _ Hworks HW) as (a & _ & ?))) as Hpf.
  pose proof (Forall2_length _ _ _ Hpf) as Hlpf. exists (mail id (W ≫= push_messages)). split; [|done].
  rewrite <- (Hord j W HW). apply (history_all s (length agents)); [exact Hh| |].
  - rewrite (Forall2_length _ _ _ Hworks). by eapply lookup_lt_Some.
  - rewrite (Hord j W HW), length_fmap. lia.
Qed.

(** One server. *)
Lemma server_async i id s msgs :
  0 ≤ i < server_num c → server_id c !! Z.to_nat i = Some id → server_ready c agents i s → arrivals s id msgs →
  ∃ s', Start (mail id msgs) s = Ok s' ∧ bottom_version_ s' = bottom_version_ s + Z.of_nat rounds ∧
    ∀ k, point c 0 ≤ k < key_range c → Partition.GetServerByKey (config_partition c) k = Ok i →
      param_of s' k = async_param (param_of s k) k.
Proof.
  intros Hi Hid Hrdy Harr. pose proof (taken_gradients i id s msgs (proj1 Hi) Hid Harr) as Htaken.
  pose proof (ready_circle i s Hi Hrdy) as Hcircle. pose proof Hrdy as [Hinv [Hst Hl Hr] Hc _ _ Hv _].
  pose proof Harr as [Hexp Hver _ Htak].
  assert (Z.to_nat (agent_num_ s) = length agents) as HN by lia.
  destruct (recorded_run s (mail id msgs) (replicate (length agents) []) 0 s Hcircle Hexp) as (n & s' & Hrun & Hrec); [|done|].
  { rewrite <- HN. apply recorded_start; [done|]. by rewrite HN. }
  set (H := foldl _ _ _) in *.
  pose proof (recorded_floor s H n s' Hrec) as Hfloor. rewrite Htak in Hfloor.
  assert (rounds = n) as -> by (unfold rounds; rewrite Hfloor; lia).
  exists s'. split_and!; [done|apply (rc_version _ _ _ _ Hrec)|]. intros k Hk Hown.
  pose proof (config_partition_wf c Hro) as Hwf. pose proof (point_range c Hok 0 ltac:(lia)).
  destruct (Partition.GetServerByKey_Ok _ k Hwf) as (j & Hj & Harc); [cbn; lia|].
  assert (j = i) as -> by congruence. pose proof (plain_segment c Hok Hro Hn Hs i k Harc Hk) as Hseg. unfold in_segment in Hseg.
  pose proof (si_params s (co_segment s (proj1 Hinv))) as Hpl.
  destruct (lookup_lt_is_Some_2 (parameters_ s) (Z.to_nat (k - start_key_ s))) as [p Hp]; [lia|].
  unfold param_of. rewrite (ss_start _ _ (rc_setup _ _ _ _ Hrec)), (rc_params _ _ _ _ Hrec _ _ Hp), Hp. cbn [default].
  replace (start_key_ s + Z.of_nat (Z.to_nat (k - start_key_ s))) with k by lia.
  unfold apply_rounds, async_param. pose proof (rc_agents _ _ _ _ Hrec) as HlH.
  assert (rounds = n) as -> by (unfold rounds; rewrite Hfloor; lia).
  generalize (seq 0 n). intros rs. clear Hp. revert p.
  induction rs as [|r rs IH]; intros p; [done|]. cbn [foldl]. rewrite IH. f_equal. unfold apply_round.
  by rewrite (round_gradients i H k r Harc Htaken), HlH, Hc.
Qed.

(** C3: training at different paces. Every agent pushes any number of gradients,
    each with distinct keys, one for every server and none that wraps. What
    reaches a server are messages it is meant to receive, interleaved in any way,
    with every agent's pushes in the order they were sent and none of them
    dropped, which waiting for the answer of a pull ensures. Then no server
    faults; all servers have applied as many rounds as the slowest agent has
    pushes, although they saw different interleavings; and every parameter that
    does not wrap is what one gets by adding, round after round, the average of
    the [r]-th gradients of all agents. *)
Theorem asynchronous_training (ss : list (Server C)) msgs
    (Hlen : zlen ss = server_num c)
    (Hservers : ∀ i s, 0 ≤ i → ss !! Z.to_nat i = Some s → server_ready c agents i s)
    (Harrive : ∀ i id s, 0 ≤ i → server_id c !! Z.to_nat i = Some id → ss !! Z.to_nat i = Some s → arrivals s id msgs) :
  ∃ ss', foldM (deliver (server_id c)) msgs ss = Ok ss' ∧ length ss' = length ss ∧
    (∀ i s s', ss !! i = Some s → ss' !! i = Some s' → bottom_version_ s' = bottom_version_ s + Z.of_nat rounds) ∧
    ∀ k, point c 0 ≤ k < key_range c → cluster_param c ss' k = async_param (cluster_param c ss k) k.
Proof.
  pose proof (cf_server_ids c Hok) as Hsl.
  destruct (deliver_all (server_id c) (λ j s', ∀ s, ss !! j = Some s →
    bottom_version_ s' = bottom_version_ s + Z.of_nat rounds ∧
    ∀ k, point c 0 ≤ k < key_range c → Partition.GetServerByKey (config_partition c) k = Ok (Z.of_nat j) →
      param_of s' k = async_param (param_of s k) k) msgs ss) as (ss' & Hrun & Hl & HQ).
  - apply (cf_nodup c Hok).
  - lia.
  - intros j id s Hid Hj. rewrite <- (Nat2Z.id j) in Hid, Hj. pose proof (lookup_lt_Some _ _ _ Hj).
    destruct (server_async (Z.of_nat j) id s msgs) as (s' & Hs' & Hv & Hp);
      [lia|done|apply Hservers; [lia|done]|apply (Harrive (Z.of_nat j)); [lia|done|done]|].
    exists s'. split; [done|]. intros s0 Hs0. rewrite Nat2Z.id in Hj. simplify_eq. by split.
  - exists ss'. split_and!; [done|done| |].
    + intros j s s' Hj Hj'. by apply (HQ j s' Hj' s Hj).
    + intros k Hk. pose proof (config_partition_wf c Hro) as Hwf. pose proof (point_range c Hok 0 ltac:(lia)).
      destruct (Partition.GetServerByKey_Ok _ k Hwf) as (i & Hi & [Hir _]); [cbn; lia|]. cbn in Hir.
      destruct (lookup_lt_is_Some_2 ss (Z.to_nat i)) as [s Hss]; [lia|].
      destruct (lookup_lt_is_Some_2 ss' (Z.to_nat i)) as [s' Hss']; [lia|].
      unfold cluster_param. rewrite Hi, Hss, Hss'. apply (HQ _ _ Hss' s Hss); [done|]. by rewrite Z2Nat.id by lia.
Qed.
End async.

(** ** Witness

    Agent 3 of the test cluster pushes twice, agent 4 three times; server 1
    hears 4, 4, 3, 4, 3 and, in between, a pull of agent 3, server 2 hears
    4, 3, 3, 4, 4. *)

Definition pushes_3 : list (Agent.Agent Trace) := [trainer 3 [(8, 1); (3, 2)]; trainer 3 [(9, 2); (2, 4); (7, 1)]].
Definition pushes_4 : list (Agent.Agent Trace) :=
  [trainer 4 [(4, 5); (3, 1); (9, 7)]; trainer 4 [(8, 1); (5, 1)]; trainer 4 [(3, 1); (7, 2)]].

(** The slice for one server of the push of an agent. *)
Definition part_for (dst : Z) (W : list (Agent.Agent Trace)) (n : nat) : list (Z * Message) :=
  match W !! n with Some b => filter (λ dm, dm.1 = dst) (push_messages b) | None => [] end.

Definition async_msgs : list (Z * Message) :=
  part_for 1 pushes_4 0 ++ part_for 2 pushes_4 0 ++ part_for 1 pushes_4 1 ++ part_for 2 pushes_3 0 ++
  part_for 1 pushes_3 0 ++ part_for 2 pushes_3 1 ++
  [(1, mkMessage 3 1 mt_request None (Some (mkRequest rt_key [2; 4] [])) None None)] ++
  part_for 1 pushes_4 2 ++ part_for 2 pushes_4 1 ++ part_for 1 pushes_3 1 ++ part_for 2 pushes_4 2.

Ltac check_mail :=
  match goal with |- Forall _ ?l => let v := eval vm_compute in l in replace l with v by by vm_compute end;
  repeat apply Forall_cons_2; [..|apply Forall_nil_2];
  first [apply ex_push; [by vm_compute..|constructor; [by vm_compute|by vm_compute|repeat constructor; by vm_compute]]
        |apply ex_pull; [by vm_compute..|repeat constructor; by vm_compute]].

Lemma async_arrivals i id s :
  0 ≤ i → [1; 2] !! Z.to_nat i = Some id → [s1; s2] !! Z.to_nat i = Some s →
  arrivals trainers [pushes_3; pushes_4] s id async_msgs.
Proof.
  intros Hi Hid Hs. destruct (Z.to_nat i) as [|[|]]; [..|done];
    apply (inj Some) in Hid as <-; apply (inj Some) in Hs as <-; constructor.
  1,5: check_mail.
  1,4: by vm_compute.
  1,3: intros [|[|j]] W HW; [..|done]; apply (inj Some) in HW as <-; by vm_compute.
  all: by vm_compute.
Qed.

Lemma async_works : Forall2 (λ (a : Agent.Agent Trace) W, Forall (agent_ready test_config) W) trainers [pushes_3; pushes_4].
Proof. repeat (constructor; [repeat (constructor; [check_trainer|]); constructor|]). constructor. Qed.

Example asynchronous_training_witness :
  ∃ ss', foldM (deliver [1; 2]) async_msgs [s1; s2] = Ok ss' ∧ length ss' = 2%nat ∧
    (∀ i s s', [s1; s2] !! i = Some s → ss' !! i = Some s' →
      bottom_version_ s' = bottom_version_ s + Z.of_nat (rounds [pushes_3; pushes_4])) ∧
    ∀ k, 2 ≤ k < 10 → cluster_param test_config ss' k =
      async_param trainers [pushes_3; pushes_4] (cluster_param test_config [s1; s2] k) k.
Proof.
  apply (asynchronous_training test_config test_config_ok test_config_routable ltac:(done) test_config_increasing
    trainers [pushes_3; pushes_4] async_works [s1; s2] async_msgs).
  - done.
  - intros i s Hi Hs. by apply boot_ready.
  - apply async_arrivals.
Defined.

(** Two rounds; key 3 got (2 + 1) / 2 in the first and nothing in the second. *)
Example async_example :
  rounds [pushes_3; pushes_4] = 2%nat ∧
  (λ k, async_param trainers [pushes_3; pushes_4] f0 k) <$> [3; 8; 9; 5; 7] = (λ m, literal m (-1)) <$> [3; 2; 9; 1; 1].
Proof. by vm_compute. Qed.
