(* ===== verification/MasterThreads.v ===== *)
(** * The three threads of the master (src/master/master.h, src/master/master.cc)

    [MainLoop] runs beside two threads that work on the same [config_]:
    [DeliverHeartbeatLoop] (lines 294-301) and [DetectDeadNode] (lines 303-319).
    [config_mutex_] of the master is never taken. [FixConfig] and
    [set_config_changed] exclude each other by the mutex of the configuration;
    [config_changed], [ToMessage], [agent_id] and [server_id] take no lock.

    A turn is one call on the configuration, one iteration of a loop over it, or
    one message of the main loop, which is finer than the operations of Master.v
    and coarser than the machine: what goes wrong here goes wrong there. *)

From S2P Require Import Prelude CppStd Decimal Float32 Messages Communicator Logging TaskConfig Master.
From stdpp Require Import options.

Import TaskConfig Master.

Module MasterThreads.

Section threads.
Context {C : Type} `{Communicator C}.
Context (draw : Z * Z → nat → Z) (FLAGS_max_cluster_node FLAGS_heartbeat_timeout : Z).
Context (localtime : Z → Logging.tm).

(** Where the heartbeat thread is: asleep or about to read [config_changed]
    (line 274), about to copy the configuration (line 275), about to clear the
    flag (line 276), about to enter the first loop (line 280), in the loop over
    the agents or over the servers (line 286). A range-for takes the two ends of
    the vector when it starts: [n] elements, of which [i] are done. *)
Inductive heartbeat_pc :=
| HbRead
| HbCopy
| HbClear (conf : ConfigMessage)
| HbStart (conf : option ConfigMessage)
| HbAgents (conf : option ConfigMessage) (i n : nat)
| HbServers (conf : option ConfigMessage) (i n : nat).

(** Where the dead-node thread is: asleep or about to look for dead nodes and to
    log them (lines 308 to 315), about to enter [FixConfig] (line 316), or in its
    loop, with the nodes still to remove. *)
Inductive detect_pc :=
| DdFind
| DdLock (dead : list Z)
| DdFix (dead : list Z).

Record threads := mkThreads {
  master : Master C;
  (** [TaskConfig::mu_] is held; only [FixConfig] holds it from one turn to the next. *)
  mu_ : bool;
  heartbeat_at : heartbeat_pc;
  detect_at : detect_pc;
  (** The local variable of [MainLoop]. *)
  terminated : bool;
  (** [std::cerr], and the log statements under way. *)
  log : Logging.world;
}.
#[export] Instance threads_eta : Eta threads := λ s,
  mkThreads (master s) (mu_ s) (heartbeat_at s) (detect_at s) (terminated s) (log s).

(** The next turn of [DeliverHeartbeat]. *)
Definition heartbeat_turn (s : threads) : res threads :=
  let cfg := config_ (master s) in
  match heartbeat_at s with
  | HbRead => mret (s <| heartbeat_at := if config_changed_ cfg then HbCopy else HbStart None |>)
  | HbCopy => conf ← ToMessage cfg; mret (s <| heartbeat_at := HbClear conf |>)
  | HbClear conf =>
      if mu_ s then mret s
      else mret (s <| master ::= λ m, m <| config_ ::= set_config_changed false |> |>
                   <| heartbeat_at := HbStart (Some conf) |>)
  | HbStart conf => mret (s <| heartbeat_at := HbAgents conf 0 (length (agent_id_ cfg)) |>)
  | HbAgents conf i n =>
      if decide (i < n)%nat then
        id ← vec_get (agent_id_ cfg) (Z.of_nat i);
        dst ← add32 id FLAGS_max_cluster_node;
        mret (s <| master ::= send dst (heartbeat_message id conf) |> <| heartbeat_at := HbAgents conf (S i) n |>)
      else mret (s <| heartbeat_at := HbServers conf 0 (length (server_id_ cfg)) |>)
  | HbServers conf i n =>
      if decide (i < n)%nat then
        id ← vec_get (server_id_ cfg) (Z.of_nat i);
        mret (s <| master ::= send id (heartbeat_message id conf) |> <| heartbeat_at := HbServers conf (S i) n |>)
      else mret (s <| heartbeat_at := HbRead |>)
  end.

(** The next turn of [DetectDeadNode], with the time [GetDeadNode] reads. *)
Definition detect_turn (cur_time : Z) (s : threads) : res threads :=
  match detect_at s with
  | DdFind =>
      let dead := GetDeadNode FLAGS_heartbeat_timeout cur_time (master s) in
      if 0 <? zlen dead then
        let '(texts, m) := dead_node_texts dead (master s) in
        logged ← Logging.run (Logging.LOG_reference (fresh (dom (Logging.objects (log s)))) (localtime cur_time)
          (Logging.mkPlace "src/master/master.cc" 312) texts) (log s);
        match logged with
        | Logging.Running w => mret (s <| master := m |> <| log := w |> <| detect_at := DdLock dead |>)
        | Logging.AbortedWith _ => Fault Aborted
        end
      else mret s
  | DdLock dead =>
      if mu_ s then mret s
      else mret (s <| mu_ := true |> <| master ::= λ m, m <| config_ ::= set_config_changed true |> |>
                   <| detect_at := DdFix dead |>)
  | DdFix (id :: dead) =>
      config ← fix_node id (config_ (master s));
      mret (s <| master ::= λ m, m <| config_ := config |> |> <| detect_at := DdFix dead |>)
  | DdFix [] => mret (s <| mu_ := false |> <| detect_at := DdFind |>)
  end.

(** One message of [MainLoop]. *)
Definition main_turn (cur_time : Z) (msg : Message) (s : threads) : res threads :=
  if terminated s then mret s
  else
    '(m, t) ← MainLoop_step draw FLAGS_max_cluster_node cur_time msg (master s);
    mret (s <| master := m |> <| terminated := t |>).

(** The scheduler gives a turn to a thread; one that was not started, or waits
    for the mutex, stays where it is. *)
Inductive turn :=
| Heartbeat
| Detect (cur_time : Z)
| Receive (cur_time : Z) (msg : Message).

Definition take_turn (t : turn) (s : threads) : res threads :=
  match t with
  | Heartbeat => if heartbeat_ (master s) then heartbeat_turn s else mret s
  | Detect cur_time => if detect_dead_node_ (master s) then detect_turn cur_time s else mret s
  | Receive cur_time msg => main_turn cur_time msg s
  end.

Definition run (ts : list turn) (s : threads) : res threads := foldM take_turn ts s.

(** Both threads between two passes. *)
Definition resting (m : Master C) (t : bool) (w : Logging.world) : threads := mkThreads m false HbRead DdFind t w.

(** The messages the main loop was given. *)
Definition received (ts : list turn) : list (Z * Message) :=
  omap (λ t, match t with Receive cur_time msg => Some (cur_time, msg) | _ => None end) ts.

End threads.
Arguments threads C : clear implicits.

End MasterThreads.
