(* ===== verification/MasterThreadsProps.v ===== *)
(** * What the threads of the master can do to each other

    Undisturbed passes of the two background threads are the operations of
    Master.v; and what any schedule of the three threads comes to: the main loop
    goes as it would alone, until a pass of the dead-node thread finds a node. *)

From S2P Require Import Prelude CppStd Decimal Logging Float32 Messages Communicator.
From S2P Require Import TaskConfig TaskConfigProps Master MasterConfig MasterProps MasterLoop MasterThreads.
From stdpp Require Import options.

Import TaskConfig Master MasterThreads.

Section passes.
Context {C : Type} `{Communicator C}.
Context (draw : Z * Z → nat → Z) (FLAGS_max_cluster_node FLAGS_heartbeat_timeout : Z) (localtime : Z → Logging.tm).
Notation run := (run draw FLAGS_max_cluster_node FLAGS_heartbeat_timeout localtime).
Notation take_turn := (take_turn draw FLAGS_max_cluster_node FLAGS_heartbeat_timeout localtime).
Implicit Types (m : Master C) (s : threads C).
Set Default Proof Using "Type*".

Lemma run_app ts1 ts2 s : run (ts1 ++ ts2) s = (s' ← run ts1 s; run ts2 s').
Proof. apply foldM_app. Qed.

Lemma run_cons t ts s s' : take_turn t s = Ok s' → run (t :: ts) s = run ts s'.
Proof. intros Ht. unfold MasterThreads.run. cbn [foldM]. by rewrite Ht. Qed.

Lemma run_fault t ts s f : take_turn t s = Fault f → run (t :: ts) s = Fault f.
Proof. intros Ht. unfold MasterThreads.run. cbn [foldM]. by rewrite Ht. Qed.

(** A turn of a thread that was started. *)
Lemma take_heartbeat s : heartbeat_ (master s) = true → take_turn Heartbeat s = heartbeat_turn FLAGS_max_cluster_node s.
Proof. unfold MasterThreads.take_turn. by intros ->. Qed.

Lemma take_detect now s :
  detect_dead_node_ (master s) = true → take_turn (Detect now) s = detect_turn FLAGS_heartbeat_timeout localtime now s.
Proof. unfold MasterThreads.take_turn. by intros ->. Qed.

(** ** Undisturbed passes *)

(** The loop over the agents, from its [i]-th turn on. *)
Lemma agents_turns conf l2 : ∀ l1 m mu dd t w,
  heartbeat_ m = true → agent_id_ (config_ m) = l1 ++ l2 →
  run (replicate (S (length l2)) Heartbeat)
    (mkThreads m mu (HbAgents conf (length l1) (length l1 + length l2)) dd t w) =
  (m ← foldM (λ id m, dst ← add32 id FLAGS_max_cluster_node; mret (send dst (heartbeat_message id conf) m)) l2 m;
   mret (mkThreads m mu (HbServers conf 0 (length (server_id_ (config_ m)))) dd t w)).
Proof.
  induction l2 as [|id l2 IH]; intros l1 m mu dd t w Hh Hl; cbn [replicate foldM length].
  - erewrite run_cons; [reflexivity|]. rewrite take_heartbeat by done. unfold heartbeat_turn. cbn.
    rewrite Nat.add_0_r, decide_False by lia. done.
  - assert (vec_get (agent_id_ (config_ m)) (Z.of_nat (length l1)) = Ok id) as Hget.
    { apply vec_get_Ok; [lia|]. rewrite Nat2Z.id, Hl. by apply list_lookup_middle. }
    destruct (add32 id FLAGS_max_cluster_node) as [dst|f] eqn:Hdst; last first.
    { erewrite run_fault; [reflexivity|]. rewrite take_heartbeat by done. unfold heartbeat_turn. cbn.
      rewrite decide_True, Hget by lia. cbn. by rewrite Hdst. }
    erewrite run_cons; last first.
    { rewrite take_heartbeat by done. unfold heartbeat_turn. cbn.
      rewrite decide_True, Hget by lia. cbn. rewrite Hdst. reflexivity. }
    cbn [mbind res_bind mret res_ret].
    specialize (IH (l1 ++ [id]) (send dst (heartbeat_message id conf) m) mu dd t w Hh).
    rewrite length_app in IH. cbn in IH. replace (length l1 + 1)%nat with (S (length l1)) in IH by lia.
    replace (length l1 + S (length l2))%nat with (S (length l1) + length l2)%nat by lia.
    apply IH. by rewrite <- app_assoc.
Qed.

(** The loop over the servers. *)
Lemma servers_turns conf l2 : ∀ l1 m mu dd t w,
  heartbeat_ m = true → server_id_ (config_ m) = l1 ++ l2 →
  run (replicate (S (length l2)) Heartbeat)
    (mkThreads m mu (HbServers conf (length l1) (length l1 + length l2)) dd t w) =
  (m ← foldM (λ id m, mret (send id (heartbeat_message id conf) m)) l2 m; mret (mkThreads m mu HbRead dd t w)).
Proof.
  induction l2 as [|id l2 IH]; intros l1 m mu dd t w Hh Hl; cbn [replicate foldM length].
  - erewrite run_cons; [reflexivity|]. rewrite take_heartbeat by done. unfold heartbeat_turn. cbn.
    rewrite Nat.add_0_r, decide_False by lia. done.
  - assert (vec_get (server_id_ (config_ m)) (Z.of_nat (length l1)) = Ok id) as Hget.
    { apply vec_get_Ok; [lia|]. rewrite Nat2Z.id, Hl. by apply list_lookup_middle. }
    erewrite run_cons; last first.
    { rewrite take_heartbeat by done. unfold heartbeat_turn. cbn.
      rewrite decide_True, Hget by lia. reflexivity. }
    cbn [mbind res_bind mret res_ret].
    specialize (IH (l1 ++ [id]) (send id (heartbeat_message id conf) m) mu dd t w Hh).
    rewrite length_app in IH. cbn in IH. replace (length l1 + 1)%nat with (S (length l1)) in IH by lia.
    replace (length l1 + S (length l2))%nat with (S (length l1) + length l2)%nat by lia.
    apply IH. by rewrite <- app_assoc.
Qed.

(** What a heartbeat sends, once its content is settled. *)
Definition deliver (conf : option ConfigMessage) (m : Master C) : res (Master C) :=
  m ← foldM (λ id m, dst ← add32 id FLAGS_max_cluster_node; mret (send dst (heartbeat_message id conf) m))
    (agent_id_ (config_ m)) m;
  foldM (λ id m, mret (send id (heartbeat_message id conf) m)) (server_id_ (config_ m)) m.

Definition deliver_len (m : Master C) : nat :=
  S (S (length (agent_id_ (config_ m))) + S (length (server_id_ (config_ m)))).

Lemma deliver_agents conf l m :
  ensures (foldM (λ id m, dst ← add32 id FLAGS_max_cluster_node; mret (send dst (heartbeat_message id conf) m)) l m)
    (λ m', config_ m' = config_ m ∧ heartbeat_ m' = heartbeat_ m).
Proof.
  apply (ensures_foldM (λ m', config_ m' = config_ m ∧ heartbeat_ m' = heartbeat_ m)); [done|].
  intros id m' _ Hm'. apply (ensures_bind _ _ (λ _, True)); [apply ensures_true|].
  intros dst _. by apply ensures_ret.
Qed.

Lemma deliver_turns conf m mu dd t w :
  heartbeat_ m = true →
  run (replicate (deliver_len m) Heartbeat) (mkThreads m mu (HbStart conf) dd t w) =
    (m ← deliver conf m; mret (mkThreads m mu HbRead dd t w)).
Proof.
  intros Hh. unfold deliver_len. cbn [replicate]. erewrite run_cons; last first.
  { rewrite take_heartbeat by done. unfold heartbeat_turn. reflexivity. }
  rewrite replicate_add, run_app.
  pose proof (agents_turns conf (agent_id_ (config_ m)) [] m mu dd t w Hh eq_refl) as Ha. cbn [length Nat.add] in Ha.
  change (_ <| heartbeat_at := _ |>)
    with (mkThreads m mu (HbAgents conf 0 (length (agent_id_ (config_ m)))) dd t w).
  rewrite Ha. clear Ha. unfold deliver. pose proof (deliver_agents conf (agent_id_ (config_ m)) m) as Hinv.
  destruct (foldM _ (agent_id_ (config_ m)) m) as [m'|f]; [|done]. cbn [mbind res_bind mret res_ret].
  destruct Hinv as [Hc Hh']. rewrite <- Hc.
  apply (servers_turns conf (server_id_ (config_ m')) []); [congruence|done].
Qed.

Lemma DeliverHeartbeat_deliver m :
  DeliverHeartbeat FLAGS_max_cluster_node m =
    (if config_changed_ (config_ m) then
       c ← ToMessage (config_ m); deliver (Some c) (m <| config_ ::= set_config_changed false |>)
     else deliver None m).
Proof.
  unfold DeliverHeartbeat. destruct (config_changed_ (config_ m)); [|done].
  by destruct (ToMessage (config_ m)).
Qed.

Definition heartbeat_len (m : Master C) : nat :=
  if config_changed_ (config_ m) then S (S (S (deliver_len m))) else S (deliver_len m).

Lemma heartbeat_pass m t w :
  heartbeat_ m = true →
  run (replicate (heartbeat_len m) Heartbeat) (resting m t w) =
    (m ← DeliverHeartbeat FLAGS_max_cluster_node m; mret (resting m t w)).
Proof.
  intros Hh. rewrite DeliverHeartbeat_deliver. unfold heartbeat_len, resting.
  destruct (config_changed_ (config_ m)) eqn:Hc; cbn [replicate].
  - erewrite run_cons; last first.
    { rewrite take_heartbeat by done. unfold heartbeat_turn. cbn. rewrite Hc. reflexivity. }
    destruct (ToMessage (config_ m)) as [c|f] eqn:Hto; last first.
    { erewrite run_fault; [reflexivity|]. rewrite take_heartbeat by done. unfold heartbeat_turn. cbn. by rewrite Hto. }
    erewrite run_cons; last first.
    { rewrite take_heartbeat by done. unfold heartbeat_turn. cbn. rewrite Hto. reflexivity. }
    erewrite run_cons; last first.
    { rewrite take_heartbeat by done. unfold heartbeat_turn. reflexivity. }
    cbn [mbind res_bind]. set (m1 := m <| config_ ::= set_config_changed false |>).
    change (deliver_len m) with (deliver_len m1). by rewrite <- (deliver_turns (Some c) m1 false DdFind t w).
  - erewrite run_cons; last first.
    { rewrite take_heartbeat by done. unfold heartbeat_turn. cbn. rewrite Hc. reflexivity. }
    by rewrite <- (deliver_turns None m false DdFind t w).
Qed.

(** A pass of the dead-node thread, up to its end. *)
Lemma detect_pass now m hb t w :
  detect_dead_node_ m = true →
  run [Detect now] (mkThreads m false hb DdFind t w) =
    ('(m, w) ← DetectDeadNode FLAGS_heartbeat_timeout localtime now m w; mret (mkThreads m false hb DdFind t w)).
Proof.
  intros Hd. rewrite DetectDeadNode_undefined. unfold MasterThreads.run. cbn [foldM].
  rewrite take_detect by done. unfold detect_turn. cbn -[Z.ltb dead_node_texts Logging.run Logging.LOG_reference fresh].
  destruct (GetDeadNode FLAGS_heartbeat_timeout now m) as [|id dead] eqn:Hdead; [done|].
  replace (0 <? zlen (id :: dead)) with true by by (symmetry; apply Z.ltb_lt).
  pose proof (dead_node_texts_some (id :: dead) m ltac:(done)) as Hne.
  destruct (dead_node_texts (id :: dead) m) as [texts m']. cbn [fst] in Hne. by rewrite logger_dangles.
Qed.
End passes.

(** ** Any schedule *)

Section schedules.
Context {C : Type} `{Communicator C}.
Context (draw : Z * Z → nat → Z) (FLAGS_max_cluster_node FLAGS_heartbeat_timeout : Z) (localtime : Z → Logging.tm).
Context (Hmax : 0 < FLAGS_max_cluster_node ≤ 2 ^ 30).
(** The number of nodes that registered. *)
Context (nodes : Z) (Hnodes : nodes ≤ FLAGS_max_cluster_node).
Notation run := (run draw FLAGS_max_cluster_node FLAGS_heartbeat_timeout localtime).
Notation take_turn := (take_turn draw FLAGS_max_cluster_node FLAGS_heartbeat_timeout localtime).
Notation main_loop := (main_loop draw FLAGS_max_cluster_node).
Notation GetDeadNode := (GetDeadNode FLAGS_heartbeat_timeout).
Implicit Types (m : Master C) (s : threads C).
Set Default Proof Using "Type*".

(** What every schedule preserves: the tables stay well-formed, the dead-node
    thread is between two passes and the mutex free, and a loop of the heartbeat
    thread has the length of the vector it runs over. *)
Record threads_inv s : Prop := {
  ti_wf : wf (config_ (master s));
  ti_nodes : node_id_ (config_ (master s)) = nodes;
  ti_idle : detect_at s = DdFind ∧ mu_ s = false;
  ti_loop : match heartbeat_at s with
    | HbAgents _ _ n => n = length (agent_id_ (config_ (master s)))
    | HbServers _ _ n => n = length (server_id_ (config_ (master s)))
    | _ => True
    end;
}.

(** [m'] is [m] but for what heartbeats do: the messages sent, and the flag of
    the configuration. *)
Record beside m m' : Prop := {
  bs_config : ∃ b, config_ m' = set_config_changed b (config_ m);
  bs_alive : alive_node_ m' = alive_node_ m;
  bs_terminated : terminated_node_ m' = terminated_node_ m;
  bs_detect : detect_dead_node_ m' = detect_dead_node_ m;
}.

(** The nodes report and send heartbeats; nobody registers any more. *)
Definition turn_ok (t : turn) : Prop :=
  match t with
  | Receive _ msg => running_msg msg ∧ (message_type msg = mt_heartbeat → 0 ≤ send_id msg < nodes)
  | _ => True
  end.

Lemma set_config_changed_wf b c : wf c → wf (set_config_changed b c).
Proof. by intros []; constructor. Qed.

Lemma beside_refl m : beside m m.
Proof. constructor; [|done..]. exists (config_changed_ (config_ m)). by destruct m as [[] ? ? ? ? ? ?]. Qed.

Lemma beside_trans m1 m2 m3 : beside m1 m2 → beside m2 m3 → beside m1 m3.
Proof.
  intros [[b1 H1] ? ? ?] [[b2 H2] ? ? ?]. constructor; [|congruence..]. exists b2. rewrite H2, H1. done.
Qed.

(** A turn that changes the configuration and the dead-node thread not at all. *)
Lemma heartbeat_same s s' :
  threads_inv s → config_ (master s') = config_ (master s) → alive_node_ (master s') = alive_node_ (master s) →
  terminated_node_ (master s') = terminated_node_ (master s) →
  detect_dead_node_ (master s') = detect_dead_node_ (master s) →
  detect_at s' = detect_at s → mu_ s' = mu_ s → terminated s' = terminated s →
  match heartbeat_at s' with
  | HbAgents _ _ n => n = length (agent_id_ (config_ (master s)))
  | HbServers _ _ n => n = length (server_id_ (config_ (master s)))
  | _ => True
  end → threads_inv s' ∧ beside (master s) (master s') ∧ terminated s' = terminated s.
Proof.
  intros [] Hc Ha Hn Hdd Hd Hmu Ht Hl. split_and!; [|constructor; try done|done].
  - constructor; rewrite ?Hc, ?Hd, ?Hmu; done.
  - exists (config_changed_ (config_ (master s))). rewrite Hc. by destruct (config_ (master s)).
Qed.

Lemma heartbeat_turn_inv s :
  threads_inv s → ∃ s', heartbeat_turn FLAGS_max_cluster_node s = Ok s' ∧
    threads_inv s' ∧ beside (master s) (master s') ∧ terminated s' = terminated s.
Proof.
  intros Hi. pose proof Hi as [Hwf Hn [Hd Hmu] Hl]. unfold heartbeat_turn.
  destruct (heartbeat_at s) as [| |conf|conf|conf i n|conf i n]; cbn [mret res_ret].
  - eexists. split; [done|]. apply heartbeat_same; try done. cbn. by destruct (config_changed_ _).
  - destruct (ToMessage_Ok _ Hwf) as (addrs & -> & _). eexists. split; [done|]. by apply heartbeat_same.
  - rewrite Hmu. eexists. split; [done|]. split_and!; [|constructor; cbn; try done; by eexists|done].
    constructor; cbn; try done. by apply set_config_changed_wf.
  - eexists. split; [done|]. by apply heartbeat_same.
  - destruct (decide (i < n)%nat) as [Hlt|]; [|eexists; split; [done|]; by apply heartbeat_same].
    destruct (vec_get_lt (agent_id_ (config_ (master s))) (Z.of_nat i)) as (id & -> & Hid); [lia|].
    pose proof Hwf as [_ _ _ Hr]. rewrite !Forall_app in Hr. destruct Hr as (_ & Hra & _).
    rewrite Forall_lookup in Hra. specialize (Hra _ _ Hid). rewrite Hn in Hra. cbn [mbind res_bind].
    unfold add32. rewrite i32_Ok by (unfold kInt32Min, kInt32Max; lia). eexists. split; [done|]. by apply heartbeat_same.
  - destruct (decide (i < n)%nat) as [Hlt|]; [|eexists; split; [done|]; by apply heartbeat_same].
    destruct (vec_get_lt (server_id_ (config_ (master s))) (Z.of_nat i)) as (id & -> & Hid); [lia|].
    eexists. split; [done|]. by apply heartbeat_same.
Qed.

Lemma detect_turn_inv now s :
  threads_inv s → detect_turn FLAGS_heartbeat_timeout localtime now s =
    match GetDeadNode now (master s) with [] => Ok s | _ => Fault Dangling end.
Proof.
  intros [_ _ [Hd Hmu] _]. unfold detect_turn. rewrite Hd. cbv zeta.
  destruct (GetDeadNode now (master s)) as [|id dead]; [done|].
  replace (0 <? zlen (id :: dead)) with true by by (symmetry; apply Z.ltb_lt).
  pose proof (dead_node_texts_some (id :: dead) (master s) ltac:(done)) as Hne.
  destruct (dead_node_texts (id :: dead) (master s)) as [texts m']. cbn [fst] in Hne. by rewrite logger_dangles.
Qed.

(** A message does to the master with its threads what it does to one alone. *)
Lemma MainLoop_beside now msg m m1 :
  running_msg msg → beside m m1 →
  ∃ m' m1' t, MainLoop_step draw FLAGS_max_cluster_node now msg m = Ok (m', t) ∧
    MainLoop_step draw FLAGS_max_cluster_node now msg m1 = Ok (m1', t) ∧ beside m' m1' ∧
    heartbeat_ m1' = heartbeat_ m1.
Proof.
  unfold running_msg, MainLoop_step. intros Hmsg Hb. pose proof Hb as [[b Hc] Ha Ht Hd].
  destruct (message_type msg) eqn:Hty; try done; try by (eexists _, _, _; split_and!; [done|done|done|done]).
  - destruct Hmsg as [Hh Hl]. unfold ProcessHeartbeatMsg. rewrite Hh, Hl. cbn. eexists _, _, _. split_and!; [done|done| |done].
    constructor; cbn; [|by rewrite Ha|done|done]. exists b. rewrite Hc. unfold GetIp, set_config_changed. cbn.
    by destruct (map_at _ _ _).
  - set (add := λ m : Master C, m <| terminated_node_ ::= λ l, {[ send_id msg ]} ∪ l |>).
    exists (add m), (add m1), (Z.of_nat (size (terminated_node_ (add m))) =? to_size_t (worker_num_ (config_ m))).
    split_and!; [done| | |done].
    { unfold add. cbn. by rewrite Hc, Ht. }
    constructor; cbn; [by exists b|done|by rewrite Ht|done].
Qed.

(** A message of a running cluster leaves the tables alone. *)
Lemma running_tables now msg m :
  running_msg msg → (message_type msg = mt_heartbeat → is_Some (id_to_addr_ (config_ m) !! send_id msg)) →
  ensures (MainLoop_step draw FLAGS_max_cluster_node now msg m) (λ r,
    config_ r.1 = config_ m ∧
    ∀ id t, alive_node_ r.1 !! id = Some t →
      alive_node_ m !! id = Some t ∨ (message_type msg = mt_heartbeat ∧ id = send_id msg ∧ t = now)).
Proof.
  unfold running_msg, MainLoop_step. intros Hmsg Hs. destruct (message_type msg) eqn:Ht; try done.
  all: try (apply ensures_ret; split; [done|]; cbn; by left).
  destruct Hmsg as [Hh Hl]. unfold ProcessHeartbeatMsg. rewrite Hh, Hl. cbn.
  rewrite GetIp_known by by apply Hs. split; [done|].
  intros id t [[<- <-]|[_ Hid]]%lookup_insert_Some; [by right|by left].
Qed.

(** The main loop alone, which has ended or goes on. *)
Definition loop_from (ended : bool) (msgs : list (Z * Message)) m : res (Master C * bool) :=
  if ended then Ok (m, true) else main_loop msgs m.

Lemma loop_from_app b l1 l2 m : loop_from b (l1 ++ l2) m = ('(m', b') ← loop_from b l1 m; loop_from b' l2 m').
Proof.
  destruct b; [done|]. cbn [loop_from]. revert m. induction l1 as [|[now msg] l1 IH]; intros m; [done|].
  cbn [app Master.main_loop]. destruct (MainLoop_step _ _ now msg m) as [[m1 []]|f]; [done|exact (IH m1)|done].
Qed.

(** One turn. *)
Lemma take_turn_outcome t s m :
  turn_ok t → threads_inv s → beside m (master s) →
  (take_turn t s = Fault Dangling ∧ ∃ now, t = Detect now ∧ detect_dead_node_ m = true ∧ GetDeadNode now m ≠ []) ∨
  ∃ s' m', take_turn t s = Ok s' ∧ threads_inv s' ∧ beside m' (master s') ∧
    loop_from (terminated s) (received [t]) m = Ok (m', terminated s') ∧
    ∀ now, t = Detect now → detect_dead_node_ m = true → GetDeadNode now m = [].
Proof.
  intros Hok Hi Hb. assert (∀ m, loop_from (terminated s) [] m = Ok (m, terminated s)) as Hnone
    by by intros ?; destruct (terminated s).
  destruct t as [|now|now msg]; cbn [MasterThreads.take_turn received omap list_omap].
  - right. destruct (heartbeat_ (master s)).
    + destruct (heartbeat_turn_inv s Hi) as (s' & -> & Hi' & Hb' & Ht'). exists s', m.
      rewrite Hnone, Ht'. split_and!; [done|done|by eapply beside_trans|done|done].
    + exists s, m. by rewrite Hnone.
  - destruct (detect_dead_node_ (master s)) eqn:Hd; rewrite (bs_detect _ _ Hb) in Hd.
    + rewrite (detect_turn_inv now s Hi).
      assert (GetDeadNode now (master s) = GetDeadNode now m) as ->
        by (unfold Master.GetDeadNode; by rewrite (bs_alive _ _ Hb)).
      destruct (GetDeadNode now m) as [|id dead] eqn:Hg; [right|left].
      * exists s, m. rewrite Hnone. split_and!; [done|done|done|done|]. by intros ? [= <-] _.
      * split; [done|]. exists now. by rewrite Hg.
    + right. exists s, m. rewrite Hnone. split_and!; [done|done|done|done|]. intros ? _. by rewrite Hd.
  - right. destruct Hok as [Hmsg Hsender]. unfold main_turn. destruct (terminated s) eqn:Hterm; [exists s, m; by rewrite Hterm|].
    cbn [loop_from Master.main_loop].
    destruct (MainLoop_beside now msg m (master s) Hmsg Hb) as (m' & m1' & t & Hs1 & Hs2 & Hb' & _).
    pose proof (running_tables now msg (master s) Hmsg) as Htab. rewrite Hs1, Hs2 in *.
    cbn [mbind res_bind mret res_ret fst] in Htab |- *. pose proof Hi as [Hwf Hn Hidle Hl].
    destruct Htab as [Hc _]; [intros Hhb; apply (wf_addr _ Hwf); rewrite Hn; by apply Hsender|].
    eexists _, m'. split_and!; [done| |done|by destruct t|done].
    cbn in Hc. by constructor; cbn; rewrite ?Hc.
Qed.

Lemma received_cons t ts : received (t :: ts) = received [t] ++ received ts.
Proof. by destruct t. Qed.

Lemma run_outcome ts s m :
  threads_inv s → beside m (master s) → Forall turn_ok ts →
  match run ts s with
  | Ok s' => ∃ m', loop_from (terminated s) (received ts) m = Ok (m', terminated s') ∧
      threads_inv s' ∧ beside m' (master s') ∧
      ∀ ts1 now ts2, ts = ts1 ++ Detect now :: ts2 → ∃ m1 t1, loop_from (terminated s) (received ts1) m = Ok (m1, t1) ∧
        (detect_dead_node_ m1 = true → GetDeadNode now m1 = [])
  | Fault f => f = Dangling ∧ ∃ ts1 now ts2 m1 t1, ts = ts1 ++ Detect now :: ts2 ∧
      loop_from (terminated s) (received ts1) m = Ok (m1, t1) ∧ detect_dead_node_ m1 = true ∧ GetDeadNode now m1 ≠ []
  end.
Proof.
  intros Hi Hb Hts. revert s m Hi Hb. induction Hts as [|t ts Ht _ IH]; intros s m Hi Hb.
  { cbn. exists m. split_and!; [by destruct (terminated s)|done|done|]. by intros [|? ?] ? ? [=]. }
  destruct (take_turn_outcome t s m Ht Hi Hb) as [(Hf & now & -> & Hd & Hg)|(s1 & m1 & Hs & Hi1 & Hb1 & Hl & Hg)].
  { rewrite (run_fault _ _ _ _ _ _ _ _ Hf). split; [done|]. exists [], now, ts, m, (terminated s).
    split_and!; [done|by destruct (terminated s)|done|done]. }
  rewrite (run_cons _ _ _ _ _ _ _ _ Hs).
  assert (∀ l, loop_from (terminated s) (received (t :: l)) m = loop_from (terminated s1) (received l) m1) as Hcons
    by (intros l; rewrite received_cons, loop_from_app, Hl; done).
  specialize (IH s1 m1 Hi1 Hb1). destruct (run ts s1) as [s'|f].
  - destruct IH as (m' & Hl' & Hi' & Hb' & Hq). exists m'. rewrite Hcons. split_and!; [done|done|done|].
    intros [|t1 ts1] now ts2; cbn [app]; intros [= -> Heq].
    + exists m, (terminated s). split; [by destruct (terminated s)|]. by apply Hg.
    + rewrite Hcons. by eapply Hq.
  - destruct IH as (-> & ts1 & now & ts2 & m2 & t2 & -> & Hl' & Hd & Hg'). split; [done|].
    exists (t :: ts1), now, ts2, m2, t2. by rewrite Hcons.
Qed.

(** C22: the three threads in any order. From a running cluster, whatever turns
    the heartbeat thread and the dead-node thread take between the messages of
    the main loop, the master comes to what the main loop makes of the same
    messages alone: the same verdict on termination, the same nodes heard of
    and reported, the same tables, but for the messages sent and the flag that
    heartbeats clear. No loop of a heartbeat runs past its vector. The only
    fault is a pass of the dead-node thread that finds a node silent for longer
    than the timeout, which writes to a stream that has ended; and every such
    pass is one. *)
Theorem threads_main_loop ts s
    (Hi : threads_inv s) (Hgoing : terminated s = false) (Hts : Forall turn_ok ts) :
  match run ts s with
  | Ok s' => ∃ m', main_loop (received ts) (master s) = Ok (m', terminated s') ∧
      threads_inv s' ∧ beside m' (master s') ∧
      ∀ ts1 now ts2, ts = ts1 ++ Detect now :: ts2 → ∃ m1 t1, main_loop (received ts1) (master s) = Ok (m1, t1) ∧
        (detect_dead_node_ m1 = true → GetDeadNode now m1 = [])
  | Fault f => f = Dangling ∧ ∃ ts1 now ts2 m1 t1, ts = ts1 ++ Detect now :: ts2 ∧
      main_loop (received ts1) (master s) = Ok (m1, t1) ∧ detect_dead_node_ m1 = true ∧ GetDeadNode now m1 ≠ []
  end.
Proof. pose proof (run_outcome ts s (master s) Hi (beside_refl _) Hts) as Hrun. by rewrite Hgoing in Hrun. Qed.
End schedules.

(** ** Witnesses

    The cluster of MasterLoop.v (servers 1 and 3, agents 2 and 4) with both
    threads started; nodes 3 and 4 were last heard of at 77. *)

Definition watched_master : Master Trace :=
  silent_master <| heartbeat_ := true |> <| detect_dead_node_ := true |>.

(** A heartbeat with the reports of both workers and three early passes in the
    middle of it. *)
Definition busy_schedule : list turn :=
  [Heartbeat; Receive 101 (report 2); Detect 102; Heartbeat; Heartbeat; Heartbeat; Heartbeat; Detect 103;
   Heartbeat; Heartbeat; Heartbeat; Detect 104; Receive 105 (report 4); Heartbeat; Detect 137].

Lemma watched_inv : threads_inv 5 (resting watched_master false Logging.silent).
Proof. constructor; [exact drawn_wf|by vm_compute|done|done]. Qed.

Example threads_main_loop_witness :
  match run count_draw 10000 60 (λ _, Logging.noon) busy_schedule (resting watched_master false Logging.silent) with
  | Ok s' => ∃ m', main_loop count_draw 10000 (received busy_schedule) watched_master = Ok (m', terminated s') ∧
      threads_inv 5 s' ∧ beside m' (master s') ∧
      ∀ ts1 now ts2, busy_schedule = ts1 ++ Detect now :: ts2 →
        ∃ m1 t1, main_loop count_draw 10000 (received ts1) watched_master = Ok (m1, t1) ∧
        (detect_dead_node_ m1 = true → GetDeadNode 60 now m1 = [])
  | Fault f => f = Dangling ∧ ∃ ts1 now ts2 m1 t1, busy_schedule = ts1 ++ Detect now :: ts2 ∧
      main_loop count_draw 10000 (received ts1) watched_master = Ok (m1, t1) ∧
      detect_dead_node_ m1 = true ∧ GetDeadNode 60 now m1 ≠ []
  end.
Proof.
  apply (threads_main_loop count_draw 10000 60 (λ _, Logging.noon) Hmax_test 5 ltac:(lia) busy_schedule
    (resting watched_master false Logging.silent) watched_inv); [done|by repeat constructor].
Defined.

(** This schedule goes through; with one pass after 137 it does not. *)
Example busy_schedule_ends : ∃ s',
  run count_draw 10000 60 (λ _, Logging.noon) busy_schedule (resting watched_master false Logging.silent) = Ok s' ∧
  terminated s' = true.
Proof. eexists. split; by vm_compute. Qed.

Example busy_schedule_faults :
  run count_draw 10000 60 (λ _, Logging.noon) (busy_schedule ++ [Detect 138]) (resting watched_master false Logging.silent) =
    Fault Dangling.
Proof. by vm_compute. Qed.
