(* ===== verification/Formation.v ===== *)
(** * From the last registration to a cluster that trains

    The master, the agents and the servers put together: the message the master
    sends when the cluster is complete configures every node, and what the nodes
    then hold is what an iteration of training (TrainingPull.v) starts from. And
    what becomes of the master when it first looks for dead nodes after the
    timeout. *)

From S2P Require Import Prelude CppStd Decimal Logging Float32 Messages Communicator Partition Channel.
From S2P Require Import KeyValueList Ssp Server ServerMerge ServerInv ServerInit.
From S2P Require Import Agent AgentSort Slices AgentPush AgentPull AgentProps AgentConfig.
From S2P Require Import TaskConfig TaskConfigProps Master MasterConfig MasterProps MasterLoop.
From S2P Require Import System Training MasterThreads MasterThreadsProps.
From Stdlib Require String.
From stdpp Require Import options.

#[local] Existing Instances Server.Server_eta Agent.Agent_eta Master.Master_eta.

Section formation.
Context {C D E : Type} `{CommunicatorLaws C} `{CommunicatorLaws D} `{CommunicatorLaws E}.
Implicit Types (s : Server.Server C) (a : Agent.Agent D) (m : Master.Master E).
Set Default Proof Using "Type*".

(** ** A server and the agents of its configuration *)

Lemma configured_idle c i s : configured c i s → Server.version_buffer_ s = replicate (Z.to_nat (worker_num c)) [].
Proof.
  intros [_ _ _ _ _ _ _ _ _ _ Hv Hc _]. unfold abs in Hc. rewrite Hv in Hc.
  apply list_eq_same_length with (Z.to_nat (worker_num c)).
  - by rewrite length_replicate.
  - apply (f_equal length) in Hc. by rewrite length_fmap, length_replicate in Hc.
  - intros j b x Hj Hb Hx. apply lookup_replicate in Hx as [-> _].
    assert (((λ b, 0 + zlen b) <$> Server.version_buffer_ s) !! j = Some (0 + zlen b)) as Hl
      by by rewrite list_lookup_fmap, Hb.
    rewrite Hc in Hl. apply lookup_replicate in Hl as [Hl _]. destruct b; [done|cbn in Hl; lia].
Qed.

(** A configured server is ready for the agents its configuration lists. *)
Lemma configured_ready c i s (gs : list (Agent.Agent D)) :
  config_ok c → configured c i s → inv s →
  NoDup (worker_id c) → (∀ x, x ∈ worker_id c → x ∉ server_id c) →
  Agent.local_id_ <$> gs = worker_id c → server_ready c gs i s.
Proof.
  intros Hok Hcf Hinv Hnd Hdisj Hgs.
  assert (length gs = length (worker_id c)) as Hlen by by rewrite <- Hgs, length_fmap.
  pose proof (cf_worker_ids c Hok) as Hw. pose proof (configured_idle c i s Hcf) as Hidle.
  assert (∀ j a, gs !! j = Some a → worker_id c !! j = Some (Agent.local_id_ a)) as Hid
    by (intros j a Hj; by rewrite <- Hgs, list_lookup_fmap, Hj).
  constructor.
  - done.
  - by apply configured_serves.
  - destruct Hinv as [Hcore _]. pose proof (ci_buffers _ _ _ _ (co_counts s Hcore)) as Hb.
    rewrite Hidle, length_replicate in Hb. lia.
  - apply Forall_lookup. intros j a Hj. specialize (Hid j a Hj). split.
    + rewrite (cd_agents c i s Hcf). apply elem_of_list_to_set. by eapply list_elem_of_lookup_2.
    + apply eq_None_not_Some. intros [k Hk]. apply (cd_servers c i s Hcf) in Hk as [_ Hk].
      apply (Hdisj (Agent.local_id_ a)); by eapply list_elem_of_lookup_2.
  - intros j a Hj. specialize (Hid j a Hj). destruct (cd_index c i s Hcf) as [Hix1 Hix2].
    pose proof (lookup_lt_Some _ _ _ Hj).
    destruct (Hix2 (Z.of_nat j) (Agent.local_id_ a)) as [k Hk]; [lia|by rewrite Nat2Z.id|].
    rewrite Hk. apply Hix1 in Hk as [Hkr Hk]. pose proof (NoDup_lookup _ _ _ _ Hnd Hk Hid). f_equal. lia.
  - rewrite Hidle. f_equal. lia.
  - apply (cd_id c i s Hcf).
Qed.

(** ** Every node reads its message *)

Lemma configure_agents c ids (ags : list (Agent.Agent D)) :
  routable c → length ids = length ags →
  Forall (λ a, ∀ x, x ∈ server_id c → book (Agent.sender_ a) !! x = None) ags →
  ∃ ags', Forall3 (λ id a a', Agent.configure (Master.config_message id c) a = Ok a') ids ags ags' ∧
    Forall2 (λ id a', ready a' ∧ Agent.local_id_ a' = id ∧ Agent.partition_ a' = config_partition c ∧
      Agent.server_ids_ a' = server_id c) ids ags'.
Proof.
  intros Hro Hlen Hnew. revert ids Hlen.
  induction Hnew as [|a ags Ha _ IH]; intros [|id ids] Hlen; try done.
  - exists []. split; constructor.
  - destruct (IH ids) as (ags' & Hcfs & Hspec); [cbn in Hlen; lia|].
    destruct (configure_routes c (Master.config_message id c) a eq_refl Hro Ha)
      as (a' & Hcf & Hready & Hid & Hp & Hids & _).
    exists (a' :: ags'). by split; constructor.
Qed.

Lemma configure_servers c (chs : list (C * string)) ids :
  config_ok c → length ids = length chs →
  (∀ j id, ids !! j = Some id → ∃ i, 0 ≤ i ∧ server_id c !! Z.to_nat i = Some id) →
  ∃ ss, Forall3 (λ id ch s, Server.configure (Master.config_message id c)
      ((Server.new_server ch.1) <| Server.local_address_ := ch.2 |>) = Ok (s, true)) ids chs ss ∧
    Forall2 (λ id s, ∀ i, 0 ≤ i → server_id c !! Z.to_nat i = Some id → configured c i s ∧ inv s) ids ss.
Proof.
  intros Hok. revert ids. induction chs as [|[ch addr] chs IH]; intros [|id ids] Hlen Hids; try done.
  - exists []. split; constructor.
  - destruct (IH ids) as (ss & Hcfs & Hspec); [cbn in Hlen; lia|intros j id' Hj; by apply (Hids (S j))|].
    destruct (Hids 0%nat id eq_refl) as (i & Hi & Hid).
    destruct (configure_Ok c (Master.config_message id c) i ch addr Hok eq_refl Hi Hid) as (s & Hs & Hcf & Hinv & _).
    exists (s :: ss). split; constructor; try done.
    intros i' Hi' Hid'. pose proof (NoDup_lookup _ _ _ _ (cf_nodup c Hok) Hid Hid').
    replace i' with i by lia. done.
Qed.

(** ** The whole cluster *)

Context (FLAGS_max_cluster_node : Z) (Hmax : 0 < FLAGS_max_cluster_node ≤ 2 ^ 30).
Context (draw : Z * Z → nat → Z) (Hdraw : ∀ lo hi n, lo ≤ hi → lo ≤ draw (lo, hi) n ≤ hi).

(** Drawing the partition leaves the nodes as they are. *)
Lemma generated m1 cfg :
  complete FLAGS_max_cluster_node m1 → TaskConfig.GeneratePartition draw (Master.config_ m1) = Ok cfg →
  TaskConfig.wf cfg ∧ TaskConfig.agent_id_ cfg = TaskConfig.agent_id_ (Master.config_ m1) ∧
  TaskConfig.server_id_ cfg = TaskConfig.server_id_ (Master.config_ m1) ∧
  TaskConfig.node_id_ cfg = TaskConfig.node_id_ (Master.config_ m1).
Proof.
  intros Hm1 Hgen. pose proof (cm_wf _ _ Hm1) as Hwf. pose proof (cm_flags _ _ Hm1) as Hfl.
  destruct (GeneratePartition_Ok draw Hdraw (Master.config_ m1)) as (points & g & Hgen' & _);
    [destruct Hfl; lia|rewrite (fo_draws _ Hfl); cbn; destruct Hfl; lia|].
  rewrite Hgen in Hgen'. injection Hgen' as ->. split_and!; [destruct Hwf; by constructor|done|done|done].
Qed.

(** The nodes the configuration message lists. *)
Lemma message_nodes m1 cfg c :
  complete FLAGS_max_cluster_node m1 →
  TaskConfig.GeneratePartition draw (Master.config_ m1) = Ok cfg → TaskConfig.ToMessage cfg = Ok c →
  worker_id c = TaskConfig.agent_id_ (Master.config_ m1) ∧ server_id c = TaskConfig.server_id_ (Master.config_ m1) ∧
  NoDup (worker_id c) ∧ ∀ x, x ∈ worker_id c → x ∉ server_id c.
Proof.
  intros Hm1 Hgen Hto. destruct (generated m1 cfg Hm1 Hgen) as (Hwf & <- & <- & _).
  destruct (ToMessage_Ok cfg Hwf) as (addrs & Hto' & _). rewrite Hto in Hto'. injection Hto' as ->.
  pose proof Hwf as [_ _ Hnd _]. apply NoDup_app in Hnd as (_ & Hdisj & Hnd). apply NoDup_app in Hnd as (Hnd & _ & _).
  split_and!; [done|done|done|]. intros x Hx Hxs. apply (Hdisj x Hxs). apply elem_of_app. by left.
Qed.

(** C5: the last registration leads to a cluster that can train. When a
    registration makes the cluster complete, the master sends every node one
    and the same configuration, with the agents and servers in the order they
    registered. Whatever their communicators, every agent and every server
    accepts its message: the agents hold the partition and the ids of all
    servers and can push and pull; the server at each index owns the arc of its
    starting point with all parameters zero, knows every agent by its index, and
    is in the state from which an iteration of training starts, whatever
    gradients the workers hand to the agents. *)
Theorem cluster_forms m m1 cur_time msg
    (Htype : message_type msg = mt_register) (Hreg : Master.ProcessRegisterMsg msg m = Ok m1)
    (Hm1 : complete FLAGS_max_cluster_node m1)
    (Hthreads : Master.heartbeat_ m1 = false ∧ Master.detect_dead_node_ m1 = false) :
  ∃ m' c, Master.MainLoop_step draw FLAGS_max_cluster_node cur_time msg m = Ok (m', false) ∧
    outbox (Master.sender_ m') = outbox (Master.sender_ m1) ++ deliveries c (TaskConfig.node_id_ (Master.config_ m1)) ∧
    worker_id c = TaskConfig.agent_id_ (Master.config_ m1) ∧ server_id c = TaskConfig.server_id_ (Master.config_ m1) ∧
    config_ok c ∧ routable c ∧
    ∀ (ags : list (Agent.Agent D)) (chs : list (C * string)),
      length (worker_id c) = length ags → length (server_id c) = length chs →
      Forall (λ a, ∀ x, x ∈ server_id c → book (Agent.sender_ a) !! x = None) ags →
      ∃ ags' ss,
        Forall3 (λ id a a', Agent.configure (Master.config_message id c) a = Ok a') (worker_id c) ags ags' ∧
        Forall2 (λ id a', ready a' ∧ Agent.local_id_ a' = id ∧ Agent.partition_ a' = config_partition c ∧
          Agent.server_ids_ a' = server_id c) (worker_id c) ags' ∧
        Forall3 (λ id ch s, Server.configure (Master.config_message id c)
          ((Server.new_server ch.1) <| Server.local_address_ := ch.2 |>) = Ok (s, true)) (server_id c) chs ss ∧
        ∀ i s (gs : list (Agent.Agent D)), 0 ≤ i → ss !! Z.to_nat i = Some s →
          Agent.local_id_ <$> gs = worker_id c →
          configured c i s ∧ server_ready c gs i s ∧ Server.bottom_version_ s < kInt32Max.
Proof.
  destruct (completes_Ok FLAGS_max_cluster_node Hmax draw Hdraw m m1 cur_time msg Htype Hreg Hm1 Hthreads)
    as (m' & cfg & c & Hstep & Hgen & _ & Hto & Hok & Hro & _ & Hout & _).
  destruct (message_nodes m1 cfg c Hm1 Hgen Hto) as (Hw & Hse & Hnd & Hdisj).
  exists m', c. split_and!; [done..|]. intros ags chs Hla Hls Hnew.
  destruct (configure_agents c (worker_id c) ags Hro Hla Hnew) as (ags' & Hags & Hags').
  destruct (configure_servers c chs (server_id c) Hok Hls) as (ss & Hss & Hss').
  { intros j id Hj. exists (Z.of_nat j). split; [lia|by rewrite Nat2Z.id]. }
  exists ags', ss. split_and!; [done..|]. intros i s gs Hi Hs Hgs.
  destruct (Forall2_lookup_r _ _ _ _ _ Hss' Hs) as (id & Hid & Hcf). destruct (Hcf i Hi Hid) as [Hc Hinv].
  split_and!; [done| |by rewrite (cd_version c i s Hc)].
  by apply configured_ready.
Qed.
End formation.

(** ** The first pass for dead nodes *)

Import MasterThreads.

Section healthy.
Context {E : Type} `{CommunicatorLaws E}.
Context (FLAGS_max_cluster_node FLAGS_heartbeat_timeout : Z) (Hmax : 0 < FLAGS_max_cluster_node ≤ 2 ^ 30).
Context (draw : Z * Z → nat → Z) (Hdraw : ∀ lo hi n, lo ≤ hi → lo ≤ draw (lo, hi) n ≤ hi).
Context (localtime : Z → Logging.tm).
Implicit Types m : Master.Master E.
Set Default Proof Using "Type*".

(** The master counts itself, node 0, among the nodes heard of at [start], has
    not heard of itself since, and the clock goes forward. *)
Definition alive_from (start : Z) m : Prop :=
  Master.alive_node_ m !! 0 = Some start ∧ (∀ id t, Master.alive_node_ m !! id = Some t → start ≤ t) ∧
  Master.detect_dead_node_ m = true.

(** The messages of nodes that live: they come after [start], and heartbeats
    are those of nodes other than the master. *)
Definition from_nodes (start nodes : Z) (t : turn) : Prop :=
  match t with
  | Receive now msg => start ≤ now ∧ running_msg msg ∧ (message_type msg = mt_heartbeat → 0 < send_id msg < nodes)
  | _ => True
  end.

Lemma alive_from_step start nodes now msg m m' t :
  from_nodes start nodes (Receive now msg) → alive_from start m →
  Master.MainLoop_step draw FLAGS_max_cluster_node now msg m = Ok (m', t) → alive_from start m'.
Proof.
  intros (Hnow & Hmsg & Hsend) (Hself & Hall & Hdet). unfold running_msg, Master.MainLoop_step in *.
  destruct (message_type msg) eqn:Hty; try done; try by intros [= <- _].
  destruct Hmsg as [Hh Hl]. unfold Master.ProcessHeartbeatMsg. rewrite Hh, Hl. cbn. intros [= <- _].
  specialize (Hsend eq_refl). split_and!; cbn; [rewrite lookup_insert_ne by lia; done| |done].
  intros id x [[_ <-]|[_ Hx]]%lookup_insert_Some; [done|by eapply Hall].
Qed.

Lemma alive_from_loop start nodes ts : ∀ m m' t,
  Forall (from_nodes start nodes) ts → alive_from start m →
  Master.main_loop draw FLAGS_max_cluster_node (received ts) m = Ok (m', t) → alive_from start m'.
Proof.
  induction ts as [|[| |now msg] ts IH]; intros m m' t Hts Hm; inversion_clear Hts as [|? ? Ht Hts'].
  - by intros [= <- _].
  - by apply IH.
  - by apply IH.
  - cbn [received omap list_omap Master.main_loop].
    destruct (Master.MainLoop_step _ _ now msg m) as [[m1 t1]|f] eqn:Hs; [|done]. cbn [mbind res_bind].
    pose proof (alive_from_step start nodes now msg m m1 t1 Ht Hm Hs) as Hm1.
    destruct t1; [by intros [= <- _]|by apply IH].
Qed.

Lemma complete_nodes m1 : complete FLAGS_max_cluster_node m1 → 0 < TaskConfig.node_id_ (Master.config_ m1).
Proof.
  intros [Hwf Hready Hfl _ _ _ _]. pose proof Hwf as [_ _ _ Hr]. destruct Hfl as [Hs Hw _ _ _ _].
  assert (2 ^ 30 ≤ kInt32Max) by done. apply Ready_spec in Hready as [_ Ha]; [|lia..].
  rewrite !Forall_app in Hr. destruct Hr as (_ & Hra & _).
  destruct (TaskConfig.agent_id_ (Master.config_ m1)) as [|id l]; [cbn in Ha; lia|]. inversion_clear Hra. lia.
Qed.

(** C14: a healthy cluster's master does not outlast the timeout. The
    registration that completes the cluster, at [start], enters every node into
    [alive_node_], the master (node 0) too, which never sends itself a
    heartbeat. However alive all other nodes are, and however the three threads
    take turns from then on: as long as [DetectDeadNode] makes its passes within
    the timeout after [start], nothing faults; with the first pass later than
    that the run ends in undefined behaviour, because that pass takes the master
    for dead and writes its name to a stream that has ended. *)
Theorem healthy_cluster_stops m m1 start msg ts w
    (Htype : message_type msg = mt_register) (Hreg : Master.ProcessRegisterMsg msg m = Ok m1)
    (Hm1 : complete FLAGS_max_cluster_node m1)
    (Hthreads : Master.heartbeat_ m1 = false ∧ Master.detect_dead_node_ m1 = false)
    (Hnone : Master.alive_node_ m1 = ∅)
    (Hts : Forall (from_nodes start (TaskConfig.node_id_ (Master.config_ m1))) ts) :
  match run draw FLAGS_max_cluster_node FLAGS_heartbeat_timeout localtime (Receive start msg :: ts) (resting m false w) with
  | Ok _ => ∀ now, Detect now ∈ ts → now ≤ start + FLAGS_heartbeat_timeout
  | Fault f => f = Dangling ∧ ∃ now, Detect now ∈ ts ∧ start + FLAGS_heartbeat_timeout < now
  end.
Proof.
  destruct (completes_Ok FLAGS_max_cluster_node Hmax draw Hdraw m m1 start msg Htype Hreg Hm1 Hthreads)
    as (m' & cfg & c & Hstep & Hgen & Hcfg & Hto & _ & _ & _ & _ & _ & Hids & _ & Hdet & _ & Hal).
  destruct (generated FLAGS_max_cluster_node Hmax draw Hdraw m1 cfg Hm1 Hgen) as (Hwf & _ & _ & Hnodes).
  set (nodes := TaskConfig.node_id_ (Master.config_ m1)) in *.
  assert (alive_from start m') as Hfrom.
  { split_and!; [|intros id t [Hx|[-> _]]%Hal; [by rewrite Hnone, lookup_empty in Hx|done]|done].
    apply Hids. pose proof (complete_nodes m1 Hm1). unfold nodes. lia. }
  rewrite (run_cons _ _ _ _ _ _ _ (resting m' false w)); [|by cbn; unfold main_turn; cbn; rewrite Hstep].
  pose proof (run_outcome draw FLAGS_max_cluster_node FLAGS_heartbeat_timeout localtime Hmax nodes
    (cm_nodes _ _ Hm1) ts (resting m' false w) m') as Hrun.
  lapply Hrun; [clear Hrun; intros Hrun|by constructor; cbn; rewrite ?Hcfg].
  specialize (Hrun (beside_refl m')). lapply Hrun; [clear Hrun; intros Hrun|].
  2:{ eapply Forall_impl; [exact Hts|]. intros [| |now msg'] Ht; [done..|]. destruct Ht as (_ & Hr & Hs).
      split; [done|]. intros Hhb. specialize (Hs Hhb). lia. }
  cbn [terminated resting loop_from] in Hrun.
  assert (∀ ts1 now ts2 m2 t2, ts = ts1 ++ Detect now :: ts2 →
    Master.main_loop draw FLAGS_max_cluster_node (received ts1) m' = Ok (m2, t2) → alive_from start m2) as Hat.
  { intros ts1 now ts2 m2 t2 -> Hl. apply Forall_app in Hts as [Hts _]. by eapply alive_from_loop. }
  destruct (run _ _ _ _ ts _) as [s'|f].
  - destruct Hrun as (_ & _ & _ & _ & Hq). intros now (ts1 & ts2 & Heq)%list_elem_of_split.
    destruct (Hq ts1 now ts2 Heq) as (m2 & t2 & Hl & Hg). destruct (Hat ts1 now ts2 m2 t2 Heq Hl) as (Hself & _ & Hd).
    specialize (Hg Hd). rewrite GetDeadNode_none in Hg. by apply (Hg 0).
  - destruct Hrun as (-> & ts1 & now & ts2 & m2 & t2 & Heq & Hl & _ & Hg). split; [done|]. exists now.
    split; [rewrite Heq; apply elem_of_app; right; by left|].
    destruct (Hat ts1 now ts2 m2 t2 Heq Hl) as (_ & Hall & _). apply Z.nle_gt. intros Hle. apply Hg.
    apply GetDeadNode_none. intros id t Ht. specialize (Hall id t Ht). lia.
Qed.
End healthy.

(** ** Witnesses

    The cluster of MasterProps.v: servers 1 and 3, agents 2 and 4. *)

Example cluster_forms_witness :
  ∃ m' c, Master.MainLoop_step count_draw 10000 77 last_registration master_before = Ok (m', false) ∧
    outbox (Master.sender_ m') = outbox (Master.sender_ master_complete) ++
      deliveries c (TaskConfig.node_id_ (Master.config_ master_complete)) ∧
    worker_id c = TaskConfig.agent_id_ (Master.config_ master_complete) ∧
    server_id c = TaskConfig.server_id_ (Master.config_ master_complete) ∧
    config_ok c ∧ routable c ∧
    ∀ (ags : list (Agent.Agent Trace)) (chs : list (Trace * string)),
      length (worker_id c) = length ags → length (server_id c) = length chs →
      Forall (λ a, ∀ x, x ∈ server_id c → book (Agent.sender_ a) !! x = None) ags →
      ∃ ags' ss,
        Forall3 (λ id a a', Agent.configure (Master.config_message id c) a = Ok a') (worker_id c) ags ags' ∧
        Forall2 (λ id a', ready a' ∧ Agent.local_id_ a' = id ∧ Agent.partition_ a' = config_partition c ∧
          Agent.server_ids_ a' = server_id c) (worker_id c) ags' ∧
        Forall3 (λ id ch s, Server.configure (Master.config_message id c)
          ((Server.new_server ch.1) <| Server.local_address_ := ch.2 |>) = Ok (s, true)) (server_id c) chs ss ∧
        ∀ i s (gs : list (Agent.Agent Trace)), 0 ≤ i → ss !! Z.to_nat i = Some s →
          Agent.local_id_ <$> gs = worker_id c →
          configured c i s ∧ server_ready c gs i s ∧ Server.bottom_version_ s < kInt32Max.
Proof.
  exact (cluster_forms 10000 Hmax_test count_draw count_draw_ok
    master_before master_complete 77 last_registration eq_refl last_registration_Ok master_complete_ok threads_test).
Defined.

(** Everybody but the master answers, and the threads take turns; the pass at
    time 138 is the first one more than 60 seconds after the registration. *)
Definition beat (id : Z) : Message := mkMessage id 0 mt_heartbeat None None (Some (mkHeartbeat true 0)) None.
Definition healthy_schedule : list turn :=
  [Heartbeat; Receive 100 (beat 1); Receive 100 (beat 2); Detect 107; Heartbeat; Receive 100 (beat 3);
   Receive 100 (beat 4); Detect 137; Receive 137 (beat 1); Receive 137 (beat 2); Receive 137 (beat 3);
   Receive 137 (beat 4); Detect 138].

Example healthy_cluster_stops_witness :
  match run count_draw 10000 60 (λ _, Logging.noon) (Receive 77 last_registration :: healthy_schedule)
      (resting master_before false Logging.silent) with
  | Ok _ => ∀ now, Detect now ∈ healthy_schedule → now ≤ 77 + 60
  | Fault f => f = Dangling ∧ ∃ now, Detect now ∈ healthy_schedule ∧ 77 + 60 < now
  end.
Proof.
  apply (healthy_cluster_stops 10000 60 Hmax_test count_draw count_draw_ok (λ _, Logging.noon)
    master_before master_complete 77 last_registration healthy_schedule Logging.silent eq_refl last_registration_Ok
    master_complete_ok threads_test).
  - by vm_compute.
  - assert (TaskConfig.node_id_ (Master.config_ master_complete) = 5) as -> by by vm_compute.
    by repeat first [apply Forall_cons_2|apply Forall_nil_2|split].
Defined.

Example healthy_schedule_faults :
  run count_draw 10000 60 (λ _, Logging.noon) (Receive 77 last_registration :: healthy_schedule)
    (resting master_before false Logging.silent) = Fault Dangling.
Proof. by vm_compute. Qed.
