(* ===== verification/Resources.v ===== *)
(** * Descriptors, shared memory and ports (src/channel/, src/util/network_util.h)

    The functions that only talk to the operating system: mapping the shared
    memory ([SharedMemory::Initialize]), opening and closing the named pipes
    ([Fifo::Open], [Fifo::CloseFifo]) and asking for a free port
    ([GetAvailablePort]). The system is a parameter with the documented behaviour
    of its calls; the file shows what processes find in the memory they map, and
    which descriptors are left open. *)

From S2P Require Import Prelude Float32 Decimal Channel Fifo.
From stdpp Require Import options.

Module Resources.

(** ** The system *)

(** What is behind a descriptor; a segment may be open for reading only. *)
Inductive file :=
| Segment (name : string) (writable : bool)
| NamedPipe (name : string)
| Socket.

(** The flags of [shm_open] and the arguments of [mmap] that are used, and
    those one could take for them. *)
Inductive shm_flag := O_RDONLY | O_RDWR | O_CREAT.
Inductive protection := PROT_READ | PROT_WRITE.
Inductive map_flag := MAP_SHARED | MAP_PRIVATE.
#[export] Instance shm_flag_dec : EqDecision shm_flag.
Proof. solve_decision. Defined.
#[export] Instance protection_dec : EqDecision protection.
Proof. solve_decision. Defined.
#[export] Instance map_flag_dec : EqDecision map_flag.
Proof. solve_decision. Defined.

(** A mapping of a whole segment. Through a private one a process sees the
    segment until it first writes, and its own copy from then on. *)
Record mapping := mkMapping {
  mp_segment : string;
  mp_read : bool;
  mp_write : bool;
  mp_shared : bool;
  mp_copy : option Shm.shmstruct;
}.
#[export] Instance mapping_eta : Eta mapping := λ m,
  mkMapping (mp_segment m) (mp_read m) (mp_write m) (mp_shared m) (mp_copy m).

(** The open descriptors, the named segments of shared memory (without
    contents: of length 0) and the mappings by address, of all processes. *)
Definition view : Type := gmap Z file * gmap string (option Shm.shmstruct) * gmap nat mapping.

Class System (O : Type) := {
  (** Results are descriptors, or -1. *)
  shm_open : string → list shm_flag → Z → O → Z * O;
  pipe_open : string → list Fifo.open_flag → O → Z * O;
  socket : O → Z * O;
  (** [ftruncate] to, and [mmap] of, the size of [shmstruct]; an address or
      [MAP_FAILED], which is [None]. *)
  ftruncate : Z → O → O;
  mmap : list protection → list map_flag → Z → O → option nat * O;
  close : Z → O → O;
  (** 0, or -1; the port a socket was given, in network order. *)
  bind_any : Z → O → Z * O;
  getsockname : Z → O → Z * Z;
  (** A store to the memory at a mapped address. *)
  poke : nat → Shm.shmstruct → O → O;
  open_files : O → gmap Z file;
  segments : O → gmap string (option Shm.shmstruct);
  mappings : O → gmap nat mapping;
}.

Definition views {O} `{System O} (o : O) : view := (open_files o, segments o, mappings o).

(** A new segment is filled with zeros. *)
Definition zero_segment : Shm.shmstruct := Shm.mk 0 (replicate 100 f0) (replicate 100 0).

(** open(2), close(2), shm_open(3), ftruncate(2) to a fixed size, mmap(2),
    bind(2). *)
Class SystemLaws (O : Type) `{System O} : Prop := {
  (** A segment that is not there is made empty, if [O_CREAT] is given. *)
  shm_open_ok n fl md o : 0 ≤ (shm_open n fl md o).1 →
    open_files o !! (shm_open n fl md o).1 = None ∧ (O_CREAT ∈ fl ∨ is_Some (segments o !! n)) ∧
    views (shm_open n fl md o).2 = (<[ (shm_open n fl md o).1 := Segment n (bool_decide (O_RDWR ∈ fl)) ]> (open_files o),
      <[ n := default None (segments o !! n) ]> (segments o), mappings o);
  shm_open_fails n fl md o : (shm_open n fl md o).1 < 0 → views (shm_open n fl md o).2 = views o;
  pipe_open_ok n fl o : 0 ≤ (pipe_open n fl o).1 →
    open_files o !! (pipe_open n fl o).1 = None ∧ open_files (pipe_open n fl o).2 = <[ (pipe_open n fl o).1 := NamedPipe n ]> (open_files o);
  socket_ok o : 0 ≤ (socket o).1 →
    open_files o !! (socket o).1 = None ∧ open_files (socket o).2 = <[ (socket o).1 := Socket ]> (open_files o);
  socket_fails o : (socket o).1 < 0 → open_files (socket o).2 = open_files o;
  (** A segment open for writing gets its size and keeps its contents. *)
  ftruncate_segment fd n o : open_files o !! fd = Some (Segment n true) →
    views (ftruncate fd o) = (open_files o,
      <[ n := Some (default zero_segment (default None (segments o !! n))) ]> (segments o), mappings o);
  ftruncate_other fd o : (∀ n, open_files o !! fd ≠ Some (Segment n true)) → views (ftruncate fd o) = views o;
  (** A mapping is at a new address, is what was asked for and needs an open
      segment, one open for writing if stores are to reach it. *)
  mmap_ok prot fl fd o x : (mmap prot fl fd o).1 = Some x →
    ∃ n w, open_files o !! fd = Some (Segment n w) ∧ mappings o !! x = None ∧
      (PROT_WRITE ∈ prot → MAP_SHARED ∈ fl → w = true) ∧
      views (mmap prot fl fd o).2 = (open_files o, segments o,
        <[ x := mkMapping n (bool_decide (PROT_READ ∈ prot)) (bool_decide (PROT_WRITE ∈ prot))
          (bool_decide (MAP_SHARED ∈ fl)) None ]> (mappings o));
  mmap_fails prot fl fd o : (mmap prot fl fd o).1 = None → views (mmap prot fl fd o).2 = views o;
  close_views fd o : views (close fd o) = (delete fd (open_files o), segments o, mappings o);
  bind_files fd o : open_files (bind_any fd o).2 = open_files o;
  (** Nothing can be bound to a descriptor that is not open. *)
  bind_closed fd o : open_files o !! fd = None → (bind_any fd o).1 ≠ 0;
  (** A store through a shared mapping reaches the segment; one through a
      private mapping reaches nobody else. *)
  poke_shared x mp d o : mappings o !! x = Some mp → mp_shared mp = true →
    views (poke x d o) = (open_files o, <[ mp_segment mp := Some d ]> (segments o), mappings o);
  poke_private x mp d o : mappings o !! x = Some mp → mp_shared mp = false →
    views (poke x d o) = (open_files o, segments o, <[ x := mp <| mp_copy := Some d |> ]> (mappings o));
  (** Descriptors are not negative. *)
  files_range o fd : is_Some (open_files o !! fd) → 0 ≤ fd;
}.

(** ** [SharedMemory] *)

(** The pointer [shared_data_]; [None] is [MAP_FAILED]. *)
Record SharedMemory := mkSharedMemory { shared_data_ : option nat }.

(** [S_IRUSR | S_IWUSR | S_IRGRP | S_IROTH] *)
Definition FILE_MODE : Z := 420.

Section resources.
Context {O : Type} `{System O}.

(** [SharedMemory::Initialize]: no result is looked at. *)
Definition Initialize (ipc_name : string) (o : O) : SharedMemory * O :=
  let '(fd, o) := shm_open ipc_name [O_RDWR; O_CREAT] FILE_MODE o in
  let o := ftruncate fd o in
  let '(shared_data, o) := mmap [PROT_READ; PROT_WRITE] [MAP_SHARED] fd o in
  (mkSharedMemory shared_data, close fd o).

(** What is in the memory at a mapped address: the private copy, or the
    segment; behind its end there is nothing. *)
Definition contents (mp : mapping) (o : O) : option Shm.shmstruct :=
  match mp_copy mp with
  | Some d => Some d
  | None => default None (segments o !! mp_segment mp)
  end.

(** A pointer is followed; an access the mapping does not allow is a fault
    like one to an address that is not mapped. *)
Definition deref (allowed : mapping → bool) (p : option nat) (o : O) : res (nat * Shm.shmstruct) :=
  match p with
  | None => Fault NullDeref
  | Some x =>
      match mappings o !! x with
      | None => Fault NullDeref
      | Some mp =>
          if allowed mp then match contents mp o with Some d => mret (x, d) | None => Fault OutOfBounds end
          else Fault NullDeref
      end
  end.

(** [Read] returns the pointer; this is what it points to. *)
Definition Read (m : SharedMemory) (o : O) : res Shm.shmstruct :=
  '(_, d) ← deref mp_read (shared_data_ m) o;
  mret d.

Definition Write (data : Shm.shmstruct) (m : SharedMemory) (o : O) : res O :=
  '(x, d) ← deref mp_write (shared_data_ m) o;
  mret (poke x (Shm.Write data d) o).

(** ** [Fifo] *)

Definition Open (f : Fifo.Fifo) (o : O) : Fifo.Fifo * O :=
  let '(fd, o) := pipe_open (Fifo.filename_ f) (Fifo.open_flags f) o in
  (Fifo.Open (λ _ _, fd) f, o).

Definition CloseFifo (f : Fifo.Fifo) (o : O) : O := close (Fifo.fd_ f) o.

(** ** [GetAvailablePort] *)

(** [ntohs] on a little-endian machine. *)
Definition ntohs (z : Z) : Z := Z.lor (Z.shiftl (Z.land z 255) 8) (Z.land (Z.shiftr z 8) 255).

Definition GetAvailablePort (o : O) : Z * O :=
  let '(sock, o) := socket o in
  let '(rc, o) := bind_any sock o in
  if negb (0 =? rc) then (0, o)
  else
    let '(rc, sin_port) := getsockname sock o in
    if negb (0 =? rc) then (0, o)
    else
      let ret_port := ntohs sin_port in
      (ret_port, close sock o).
End resources.

(** ** What is shared and what is left open *)

Section laws.
Set Default Proof Using "Type*".
Context {O : Type} `{SystemLaws O}.
Implicit Types o : O.

Lemma views_inv o f s m : views o = (f, s, m) → open_files o = f ∧ segments o = s ∧ mappings o = m.
Proof. by intros [= -> -> ->]. Qed.

(** A mapping that reaches the segment [n] in both directions. *)
Definition reaches (m : SharedMemory) (n : string) o : Prop :=
  ∃ x, shared_data_ m = Some x ∧ mappings o !! x = Some (mkMapping n true true true None).

(** Mapping a segment leaves no descriptor behind and changes no segment but
    its own, which keeps what was in it. *)
Lemma Initialize_spec n o x :
  shared_data_ (Initialize n o).1 = Some x →
  reaches (Initialize n o).1 n (Initialize n o).2 ∧ mappings o !! x = None ∧
  views (Initialize n o).2 = (open_files o,
    <[ n := Some (default zero_segment (default None (segments o !! n))) ]> (segments o),
    <[ x := mkMapping n true true true None ]> (mappings o)).
Proof.
  unfold Initialize, reaches. destruct (shm_open n _ _ o) as [fd o1] eqn:Ho.
  destruct (mmap _ _ fd (ftruncate fd o1)) as [p o3] eqn:Hm. cbn. intros ->.
  pose proof (mmap_ok [PROT_READ; PROT_WRITE] [MAP_SHARED] fd (ftruncate fd o1) x) as Hmap. rewrite Hm in Hmap.
  destruct (Hmap eq_refl) as (n' & w & Hfd & Hx & _ & Hv). cbn in Hv. clear Hmap.
  assert (open_files (ftruncate fd o1) = open_files o1) as Hf1.
  { destruct (open_files o1 !! fd) as [[n1 []| |]|] eqn:E;
      [by destruct (views_inv _ _ _ _ (ftruncate_segment fd n1 o1 E)) as (-> & _)|..];
      (destruct (views_inv _ _ _ _ (ftruncate_other fd o1 ltac:(intros ?; by rewrite E))) as (-> & _); done). }
  rewrite Hf1 in Hfd.
  assert (0 ≤ (shm_open n [O_RDWR; O_CREAT] FILE_MODE o).1) as Hpos
    by (rewrite Ho; apply (files_range o1); by eexists).
  destruct (shm_open_ok n [O_RDWR; O_CREAT] FILE_MODE o Hpos) as (Hnew & _ & Hv1). rewrite Ho in Hnew, Hv1. cbn in Hnew, Hv1.
  apply views_inv in Hv1 as (Hf & Hs & Hms). rewrite Hf, lookup_insert_eq in Hfd. injection Hfd as <- <-.
  assert (open_files o1 !! fd = Some (Segment n true)) as Hseg by by rewrite Hf, lookup_insert_eq.
  destruct (views_inv _ _ _ _ (ftruncate_segment fd n o1 Hseg)) as (Hf2 & Hs2 & Hm2).
  rewrite Hm2, Hms in Hx, Hv. rewrite Hs2, Hs, lookup_insert_eq, insert_insert_eq in Hv.
  rewrite Hf2, Hf in Hv. apply views_inv in Hv as (Hf3 & Hs3 & Hm3).
  assert (views (close fd o3) = (open_files o,
    <[ n := Some (default zero_segment (default None (segments o !! n))) ]> (segments o),
    <[ x := mkMapping n true true true None ]> (mappings o))) as Hend.
  { rewrite close_views, Hf3, Hs3, Hm3, delete_insert_id by done. done. }
  split_and!; [|done|done]. exists x. split; [done|].
  apply views_inv in Hend as (_ & _ & ->). by rewrite lookup_insert_eq.
Qed.

(** Reading and writing through such a mapping. *)
Lemma Read_reaches m n d o : reaches m n o → segments o !! n = Some (Some d) → Read m o = Ok d.
Proof. intros (x & Hx & Hm) Hd. unfold Read, deref, contents. rewrite Hx, Hm. cbn. by rewrite Hd. Qed.

Lemma Write_reaches data m n d o :
  reaches m n o → segments o !! n = Some (Some d) → Shm.wf data → Shm.wf d →
  ∃ o', Write data m o = Ok o' ∧ views o' = (open_files o, <[ n := Some data ]> (segments o), mappings o).
Proof.
  intros (x & Hx & Hm) Hd Hw Hwd. unfold Write, deref, contents. rewrite Hx, Hm. cbn. rewrite Hd. cbn.
  eexists. split; [done|]. pose proof (Shm.Write_Read data d Hw Hwd) as Heq. unfold Shm.Read in Heq. rewrite Heq.
  by rewrite (poke_shared x (mkMapping n true true true None)).
Qed.

(** ** Any number of mappings and writes *)

(** Processes map segments, and write through mappings, numbered in the order
    in which they were made. *)
Inductive action :=
| Map (ipc_name : string)
| Put (i : nat) (data : Shm.shmstruct).

Fixpoint exec (acts : list action) (ms : list SharedMemory) (o : O) : res (list SharedMemory * O) :=
  match acts with
  | [] => mret (ms, o)
  | Map n :: acts => let '(m, o) := Initialize n o in exec acts (ms ++ [m]) o
  | Put i data :: acts =>
      match ms !! i with
      | Some m => o ← Write data m o; exec acts ms o
      | None => Fault OutOfBounds
      end
  end.

(** The system grants every mapping asked for on the way. *)
Fixpoint granted (acts : list action) (ms : list SharedMemory) (o : O) : bool :=
  match acts with
  | [] => true
  | Map n :: acts =>
      bool_decide (is_Some (shared_data_ (Initialize n o).1)) && granted acts (ms ++ [(Initialize n o).1]) (Initialize n o).2
  | Put i data :: acts =>
      match ms !! i with
      | Some m => match Write data m o with Ok o => granted acts ms o | Fault _ => true end
      | None => true
      end
  end.

(** What is meant: one memory that all see. The names mapped so far, and what
    was last written to each name, whoever wrote it; zeros in the beginning. *)
Fixpoint spec (acts : list action) (names : list string) (mem : string → Shm.shmstruct) :
    list string * (string → Shm.shmstruct) :=
  match acts with
  | [] => (names, mem)
  | Map n :: acts => spec acts (names ++ [n]) mem
  | Put i data :: acts => spec acts names (λ n, if decide (names !! i = Some n) then data else mem n)
  end.

(** Writes are of arrays of the declared extent and go through mappings that
    were made. *)
Fixpoint puts_ok (acts : list action) (count : nat) : Prop :=
  match acts with
  | [] => True
  | Map _ :: acts => puts_ok acts (S count)
  | Put i data :: acts => (i < count)%nat ∧ Shm.wf data ∧ puts_ok acts count
  end.

(** The contents a name has when it is next mapped. *)
Definition memory o (n : string) : Shm.shmstruct := default zero_segment (default None (segments o !! n)).

Record agrees (names : list string) (mem : string → Shm.shmstruct) (ms : list SharedMemory) o : Prop := {
  ag_mapped : Forall2 (λ n m, reaches m n o ∧ is_Some (default None (segments o !! n))) names ms;
  ag_memory n : memory o n = mem n;
  ag_wf n : Shm.wf (mem n);
}.

Lemma agrees_map n names mem ms o :
  agrees names mem ms o → is_Some (shared_data_ (Initialize n o).1) →
  agrees (names ++ [n]) mem (ms ++ [(Initialize n o).1]) (Initialize n o).2 ∧ open_files (Initialize n o).2 = open_files o.
Proof.
  intros [Hf Hm Hw] [x Hx]. destruct (Initialize_spec n o x Hx) as (Hr & Hnew & (Hfiles & Hsegs & Hmaps)%views_inv).
  split; [|done]. constructor; [|intros k|done].
  - apply Forall2_app.
    + eapply Forall2_impl; [exact Hf|]. intros k m [(y & Hy & Hl) Hk]. split.
      * exists y. split; [done|]. rewrite Hmaps, lookup_insert_ne; [done|]. intros ->. by rewrite Hl in Hnew.
      * rewrite Hsegs. destruct (decide (n = k)) as [->|Hne]; [by rewrite lookup_insert_eq|by rewrite lookup_insert_ne].
    + constructor; [|constructor]. split; [done|]. rewrite Hsegs, lookup_insert_eq. by eexists.
  - rewrite <- Hm. unfold memory. rewrite Hsegs.
    destruct (decide (n = k)) as [->|Hne]; [by rewrite lookup_insert_eq|by rewrite lookup_insert_ne].
Qed.

Lemma agrees_put i data names mem ms m o :
  agrees names mem ms o → ms !! i = Some m → Shm.wf data →
  ∃ o', Write data m o = Ok o' ∧ open_files o' = open_files o ∧
    agrees names (λ n, if decide (names !! i = Some n) then data else mem n) ms o'.
Proof.
  intros [Hf Hm Hw] Hi Hd. destruct (Forall2_lookup_r _ _ _ _ _ Hf Hi) as (n & Hn & Hr & [d Hseg]).
  destruct (segments o !! n) as [[d'|]|] eqn:Hs; [|done|done]. cbn in Hseg. injection Hseg as ->.
  assert (Shm.wf d) as Hwd.
  { specialize (Hw n). rewrite <- (Hm n) in Hw. unfold memory in Hw. by rewrite Hs in Hw. }
  destruct (Write_reaches data m n d o Hr Hs Hd Hwd) as (o' & Ho & (Hfiles & Hsegs & Hmaps)%views_inv).
  exists o'. split_and!; [done|done|]. constructor; [|intros k|intros k; by case_decide].
  - eapply Forall2_impl; [exact Hf|]. intros k mk [(y & Hy & Hl) Hk]. split; [exists y; by rewrite Hmaps|].
    rewrite Hsegs. destruct (decide (n = k)) as [->|Hne]; [by rewrite lookup_insert_eq|by rewrite lookup_insert_ne].
  - rewrite Hn. unfold memory. rewrite Hsegs. destruct (decide (n = k)) as [->|Hne].
    + by rewrite lookup_insert_eq, decide_True.
    + rewrite lookup_insert_ne, decide_False by congruence. apply Hm.
Qed.

Lemma exec_agrees acts : ∀ names mem ms o,
  agrees names mem ms o → puts_ok acts (length ms) → granted acts ms o = true →
  ∃ ms' o', exec acts ms o = Ok (ms', o') ∧ open_files o' = open_files o ∧
    agrees (spec acts names mem).1 (spec acts names mem).2 ms' o'.
Proof.
  induction acts as [|[n|i data] acts IH]; intros names mem ms o Hag Hp Hg; cbn [exec spec granted puts_ok] in *.
  - by exists ms, o.
  - apply andb_true_iff in Hg as [Hx%bool_decide_eq_true Hg].
    destruct (agrees_map n names mem ms o Hag Hx) as [Hag' Hfiles].
    destruct (Initialize n o) as [m o1]. cbn [fst snd] in *. rewrite <- Hfiles.
    apply IH; [done| |done]. rewrite length_app. cbn. by rewrite Nat.add_1_r.
  - destruct Hp as (Hi & Hd & Hp). destruct (lookup_lt_is_Some_2 ms i Hi) as [m Hm]. rewrite Hm in Hg |- *.
    destruct (agrees_put i data names mem ms m o Hag Hm Hd) as (o1 & Ho & Hfiles & Hag').
    rewrite Ho in Hg |- *. cbn [mbind res_bind]. rewrite <- Hfiles. by apply IH.
Qed.

(** C27: what one process writes the others read. Processes map segments by
    name and write through their mappings in any order, mappings made after
    writes included. If the system grants the mappings, nothing faults, no
    descriptor stays open, and each mapping reads what was last written to its
    name through any mapping of that name, in whichever direction, or what the
    name held before (zeros when it is new); other names are not touched. *)
Theorem shared_memory_crosses acts o
    (Hold : ∀ n, Shm.wf (memory o n)) (Hputs : puts_ok acts 0) (Hgranted : granted acts [] o = true) :
  ∃ ms o', exec acts [] o = Ok (ms, o') ∧ open_files o' = open_files o ∧
    length ms = length (spec acts [] (memory o)).1 ∧
    ∀ j m n, ms !! j = Some m → (spec acts [] (memory o)).1 !! j = Some n →
      Read m o' = Ok ((spec acts [] (memory o)).2 n).
Proof.
  destruct (exec_agrees acts [] (memory o) [] o) as (ms & o' & He & Hfiles & [Hf Hm _]); [|done|done|].
  { by constructor. }
  exists ms, o'. split_and!; [done|done|symmetry; by eapply Forall2_length|].
  intros j m n Hj Hn. destruct (Forall2_lookup_lr _ _ _ _ _ _ Hf Hn Hj) as [Hr [d Hd]].
  rewrite <- Hm. unfold memory. destruct (segments o' !! n) as [[d'|]|] eqn:Hs; [|done|done].
  by rewrite (Read_reaches m n d' o').
Qed.

Lemma close_open_files fd o : open_files (close fd o) = delete fd (open_files o).
Proof. by destruct (views_inv _ _ _ _ (close_views fd o)). Qed.

(** Opening a pipe and closing it again leaves nothing open. *)
Lemma CloseFifo_Open f o :
  0 ≤ Fifo.fd_ (Open f o).1 → open_files (CloseFifo (Open f o).1 (Open f o).2) = open_files o.
Proof.
  unfold Open, CloseFifo. destruct (pipe_open _ _ o) as [fd o1] eqn:Ho. cbn. intros Hfd.
  destruct (pipe_open_ok (Fifo.filename_ f) (Fifo.open_flags f) o) as [Hnew Hfiles]; rewrite Ho in *; cbn in *; [done|].
  by rewrite close_open_files, Hfiles, delete_insert_id.
Qed.

(** A failing search for a port leaks its socket. When every call succeeds the
    result is the port in host order and no descriptor is left; when [bind] or
    [getsockname] fails on a socket that was opened, the result is 0 and the
    socket stays open. *)
Theorem GetAvailablePort_descriptors o :
  let sock := (socket o).1 in let o1 := (socket o).2 in let o2 := (bind_any sock o1).2 in
  (0 ≤ sock → (bind_any sock o1).1 = 0 → (getsockname sock o2).1 = 0 →
     (GetAvailablePort o).1 = ntohs (getsockname sock o2).2 ∧ open_files (GetAvailablePort o).2 = open_files o) ∧
  (0 ≤ sock → (bind_any sock o1).1 ≠ 0 ∨ (getsockname sock o2).1 ≠ 0 →
     (GetAvailablePort o).1 = 0 ∧ open_files (GetAvailablePort o).2 = <[ sock := Socket ]> (open_files o)) ∧
  (sock < 0 → (GetAvailablePort o).1 = 0 ∧ open_files (GetAvailablePort o).2 = open_files o).
Proof.
  cbv zeta. unfold GetAvailablePort.
  pose proof (socket_ok o) as Hsf. pose proof (socket_fails o) as Hsn. destruct (socket o) as [sock o1]. cbn [fst snd] in Hsf, Hsn |- *.
  pose proof (bind_files sock o1) as Hbf. pose proof (bind_closed sock o1) as Hbc.
  destruct (bind_any sock o1) as [rc o2]. cbn [fst snd] in Hbf, Hbc |- *.
  destruct (getsockname sock o2) as [rc2 port]. cbn [fst snd].
  destruct (Z.eqb_spec 0 rc) as [<-|Hrc]; cbn [negb]; [destruct (Z.eqb_spec 0 rc2) as [<-|Hrc2]; cbn [negb]|];
    cbn [fst snd].
  - split_and!.
    + intros Hs _ _. destruct (Hsf Hs) as [Hnew Hfiles]. split; [done|].
      by rewrite close_open_files, Hbf, Hfiles, delete_insert_id.
    + by intros _ [].
    + intros Hs. destruct Hbc; [|done]. apply eq_None_not_Some. intros Hx%files_range. lia.
  - split_and!; [congruence| |].
    + intros Hs _. destruct (Hsf Hs) as [_ Hfiles]. by rewrite Hbf, Hfiles.
    + intros Hs. by rewrite Hbf, Hsn.
  - split_and!; [congruence| |].
    + intros Hs _. destruct (Hsf Hs) as [_ Hfiles]. by rewrite Hbf, Hfiles.
    + intros Hs. by rewrite Hbf, Hsn.
Qed.
End laws.

(** ** A small system with these laws *)

Record Sim := mkSim {
  sim_files : gmap nat file;
  sim_segments : gmap string (option Shm.shmstruct);
  sim_mappings : gmap nat mapping;
}.

(** [open]: the least bookkeeping that finds a free descriptor. *)
Definition sim_open (f : file) (o : Sim) : Z * Sim :=
  let fd := fresh (dom (sim_files o)) in
  (Z.of_nat fd, mkSim (<[ fd := f ]> (sim_files o)) (sim_segments o) (sim_mappings o)).
Definition sim_shm_open (n : string) (fl : list shm_flag) (o : Sim) : Z * Sim :=
  if bool_decide (O_CREAT ∈ fl) || bool_decide (is_Some (sim_segments o !! n)) then
    sim_open (Segment n (bool_decide (O_RDWR ∈ fl)))
      (mkSim (sim_files o) (<[ n := default None (sim_segments o !! n) ]> (sim_segments o)) (sim_mappings o))
  else (-1, o).
Definition sim_lookup (fd : Z) (o : Sim) : option file := kmap (M2 := gmap Z) Z.of_nat (sim_files o) !! fd.
Definition sim_ftruncate (fd : Z) (o : Sim) : Sim :=
  match sim_lookup fd o with
  | Some (Segment n true) =>
      mkSim (sim_files o) (<[ n := Some (default zero_segment (default None (sim_segments o !! n))) ]> (sim_segments o))
        (sim_mappings o)
  | _ => o
  end.
Definition sim_mmap (prot : list protection) (fl : list map_flag) (fd : Z) (o : Sim) : option nat * Sim :=
  match sim_lookup fd o with
  | Some (Segment n w) =>
      if bool_decide (PROT_WRITE ∈ prot) && bool_decide (MAP_SHARED ∈ fl) && negb w then (None, o)
      else
        let x := fresh (dom (sim_mappings o)) in
        (Some x, mkSim (sim_files o) (sim_segments o) (<[ x := mkMapping n (bool_decide (PROT_READ ∈ prot))
          (bool_decide (PROT_WRITE ∈ prot)) (bool_decide (MAP_SHARED ∈ fl)) None ]> (sim_mappings o)))
  | _ => (None, o)
  end.
Definition sim_poke (x : nat) (d : Shm.shmstruct) (o : Sim) : Sim :=
  match sim_mappings o !! x with
  | Some mp =>
      if mp_shared mp then mkSim (sim_files o) (<[ mp_segment mp := Some d ]> (sim_segments o)) (sim_mappings o)
      else mkSim (sim_files o) (sim_segments o) (<[ x := mp <| mp_copy := Some d |> ]> (sim_mappings o))
  | None => o
  end.

#[global] Instance Sim_System : System Sim := {
  shm_open n fl _ := sim_shm_open n fl;
  pipe_open n _ := sim_open (NamedPipe n);
  socket := sim_open Socket;
  ftruncate := sim_ftruncate;
  mmap := sim_mmap;
  close fd o := mkSim (if decide (0 ≤ fd) then delete (Z.to_nat fd) (sim_files o) else sim_files o)
    (sim_segments o) (sim_mappings o);
  bind_any fd o := (if sim_lookup fd o is Some _ then 0 else -1, o);
  getsockname fd o := (0, 20480);
  poke := sim_poke;
  open_files o := kmap Z.of_nat (sim_files o);
  segments := sim_segments;
  mappings := sim_mappings;
}.

Lemma sim_open_files f o :
  kmap (M2 := gmap Z) Z.of_nat (sim_files o) !! (sim_open f o).1 = None ∧
  kmap (M2 := gmap Z) Z.of_nat (sim_files (sim_open f o).2) =
    <[ (sim_open f o).1 := f ]> (kmap Z.of_nat (sim_files o)).
Proof.
  unfold sim_open. cbn. split; [|apply (kmap_insert (M1 := gmap nat) (M2 := gmap Z) Z.of_nat)].
  rewrite lookup_kmap by apply _. apply not_elem_of_dom. apply is_fresh.
Qed.

Lemma sim_shm_open_ok n fl md (o : Sim) : 0 ≤ (shm_open n fl md o).1 →
  open_files o !! (shm_open n fl md o).1 = None ∧ (O_CREAT ∈ fl ∨ is_Some (segments o !! n)) ∧
  views (shm_open n fl md o).2 = (<[ (shm_open n fl md o).1 := Segment n (bool_decide (O_RDWR ∈ fl)) ]> (open_files o),
    <[ n := default None (segments o !! n) ]> (segments o), mappings o).
Proof.
  cbn. unfold sim_shm_open. destruct (bool_decide (O_CREAT ∈ fl) || _) eqn:E; [intros _|by cbn].
  set (o1 := mkSim _ _ _). destruct (sim_open_files (Segment n (bool_decide (O_RDWR ∈ fl))) o1) as [Hnew Hfiles].
  split_and!; [exact Hnew| |].
  - apply orb_true_iff in E as [E%bool_decide_eq_true|E%bool_decide_eq_true]; auto.
  - unfold views. cbn [open_files segments mappings Sim_System]. by rewrite Hfiles.
Qed.

Lemma sim_mmap_ok prot fl fd (o : Sim) x : (mmap prot fl fd o).1 = Some x →
  ∃ n w, open_files o !! fd = Some (Segment n w) ∧ mappings o !! x = None ∧
    (PROT_WRITE ∈ prot → MAP_SHARED ∈ fl → w = true) ∧
    views (mmap prot fl fd o).2 = (open_files o, segments o,
      <[ x := mkMapping n (bool_decide (PROT_READ ∈ prot)) (bool_decide (PROT_WRITE ∈ prot))
        (bool_decide (MAP_SHARED ∈ fl)) None ]> (mappings o)).
Proof.
  cbn. unfold sim_mmap, sim_lookup. destruct (kmap _ _ !! fd) as [[n w| |]|]; [|done..].
  destruct (bool_decide (PROT_WRITE ∈ prot) && _ && _) eqn:E; [done|]. cbn. intros [= <-]. exists n, w.
  split_and!; [done|apply not_elem_of_dom; apply is_fresh| |done].
  intros Hp Hf. rewrite !bool_decide_eq_true_2 in E by done. by destruct w.
Qed.

#[global] Instance Sim_laws : SystemLaws Sim.
Proof.
  constructor.
  - apply sim_shm_open_ok.
  - intros n fl md o. cbn. unfold sim_shm_open. destruct (_ || _); cbn; [lia|done].
  - intros n fl o _. apply sim_open_files.
  - intros o _. apply sim_open_files.
  - intros o Hneg. cbn in Hneg. lia.
  - intros fd n o Ho. cbn in Ho. unfold views. cbn. unfold sim_ftruncate, sim_lookup. by rewrite Ho.
  - intros fd o Ho. unfold views. cbn in Ho |- *. unfold sim_ftruncate, sim_lookup.
    destruct (kmap _ _ !! fd) as [[n []| |]|]; try done. by destruct (Ho n).
  - apply sim_mmap_ok.
  - intros prot fl fd o. cbn. unfold sim_mmap. destruct (sim_lookup fd o) as [[n w| |]|]; [|done..]. by destruct (_ && _).
  - intros fd o. unfold views. cbn. case_decide as Hfd.
    + rewrite kmap_delete by apply _. by rewrite Z2Nat.id.
    + f_equal. f_equal. symmetry. apply delete_id. apply lookup_kmap_None; [apply _|]. intros i ->. lia.
  - done.
  - intros fd o. cbn. unfold sim_lookup. by intros ->.
  - intros x mp d o Hx Hs. cbn in Hx. unfold views. cbn. unfold sim_poke. by rewrite Hx, Hs.
  - intros x mp d o Hx Hs. cbn in Hx. unfold views. cbn. unfold sim_poke. rewrite Hx. destruct mp. cbn in *. by subst.
  - intros o fd [x Hx]. cbn in Hx. apply lookup_kmap_Some in Hx as (i & -> & _); [lia|apply _].
Qed.

(** The worker and the agent map the memory of the parameters and that of the
    gradients; both write to the first, and one more mapping is made later. *)
Definition sim0 : Sim := mkSim ∅ ∅ ∅.
Definition one_pair (k : Z) : Shm.shmstruct := Shm.mk 1 (replicate 100 f0) (k :: replicate 99 0).
Definition session : list action :=
  [Map "/test_sharedMemory_sample1"; Map "/test_sharedMemory_sample2"; Map "/test_sharedMemory_sample1";
   Put 0 (one_pair 1111); Put 2 (one_pair 2222); Map "/test_sharedMemory_sample1"].

Example session_crosses :
  match exec session [] sim0 with
  | Ok (ms, o) => (λ m, match Read m o with Ok d => Shm.keys d !! 0%nat | Fault _ => None end) <$> ms =
      [Some 2222; Some 0; Some 2222; Some 2222]
  | Fault _ => False
  end.
Proof. by vm_compute. Qed.

Example shared_memory_crosses_witness :
  ∃ ms o', exec session [] sim0 = Ok (ms, o') ∧ open_files o' = open_files sim0 ∧
    length ms = length (spec session [] (memory sim0)).1 ∧
    ∀ j m n, ms !! j = Some m → (spec session [] (memory sim0)).1 !! j = Some n →
      Read m o' = Ok ((spec session [] (memory sim0)).2 n).
Proof.
  apply (shared_memory_crosses session sim0).
  - intros n. unfold memory. change (segments sim0) with (∅ : gmap string (option Shm.shmstruct)).
    by rewrite lookup_empty.
  - cbn. by repeat split; try lia.
  - by vm_compute.
Defined.

Example Sim_port : GetAvailablePort sim0 = (80, sim0).
Proof. by vm_compute. Qed.
End Resources.
