(* ===== verification/Main.v ===== *)
(** * The three programs (src/master/master_main.cc, src/agent/agent_main.cc,
    src/server/server_main.cc)

    What [main] of each program does with the classes, from the parsed flags to
    the end of the process. The signal handlers only end the process. *)

From S2P Require Import Prelude CppStd Decimal Float32 Messages Communicator Channel Fifo ZmqCommunicator.
From S2P Require Import TaskConfig TaskConfigProps Master MasterConfig MasterProps MasterLoop.
From S2P Require Import Agent AgentWork Server.
From Stdlib Require String.
From stdpp Require Import options.

Module Main.

(** Where a program is when its inputs are used up. *)
Inductive ending :=
| Exited (code : Z)
| Waiting.

(** [SegHandler], installed for SIGSEGV and SIGINT. *)
Definition SegHandler : ending := Exited 1.

Section main.
Context {C P : Type} `{Communicator C, Fifo.Pipe P}.
Context (draw : Z * Z → nat → Z) (FLAGS_max_cluster_node : Z).

(** The destructor of the static [Master::master] runs after [main] returned.
    The members go in reverse order: [detect_dead_node_], then [heartbeat_];
    the destructor of a [std::thread] that was neither joined nor detached calls
    [std::terminate]. *)
Definition destroy_Master (m : Master.Master C) : res unit :=
  if Master.detect_dead_node_ m then Fault Aborted
  else if Master.heartbeat_ m then Fault Aborted
  else mret tt.

(** [main] of the master, on the messages it receives with their times. *)
Definition master_main (flags : TaskConfig.flags) (FLAGS_master_ip_port : string) (c : C)
    (msgs : list (Z * Message)) : res (Master.Master C * ending) :=
  m ← Master.new_master flags c;
  '(m, _) ← Master.Initialize FLAGS_master_ip_port m;
  '(m, terminated) ← Master.MainLoop draw FLAGS_max_cluster_node msgs m;
  if terminated : bool then _ ← destroy_Master m; mret (m, Exited 0)
  else mret (m, Waiting).

(** [main] of the agent: the result of [Initialize] is not looked at, and
    neither is that of [Start], which starts the heartbeat thread, opens the
    pipes and runs [AgentWork]. *)
Definition agent_main (FLAGS_master_ip_port ip : string) (FLAGS_listen_port : Z) (received : option Message)
    (turns : list turn) (p : P) (a : Agent.Agent C) : res (Agent.Agent C * ending) :=
  '(a, _) ← Agent.Initialize FLAGS_master_ip_port ip (Zmq.wrap16 FLAGS_listen_port) received a;
  '(a, _, status) ← AgentWork turns p a;
  match status with
  | Agent.Terminated => mret (Agent.Finalize a, Exited 0)
  | _ => mret (a, Waiting)
  end.

(** [main] of the server. *)
Definition server_main (FLAGS_master_ip_port ip : string) (FLAGS_server_port : Z) (received : option Message)
    (msgs : list Message) (s : Server.Server C) : res (Server.Server C * ending) :=
  '(s, initialized) ← Server.Initialize FLAGS_master_ip_port ip FLAGS_server_port received s;
  if negb initialized then mret (s, Exited 1)
  else s ← Server.Start msgs s; mret (s, Waiting).

End main.

(** ** The end of the master *)

Section ends.
Context {C : Type} `{CommunicatorLaws C}.
Context (FLAGS_max_cluster_node : Z) (Hmax : 0 < FLAGS_max_cluster_node ≤ 2 ^ 30).
Context (draw : Z * Z → nat → Z) (Hdraw : ∀ lo hi n, lo ≤ hi → lo ≤ draw (lo, hi) n ≤ hi).
Implicit Types m : Master.Master C.
Set Default Proof Using "Type*".

Lemma main_loop_app msgs1 msgs2 m m' :
  Master.main_loop draw FLAGS_max_cluster_node msgs1 m = Ok (m', false) →
  Master.main_loop draw FLAGS_max_cluster_node (msgs1 ++ msgs2) m = Master.main_loop draw FLAGS_max_cluster_node msgs2 m'.
Proof.
  revert m. induction msgs1 as [|[now msg] msgs1 IH]; intros m Hrun; cbn [Master.main_loop app] in *.
  - by injection Hrun as ->.
  - destruct (Master.MainLoop_step draw FLAGS_max_cluster_node now msg m) as [[m1 [|]]|f]; [done| |done].
    by apply IH.
Qed.

(** The program starts as the leader. *)
Lemma append_masters_leads fuel l count m :
  ensures (Master.append_masters fuel l count m) (λ r, Master.is_lead_ r.1 = Master.is_lead_ m).
Proof.
  revert l count m. induction fuel as [|fuel IH]; intros l count m; cbn [Master.append_masters]; [done|].
  destruct (Master.split _ l) as [addr rest].
  apply (ensures_bind _ _ (λ r, Master.is_lead_ r.1 = Master.is_lead_ m)).
  - destruct (0 <? zlen addr); [|by apply ensures_ret].
    apply (ensures_bind _ _ (λ _, True)); [apply ensures_true|]. intros config _.
    apply (ensures_bind _ _ (λ _, True)); [apply ensures_true|]. intros count' _. by apply ensures_ret.
  - intros [m' count'] Hm'. cbn in Hm'. destruct rest as [l'|]; [|by apply ensures_ret].
    eapply ensures_mono; [apply IH|]. cbn. congruence.
Qed.

Lemma started_leads flags ip_port c m0 n :
  Master.new_master flags c = Ok m0 → Master.Initialize ip_port m0 = Ok n → Master.is_lead_ n.1 = true.
Proof.
  intros Hnew Hinit. unfold Master.new_master in Hnew. apply bind_Ok_inv in Hnew as (cfg & _ & Hnew).
  injection Hnew as <-. by apply (ensures_elim _ _ _ (append_masters_leads _ _ _ _) Hinit).
Qed.

(** A completing registration changes no count. *)
Lemma completing_counts m m1 m' cfg :
  TaskConfig.GeneratePartition draw (Master.config_ m1) = Ok cfg → flags_ok (Master.config_ m1) →
  Master.config_ m' = cfg →
  TaskConfig.worker_num_ (Master.config_ m') = TaskConfig.worker_num_ (Master.config_ m1).
Proof.
  intros Hgen Hfl ->. destruct (GeneratePartition_Ok draw Hdraw (Master.config_ m1)) as (points & g & Hgen' & _);
    [destruct Hfl; lia|rewrite (fo_draws _ Hfl); cbn; destruct Hfl; lia|].
  rewrite Hgen in Hgen'. by injection Hgen' as ->.
Qed.

(** C23: a successful run of the master ends in an abort. After any messages on
    which the loop went on, a registration that completes the cluster, and
    messages of the running cluster with which all workers have reported, the
    main loop ends as it should; but [main] then returns with the heartbeat and
    the dead-node thread still running and joinable, so that the destruction of
    the master aborts the process. No run that trained a cluster exits with 0. *)
Theorem successful_run_aborts flags ip_port c early now last late m0 n count m m1
    (Hnew : Master.new_master flags c = Ok m0)
    (Hinit : Master.Initialize ip_port m0 = Ok (n, count))
    (Hearly : Master.main_loop draw FLAGS_max_cluster_node early n = Ok (m, false))
    (Htype : message_type last = mt_register) (Hreg : Master.ProcessRegisterMsg last m = Ok m1)
    (Hm1 : complete FLAGS_max_cluster_node m1)
    (Hthreads : Master.heartbeat_ m1 = false ∧ Master.detect_dead_node_ m1 = false)
    (Hlate : Forall (λ tm, running_msg tm.2) late)
    (Hfew : Z.of_nat (size (Master.terminated_node_ m1)) < TaskConfig.worker_num_ (Master.config_ m1))
    (Hall : TaskConfig.worker_num_ (Master.config_ m1) ≤
       Z.of_nat (size (terminators late ∪ Master.terminated_node_ m1))) :
  (∃ m', Master.main_loop draw FLAGS_max_cluster_node (early ++ (now, last) :: late) n = Ok (m', true)) ∧
  master_main draw FLAGS_max_cluster_node flags ip_port c (early ++ (now, last) :: late) = Fault Aborted.
Proof.
  destruct (completes_Ok FLAGS_max_cluster_node Hmax draw Hdraw m m1 now last Htype Hreg Hm1 Hthreads)
    as (m2 & cfg & conf & Hstep & Hgen & Hcfg & _ & _ & _ & _ & _ & _ & _ & Hh & _ & Hterm & _).
  pose proof (completing_counts m m1 m2 cfg Hgen (cm_flags _ _ Hm1) Hcfg) as Hw.
  pose proof (fo_workers _ (cm_flags _ _ Hm1)) as Hwr.
  destruct (main_loop_Ok draw FLAGS_max_cluster_node late m2) as (m3 & Hrun & Hh3); [lia|rewrite Hterm; lia|done|].
  rewrite bool_decide_eq_true_2 in Hrun by (rewrite Hterm; lia).
  assert (Master.main_loop draw FLAGS_max_cluster_node (early ++ (now, last) :: late) n = Ok (m3, true)) as Hloop.
  { rewrite (main_loop_app _ _ _ _ Hearly). cbn [Master.main_loop]. rewrite Hstep. exact Hrun. }
  split; [by exists m3|]. pose proof (started_leads _ _ _ _ _ Hnew Hinit) as Hlead.
  unfold master_main. rewrite Hnew. cbn [mbind res_bind]. rewrite Hinit.
  cbn [mbind res_bind fst] in *. unfold Master.MainLoop. rewrite Hlead, Hloop.
  cbn [mbind res_bind]. unfold destroy_Master. rewrite Hh3, Hh. by destruct (Master.detect_dead_node_ m3).
Qed.
End ends.

(** ** Witness

    The cluster of MasterProps.v trains, and both its workers report. *)

Definition reports : list (Z * Message) := [(80, report 2); (81, report 4)].

Definition master_new : Master.Master Trace :=
  match Master.new_master test_flags new_trace with Ok m => m | Fault _ => master0 end.

Lemma new_Ok : Master.new_master test_flags new_trace = Ok master_new.
Proof. by vm_compute. Qed.

Lemma started_Ok : Master.Initialize "127.0.0.1:16666" master_new = Ok (master0, 1).
Proof. by vm_compute. Qed.

(** The registrations before the last. *)
Definition early_messages : list (Z * Message) := (λ msg, (70, msg)) <$> registrations.

Lemma early_Ok : Master.main_loop count_draw 10000 early_messages master0 = Ok (master_before, false).
Proof. by vm_compute. Qed.

Example successful_run_aborts_witness :
  (∃ m', Master.main_loop count_draw 10000 (early_messages ++ (77, last_registration) :: reports) master0 = Ok (m', true)) ∧
  master_main count_draw 10000 test_flags "127.0.0.1:16666" new_trace
    (early_messages ++ (77, last_registration) :: reports) = Fault Aborted.
Proof.
  apply (successful_run_aborts 10000 Hmax_test count_draw count_draw_ok test_flags "127.0.0.1:16666" new_trace
    early_messages 77 last_registration reports master_new master0 1 master_before master_complete).
  - exact new_Ok.
  - exact started_Ok.
  - exact early_Ok.
  - done.
  - exact last_registration_Ok.
  - exact master_complete_ok.
  - exact threads_test.
  - by repeat constructor.
  - by vm_compute.
  - by vm_compute.
Defined.

End Main.
