(* ===== verification/ServerGtest.v ===== *)
(** * The server's unit test on the model (src/server/server_gtest.cc)

    The messages the test sends, in its order, and the processes it forks. The
    test logs what it receives and compares little; here the whole outcome of
    each step is computed. *)

From S2P Require Import Prelude CppStd Decimal Float32 Messages Communicator KeyValueList Server Main.
From Stdlib Require String.
From Stdlib Require Import SpecFloat.
From stdpp Require Import options.

Module ServerGtest.

(** ** [SimulOuter]: the messages of the master and of the agent *)

(** Lines 61-91: the first configuration; [backup_size] is not set. *)
Definition first_config : ConfigMessage :=
  mkConfig 1 3 10 ["127.0.0.1:5000"; "127.0.0.1:5555"; "127.0.0.1:5500"; "127.0.0.1:5006"; "127.0.0.1:5007"]
    [0; 3; 5] 0 [2; 3; 4] [1] [0] 1.

Definition config_send : Message := mkMessage 0 2 mt_config (Some first_config) None None None.

(** Lines 95-110: the push; [msg_send] is the message object of the
    configuration, whose [config_msg] is still set. *)
Definition push_request : RequestMessage :=
  mkRequest rt_key_value [0; 1; 2] [literal 13421773 (-27); literal 13421773 (-26); literal 10066330 (-25)].
Definition push_send : Message := mkMessage 1 2 mt_request (Some first_config) (Some push_request) None None.

(** Lines 117-125: the heartbeat. *)
Definition heartbeat_send : Message := mkMessage 0 2 mt_heartbeat None None (Some (mkHeartbeat true 0)) None.

(** Lines 147-180: the second configuration, sent in the same object, so that
    the push is still in it. *)
Definition second_config : ConfigMessage :=
  mkConfig 1 2 10 ["127.0.0.1:5000"; "127.0.0.1:5555"; "127.0.0.1:5500"; "127.0.0.1:5006"]
    [3; 5] 0 [3; 2] [1] [0] 1.
Definition reconfig_send : Message := mkMessage 0 2 mt_config (Some second_config) (Some push_request) None None.

(** ** [SimulServer]: a server that answers backup requests *)

(** Lines 212-240: the answer, and the backup request that follows it. *)
Definition simul_answer (server_id start_key param_len : Z) : Message :=
  let keys := seqZ start_key param_len in
  let values := (λ i, f_of_int (i + start_key * 10)) <$> seqZ 0 param_len in
  mkMessage server_id 2 mt_request None (Some (mkRequest rt_key_value keys values)) None None.
Definition simul_request (server_id : Z) : Message := mkMessage server_id 2 mt_request None None None None.

(** ** [TestServer]: the server under test *)

(** Lines 273-281. *)
Definition test_server (msgs : list Message) : res (Server.Server Trace * Main.ending) :=
  Main.server_main "127.0.0.1:5000" "127.0.0.1" 5500 (Some config_send) msgs (Server.new_server new_trace).

(** What the server sends after its registration. *)
Definition sent_after (msgs : list Message) : res (list (Z * Message)) :=
  '(s, _) ← test_server msgs; mret (drop 1 (outbox (Server.sender_ s))).

(** Lines 127-141: the heartbeats, taken by the heartbeat thread. *)
Definition heartbeats (n : nat) (s : Server.Server Trace) : Server.Server Trace :=
  foldl (λ s msg, Server.HeartBeat 2 msg s) s (replicate n heartbeat_send).

(** ** What the test expects *)

(** Lines 54-56: the registration. *)
Example registration :
  match test_server [] with
  | Ok (s, Main.Waiting) =>
      match outbox (Server.sender_ s) with
      | [(0, m)] => ip (register_msg m) = "127.0.0.1" ∧ port (register_msg m) = 5500 ∧ is_server (register_msg m) = true
      | _ => False
      end
  | _ => False
  end.
Proof. by vm_compute. Qed.

(** The server owns keys 0 to 2, and the push of the only agent is a round. *)
Example push_is_a_round :
  match test_server [push_send] with
  | Ok (s, _) => Server.start_key_ s = 0 ∧ Server.parameter_length_ s = 3 ∧ Server.bottom_version_ s = 1 ∧
      Server.parameters_ s = values push_request
  | Fault _ => False
  end.
Proof. by vm_compute. Qed.

(** Lines 127-141: every heartbeat is answered under the server's id. *)
Example heartbeats_answered :
  match test_server [push_send] with
  | Ok (s, _) => drop 1 (outbox (Server.sender_ (heartbeats 5 s))) =
      replicate 5 (0, mkMessage 2 0 mt_heartbeat None None (Some (mkHeartbeat true 0)) None)
  | Fault _ => False
  end.
Proof. by vm_compute. Qed.

(** ** What it does not look at *)

(** Without a [backup_size] the server asks nobody for a backup, and the helper
    servers (lines 205-207) wait for ever: their expectations are not reached. *)
Example helpers_not_asked : sent_after [push_send; reconfig_send] = Ok [].
Proof. by vm_compute. Qed.

(** If a helper sent its answer all the same, it would be stored outside the
    backups, of which there are none. *)
Example unasked_answer : sent_after [push_send; simul_answer 3 3 2] = Fault OutOfBounds.
Proof. by vm_compute. Qed.

(** After the second configuration the server owns eight keys from 5 on, and
    still has the three parameters of its old keys 0 to 2: there is no backup
    to extend them from, and they are not moved. The test ends here. *)
Example reconfiguration :
  match test_server [push_send; reconfig_send] with
  | Ok (s, _) => Server.start_key_ s = 5 ∧ Server.parameter_length_ s = 8 ∧ Server.local_index_ s = 1 ∧
      Server.parameters_ s = values push_request
  | Fault _ => False
  end.
Proof. by vm_compute. Qed.

(** A pull or push of key 0, which the server has a value for and still owns
    after the wrap, then reads past the end of its parameters; key 5 is
    answered with the value of key 0. *)
Definition pull_send (k : Z) : Message := mkMessage 1 2 mt_request None (Some (mkRequest rt_key [k] [])) None None.

Example pull_after_reconfiguration :
  sent_after [push_send; reconfig_send; pull_send 0] = Fault OutOfBounds ∧
  match sent_after [push_send; reconfig_send; pull_send 5] with
  | Ok [(1, m)] => values (request_msg m) = [literal 13421773 (-27)]
  | _ => False
  end.
Proof. by vm_compute. Qed.

End ServerGtest.
