(* ===== verification/ChannelGtest.v ===== *)
(** * The channel's unit tests on the model (src/channel/channel_gtest.cc)

    The four tests, each with both of its processes, on the pipes of Fifo.v and
    the shared memory of Resources.v; the Python programs at the other end are
    taken at what their comments say (channel_test_with_python.py) or left open
    (the linear regression). *)

From S2P Require Import Prelude Decimal Float32 Channel Fifo Resources.
From Stdlib Require Import SpecFloat.
From stdpp Require Import options.

Module ChannelGtest.

(** ** [TEST(ChannelTest, Fifo)], lines 28-50 *)

(** A pipe with both ends open. *)
Definition new_pipe : Fifo.Buffer := Fifo.mkBuffer [] true.

(** What the two calls of [Wait] of the child return, when the parent signals
    first. *)
Definition fifo_test : option (Z * Z) :=
  let p := Fifo.Signal 3 (Fifo.Signal 2 new_pipe) in
  '(s1, p) ← Fifo.Wait p; '(s2, _) ← Fifo.Wait p; Some (s1, s2).

Example fifo_expectations : fifo_test = Some (2, 3).
Proof. by vm_compute. Qed.

(** ** [TEST(ChannelTest, SharedMemory)], lines 52-89 *)

(** [shmstruct store_data;] is not initialised: its arrays hold [junk]. *)
Definition store_one (junk : Shm.shmstruct) : Shm.shmstruct :=
  Shm.mk 1 (<[ 0%nat := literal 27 (-1) ]> (Shm.values junk)) (<[ 0%nat := 1111 ]> (Shm.keys junk)).

(** The signal the reader gets and what it then finds. *)
Definition shared_memory_test {O} `{Resources.System O} (junk : Shm.shmstruct) (o : O) : res (option Z * Shm.shmstruct) :=
  let '(read_mem, o) := Resources.Initialize "/shm_test_in" o in
  let '(write_mem, o) := Resources.Initialize "/shm_test_in" o in
  o ← Resources.Write (store_one junk) write_mem o;
  let sig_read := fst <$> Fifo.Wait (Fifo.Signal 1 new_pipe) in
  data ← Resources.Read read_mem o;
  mret (sig_read, data).

Example shared_memory_expectations :
  match shared_memory_test Resources.zero_segment Resources.sim0 with
  | Ok (sig, data) => sig = Some 1 ∧ Shm.size data = 1 ∧ Shm.keys data !! 0%nat = Some 1111 ∧
      Shm.values data !! 0%nat = Some (literal 27 (-1))
  | Fault _ => False
  end.
Proof. by vm_compute. Qed.

(** ** [TEST(ChannelTest, ChannelTestWithPython)], lines 98-129 *)

Definition hundred : Shm.shmstruct :=
  Shm.mk 100 ((λ i, literal (2 * i + 1) (-1)) <$> seqZ 0 100) (seqZ 0 100).

(** The Python process: one is added to every key and value, in the other
    segment; signal 5. *)
Definition python (d : Shm.shmstruct) : Shm.shmstruct :=
  Shm.mk (Shm.size d) ((λ v, fadd v (f_of_int 1)) <$> Shm.values d) ((λ k, k + 1) <$> Shm.keys d).

Definition python_test {O} `{Resources.System O} (o : O) : res (option Z * Shm.shmstruct) :=
  let '(read_mem, o) := Resources.Initialize "/test_sharedMemory2" o in
  let '(write_mem, o) := Resources.Initialize "/test_sharedMemory1" o in
  o ← Resources.Write hundred write_mem o;
  d ← Resources.Read write_mem o;
  o ← Resources.Write (python d) read_mem o;
  let sig := fst <$> Fifo.Wait (Fifo.Signal 5 new_pipe) in
  data_read ← Resources.Read read_mem o;
  mret (sig, data_read).

(** Lines 121-127: [i + 1.5] and [i + 1], for all of the hundred elements. *)
Example python_expectations :
  match python_test Resources.sim0 with
  | Ok (sig, data) => sig = Some 5 ∧ Shm.size data = 100 ∧
      Shm.values data = (λ i, literal (2 * i + 3) (-1)) <$> seqZ 0 100 ∧ Shm.keys data = (λ i, i + 1) <$> seqZ 0 100
  | Fault _ => False
  end.
Proof. by vm_compute. Qed.

(** ** [TEST(ChannelTest, LinearRegressionTest)], lines 132-193 *)

(** [double], and the conversions between it and [float]. *)
Definition round_to (prec emax : Z) (x : spec_float) : spec_float :=
  match x with
  | S754_finite s m e => binary_normalize prec emax (cond_Zopp s (Zpos m)) e s
  | _ => x
  end.
Definition to_double (x : float32) : spec_float := round_to 53 1024 x.
Definition to_float (x : spec_float) : float32 := round_to 24 128 x.

Definition learning_rate : float32 := literal 13743895 (-37).

(** [b - (learning_rate * g)]: the product is a [float], the difference a [double]. *)
Definition descend (b : spec_float) (g : float32) : spec_float :=
  SFsub 53 1024 b (to_double (SFmul 24 128 learning_rate g)).

(** [parameters] written to the segment of the worker: the rest of the arrays
    is what they held before. *)
Definition lr_parameters (v0 v1 : float32) (parameters : Shm.shmstruct) : Shm.shmstruct :=
  Shm.mk 2 (<[ 1%nat := v1 ]> (<[ 0%nat := v0 ]> (Shm.values parameters)))
    (<[ 1%nat := 1 ]> (<[ 0%nat := 0 ]> (Shm.keys parameters))).

Record regression := mkRegression {
  b : spec_float;
  m : spec_float;
  parameters : Shm.shmstruct;
  (** What the worker finds in its segment, and the signals it was sent. *)
  shown : Shm.shmstruct;
  signals : list Z;
}.

(** One turn of the loop (lines 160-189) on a signal, the worker's segment
    holding [grad]; [None] is the [break]. *)
Definition regression_turn (sig : Z) (grad : Shm.shmstruct) (r : regression) : res (option regression) :=
  if sig =? 0 then
    let p := lr_parameters f0 f0 (parameters r) in
    mret (Some (mkRegression (b r) (m r) p (Shm.Write p (shown r)) (signals r ++ [2])))
  else if sig =? 1 then
    g0 ← vec_get (Shm.values grad) 0;
    g1 ← vec_get (Shm.values grad) 1;
    let b' := descend (b r) g0 in
    let m' := descend (m r) g1 in
    let p := lr_parameters (to_float b') (to_float m') (parameters r) in
    mret (Some (mkRegression b' m' p (Shm.Write p (shown r)) (signals r ++ [2])))
  else mret None.

(** The loop over what the worker signals; the boolean is whether it ended. *)
Fixpoint regression_loop (turns : list (Z * Shm.shmstruct)) (r : regression) : res (regression * bool) :=
  match turns with
  | [] => mret (r, false)
  | (sig, grad) :: turns =>
      next ← regression_turn sig grad r;
      match next with Some r => regression_loop turns r | None => mret (r, true) end
  end.

(** The loop answers every request once and ends with the first other signal;
    the weights are the gradient steps from zero, whatever the initial pulls. *)
Definition request (t : Z * Shm.shmstruct) : Prop := t.1 = 0 ∨ t.1 = 1.

Lemma regression_turn_Ok t r :
  request t → Shm.wf t.2 → Shm.wf (parameters r) → Shm.wf (shown r) →
  ∃ r', regression_turn t.1 t.2 r = Ok (Some r') ∧ Shm.wf (parameters r') ∧ shown r' = parameters r' ∧
    signals r' = signals r ++ [2] ∧ Shm.size (shown r') = 2 ∧ Shm.wf (shown r') ∧
    (t.1 = 0 → b r' = b r ∧ m r' = m r) ∧
    (t.1 = 1 → ∃ g0 g1, Shm.values t.2 !! 0%nat = Some g0 ∧ Shm.values t.2 !! 1%nat = Some g1 ∧
       b r' = descend (b r) g0 ∧ m r' = descend (m r) g1 ∧
       Shm.values (shown r') !! 0%nat = Some (to_float (b r')) ∧ Shm.values (shown r') !! 1%nat = Some (to_float (m r'))).
Proof.
  destruct t as [sig grad]. intros Hreq [Hgv Hgk] [Hpv Hpk] [Hsv Hsk]. unfold Shm.capacity in *. cbn [fst snd] in *.
  assert (∀ v0 v1, Shm.wf (lr_parameters v0 v1 (parameters r)) ∧
    Shm.Write (lr_parameters v0 v1 (parameters r)) (shown r) = lr_parameters v0 v1 (parameters r)) as Hw.
  { intros v0 v1. assert (Shm.wf (lr_parameters v0 v1 (parameters r))) as Hwf
      by (constructor; cbn; unfold Shm.capacity; rewrite !length_insert; lia).
    split; [done|]. apply Shm.Write_Read; [done|by constructor]. }
  unfold regression_turn. destruct Hreq as [Hs|Hs]; cbn in Hs; subst sig; cbn [Z.eqb Pos.eqb].
  - destruct (Hw f0 f0) as [Hwf Hwr]. eexists. split; [done|]. cbn -[Shm.Write]. rewrite Hwr.
    split_and!; [done|done|done|done|done|done|done].
  - destruct (vec_get_lt (Shm.values grad) 0) as (g0 & -> & Hg0); [lia|].
    destruct (vec_get_lt (Shm.values grad) 1) as (g1 & -> & Hg1); [lia|]. cbn [mbind res_bind].
    destruct (Hw (to_float (descend (b r) g0)) (to_float (descend (m r) g1))) as [Hwf Hwr].
    eexists. split; [done|]. cbn -[Shm.Write]. rewrite Hwr.
    split_and!; [done|done|done|done|done|done|]. intros _. exists g0, g1.
    split_and!; [done|done|done|done| |]; cbn.
    + rewrite list_lookup_insert_ne by done. apply list_lookup_insert_eq. lia.
    + apply list_lookup_insert_eq. rewrite length_insert. lia.
Qed.

Theorem regression_answers turns last rest r
    (Hturns : Forall (λ t, request t ∧ Shm.wf t.2) turns) (Hlast : ¬ request last)
    (Hp : Shm.wf (parameters r)) (Hs : Shm.wf (shown r)) :
  ∃ r', regression_loop (turns ++ last :: rest) r = Ok (r', true) ∧
    signals r' = signals r ++ replicate (length turns) 2.
Proof.
  revert r Hp Hs. induction Hturns as [|t turns [Hreq Hwf] _ IH]; intros r Hp Hs; cbn [app regression_loop].
  - destruct last as [sig grad]. exists r. split; [|by rewrite app_nil_r]. unfold regression_turn, request in *.
    cbn in Hlast. destruct (Z.eqb_spec sig 0), (Z.eqb_spec sig 1); [tauto..|done].
  - destruct t as [sig grad]. destruct (regression_turn_Ok _ r Hreq Hwf Hp Hs) as (r1 & Hr1 & Hp1 & _ & Hsig & _ & Hs1 & _).
    cbn [fst snd] in Hr1. rewrite Hr1. cbn [mbind res_bind]. destruct (IH r1 Hp1 Hs1) as (r' & Hrun & Hsig').
    exists r'. split; [done|]. rewrite Hsig', Hsig, <- app_assoc. done.
Qed.

(** Two steps with gradients -1 and 2: the weights go up and down. *)
Definition zero_regression : regression :=
  mkRegression (S754_zero false) (S754_zero false) Resources.zero_segment Resources.zero_segment [].
Definition gradient (g0 g1 : Z) : Shm.shmstruct :=
  Shm.mk 2 (f_of_int g0 :: f_of_int g1 :: replicate 98 f0) (0 :: 1 :: replicate 98 0).

Example regression_example :
  match regression_loop [(0, gradient 0 0); (1, gradient (-1) 2); (1, gradient (-1) 2); (7, gradient 0 0)] zero_regression with
  | Ok (r, true) => signals r = [2; 2; 2] ∧ take 2 (Shm.values (shown r)) = [literal 13743895 (-36); SFopp (literal 13743895 (-35))]
  | _ => False
  end.
Proof. by vm_compute. Qed.

End ChannelGtest.
