(* ===== verification/Epochs.v ===== *)
(** * Training runs

    The cluster over many epochs. In an epoch every worker asks its agent for
    the parameters it wants, computes gradients from what it finds in the shared
    memory, and hands them to its agent, which pushes them. What a worker wants
    and computes is a parameter, and so is the order in which everything
    arrives. The result is compared with a sequential program that has all
    parameters in one place and takes one averaged step per epoch. *)

From S2P Require Import Prelude CppStd Partition Float32 Messages Communicator KeyValueList Ssp.
From S2P Require Import Channel Fifo Agent AgentSort Slices AgentPush AgentPull AgentProps AgentConfig AgentWork.
From S2P Require Import Server ServerMerge ServerInv ServerRound ServerPush ServerPull ServerInit ServerTraining.
From S2P Require Import Cluster System Training TrainingPull.
From stdpp Require Import options.

Import Server.
#[local] Existing Instance Agent.Agent_eta.

(** ** Loops that collect results *)

Lemma mapM_Ok {A B} (f : A → res B) l k : Forall2 (λ x y, f x = Ok y) l k → mapM f l = Ok k.
Proof. induction 1 as [|x y l k Hxy _ IH]; [done|]. cbn [mapM]. rewrite Hxy. cbn. by rewrite IH. Qed.

Lemma fmap_concat {A B} (f : A → B) (ls : list (list A)) : f <$> concat ls = concat ((λ l : list A, f <$> l) <$> ls).
Proof. induction ls as [|l ls IH]; [done|]. cbn [concat fmap list_fmap]. by rewrite fmap_app, IH. Qed.

(** ** The sequential program *)

Section reference.
Context (ids : list Z).
Context (wants : Z → list Z) (gradient_of : Z → gmap Z float32 → list (Z * float32)).

(** What the worker [id] finds when the parameters are [θ]. *)
Definition seen (θ : Z → float32) (id : Z) : gmap Z float32 := list_to_map ((λ k, (k, θ k)) <$> wants id).

(** One step: every parameter gets the average of the gradients all workers
    compute from the parameters they see. *)
Definition sequential_step (θ : Z → float32) (k : Z) : float32 :=
  fadd (θ k) (fdiv (fsum f0 (vals k (ids ≫= λ id, gradient_of id (seen θ id)))) (f_of_int (zlen ids))).

Lemma graph_lookup (θ : Z → float32) (ps : list (Z * float32)) k :
  (∀ k v, (k, v) ∈ ps → v = θ k) →
  (list_to_map ps : gmap Z float32) !! k = if decide (k ∈ ps.*1) then Some (θ k) else None.
Proof.
  intros Hps. destruct (list_to_map ps !! k) as [v|] eqn:Hk.
  - apply elem_of_list_to_map_2 in Hk. rewrite decide_True by (by apply list_elem_of_fmap_2' with (k, v)).
    by rewrite (Hps k v Hk).
  - apply not_elem_of_list_to_map_2 in Hk. by rewrite decide_False.
Qed.

(** The order of the pairs does not matter. *)
Lemma graph_perm (θ : Z → float32) (ks : list Z) (ps : list (Z * float32)) :
  ps ≡ₚ (λ k, (k, θ k)) <$> ks → (list_to_map ps : gmap Z float32) = list_to_map ((λ k, (k, θ k)) <$> ks).
Proof.
  intros Hp. apply map_eq. intros k.
  assert (∀ k v, (k, v) ∈ (λ k, (k, θ k)) <$> ks → v = θ k) as Hg.
  { intros k' v' (x & [= -> ->] & _)%list_elem_of_fmap. done. }
  rewrite !(graph_lookup θ) by (intros k' v'; rewrite ?Hp; apply Hg).
  by rewrite (decide_ext _ (k ∈ ((λ k, (k, θ k)) <$> ks).*1)) by (by rewrite Hp).
Qed.

Lemma sequential_step_ext (P : Z → Prop) θ θ' k :
  Forall (λ id, Forall P (wants id)) ids → (∀ k, P k → θ k = θ' k) → P k →
  sequential_step θ k = sequential_step θ' k.
Proof.
  intros Hw Hθ Hk. unfold sequential_step. rewrite Hθ by done. do 3 f_equal.
  assert (∀ l, Forall (λ id, Forall P (wants id)) l →
    (l ≫= λ id, gradient_of id (seen θ id)) = l ≫= λ id, gradient_of id (seen θ' id)) as ->; [|done..].
  induction 1 as [|id l Hid _ IH]; [done|]. cbn. rewrite IH. do 2 f_equal. unfold seen. f_equal.
  apply list_fmap_ext. intros i x Hx. rewrite Forall_lookup in Hid. by rewrite Hθ by (by eapply Hid).
Qed.

Lemma sequential_steps_ext (P : Z → Prop) n θ θ' k :
  Forall (λ id, Forall P (wants id)) ids → (∀ k, P k → θ k = θ' k) → P k →
  Nat.iter n sequential_step θ k = Nat.iter n sequential_step θ' k.
Proof.
  intros Hw Hθ. revert k. induction n as [|n IH]; intros k Hk; [by apply Hθ|]. cbn [Nat.iter nat_rect].
  by apply (sequential_step_ext P).
Qed.
End reference.

(** ** The cluster *)

(** In which order a network delivers what is sent in an epoch. *)
Record schedule := mkSchedule {
  pulls_order : list (Z * Message) → list (Z * Message);
  (** The results of [Receive] of the agent with the given id. *)
  replies_order : Z → list Message → list (option Message);
  pushes_order : list (Z * Message) → list (Z * Message);
}.

(** Nothing is lost, doubled or made up; [Receive] may fail in between. *)
Record reliable (σ : schedule) : Prop := mkreliable {
  re_pulls : ∀ l, pulls_order σ l ≡ₚ l;
  re_replies : ∀ id l, omap (λ x, x) (replies_order σ id l) ≡ₚ l;
  re_pushes : ∀ l, pushes_order σ l ≡ₚ l;
}.

Record cluster (C D : Type) := mkCluster { agents : list (Agent.Agent D); servers : list (Server C) }.
Arguments mkCluster {C D}.
Arguments agents {C D}.
Arguments servers {C D}.

Section cluster.
Context {C D : Type} `{CommunicatorLaws C} `{CommunicatorLaws D}.
Context (ids : list Z).
Context (wants : Z → list Z) (gradient_of : Z → gmap Z float32 → list (Z * float32)).
Implicit Types (a b : Agent.Agent D) (s : Server C).

(** What a worker writes to the shared memory. *)
Definition request_memory (id : Z) : Shm.shmstruct := shm_of (wants id) [].
Definition gradient_memory (ps : list (Z * float32)) : Shm.shmstruct := shm_of ps.*1 ps.*2.

(** What it finds there after a pull. *)
Definition found a : gmap Z float32 :=
  let v := view_of a in list_to_map (zip (v_keys v) (v_values v)).

(** The messages an agent sends between two states. *)
Definition said a b : list (Z * Message) :=
  drop (length (outbox (Agent.sender_ a))) (outbox (Agent.sender_ b)).

(** The agent with its worker's request in place, and the requests it sends. *)
Definition prepared a : Agent.Agent D := a <| Agent.grad_memory_ := request_memory (Agent.local_id_ a) |>.
Definition pulls a : res (list (Z * Message)) :=
  let b := prepared a in
  '(_, b') ← Agent.pull_requests (b <| Agent.parameters_ := Shm.Read (Agent.grad_memory_ b) |>);
  mret (said a b').

(** A turn of the work loop that gets back to the loop head; an agent that waits
    for ever has no result. *)
Definition serve (signal_type : Z) (replies : list (option Message)) a : res (Agent.Agent D) :=
  '(b, status, _) ← Agent.work_step signal_type replies a;
  match status with Agent.Continue => mret b | _ => Fault OutOfFuel end.

Definition serve_pull (σ : schedule) (replies : list (Z * Message)) a : res (Agent.Agent D) :=
  serve 0 (replies_order σ (Agent.local_id_ a) (mail (Agent.local_id_ a) replies)) (prepared a).
Definition serve_push a : res (Agent.Agent D) :=
  serve 1 [] (a <| Agent.grad_memory_ := gradient_memory (gradient_of (Agent.local_id_ a) (found a)) |>).

(** An epoch: the pulls of all agents, then their pushes. *)
Definition epoch (σ : schedule) (cl : cluster C D) : res (cluster C D) :=
  reqs ← mapM pulls (agents cl);
  ss ← foldM (deliver ids) (pulls_order σ (concat reqs)) (servers cl);
  ags ← mapM (serve_pull σ (concat (zip_with handed (servers cl) ss))) (agents cl);
  ags' ← mapM serve_push ags;
  ss' ← foldM (deliver ids) (pushes_order σ (concat (zip_with said ags ags'))) ss;
  mret (mkCluster ags' ss').

Definition train (σs : list schedule) (cl : cluster C D) : res (cluster C D) := foldM epoch σs cl.
End cluster.

(** ** One epoch *)

Section run.
Context (c : ConfigMessage) (Hok : config_ok c) (Hro : routable c).
Context (Hn : 2 ≤ server_num c) (Hs : sorted_lt (partition c)).
Context {C D : Type} `{CommunicatorLaws C} `{CommunicatorLaws D}.
Context (ids : list Z) (Hids : NoDup ids).
Context (wants : Z → list Z) (gradient_of : Z → gmap Z float32 → list (Z * float32)).
Set Default Proof Using "Type*".
Implicit Types (a b : Agent.Agent D) (s : Server C).

(** A key that does not wrap. *)
Definition plain (k : Z) : Prop := point c 0 ≤ k < key_range c.

(** What the workers may want and compute: it fits the shared memory, no key
    wraps, a gradient has each key once and a key for every server. *)
Record worker_ok (id : Z) : Prop := mkworker_ok {
  wo_wants : zlen (wants id) ≤ Shm.capacity ∧ Forall plain (wants id);
  wo_size : ∀ m, zlen (gradient_of id m) ≤ Shm.capacity;
  wo_keys : ∀ m, NoDup (gradient_of id m).*1 ∧ Forall plain (gradient_of id m).*1;
  wo_every : ∀ m i, 0 ≤ i < server_num c → ∃ k, k ∈ (gradient_of id m).*1 ∧
    Partition.GetServerByKey (config_partition c) k = Ok i;
}.
Context (Hworkers : Forall worker_ok ids).

(** An agent between two requests, in the given epoch. *)
Record idle (e : Z) a : Prop := mkidle {
  id_partition : Agent.partition_ a = config_partition c;
  id_servers : Agent.server_ids_ a = server_id c;
  id_config : Agent.reconfig_msg_ a = None;
  id_memory : Shm.wf (Agent.para_memory_ a);
  id_epoch : Agent.epoch_num_ a = e;
}.

(** A cluster between two epochs: [v] rounds were applied, [e] pushes counted. *)
Record between (v e : Z) (cl : cluster C D) : Prop := mkbetween {
  be_ids : Agent.local_id_ <$> agents cl = ids;
  be_agents : Forall (idle e) (agents cl);
  be_count : zlen (servers cl) = server_num c;
  be_servers : ∀ i s, 0 ≤ i → servers cl !! Z.to_nat i = Some s →
    server_ready c (agents cl) i s ∧ bottom_version_ s = v;
}.

Lemma shm_of_wf ks vs : zlen ks ≤ Shm.capacity → zlen vs ≤ Shm.capacity → Shm.wf (shm_of ks vs).
Proof using Type.
  intros Hk Hv. split; cbn; unfold Shm.capacity in *; rewrite length_app, length_replicate; lia.
Qed.

Lemma shm_of_memory a ks vs :
  Agent.partition_ a = config_partition c → zlen ks ≤ Shm.capacity → zlen vs ≤ Shm.capacity → Forall plain ks →
  memory_ok a (shm_of ks vs).
Proof.
  intros Hp Hk Hv Hpl. constructor; [by apply shm_of_wf|cbn; lia|]. cbn. rewrite Nat2Z.id, take_app_length, Hp. cbn.
  eapply Forall_impl; [exact Hpl|]. pose proof (point_range c Hok 0 ltac:(lia)). unfold plain. intros k Hk'. lia.
Qed.

(** The servers know the agents by their ids. *)
Lemma server_ready_ids (as1 as2 : list (Agent.Agent D)) i s :
  Agent.local_id_ <$> as1 = Agent.local_id_ <$> as2 → server_ready c as1 i s → server_ready c as2 i s.
Proof using Type.
  intros Heq [Hinv Hsv Hc Hk Hx Hv Hid].
  assert (length as1 = length as2) as Hl by (apply (f_equal length) in Heq; by rewrite !length_fmap in Heq).
  constructor; [done|done|lia| | |by rewrite <- Hl|done].
  - apply Forall_forall. intros a Ha. rewrite Forall_forall in Hk.
    assert (Agent.local_id_ a ∈ Agent.local_id_ <$> as1) as (a1 & Ha1 & Hin)%list_elem_of_fmap
      by (rewrite Heq; by apply list_elem_of_fmap_2).
    rewrite Ha1. by apply Hk.
  - intros j a Ha. pose proof (f_equal (.!! j) Heq) as Hj. rewrite !list_lookup_fmap, Ha in Hj.
    destruct (as1 !! j) as [a1|] eqn:Ha1; [|done]. injection Hj as <-. by apply Hx.
Qed.

(** *** The pulls *)

Lemma asked_wants id : asked_keys (request_memory wants id) ≡ₚ wants id.
Proof using Type.
  unfold asked_keys, request_memory, shm_of. cbn. by rewrite Nat2Z.id, take_app_length, std_sort_perm.
Qed.

Lemma prepared_ready e ags a :
  a ∈ ags → idle e a → worker_ok (Agent.local_id_ a) →
  pull_ready c ags (prepared wants a) (request_memory wants (Agent.local_id_ a)).
Proof.
  intros Ha [Hp Hsi _ _ _] [[Hsz Hpl] _ _ _]. constructor; [exact (list_elem_of_fmap_2 Agent.local_id_ _ _ Ha)|done|done| |].
  - apply shm_of_memory; [done|done|cbn; unfold Shm.capacity; lia|done].
  - intros k. rewrite asked_wants. rewrite Forall_forall in Hpl. intros Hk. by apply (Hpl k Hk).
Qed.

(** What an agent asks the servers, with the slices of its keys. *)
Record asks_for (ags : list (Agent.Agent D)) (job : Agent.Agent D * list slice) : Prop := mkasks_for {
  af_ready : pull_ready c ags (prepared wants job.1) (request_memory wants (Agent.local_id_ job.1));
  af_slices : pull_slices c ags (prepared wants job.1) (request_memory wants (Agent.local_id_ job.1)) job.2;
  af_requests : ∃ a1, Agent.pull_requests ((prepared wants job.1)
      <| Agent.parameters_ := request_memory wants (Agent.local_id_ job.1) |>) = Ok (list_to_set (dest job.1 <$> job.2), a1);
}.

Definition job_asks (job : Agent.Agent D * list slice) : list ask :=
  mkAsk (prepared wants job.1) (request_memory wants (Agent.local_id_ job.1)) <$> job.2.

Lemma pulls_Ok e ags a :
  a ∈ ags → idle e a → worker_ok (Agent.local_id_ a) →
  ∃ l, asks_for ags (a, l) ∧ pulls wants a = Ok (ask_pull <$> job_asks (a, l)).
Proof.
  intros Ha Hi Hw. pose proof (prepared_ready e ags a Ha Hi Hw) as Hr.
  destruct (pull_cut c Hok Hro Hn Hs ags _ _ Hr) as (l & a1 & Hl & Hreq & Hout).
  exists l. split; [by constructor; [done|done|exists a1]|].
  unfold pulls. cbv zeta. change (Shm.Read _) with (request_memory wants (Agent.local_id_ a)). rewrite Hreq. cbn.
  unfold said. change (Agent.sender_ (prepared wants a)) with (Agent.sender_ a) in Hout. by rewrite Hout, drop_app_length.
Qed.

Lemma jobs_Ok e ags :
  Forall (idle e) ags → Forall (λ a, worker_ok (Agent.local_id_ a)) ags →
  ∃ jobs, jobs.*1 = ags ∧ Forall (asks_for ags) jobs ∧
    mapM (pulls wants) ags = Ok ((λ job, ask_pull <$> job_asks job) <$> jobs).
Proof.
  intros Hi Hw. rewrite Forall_forall in Hi. rewrite Forall_forall in Hw.
  destruct (Forall_choice (λ a l, asks_for ags (a, l) ∧ pulls wants a = Ok (ask_pull <$> job_asks (a, l))) ags) as (ls & Hls).
  { apply Forall_forall. intros a Ha. eapply pulls_Ok; [done|by apply Hi|by apply Hw]. }
  exists (zip ags ls). split_and!.
  - apply fst_zip. by rewrite (Forall2_length _ _ _ Hls).
  - clear -Hls. revert Hls. generalize (asks_for ags). intros P Hls. induction Hls as [|a l as' ls [Hal _] _ IH]; by constructor.
  - apply mapM_Ok. clear Hi Hw. set (P := asks_for ags) in Hls. clearbody P.
    induction Hls as [|a l as' ls [_ Hal] _ IH]; by constructor.
Qed.

(** The mail of an agent is the answers to what it asked. *)
Lemma mail_job (ss : list (Server C)) jobs job :
  NoDup (Agent.local_id_ <$> jobs.*1) → job ∈ jobs →
  mail (Agent.local_id_ job.1) (ask_reply ss <$> concat (job_asks <$> jobs)) =
    slice_answer ss (prepared wants job.1) (request_memory wants (Agent.local_id_ job.1)) <$> job.2.
Proof using Type.
  assert (∀ id j, mail id (ask_reply ss <$> job_asks j) =
    if decide (Agent.local_id_ j.1 = id)
    then slice_answer ss (prepared wants j.1) (request_memory wants (Agent.local_id_ j.1)) <$> j.2 else []) as Hone.
  { intros id j. unfold job_asks. rewrite <- list_fmap_compose. case_decide as Hid.
    - subst id. exact (mail_all (Agent.local_id_ j.1) (slice_answer ss (prepared wants j.1) _) j.2).
    - unfold mail. rewrite filter_none; [done|]. apply Forall_fmap, Forall_forall. intros sl _. exact Hid. }
  assert (∀ id js, id ∉ Agent.local_id_ <$> js.*1 → mail id (ask_reply ss <$> concat (job_asks <$> js)) = []) as Hout.
  { intros id js. induction js as [|j js IH]; intros Hni; [done|].
    rewrite fmap_cons. rewrite fmap_cons, fmap_cons in Hni. cbn [concat]. apply not_elem_of_cons in Hni as [Hne Hni].
    rewrite fmap_app, mail_app, Hone, decide_False by done. by apply IH. }
  induction jobs as [|j jobs IH]; [by intros _ ?%elem_of_nil|]. rewrite !fmap_cons. cbn [concat].
  intros [Hni Hnd]%NoDup_cons Hin. rewrite fmap_app, mail_app, Hone. apply elem_of_cons in Hin as [->|Hin].
  - rewrite decide_True, Hout, app_nil_r by done. done.
  - rewrite decide_False; [by apply IH|]. intros Heq. apply Hni. rewrite Heq.
    by apply (list_elem_of_fmap_2 Agent.local_id_), (list_elem_of_fmap_2 fst).
Qed.

(** An agent whose requests are answered serves its worker, which finds the
    cluster's value of everything it wants. *)
Lemma serve_pull_Ok σ e ags (ss : list (Server C)) replies job :
  reliable σ → zlen ss = server_num c →
  (∀ i s, 0 ≤ i → ss !! Z.to_nat i = Some s → server_ready c ags i s) →
  idle e job.1 → asks_for ags job →
  mail (Agent.local_id_ job.1) replies ≡ₚ
    slice_answer ss (prepared wants job.1) (request_memory wants (Agent.local_id_ job.1)) <$> job.2 →
  ∃ b, serve_pull wants σ replies job.1 = Ok b ∧ idle e b ∧ Agent.local_id_ b = Agent.local_id_ job.1 ∧
    found b = seen wants (cluster_param c ss) (Agent.local_id_ job.1).
Proof.
  destruct job as [a l]. cbn [fst snd]. intros Hσ Hlen Hss [Hp Hsi Hcf Hpm He] [Hr Hl (a1 & Hreq)] Hmail. cbn [fst snd] in *.
  set (mem := request_memory wants (Agent.local_id_ a)) in *. set (a' := prepared wants a) in *.
  set (msgs := replies_order σ (Agent.local_id_ a) (mail (Agent.local_id_ a) replies)).
  assert (omap (λ x, x) msgs ≡ₚ slice_answer ss a' mem <$> l) as Hmsgs by (unfold msgs; by rewrite (re_replies σ Hσ)).
  destruct (pull_answered c Hok Hro Hn Hs ags ss Hlen Hss a' mem l Hr Hl a1 msgs Hreq Hmsgs)
    as (p & ch & rest & Hpull & Hwf & Hpairs).
  exists (a' <| Agent.parameters_ := p |> <| Agent.sender_ := ch |> <| Agent.para_memory_ := Shm.Write p (Agent.para_memory_ a) |>
             <| Agent.para_fifo_ := Agent.para_fifo_ a ++ [2] |>).
  assert (Shm.Write p (Agent.para_memory_ a) = p) as Hw by by apply Shm.Write_Read.
  split_and!; [| |done|].
  - unfold serve_pull, serve. fold a' msgs. unfold Agent.work_step.
    change (Agent.reconfig_msg_ a') with (Agent.reconfig_msg_ a). rewrite Hcf. cbn [mbind res_bind mret res_ret].
    change (0 =? 0) with true. cbv iota zeta. change (Shm.Read (Agent.grad_memory_ a')) with mem. rewrite Hpull. reflexivity.
  - constructor; [done|done|done|cbn; by rewrite Hw|done].
  - unfold found, view_of, seen. cbn -[Shm.Write take]. rewrite Hw. apply graph_perm. rewrite Hpairs. unfold mem. by rewrite asked_wants.
Qed.

(** *** The pushes *)

(** An agent that has taken its worker's gradients. *)
Definition worker_gradient b : list (Z * float32) := gradient_of (Agent.local_id_ b) (found b).
Definition pushing b : Agent.Agent D :=
  (b <| Agent.grad_memory_ := gradient_memory (worker_gradient b) |>)
    <| Agent.gradients_ := gradient_memory (worker_gradient b) |>.

Lemma pushing_gradient b : gradient (pushing b) = worker_gradient b.
Proof using Type.
  unfold gradient, pushing. cbn. generalize (worker_gradient b). intros ps.
  rewrite Nat2Z.id, take_app_length. rewrite take_app_length' by by rewrite !length_fmap. apply zip_fst_snd.
Qed.

Lemma pushing_ready e b : idle e b → worker_ok (Agent.local_id_ b) → agent_ready c (pushing b).
Proof.
  intros [Hp Hsi _ _ _] [_ Hsz Hk Hev]. specialize (Hsz (found b)). destruct (Hk (found b)) as [Hnd Hpl].
  fold (worker_gradient b) in Hsz, Hnd, Hpl.
  assert (memory_ok (pushing b) (gradient_memory (worker_gradient b))) as [Hwf Hcap Hrange].
  { apply shm_of_memory; [done|by rewrite length_fmap..|done]. }
  constructor; rewrite ?pushing_gradient; [done|done|by constructor|done| |apply Hev].
  intros k Hin. rewrite Forall_forall in Hpl. by apply (Hpl k Hin).
Qed.

Lemma serve_push_Ok e b :
  idle e b → worker_ok (Agent.local_id_ b) → kInt32Min ≤ e < kInt32Max →
  ∃ b', serve_push gradient_of b = Ok b' ∧ idle (e + 1) b' ∧ Agent.local_id_ b' = Agent.local_id_ b ∧
    ∀ a' out, Agent.Push (pushing b) = Ok (a', true) →
      outbox (Agent.sender_ a') = outbox (Agent.sender_ b) ++ out → said b b' = out.
Proof.
  intros Hi Hw He. pose proof (pushing_ready e b Hi Hw) as [Hp' Hsi' Hg _ _ _]. destruct Hi as [Hp Hsi Hcf Hpm Hep].
  destruct (Push_array_Ok (pushing b)) as (ks & vs & l & g & ch & Hpush & _); [|done|].
  { split; rewrite Hp'; [by apply config_partition_wf|rewrite Hsi'; apply Hro]. }
  cbv zeta in Hpush.
  exists ((pushing b) <| Agent.gradients_ := g |> <| Agent.sender_ := ch |> <| Agent.epoch_num_ := e + 1 |>).
  split_and!; [|by constructor|done|].
  - unfold serve_push, serve, Agent.work_step. fold (worker_gradient b).
    set (a0 := b <| Agent.grad_memory_ := gradient_memory (worker_gradient b) |>).
    change (Agent.reconfig_msg_ a0) with (Agent.reconfig_msg_ b). rewrite Hcf. cbn [mbind res_bind mret res_ret].
    change (1 =? 0) with false. change (1 =? 1) with true. cbv iota zeta.
    change (a0 <| Agent.gradients_ := Shm.Read (Agent.grad_memory_ a0) |>) with (pushing b). rewrite Hpush.
    cbn [mbind res_bind]. set (a3 := (pushing b) <| Agent.gradients_ := g |> <| Agent.sender_ := ch |>).
    change (Agent.epoch_num_ a3) with (Agent.epoch_num_ b). rewrite Hep. unfold add32. rewrite i32_Ok by lia. reflexivity.
  - intros a' out Hpush' Hout. rewrite Hpush in Hpush'. injection Hpush' as <-. unfold said. cbn in Hout |- *.
    by rewrite Hout, drop_app_length.
Qed.

(** *** The epoch *)

Lemma workers_of v e cl : between v e cl → Forall (λ a, worker_ok (Agent.local_id_ a)) (agents cl).
Proof. intros [Hl _ _ _]. rewrite <- Hl in Hworkers. by rewrite Forall_fmap in Hworkers. Qed.

(** A server with another communicator has the same parameters. *)
Lemma cluster_param_sender (ss ss' : list (Server C)) k :
  length ss' = length ss →
  (∀ j s s', ss !! j = Some s → ss' !! j = Some s' → ∃ ch, s' = s <| sender_ := ch |>) →
  cluster_param c ss' k = cluster_param c ss k.
Proof using Type.
  intros Hl Hsame. unfold cluster_param. destruct (Partition.GetServerByKey _ k) as [i|]; [|done].
  destruct (ss !! Z.to_nat i) as [s|] eqn:Hss.
  - destruct (lookup_lt_is_Some_2 ss' (Z.to_nat i)) as [s' Hss']; [rewrite Hl; by eapply lookup_lt_Some|].
    rewrite Hss'. by destruct (Hsame _ _ _ Hss Hss') as [ch ->].
  - apply lookup_ge_None in Hss. by rewrite lookup_ge_None_2 by lia.
Qed.

Lemma pull_phase σ v e cl :
  reliable σ → between v e cl →
  ∃ reqs ss bs, mapM (pulls wants) (agents cl) = Ok reqs ∧
    foldM (deliver (server_id c)) (pulls_order σ (concat reqs)) (servers cl) = Ok ss ∧
    mapM (serve_pull wants σ (concat (zip_with handed (servers cl) ss))) (agents cl) = Ok bs ∧
    between v e (mkCluster bs ss) ∧
    Forall (λ b, found b = seen wants (cluster_param c (servers cl)) (Agent.local_id_ b)) bs ∧
    ∀ k, cluster_param c ss k = cluster_param c (servers cl) k.
Proof.
  intros Hσ Hbe. pose proof (workers_of v e cl Hbe) as Hw. pose proof Hbe as [Hl Hi Hlen Hss].
  assert (∀ i s, 0 ≤ i → servers cl !! Z.to_nat i = Some s → server_ready c (agents cl) i s) as Hrdy
    by (intros i s Hi0 Hs0; by apply (Hss i s)).
  destruct (jobs_Ok e (agents cl) Hi Hw) as (jobs & Hjobs & Haf & Hreqs). set (qs := concat (job_asks <$> jobs)).
  assert (Forall (ask_ok c (agents cl)) qs) as Hqs.
  { apply Forall_concat, Forall_fmap. eapply Forall_impl; [exact Haf|]. intros job [_ Hsl _]. apply (ps_ok _ _ _ _ _ Hsl). }
  destruct (pulls_delivered c Hok Hro Hn Hs (agents cl) (servers cl) Hlen Hrdy qs
    (pulls_order σ (concat ((λ job, ask_pull <$> job_asks job) <$> jobs))) Hqs) as (ss & Hrun & Hls & Hhand).
  { rewrite (re_pulls σ Hσ). unfold qs. by rewrite fmap_concat, <- list_fmap_compose. }
  pose proof (answers_collected c Hok Hro Hn Hs (agents cl) (servers cl) Hlen Hrdy qs ss Hls Hqs
    (λ j s s' Hj Hj', proj2 (Hhand j s s' Hj Hj'))) as Hall.
  assert (Forall (λ job, ∃ b, serve_pull wants σ (concat (zip_with handed (servers cl) ss)) job.1 = Ok b ∧
    idle e b ∧ Agent.local_id_ b = Agent.local_id_ job.1 ∧
    found b = seen wants (cluster_param c (servers cl)) (Agent.local_id_ b)) jobs) as (bs & Hbs)%Forall_choice.
  { apply Forall_forall. intros job Hin. rewrite Forall_forall in Haf. rewrite Forall_forall in Hi.
    destruct (serve_pull_Ok σ e (agents cl) (servers cl) (concat (zip_with handed (servers cl) ss)) job Hσ Hlen Hrdy)
      as (b & Hb & Hib & Hlb & Hfb).
    - apply Hi. rewrite <- Hjobs. by apply list_elem_of_fmap_2.
    - by apply Haf.
    - rewrite Hall. unfold qs. rewrite mail_job; [done| |done]. by rewrite Hjobs, Hl.
    - exists b. rewrite Hlb. done. }
  eexists _, ss, bs. split_and!; [exact Hreqs|exact Hrun| | | |].
  - apply mapM_Ok. rewrite <- Hjobs. apply Forall2_fmap_l. eapply Forall2_impl; [exact Hbs|]. by intros job b (? & _).
  - assert (Agent.local_id_ <$> bs = ids) as Hlb.
    { rewrite <- Hl, <- Hjobs. clear -Hbs. induction Hbs as [|job b js bs (_ & _ & Hb & _) _ IH]; [done|].
      cbn. by rewrite Hb, IH. }
    constructor; cbn; [done| |lia|].
    + eapply Forall2_Forall_r; [exact Hbs|]. apply Forall_forall. by intros job _ b (_ & ? & _).
    + intros i s' Hi' Hs'. destruct (lookup_lt_is_Some_2 (servers cl) (Z.to_nat i)) as [s Hs0];
        [rewrite <- Hls; by eapply lookup_lt_Some|].
      destruct (Hhand _ _ _ Hs0 Hs') as [[ch ->] _]. destruct (Hss i s Hi' Hs0) as [Hr Hv]. split; [|done].
      apply ready_sender. eapply server_ready_ids; [|exact Hr]. by rewrite Hl, Hlb.
  - eapply Forall2_Forall_r; [exact Hbs|]. apply Forall_forall. by intros job _ b (_ & _ & _ & ?).
  - intros k. apply cluster_param_sender; [done|]. intros j s s' Hj Hj'. by apply (Hhand j s s').
Qed.

(** The pushes of all agents, as [serve_push] sends them. *)
Lemma pushes_said ags bs outs :
  Forall2 (λ a b, ∀ a' out, Agent.Push (pushing a) = Ok (a', true) →
    outbox (Agent.sender_ a') = outbox (Agent.sender_ a) ++ out → said a b = out) ags bs →
  Forall2 (λ a out, ∃ a', Agent.Push a = Ok (a', true) ∧
    outbox (Agent.sender_ a') = outbox (Agent.sender_ a) ++ out) (pushing <$> ags) outs →
  zip_with said ags bs = outs.
Proof using Type.
  intros Hsaid. revert outs. induction Hsaid as [|a b ags bs Hab _ IH]; intros outs Houts.
  - by inversion Houts.
  - rewrite fmap_cons in Houts. inversion Houts as [|? out ? outs' (a' & Hpush & Hout) Hrest]; subst.
    cbn. by rewrite (Hab a' out Hpush Hout), (IH outs' Hrest).
Qed.

Lemma pushes_Ok v e cl :
  between v e cl → kInt32Min ≤ e < kInt32Max →
  ∃ bs, mapM (serve_push gradient_of) (agents cl) = Ok bs ∧ Agent.local_id_ <$> bs = ids ∧ Forall (idle (e + 1)) bs ∧
    ∀ outs, Forall2 (λ a out, ∃ a', Agent.Push a = Ok (a', true) ∧
      outbox (Agent.sender_ a') = outbox (Agent.sender_ a) ++ out) (pushing <$> agents cl) outs →
      zip_with said (agents cl) bs = outs.
Proof.
  intros Hbe He. pose proof (workers_of v e cl Hbe) as Hw. pose proof Hbe as [Hl Hi _ _].
  destruct (Forall_choice (λ a b, serve_push gradient_of a = Ok b ∧ idle (e + 1) b ∧ Agent.local_id_ b = Agent.local_id_ a ∧
    ∀ a' out, Agent.Push (pushing a) = Ok (a', true) →
      outbox (Agent.sender_ a') = outbox (Agent.sender_ a) ++ out → said a b = out) (agents cl)) as (bs & Hbs).
  { apply Forall_forall. intros a Ha. rewrite Forall_forall in Hi. rewrite Forall_forall in Hw.
    by apply serve_push_Ok; [apply Hi|apply Hw|]. }
  exists bs. split_and!.
  - apply mapM_Ok. eapply Forall2_impl; [exact Hbs|]. by intros a b (? & _).
  - rewrite <- Hl. clear -Hbs. induction Hbs as [|a b ags bs (_ & _ & Hb & _) _ IH]; [done|]. cbn. by rewrite Hb, IH.
  - eapply Forall2_Forall_r; [exact Hbs|]. apply Forall_forall. by intros a _ b (_ & ? & _).
  - intros outs. apply pushes_said. eapply Forall2_impl; [exact Hbs|]. by intros a b (_ & _ & _ & ?).
Qed.

Lemma push_phase σ v e cl :
  reliable σ → between v e cl → v < kInt32Max → kInt32Min ≤ e < kInt32Max →
  ∃ bs ss, mapM (serve_push gradient_of) (agents cl) = Ok bs ∧
    foldM (deliver (server_id c)) (pushes_order σ (concat (zip_with said (agents cl) bs))) (servers cl) = Ok ss ∧
    between (v + 1) (e + 1) (mkCluster bs ss) ∧
    ∀ k, plain k → cluster_param c ss k = fadd (cluster_param c (servers cl) k)
      (fdiv (fsum f0 (vals k (agents cl ≫= worker_gradient))) (f_of_int (zlen ids))).
Proof.
  intros Hσ Hbe Hv He. pose proof (workers_of v e cl Hbe) as Hw. pose proof Hbe as [Hl Hi Hlen Hss].
  assert (Agent.local_id_ <$> (pushing <$> agents cl) = Agent.local_id_ <$> agents cl) as Hpid
    by by rewrite <- list_fmap_compose.
  destruct (pushes_Ok v e cl Hbe He) as (bs & Hbs & Hids' & Hidle & Hsaid).
  destruct (training_round c Hok Hro Hn Hs (pushing <$> agents cl) (servers cl)) as (outs & Houts & Hround); [|done| |].
  { intros a' (a & -> & Ha)%list_elem_of_fmap. rewrite Forall_forall in Hi. rewrite Forall_forall in Hw.
    by apply (pushing_ready e); [apply Hi|apply Hw]. }
  { intros i s Hsi Hi0. destruct (Hss i s Hi0 Hsi) as [Hr ->]. split; [|done].
    eapply server_ready_ids; [|exact Hr]. done. }
  destruct (Hround (pushes_order σ (concat (zip_with said (agents cl) bs)))) as (ss & Hrun & Hls & Hdone).
  { by rewrite (re_pushes σ Hσ), (Hsaid outs Houts). }
  exists bs, ss. split_and!; [done|done| |].
  - constructor; cbn; [done|done|lia|]. intros i s' Hi0 Hs'.
    destruct (lookup_lt_is_Some_2 (servers cl) (Z.to_nat i)) as [s Hs0]; [rewrite <- Hls; by eapply lookup_lt_Some|].
    destruct (Hdone i s s' Hi0 Hs0 Hs') as [Hr Hver _]. destruct (Hss i s Hi0 Hs0) as [_ Hv0]. split; [|by rewrite Hver, Hv0].
    eapply server_ready_ids; [|exact Hr]. by rewrite Hpid, Hl.
  - intros k Hk. rewrite (round_param c Hok Hro Hn Hs (pushing <$> agents cl) (servers cl) ss k) by done.
    unfold trained_param. rewrite <- Hl, length_fmap, length_fmap. do 4 f_equal.
    clear. induction (agents cl) as [|a ags IH]; [done|]. rewrite fmap_cons. cbn [mbind list_bind].
    by rewrite pushing_gradient, IH.
Qed.

Lemma epoch_Ok σ v e cl :
  reliable σ → between v e cl → v < kInt32Max → kInt32Min ≤ e < kInt32Max →
  ∃ cl', epoch (server_id c) wants gradient_of σ cl = Ok cl' ∧ between (v + 1) (e + 1) cl' ∧
    ∀ k, plain k → cluster_param c (servers cl') k =
      sequential_step ids wants gradient_of (cluster_param c (servers cl)) k.
Proof.
  intros Hσ Hbe Hv He.
  destruct (pull_phase σ v e cl Hσ Hbe) as (reqs & ss & bs & Hreqs & Hss & Hbs & Hbe1 & Hfound & Hsame).
  destruct (push_phase σ v e (mkCluster bs ss) Hσ Hbe1 Hv He) as (bs' & ss' & Hbs' & Hss' & Hbe2 & Hparam).
  cbn [agents servers] in *. exists (mkCluster bs' ss'). split_and!; [|done|].
  - unfold epoch. rewrite Hreqs. cbn [mbind res_bind]. rewrite Hss. cbn [mbind res_bind]. rewrite Hbs. cbn [mbind res_bind].
    rewrite Hbs'. cbn [mbind res_bind]. by rewrite Hss'.
  - intros k Hk. cbn [servers]. rewrite Hparam, Hsame by done. unfold sequential_step. do 4 f_equal.
    pose proof (be_ids _ _ _ Hbe1) as Hl. cbn in Hl. rewrite <- Hl. clear -Hfound.
    induction Hfound as [|b bs Hb _ IH]; [done|]. rewrite fmap_cons. cbn [mbind list_bind]. unfold worker_gradient at 1.
    by rewrite Hb, IH.
Qed.

Lemma train_Ok σs v e cl :
  Forall reliable σs → between v e cl →
  v + zlen σs ≤ kInt32Max → kInt32Min ≤ e ∧ e + zlen σs ≤ kInt32Max →
  ∃ cl', train (server_id c) wants gradient_of σs cl = Ok cl' ∧ between (v + zlen σs) (e + zlen σs) cl' ∧
    ∀ k, plain k → cluster_param c (servers cl') k =
      Nat.iter (length σs) (sequential_step ids wants gradient_of) (cluster_param c (servers cl)) k.
Proof.
  intros Hσs. revert v e cl. induction Hσs as [|σ σs Hσ _ IH]; intros v e cl Hcl Hv He.
  { exists cl. cbn. by rewrite !Z.add_0_r. }
  assert (zlen (σ :: σs) = 1 + zlen σs ∧ 0 ≤ zlen σs) as [Hcons Hpos] by (cbn [length]; lia).
  rewrite Hcons in *.
  destruct (epoch_Ok σ v e cl Hσ Hcl) as (cl1 & Hrun1 & Hcl1 & Hp1); [lia..|].
  destruct (IH (v + 1) (e + 1) cl1 Hcl1) as (cl2 & Hrun2 & Hcl2 & Hp2); [lia..|].
  exists cl2. split_and!.
  - unfold train. cbn [foldM]. rewrite Hrun1. exact Hrun2.
  - by replace (v + (1 + zlen σs)) with (v + 1 + zlen σs) by lia; replace (e + (1 + zlen σs)) with (e + 1 + zlen σs) by lia.
  - intros k Hk. rewrite Hp2 by done. cbn [length]. rewrite Nat.iter_succ_r.
    apply (sequential_steps_ext ids wants gradient_of plain); [|done|done].
    eapply Forall_impl; [exact Hworkers|]. by intros id [[_ ?] _ _ _].
Qed.

(** C1: training is the sequential program. In an epoch every worker pulls what
    it wants, computes gradients from what it finds, and pushes them. Take a
    cluster between two epochs, workers whose keys do not wrap and fit the
    shared memory and whose gradients have distinct keys, one for every server,
    and for each epoch any order of arrival of pulls, replies and pushes, with
    failures of [Receive] in between. Then all epochs run: no server faults, no
    agent waits for ever, and every parameter ends up with the value a
    sequential program computes that has all parameters in one place and adds
    the average of all workers' gradients once per epoch. The order of arrival
    does not show in the result. *)
Theorem train_is_sequential σs v e cl
    (Hσs : Forall reliable σs) (Hcl : between v e cl)
    (Hv : v + zlen σs ≤ kInt32Max) (He : kInt32Min ≤ e ∧ e + zlen σs ≤ kInt32Max) :
  ∃ cl', train (server_id c) wants gradient_of σs cl = Ok cl' ∧ between (v + zlen σs) (e + zlen σs) cl' ∧
    ∀ k, plain k → cluster_param c (servers cl') k =
      Nat.iter (length σs) (sequential_step ids wants gradient_of) (cluster_param c (servers cl)) k.
Proof.
  by apply train_Ok.
Qed.
End run.

(** ** Witness

    The test cluster over three epochs. Worker 3 wants keys 8 and 3, worker 4
    wants 9, 3 and 8; both want every parameter to get nearer to their id. *)

(** Gradients towards the worker's id, for the keys it wants. *)
Definition towards (wants : Z → list Z) (id : Z) (m : gmap Z float32) : list (Z * float32) :=
  (λ k, (k, fadd (f_of_int id) (fdiv (default f0 (m !! k)) (f_of_int (-2))))) <$> wants id.

Lemma towards_keys wants id m : (towards wants id m).*1 = wants id.
Proof. unfold towards. rewrite <- list_fmap_compose. apply list_fmap_id. Qed.

Lemma towards_ok c wants id :
  zlen (wants id) ≤ Shm.capacity → Forall (plain c) (wants id) → NoDup (wants id) →
  (∀ i, 0 ≤ i < server_num c → ∃ k, k ∈ wants id ∧ Partition.GetServerByKey (config_partition c) k = Ok i) →
  worker_ok c wants (towards wants) id.
Proof.
  intros Hsz Hpl Hnd Hev. constructor; [done| |intros m; by rewrite towards_keys|intros m; by rewrite towards_keys].
  intros m. unfold towards. by rewrite length_fmap.
Qed.

Definition test_wants (id : Z) : list Z := if id =? 3 then [8; 3] else [9; 3; 8].
Definition test_gradient : Z → gmap Z float32 → list (Z * float32) := towards test_wants.

Definition straight : schedule := mkSchedule (λ l, l) (λ _ l, Some <$> l) (λ l, l).
Definition flipped : schedule := mkSchedule reverse (λ _ l, None :: (Some <$> reverse l)) reverse.

Lemma omap_Some {A} (l : list A) : omap (λ x, x) (Some <$> l) = l.
Proof. induction l as [|x l IH]; [done|]. cbn. by rewrite IH. Qed.

Lemma straight_reliable : reliable straight.
Proof. constructor; intros; cbn; by rewrite ?omap_Some. Qed.

Lemma flipped_reliable : reliable flipped.
Proof.
  constructor; [apply reverse_Permutation| |apply reverse_Permutation]. intros i l.
  change (omap (λ x, x) (Some <$> reverse l) ≡ₚ l). by rewrite omap_Some, reverse_Permutation.
Qed.

Lemma test_workers_ok : Forall (worker_ok test_config test_wants test_gradient) [3; 4].
Proof.
  assert (∀ id, id = 3 ∨ id = 4 → worker_ok test_config test_wants test_gradient id) as Hall.
  { intros id Hid. apply towards_ok; [| | |intros i Hi; cbn in Hi; assert (i = 0 ∨ i = 1) as [->| ->] by lia; [exists 3|exists 8]].
    all: destruct Hid as [->| ->]; try split; first [by vm_compute|repeat constructor; by vm_compute
      |apply (bool_decide_unpack _); by vm_compute]. }
  apply Forall_cons; split; [|apply Forall_singleton]; apply Hall; auto.
Qed.

Definition test_cluster : cluster Trace Trace := mkCluster trainers [s1; s2].

Lemma test_cluster_between : between test_config [3; 4] 0 0 test_cluster.
Proof.
  constructor; [by vm_compute| |done|].
  - repeat constructor; by vm_compute.
  - intros i s Hi Hs. split; [by apply boot_ready|]. change (servers test_cluster) with [s1; s2] in Hs.
    destruct (Z.to_nat i) as [|[|]]; [apply (inj Some) in Hs as <-..|done]; by vm_compute.
Qed.

Example train_is_sequential_witness :
  ∃ cl', train [1; 2] test_wants test_gradient [flipped; straight; flipped] test_cluster = Ok cl' ∧
    between test_config [3; 4] 3 3 cl' ∧
    ∀ k, 2 ≤ k < 10 → cluster_param test_config (servers cl') k =
      Nat.iter 3 (sequential_step [3; 4] test_wants test_gradient) (cluster_param test_config [s1; s2]) k.
Proof.
  apply (train_is_sequential test_config test_config_ok test_config_routable ltac:(done) test_config_increasing
    [3; 4] ltac:(by repeat constructor; set_solver) test_wants test_gradient test_workers_ok
    [flipped; straight; flipped] 0 0 test_cluster).
  - repeat constructor; first [apply flipped_reliable|apply straight_reliable].
  - apply test_cluster_between.
  - by vm_compute.
  - by vm_compute.
Defined.

(** What three epochs make of keys 3, 8 and 9, computed. *)
Example trained_test_cluster :
  match train [1; 2] test_wants test_gradient [flipped; straight; flipped] test_cluster with
  | Ok cl => cluster_param test_config (servers cl) <$> [3; 8; 9; 2]
  | Fault _ => []
  end = (λ k, literal k (-4)) <$> [98; 98; 74; 0].
Proof. vm_compute. reflexivity. Qed.
