(* ===== verification/ClusterTraining.v ===== *)
(** * From the last registration to the trained parameters

    The configuration the master sends to the nodes of a complete cluster
    (Formation.v) starts a training run (Epochs.v): every parameter is zero at
    first, and after any number of epochs it is what the sequential program makes
    of zero. *)

From S2P Require Import Prelude CppStd Partition Float32 Messages Communicator Channel KeyValueList Ssp.
From S2P Require Import Agent AgentSort Slices AgentPush AgentProps AgentConfig AgentWork.
From S2P Require Import Server ServerMerge ServerInv ServerRound ServerInit.
From S2P Require Import TaskConfig TaskConfigProps Master MasterConfig MasterProps MasterLoop.
From S2P Require Import System Training TrainingPull Formation Epochs.
From stdpp Require Import options.

#[local] Existing Instances Server.Server_eta Agent.Agent_eta Master.Master_eta.

Section nodes.
Context {C D E : Type} `{CommunicatorLaws C} `{CommunicatorLaws D} `{CommunicatorLaws E}.
Context (c : ConfigMessage) (Hok : config_ok c) (Hro : routable c).
Implicit Types (s : Server.Server C) (a : Agent.Agent D).
Set Default Proof Using "Type*".

(** A configured agent is between two requests. *)
Lemma configure_idle m a a' :
  config_msg m = c → Shm.wf (Agent.para_memory_ a) → Agent.configure m a = Ok a' → idle c 0 a'.
Proof.
  intros Hc Hwf Ha. pose proof (configure_state c m a Hc Hro) as Hall.
  apply returns_elim in Hall as (a2 & Ha2 & ch & _ & _ & ->). rewrite Ha in Ha2. injection Ha2 as ->. by constructor.
Qed.

Lemma configure_all_idle ids ags ags' :
  Forall (λ a, Shm.wf (Agent.para_memory_ a)) ags →
  Forall3 (λ id a a', Agent.configure (Master.config_message id c) a = Ok a') ids ags ags' → Forall (idle c 0) ags'.
Proof.
  intros Hwf Hall. induction Hall as [|id a a' ids ags ags' Ha _ IH]; [constructor|].
  apply Forall_cons in Hwf as [Hwf Hrest]. constructor; [by apply (configure_idle (Master.config_message id c) a)|by apply IH].
Qed.

(** The parameters of configured servers are zero. *)
Lemma configured_params (ss : list (Server.Server C)) k :
  (∀ i s, 0 ≤ i → ss !! Z.to_nat i = Some s → configured c i s) → cluster_param c ss k = f0.
Proof.
  intros Hss. unfold cluster_param. destruct (Partition.GetServerByKey _ k) as [i|] eqn:Hi; [|done].
  destruct (ss !! Z.to_nat i) as [s|] eqn:Hs; [|done]. rewrite <- (Nat2Z.id (Z.to_nat i)) in Hs.
  pose proof (cd_params c _ s (Hss (Z.of_nat (Z.to_nat i)) s (Nat2Z.is_nonneg _) Hs)) as Hp. unfold param_of. rewrite Hp.
  destruct (replicate _ _ !! _) as [x|] eqn:Hx; [|done]. by apply lookup_replicate in Hx as [-> _].
Qed.

(** A cluster in which every node has read its message is between two epochs. *)
Lemma configured_between (ags : list (Agent.Agent D)) (ss : list (Server.Server C)) :
  NoDup (worker_id c) → (∀ x, x ∈ worker_id c → x ∉ server_id c) →
  Agent.local_id_ <$> ags = worker_id c → Forall (idle c 0) ags → length ss = length (server_id c) →
  (∀ i s, 0 ≤ i → ss !! Z.to_nat i = Some s → configured c i s ∧ inv s) →
  between c (worker_id c) 0 0 (mkCluster ags ss).
Proof.
  intros Hnd Hdisj Hids Hidle Hlen Hss. constructor; cbn; [done|done| |].
  - rewrite Hlen. apply (cf_server_ids c Hok).
  - intros i s Hi Hs. destruct (Hss i s Hi Hs) as [Hcf Hinv]. split; [by apply configured_ready|apply (cd_version c i s Hcf)].
Qed.
End nodes.

Section run.
Context {C D E : Type} `{CommunicatorLaws C} `{CommunicatorLaws D} `{CommunicatorLaws E}.
Context (FLAGS_max_cluster_node : Z) (Hmax : 0 < FLAGS_max_cluster_node ≤ 2 ^ 30).
Context (draw : Z * Z → nat → Z) (Hdraw : ∀ lo hi n, lo ≤ hi → lo ≤ draw (lo, hi) n ≤ hi).

(** C2: from the last registration to the trained parameters. A registration
    completes a cluster of at least two servers, and the starting points drawn
    for it are distinct. The master sends every node one configuration, every
    agent and every server reads it, and then the workers train for any number of
    epochs, with pulls, replies and pushes arriving in any order. No node faults
    or waits for ever, and every parameter that does not wrap ends up with what
    the sequential program makes of parameters that are all zero. *)
Theorem registered_cluster_trains (m m1 : Master.Master E) cur_time msg cfg c
    (Htype : message_type msg = mt_register) (Hreg : Master.ProcessRegisterMsg msg m = Ok m1)
    (Hm1 : complete FLAGS_max_cluster_node m1)
    (Hthreads : Master.heartbeat_ m1 = false ∧ Master.detect_dead_node_ m1 = false)
    (Hgen : TaskConfig.GeneratePartition draw (Master.config_ m1) = Ok cfg) (Hto : TaskConfig.ToMessage cfg = Ok c)
    (Hservers : 2 ≤ server_num c) (Hdistinct : sorted_lt (partition c))
    (ags : list (Agent.Agent D)) (chs : list (C * string))
    (Hags : length ags = length (worker_id c)) (Hchs : length chs = length (server_id c))
    (Hnew : Forall (λ a, (∀ x, x ∈ server_id c → book (Agent.sender_ a) !! x = None) ∧ Shm.wf (Agent.para_memory_ a)) ags)
    wants gradient_of (Hworkers : Forall (worker_ok c wants gradient_of) (worker_id c))
    σs (Hσs : Forall reliable σs) (Hlen : zlen σs ≤ kInt32Max) :
  ∃ m' ags' ss cl', Master.MainLoop_step draw FLAGS_max_cluster_node cur_time msg m = Ok (m', false) ∧
    outbox (Master.sender_ m') = outbox (Master.sender_ m1) ++ deliveries c (TaskConfig.node_id_ (Master.config_ m1)) ∧
    Forall3 (λ id a a', Agent.configure (Master.config_message id c) a = Ok a') (worker_id c) ags ags' ∧
    Forall3 (λ id ch s, Server.configure (Master.config_message id c)
      ((Server.new_server ch.1) <| Server.local_address_ := ch.2 |>) = Ok (s, true)) (server_id c) chs ss ∧
    train (server_id c) wants gradient_of σs (mkCluster ags' ss) = Ok cl' ∧
    ∀ k, plain c k → cluster_param c (servers cl') k =
      Nat.iter (length σs) (sequential_step (worker_id c) wants gradient_of) (λ _, f0) k.
Proof.
  destruct (completes_Ok FLAGS_max_cluster_node Hmax draw Hdraw m m1 cur_time msg Htype Hreg Hm1 Hthreads)
    as (m' & cfg' & c' & Hstep & Hgen' & _ & Hto' & Hok & Hro & _ & Hout & _).
  rewrite Hgen in Hgen'. injection Hgen' as <-. rewrite Hto in Hto'. injection Hto' as <-.
  destruct (message_nodes FLAGS_max_cluster_node Hmax draw Hdraw m1 cfg c Hm1 Hgen Hto) as (_ & _ & Hnd & Hdisj).
  apply Forall_and in Hnew as [Hnew Hwf].
  destruct (configure_agents c (worker_id c) ags Hro) as (ags' & Hcfa & Hags'); [done|done|].
  destruct (configure_servers c chs (server_id c) Hok) as (ss & Hcfs & Hss'); [done| |].
  { intros j id Hj. exists (Z.of_nat j). split; [lia|by rewrite Nat2Z.id]. }
  assert (∀ i s, 0 ≤ i → ss !! Z.to_nat i = Some s → configured c i s ∧ inv s) as Hss.
  { intros i s Hi Hs. destruct (Forall2_lookup_r _ _ _ _ _ Hss' Hs) as (id & Hid & Hcf). by apply Hcf. }
  assert (between c (worker_id c) 0 0 (mkCluster ags' ss)) as Hbe.
  { apply (configured_between c Hok Hro); [done|done| |by apply (configure_all_idle c Hok Hro (worker_id c) ags)| |done].
    - clear -Hags'. induction Hags' as [|id a ids ags' (_ & Hid & _) _ IH]; [done|]. cbn. by rewrite Hid, IH.
    - symmetry. by eapply Forall2_length. }
  destruct (train_Ok c Hok Hro Hservers Hdistinct (worker_id c) Hnd wants gradient_of Hworkers σs 0 0 (mkCluster ags' ss))
    as (cl' & Hrun & _ & Hparam); [done|done|lia|unfold kInt32Min; lia|].
  exists m', ags', ss, cl'. split_and!; [done..|]. intros k Hk. rewrite Hparam by done.
  apply (sequential_steps_ext _ wants gradient_of (plain c)); [| |done]; last first.
  { intros k' _. apply (configured_params c Hok Hro). intros i s Hi Hs. apply (Hss i s Hi Hs). }
  eapply Forall_impl; [exact Hworkers|]. by intros id [[_ ?] _ _ _].
Qed.
End run.

(** ** Witness

    The cluster of MasterProps.v: servers 1 and 3, agents 2 and 4; the points
    drawn are 1 and 2. Worker 2 wants keys 1 and 5, worker 4 wants 7 and 1. *)

Definition counted : TaskConfig.TaskConfig :=
  match TaskConfig.GeneratePartition count_draw (Master.config_ master_complete) with Ok g => g | Fault _ => drawn end.
Definition counted_config : ConfigMessage :=
  match TaskConfig.ToMessage counted with Ok c => c | Fault _ => agent_config end.

Lemma counted_Ok : TaskConfig.GeneratePartition count_draw (Master.config_ master_complete) = Ok counted.
Proof.
  unfold counted. destruct (TaskConfig.GeneratePartition _ _) eqn:E; [done|]. exfalso.
  assert (TaskConfig.GeneratePartition count_draw (Master.config_ master_complete) ⇓ λ _, True) as Hok by by vm_compute.
  by rewrite E in Hok.
Qed.

Lemma counted_config_Ok :
  TaskConfig.ToMessage counted = Ok counted_config ∧
  counted_config = mkConfig 2 2 10 ["127.0.0.1:16666"; "10.0.0.1:5000"; "10.0.0.2:5555"; "10.0.0.3:5000"; "10.0.0.4:5555"]
    [1; 2] 1 [1; 3] [2; 4] [0] 1.
Proof. split; by vm_compute. Qed.

Definition counted_wants (id : Z) : list Z := if id =? 2 then [1; 5] else [7; 1].

Lemma counted_worker_ok id k :
  counted_wants id ≡ₚ [1; k] → 2 ≤ k < 10 → worker_ok counted_config counted_wants (towards counted_wants) id.
Proof.
  intros Hp Hk. rewrite (proj2 counted_config_Ok). apply towards_ok; [rewrite Hp..|].
  - cbn. unfold Shm.capacity. lia.
  - change (Forall (λ k, 1 ≤ k < 10) [1; k]). repeat constructor; lia.
  - constructor; [intros Heq%list_elem_of_singleton; lia|apply NoDup_singleton].
  - intros i Hi. cbn in Hi. assert (i = 0 ∨ i = 1) as [->| ->] by lia.
    + exists 1. split; [rewrite Hp; by left|by vm_compute].
    + exists k. split; [rewrite Hp; right; by left|].
      assert (k ∈ seqZ 2 8) as Hin by (apply elem_of_seqZ; lia). revert k Hp Hk Hin. clear.
      intros k _ _. revert k. apply Forall_forall. change (seqZ 2 8) with [2; 3; 4; 5; 6; 7; 8; 9]. repeat constructor.
Qed.

Example registered_cluster_trains_witness :
  ∃ (m' : Master.Master Trace) (ags' : list (Agent.Agent Trace)) (ss : list (Server.Server Trace)) cl',
    Master.MainLoop_step count_draw 10000 77 last_registration master_before = Ok (m', false) ∧
    outbox (Master.sender_ m') = outbox (Master.sender_ master_complete) ++
      deliveries counted_config (TaskConfig.node_id_ (Master.config_ master_complete)) ∧
    Forall3 (λ id a a', Agent.configure (Master.config_message id counted_config) a = Ok a') [2; 4]
      [blank_agent; blank_agent] ags' ∧
    Forall3 (λ id ch s, Server.configure (Master.config_message id counted_config)
      ((Server.new_server ch.1) <| Server.local_address_ := ch.2 |>) = Ok (s, true)) [1; 3]
      [(new_trace, EmptyString); (new_trace, EmptyString)] ss ∧
    train [1; 3] counted_wants (towards counted_wants) [flipped; straight; flipped; flipped] (mkCluster ags' ss) = Ok cl' ∧
    ∀ k, plain counted_config k → cluster_param counted_config (servers cl') k =
      Nat.iter 4 (sequential_step [2; 4] counted_wants (towards counted_wants)) (λ _, f0) k.
Proof.
  apply (registered_cluster_trains 10000 Hmax_test count_draw count_draw_ok master_before master_complete 77
    last_registration counted counted_config eq_refl last_registration_Ok master_complete_ok threads_test counted_Ok
    (proj1 counted_config_Ok)).
  - by rewrite (proj2 counted_config_Ok).
  - rewrite (proj2 counted_config_Ok). repeat constructor; lia.
  - by rewrite (proj2 counted_config_Ok).
  - by rewrite (proj2 counted_config_Ok).
  - repeat constructor; intros; by vm_compute.
  - rewrite (proj2 counted_config_Ok) at 2. cbn [worker_id].
    apply Forall_cons; split; [|apply Forall_singleton].
    + by apply (counted_worker_ok 2 5).
    + apply (counted_worker_ok 4 7); [|done]. apply Permutation_swap.
  - repeat constructor; first [apply flipped_reliable|apply straight_reliable].
  - by vm_compute.
Defined.
